(* ===== verification/_CoqProject ===== *)
-Q . S2P
Prelude.v
Crc32.v
Ctype.v
Vsprintf.v
EnvFormat.v
EnvOps.v
NvEdit.v
EnvFlash.v
WmtEnv.v
SfEnv.v
SpiFlash.v
NorFlash.v
FlashCmd.v
FlashRange.v
FlashSafety.v
FlashEdge.v
NorChip.v
NorBoard.v
EnvStack.v
Command.v
Complete.v
Readline.v
RunCmd.v
Autoboot.v
WmtClk.v
ClkRef.v
ClkPll.v
I2c.v
I2cProto.v
