(* ===== verification/Prelude.v ===== *)
(** * Boot firmware of the APC 8750: a verification library

    The repository holds U-Boot 1.1.4 and Linux 2.6.32 for the WonderMedia
    APC 8750.  This library models the part that is the board's own: the
    environment that configures the boot, the boot loader and the kernel code
    that share it, the console and the command lines that edit it, the automatic
    boot that runs from it, the flash layer it is stored through, the C library
    functions these rest on, and the drivers of the board's clocks and I2C masters.

    ** The program and its parts

    The environment is a block of [name=value] strings with a CRC, kept twice
    in flash.  The boot loader reads it at start (common/env_flash.c,
    env_common.c), edits the RAM copy with commands (common/cmd_nvedit.c) and
    saves it ([saveenv]).  The kernel reads and writes the same flash
    (drivers/mtd/wmt_env.c), and early board code reads single values from it
    (board/wmt/env.c).  Commands come from lines typed at the console
    ([readline] in common/main.c, with completion in common/command.c) or from
    variables that the automatic boot and [run] execute; [run_command] expands
    variables in a line, splits it, looks the command up and calls it.  Saving goes through the flash commands
    (common/cmd_flash.c, common/flash.c), the dispatch by boot medium
    (board/wmt/flash.c) and the driver of the medium, serial flash or NOR flash
    (board/wmt/flash/).  Drivers switch the clocks of their devices
    and set frequencies through [auto_pll_divisor] (board/wmt/wmt_clk.c); the I2C
    masters (board/wmt/wmt_i2c.c, wmt_i2c_1.c) are one of them.

    ** Files

    - Prelude: outcomes of C code, the state monad with faults, its total
      weakest preconditions, loops with fuel, arrays, machine integers.
    - Crc32 (u-boot/lib_generic/crc32.c): the table-driven checksum, against the
      bitwise one.
    - Ctype (lib_generic/ctype.c, include/linux/ctype.h), Vsprintf
      (lib_generic/vsprintf.c): character classes, number parsing, formatted
      output.
    - EnvFormat: the abstract specification, a list of definitions with lookup,
      set and remove, and the byte format that represents it.
    - EnvOps: the routines that [setenv], [getenv] and the kernel share, as
      operations on the byte array, with their correctness against EnvFormat.
    - NvEdit (common/cmd_nvedit.c, and what it calls in common/console.c,
      net/eth.c, net/net.c): the commands on the RAM copy and the globals.
    - EnvFlash (common/env_flash.c, env_common.c): the two copies in flash, at
      the level of erased and programmed bytes, with power failure.  The flash
      layer under it is the class [FlashDev]: any call may fail half way.
    - WmtEnv (kernel/drivers/mtd/wmt_env.c, lib/vsprintf.c): the kernel side,
      with the MTD table, the serial flash and the NAND as state.
    - SfEnv (u-boot/board/wmt/env.c): the board's reader.
    - SpiFlash (board/wmt/flash/spi_flash.c): the serial flash driver, with the
      controller as a log of writes and an arbitrary function for reads.
    - NorFlash (board/wmt/flash/nor_flash_8bit.c, nor_flash_16bit.c, nand_flash.c):
      the two NOR drivers, which differ in the width of the bus and in the chips
      they know, over a history of bus cycles; the NAND driver, which is empty.
    - FlashCmd (common/flash.c, common/cmd_flash.c, board/wmt/flash.c): bank
      table, address ranges, protection, commands.  FlashRange, FlashSafety and
      FlashEdge hold the theorems on ranges, on erasing and writing, and on
      arguments at the edge.
    - NorChip: a chip with the AMD command set as a machine over the bus
      history, and the NOR drivers' erase and write against it.  NorBoard: what
      [flash_init] makes of the four chips, and the flash commands on that board
      down to the contents of the chips.
    - EnvStack: [saveenv] once more, on top of FlashCmd and SpiFlash instead of the
      interface of EnvFlash, and the refinement between the two.
    - Command (common/command.c, lib_generic/string.c): the command table, lookup by
      name and abbreviation, [help], [echo], [test], [exit].  Complete (command.c,
      env_common.c): completion of commands and variables in the console buffer.
      Readline (common/main.c, cmd_nvedit.c): the line editor with its echo, and
      [askenv].  RunCmd (main.c): expansion of variables, splitting and execution of
      command lines.  Autoboot (main.c, cmd_bootm.c): the start of [main_loop] with
      its countdown, [run] and [boot].
    - WmtClk (board/wmt/wmt_clk.c): clock enables, PLL and divisor searches, with
      the power management registers as words and a log of writes.  ClkRef holds
      the abstract machine of reference counts and the refinement, ClkPll the
      theorems on frequencies and on the order of writes.
    - I2c (board/wmt/wmt_i2c.c, wmt_i2c_1.c): the I2C master driver, over a history
      of register accesses.  I2cProto: the exchanges with the controller as
      predicates on that history, and the driver's functions against them.

    ** How code becomes definitions

    A C function is a Rocq function of the same name in the monad [M S A]: it
    takes the state, and returns a value and the new state, or a [fault].  The
    state is a record of the C globals the code uses (NvEdit.uboot,
    EnvFlash.fstate, WmtEnv.kst, SpiFlash.sfst, NorFlash.norst, FlashCmd.board, WmtClk.clkst,
    I2c.i2cst).  Complete.con adds to NvEdit.uboot the console buffer, the keys still
    to come and what was written to the terminal; RunCmd.shell adds the flag of
    ctrl-C, Autoboot.boot the count of the polls of the keyboard.
    Accesses outside an array, null pointers, divisions by zero, shifts by the
    width and reads of locals that were never set are faults, so a
    theorem that a function returns is a theorem that it has none of them.
    32-bit words are [Z] with the wrap-around written out ([u32], [s32]).
    Printing to the console is left out, except where the output is what the
    function computes ([sprintf], [printenv], [echo], [help]) or the terminal is what
    it works on (the line editor, completion, the messages of [run_command]).

    Loops that C writes with [while] take a fuel argument [n]; running out is
    the fault [Timeout].  The theorems give the fuel that is enough: the length
    of the array plus a constant for the scans, the length of the line for command
    lines, the number of keys for the line editor, the length of the format for
    [vsprintf], and for the poll loops of the driver any [n] within which the
    hardware answers ([SfLive], [ClkLive]) or its timer passes the driver's timeout
    ([NorTimer]).

    ** What the theorems show

    - Checksums and text: [crc32] is the bitwise CRC and detects bursts of up to
      32 bits at any bit position; what [sprintf] prints [simple_strtoul] reads
      back; [vsprintf] terminates.
    - Commands: [setenv], with all its branches, implements the abstract update;
      [getenv] finds what was set; [printenv] prints it.
    - Console: [find_cmd] takes the exact name or the only abbreviation; TAB
      extends the line to the common prefix of the candidates; [readline]
      returns exactly the edited line, and the terminal row shows it.
    - Command lines: [process_macros] expands variables, quotes and escapes;
      [run_command] does what evaluation rules say, one rule for each way a
      command can end; a line with [setenv] makes the abstract update of the
      environment, from the typed text to the bytes.
    - Automatic boot: the boot command runs exactly when the delay, the polls of
      the keyboard and the environment say so.
    - Storage: [saveenv] commits the RAM copy, and at every point of a power
      failure the next boot finds the old or the new environment; over any
      sequence of boots, saves and failures no environment is lost.  Both hold
      again over the flash commands and the serial flash driver, at every word
      the driver writes to the controller, as long as no ctrl-C is pressed; with
      ctrl-C a save can be lost.
    - Sharing: the kernel and the board code read what [saveenv] saved, and the
      boot loader reads what the kernel wrote with [wmt_setsyspara].
    - Flash: initialisation lays out the banks for every pair of chips; an erase
      by address stays in its range, spares protected sectors and is complete
      unless an error or ctrl-C stops it; a write programs exactly its bytes or
      is refused, but the protection of a sector at the top of memory is not
      seen.
    - NOR flash: initialisation identifies the four chips and gives each the
      sector map of its model; an erase followed by a write stores the data,
      changes nothing outside the sectors, and ends with success on a chip that
      is not slower than the timeout.
    - Clocks: enabling and disabling refine reference counts; setting a
      frequency finds the best PLL and divisor, is read back, and does not
      overclock the device between its writes, except from a divisor of 32.
    - I2C: every transfer returns, whatever the controller does; a success is an
      exchange of exactly the messages; initialisation sets up clock and
      controller.  Reading by register does not select the register.
    - Errors: for the inputs on which the code leaves an array, dereferences a
      null pointer or loses data, a theorem says so exactly.

    ** Hypotheses

    Hardware is never given a definition: the serial flash controller is any
    function from the number of reads to answers, the NOR bus and its timer any
    function of the cycles so far, the I2C controller any function of the
    accesses so far, the keyboard during the countdown any function of the
    polls, the handlers of commands any functions of the table, the version
    string any string, the shell hush behind [run] and [boot] any function of
    the string, the flash layer under [saveenv] any sequence of return codes
    and partial effects, the MTD devices any sequence of answers. Theorems that
    need a working device say so with a class ([FlashDevOk], [SfLive],
    [ClkLive], [NorChip], [NorTimer]) that has an instance in a witness.

    ** Not modelled

    The rest of U-Boot and Linux, which is upstream code for many boards; of
    the NOR drivers the sector locks of Intel chips (CFG_FLASH_PROTECTION,
    which the board does not set), the configuration with 32 MB windows, delays
    and the masking of interrupts; USB, display and network drivers, whose
    behaviour is the device's; the shell hush, which the boot loader takes from
    BusyBox, and the variants of the automatic boot the board does not
    configure (a password, a retry time, a boot counter); messages of the
    flash, clock and I2C code. *)

From Stdlib Require Import ssreflect ZArith Lia Ascii String.
From stdpp Require Import base tactics numbers list option.

Set Default Goal Selector "!".
#[export] Set Warnings "-clear-no-such-hyp,-notation-overridden,-level-tolerance".
Open Scope general_if_scope.

(** ** Outcomes of C code

    A C function either returns or does something the C program must never do.
    The faults are values, so a theorem that a function returns [Ok] is a
    theorem that it does none of them. *)

Inductive fault : Set :=
| OutOfBounds   (** an access outside the object *)
| NullDeref     (** a dereference of a null pointer *)
| DivByZero     (** an integer division by zero *)
| PtrCompare    (** an order between pointers into different arrays *)
| Unaligned     (** a word access at an address that is not a multiple of four *)
| Uninit        (** a read of an object that was not initialised *)
| BadShift      (** a shift by at least the width of the operand *)
| Timeout.      (** the loop's fuel ran out *)

Inductive outcome (A : Type) : Type :=
| Ok (a : A)
| Err (f : fault).
Arguments Ok {A} _.
Arguments Err {A} _.

(** State passing with faults. *)
Definition M (S A : Type) : Type := S → outcome (A * S).

Section monad.
Context {S : Type}.

Definition ret {A} (a : A) : M S A := λ s, Ok (a, s).
Definition fail {A} (f : fault) : M S A := λ _, Err f.
Definition bind {A B} (m : M S A) (k : A → M S B) : M S B := λ s,
  match m s with
  | Ok (a, s') => k a s'
  | Err f => Err f
  end.
Definition get : M S S := λ s, Ok (s, s).
Definition put (s : S) : M S unit := λ _, Ok (tt, s).
Definition modify (f : S → S) : M S unit := λ s, Ok (tt, f s).

(** A C loop: the body returns [inl a] to go round again with the loop
    variables [a] and [inr b] to leave with [b].  The fuel bounds the number
    of iterations; running out is the fault [Timeout]. *)
Fixpoint loopM {A B} (fuel : nat) (body : A → M S (A + B)) (a : A) : M S B :=
  match fuel with
  | O => fail Timeout
  | Datatypes.S fuel' =>
      bind (body a) (λ r,
        match r with
        | inl a' => loopM fuel' body a'
        | inr b => ret b
        end)
  end.

(** Total weakest precondition: [m] returns, and the result and final state
    satisfy [Q]. *)
Definition wp {A} (m : M S A) (Q : A → S → Prop) (s : S) : Prop :=
  match m s with
  | Ok (a, s') => Q a s'
  | Err _ => False
  end.

End monad.

Declare Scope c_scope.
Delimit Scope c_scope with c.
Notation "'let!' x ':=' m 'in' k" := (bind m (λ x, k))
  (at level 10, x pattern, m at level 100, k at level 200,
   format "'[v' 'let!'  x  ':='  m  'in' '/' k ']'") : c_scope.
Notation "m ';;;' k" := (bind m (λ _, k))
  (at level 199, k at level 200, right associativity) : c_scope.
Open Scope c_scope.

(** ** The weakest-precondition calculus *)

Section wp_rules.
Context {S : Type}.
Implicit Types (s : S).

Lemma wp_ret {A} (a : A) (Q : A → S → Prop) s : Q a s → wp (ret a) Q s.
Proof. done. Qed.

Lemma wp_bind {A B} (m : M S A) (k : A → M S B) (Q : B → S → Prop) s :
  wp m (λ a, wp (k a) Q) s → wp (bind m k) Q s.
Proof. rw /wp /bind. by destruct (m s) as [[a s']|f]. Qed.

Lemma wp_bind_inv {A B} (m : M S A) (k : A → M S B) (Q : B → S → Prop) s :
  wp (bind m k) Q s → wp m (λ a, wp (k a) Q) s.
Proof. rw /wp /bind. by destruct (m s) as [[a s']|f]. Qed.

Lemma wp_mono {A} (m : M S A) (Q Q' : A → S → Prop) s :
  wp m Q s → (∀ a s', Q a s' → Q' a s') → wp m Q' s.
Proof. rw /wp. destruct (m s) as [[a s']|f]; naive_solver. Qed.

Lemma bind_ok {A B} (m : M S A) (k : A → M S B) s a s' :
  m s = Ok (a, s') → bind m k s = k a s'.
Proof. by rw /bind => ->. Qed.

Lemma bind_err {A B} (m : M S A) (k : A → M S B) s f : m s = Err f → bind m k s = Err f.
Proof. by rw /bind => ->. Qed.

Lemma wp_get (Q : S → S → Prop) s : Q s s → wp get Q s.
Proof. done. Qed.

Lemma wp_put (Q : unit → S → Prop) s s' : Q tt s' → wp (put s') Q s.
Proof. done. Qed.

Lemma wp_modify (f : S → S) (Q : unit → S → Prop) s : Q tt (f s) → wp (modify f) Q s.
Proof. done. Qed.

Lemma wp_ok {A} (m : M S A) (Q : A → S → Prop) s :
  wp m Q s ↔ ∃ a s', m s = Ok (a, s') ∧ Q a s'.
Proof. rw /wp. destruct (m s) as [[a s']|f]; naive_solver. Qed.

(** Partial knowledge of a run is a [wp] fact. *)
Lemma wp_of_run {A} (m : M S A) (Q : A → S → Prop) s a s' :
  m s = Ok (a, s') → Q a s' → wp m Q s.
Proof. by rw /wp => ->. Qed.

(** Total correctness of loops: an invariant and a measure that decreases on
    every iteration bound the fuel that is needed. *)
Lemma wp_loop {A B} (I : A → S → Prop) (measure : A → nat)
    (body : A → M S (A + B)) (Q : B → S → Prop) fuel a s :
  (∀ a s, I a s →
     wp (body a) (λ r s', match r with
                          | inl a' => I a' s' ∧ (measure a' < measure a)%nat
                          | inr b => Q b s'
                          end) s) →
  I a s → (measure a < fuel)%nat → wp (loopM fuel body a) Q s.
Proof.
  intros Hbody. revert a s.
  induction fuel as [|fuel IH]; intros a s HI Hm; [lia|].
  simpl. apply wp_bind. eapply wp_mono; [by apply Hbody|].
  intros [a'|b] s'; simpl; [intros [HI' Hm']; apply IH; [done|lia]|done].
Qed.

(** A loop that runs over a value that is known in advance needs no
    invariant: one step. *)
Lemma wp_loop_step {A B} (body : A → M S (A + B)) (Q : B → S → Prop) fuel a s :
  wp (body a) (λ r, match r with
                    | inl a' => wp (loopM fuel body a') Q
                    | inr b => Q b
                    end) s →
  wp (loopM (Datatypes.S fuel) body a) Q s.
Proof.
  intros H. simpl. apply wp_bind. eapply wp_mono; [exact H|].
  by intros [a'|b] s'.
Qed.

End wp_rules.

(** Work done on leaving a loop can be done after it. *)
Lemma loopM_fuse {S A B C} (body : A → M S (A + B)) (body' : A → M S (A + C))
    (k : B → M S C) :
  (∀ a s, body' a s = bind (body a) (λ r,
     match r with inl a' => ret (inl a') | inr b => bind (k b) (λ c, ret (inr c)) end) s) →
  ∀ fuel a s, loopM fuel body' a s = bind (loopM fuel body a) k s.
Proof.
  intros Hb fuel. induction fuel as [|fuel IH]; intros a s; [done|]. simpl.
  rw {1}/bind Hb /bind. destruct (body a s) as [[[a'|b] s']|f]; simpl.
  - apply IH.
  - by destruct (k b s') as [[c s'']|f].
  - done.
Qed.

Create HintDb wp.
#[export] Hint Resolve wp_ret wp_get wp_put wp_modify : wp.

(** One step of the calculus: enter a bind, discharge a primitive. *)
Ltac wp_step :=
  lazymatch goal with
  | |- wp (bind _ _) _ _ => apply wp_bind
  | |- wp (ret _) _ _ => apply wp_ret
  | |- wp get _ _ => apply wp_get
  | |- wp (put _) _ _ => apply wp_put
  | |- wp (modify _) _ _ => apply wp_modify
  | |- wp (let '(_, _) := ?x in _) _ _ => destruct x
  end.
Ltac wp_steps := repeat (wp_step; cbn beta).

(** ** Loops over a known list of values *)

(** [for (...) if (...) return b;]: stop at the first [Some]. *)
Fixpoint for_until {S A B} (l : list A) (f : A → M S (option B)) : M S (option B) :=
  match l with
  | [] => ret None
  | a :: l =>
      let! r := f a in
      match r with
      | Some b => ret (Some b)
      | None => for_until l f
      end
  end.

(** A loop that threads variables [b] and does not leave early. *)
Fixpoint for_fold {S A B} (l : list A) (f : B → A → M S B) (b : B) : M S B :=
  match l with
  | [] => ret b
  | a :: l => let! b' := f b a in for_fold l f b'
  end.

(** Leaving the loop proves the postcondition; going round keeps an invariant
    of the values done so far. *)
Lemma wp_for_until {S A B} (l done : list A) (f : A → M S (option B))
    (I : list A → S → Prop) (Q : option B → S → Prop) s :
  (∀ a pre s, I pre s → (∃ suf, done ++ l = pre ++ a :: suf) →
     wp (f a) (λ r s', match r with None => I (pre ++ [a]) s' | Some b => Q (Some b) s' end) s) →
  I done s → (∀ s, I (done ++ l) s → Q None s) → wp (for_until l f) Q s.
Proof.
  revert done s. induction l as [|a l IH]; intros done s Hf HI HQ; simpl.
  { apply wp_ret, HQ. by rw app_nil_r. }
  apply wp_bind. eapply wp_mono; [apply Hf; [done|by exists l]|]. intros [b|] s' H; [done|].
  apply (IH (done ++ [a])); [|done|]; by rw -app_assoc.
Qed.

(** When no iteration leaves the loop. *)
Lemma wp_for_none {S A B} (l : list A) (f : A → M S (option B)) (I : S → Prop) s :
  (∀ a s, a ∈ l → I s → wp (f a) (λ r s', r = None ∧ I s') s) → I s →
  wp (for_until l f) (λ r s', r = None ∧ I s') s.
Proof.
  revert s. induction l as [|a l IH]; intros s Hf HI; simpl; [by apply wp_ret|].
  apply wp_bind. eapply wp_mono; [apply Hf; [by left|done]|].
  intros r s' [-> HI']. apply IH; [|done]. intros b s'' Hb. apply Hf. by right.
Qed.

(** When the loop variable and the state keep an invariant of the iterations
    done so far. *)
Lemma wp_for_fold {S A B} (l done : list A) (f : B → A → M S B) (I : list A → B → S → Prop)
    (Q : B → S → Prop) b s :
  (∀ a pre b s, I pre b s → (∃ suf, done ++ l = pre ++ a :: suf) →
     wp (f b a) (λ b' s', I (pre ++ [a]) b' s') s) →
  I done b s → (∀ b s, I (done ++ l) b s → Q b s) → wp (for_fold l f b) Q s.
Proof.
  revert done b s. induction l as [|a l IH]; intros done b s Hf HI HQ; simpl.
  { apply wp_ret, HQ. by rw app_nil_r. }
  apply wp_bind. eapply wp_mono; [apply Hf; [done|by exists l]|]. intros b' s' HI'.
  apply (IH (done ++ [a])); [|done|]; by rw -app_assoc.
Qed.

Lemma for_fold_app {S A B} (l1 l2 : list A) (f : B → A → M S B) b s :
  for_fold (l1 ++ l2) f b s = bind (for_fold l1 f b) (for_fold l2 f) s.
Proof.
  revert b s. induction l1 as [|a l1 IH]; intros b s; simpl; [done|].
  rw /bind. destruct (f b a s) as [[b' s']|e]; [|done]. by rw IH.
Qed.

(** ** Byte arrays *)

(** [load i] and [store i v] access a byte array by index; outside it they
    fault. *)
Definition load (i : nat) : M (list Z) Z := λ d,
  match d !! i with
  | Some c => Ok (c, d)
  | None => Err OutOfBounds
  end.
Definition store (i : nat) (v : Z) : M (list Z) unit := λ d,
  if decide (i < length d)%nat then Ok (tt, <[i := v]> d) else Err OutOfBounds.

Lemma wp_load d i c Q : d !! i = Some c → Q c d → wp (load i) Q d.
Proof. by rw /wp /load => ->. Qed.

Lemma wp_store d i v Q : (i < length d)%nat → Q tt (<[i := v]> d) → wp (store i v) Q d.
Proof. intros ??. rw /wp /store decide_True //. Qed.

(** A read-only C string argument is the list of its bytes before the NUL;
    reading past the NUL faults. *)
Definition str_get {S} (s : list Z) (i : nat) : M S Z :=
  match (s ++ [0%Z]) !! i with
  | Some c => ret c
  | None => fail OutOfBounds
  end.

Lemma wp_str_get {S} (l : list Z) i c (Q : Z → S → Prop) s :
  (l ++ [0%Z]) !! i = Some c → Q c s → wp (str_get l i) Q s.
Proof. by rw /str_get => ->. Qed.

(** Running code on the part of an array from offset [off] on: the pointer
    [p + off] of C. *)
Definition at_offset {A} (off : nat) (m : M (list Z) A) : M (list Z) A := λ buf,
  match m (drop off buf) with
  | Ok (a, d) => Ok (a, take off buf ++ d)
  | Err f => Err f
  end.

Lemma wp_at_offset {A} (m : M (list Z) A) Q hdr d :
  wp m (λ a d', Q a (hdr ++ d')) d → wp (at_offset (length hdr) m) Q (hdr ++ d).
Proof.
  rw /wp /at_offset drop_app_length take_app_length.
  by destruct (m d) as [[a d']|f].
Qed.

(** ** Machine integers *)

Definition wrap (bits x : Z) : Z := x mod 2 ^ bits.
Definition swrap (bits x : Z) : Z := (x + 2 ^ (bits - 1)) mod 2 ^ bits - 2 ^ (bits - 1).
Definition u8 : Z → Z := wrap 8.
Definition u16 : Z → Z := wrap 16.
Definition u32 : Z → Z := wrap 32.
Definition s8 : Z → Z := swrap 8.
Definition s16 : Z → Z := swrap 16.
Definition s32 : Z → Z := swrap 32.

Lemma wrap_range b x : (0 ≤ b → 0 ≤ wrap b x < 2 ^ b)%Z.
Proof. intros. apply Z.mod_pos_bound. by apply Z.pow_pos_nonneg. Qed.

Lemma wrap_small b x : (0 ≤ x < 2 ^ b → wrap b x = x)%Z.
Proof. intros. by apply Z.mod_small. Qed.

Lemma swrap_small b x :
  (0 < b → - 2 ^ (b - 1) ≤ x < 2 ^ (b - 1) → swrap b x = x)%Z.
Proof.
  intros Hb Hx. rw /swrap.
  assert (2 ^ b = 2 * 2 ^ (b - 1))%Z.
  { replace b with (Z.succ (b - 1)) at 1 by lia. rw Z.pow_succ_r; lia. }
  rw Z.mod_small; lia.
Qed.

Lemma u32_small x : (0 ≤ x < 2 ^ 32 → u32 x = x)%Z.
Proof. apply wrap_small. Qed.

(** A nonnegative [int]. *)
Lemma s32_small x : (0 ≤ x < 2 ^ 31 → s32 x = x)%Z.
Proof. intros Hx. apply swrap_small; [done|]. change (2 ^ (32 - 1))%Z with (2 ^ 31)%Z. lia. Qed.

(** The bits of a multiple and of a remainder do not meet. *)
Lemma lor_add_low q n b : (0 ≤ n → 0 ≤ b < 2 ^ n → Z.lor (q * 2 ^ n) b = q * 2 ^ n + b)%Z.
Proof.
  intros Hn Hb. destruct (decide (b = 0)%Z) as [->|Hb0]; [rw Z.lor_0_r; lia|].
  assert (Z.log2 b < n)%Z as Hlog by (apply Z.log2_lt_pow2; lia).
  assert (Z.land (q * 2 ^ n) b = 0)%Z as Hland.
  { apply Z.bits_inj'. intros i Hi. rw Z.land_spec Z.bits_0.
    destruct (decide (i < n)%Z) as [Hlt|Hge]; [by rw Z.mul_pow2_bits_low|].
    rw (Z.bits_above_log2 b i); [lia|lia|]. by rw andb_false_r. }
  by rw -Z.lxor_lor // Z.add_nocarry_lxor.
Qed.

(** ** C string literals *)

Fixpoint bytes (s : string) : list Z :=
  match s with
  | EmptyString => []
  | String a s' => Z.of_N (N_of_ascii a) :: bytes s'
  end.

(** ** Running code on a component of a larger state *)

Definition zoom {S T A} (getter : S → T) (setter : S → T → S) (m : M T A) : M S A := λ s,
  match m (getter s) with
  | Ok (a, t) => Ok (a, setter s t)
  | Err f => Err f
  end.

Lemma wp_zoom {S T A} (getter : S → T) (setter : S → T → S) (m : M T A)
    (Q : A → S → Prop) s :
  wp m (λ a t, Q a (setter s t)) (getter s) → wp (zoom getter setter m) Q s.
Proof. rw /wp /zoom. by destruct (m (getter s)) as [[a t]|f]. Qed.
