(* ===== verification/Crc32.v ===== *)
(** * CRC-32 (u-boot/lib_generic/crc32.c)

    The table-driven CRC that protects the environment blocks and the boot
    images.  The table, the generator [make_crc_table] it comes from, and the
    eight-times unrolled [crc32] and [crc32_no_comp] are translated as they
    are; the reference is the shift register of the comment above
    [make_crc_table], one bit at a time.  [sf_env_crc32] of
    u-boot/board/wmt/env.c and [env_crc32] of kernel/drivers/mtd/wmt_env.c
    are the same loop over their own copies of the table. *)

From Stdlib Require Import ssreflect ZArith Lia.
From stdpp Require Import base tactics numbers list.
From S2P Require Import Prelude.

Set Default Goal Selector "!".
Open Scope general_if_scope.
#[local] Open Scope Z_scope.


(** ** The code *)

Definition make_crc_poly : Z :=
  fold_left (λ poly p, Z.lor poly (Z.shiftl 1 (31 - p)))
    [0; 1; 2; 4; 5; 7; 8; 10; 11; 12; 16; 22; 23; 26] 0.

(** One round of the inner [k] loop. *)
Definition make_crc_bit (c : Z) : Z :=
  if negb (Z.land c 1 =? 0) then Z.lxor make_crc_poly (Z.shiftr c 1) else Z.shiftr c 1.

Definition make_crc_table : list Z :=
  map (λ n, Nat.iter 8 make_crc_bit (Z.of_nat n)) (seq 0 256).

Definition crc_table : list Z :=
  [
   0x00000000; 0x77073096; 0xee0e612c; 0x990951ba; 0x076dc419;
   0x706af48f; 0xe963a535; 0x9e6495a3; 0x0edb8832; 0x79dcb8a4;
   0xe0d5e91e; 0x97d2d988; 0x09b64c2b; 0x7eb17cbd; 0xe7b82d07;
   0x90bf1d91; 0x1db71064; 0x6ab020f2; 0xf3b97148; 0x84be41de;
   0x1adad47d; 0x6ddde4eb; 0xf4d4b551; 0x83d385c7; 0x136c9856;
   0x646ba8c0; 0xfd62f97a; 0x8a65c9ec; 0x14015c4f; 0x63066cd9;
   0xfa0f3d63; 0x8d080df5; 0x3b6e20c8; 0x4c69105e; 0xd56041e4;
   0xa2677172; 0x3c03e4d1; 0x4b04d447; 0xd20d85fd; 0xa50ab56b;
   0x35b5a8fa; 0x42b2986c; 0xdbbbc9d6; 0xacbcf940; 0x32d86ce3;
   0x45df5c75; 0xdcd60dcf; 0xabd13d59; 0x26d930ac; 0x51de003a;
   0xc8d75180; 0xbfd06116; 0x21b4f4b5; 0x56b3c423; 0xcfba9599;
   0xb8bda50f; 0x2802b89e; 0x5f058808; 0xc60cd9b2; 0xb10be924;
   0x2f6f7c87; 0x58684c11; 0xc1611dab; 0xb6662d3d; 0x76dc4190;
   0x01db7106; 0x98d220bc; 0xefd5102a; 0x71b18589; 0x06b6b51f;
   0x9fbfe4a5; 0xe8b8d433; 0x7807c9a2; 0x0f00f934; 0x9609a88e;
   0xe10e9818; 0x7f6a0dbb; 0x086d3d2d; 0x91646c97; 0xe6635c01;
   0x6b6b51f4; 0x1c6c6162; 0x856530d8; 0xf262004e; 0x6c0695ed;
   0x1b01a57b; 0x8208f4c1; 0xf50fc457; 0x65b0d9c6; 0x12b7e950;
   0x8bbeb8ea; 0xfcb9887c; 0x62dd1ddf; 0x15da2d49; 0x8cd37cf3;
   0xfbd44c65; 0x4db26158; 0x3ab551ce; 0xa3bc0074; 0xd4bb30e2;
   0x4adfa541; 0x3dd895d7; 0xa4d1c46d; 0xd3d6f4fb; 0x4369e96a;
   0x346ed9fc; 0xad678846; 0xda60b8d0; 0x44042d73; 0x33031de5;
   0xaa0a4c5f; 0xdd0d7cc9; 0x5005713c; 0x270241aa; 0xbe0b1010;
   0xc90c2086; 0x5768b525; 0x206f85b3; 0xb966d409; 0xce61e49f;
   0x5edef90e; 0x29d9c998; 0xb0d09822; 0xc7d7a8b4; 0x59b33d17;
   0x2eb40d81; 0xb7bd5c3b; 0xc0ba6cad; 0xedb88320; 0x9abfb3b6;
   0x03b6e20c; 0x74b1d29a; 0xead54739; 0x9dd277af; 0x04db2615;
   0x73dc1683; 0xe3630b12; 0x94643b84; 0x0d6d6a3e; 0x7a6a5aa8;
   0xe40ecf0b; 0x9309ff9d; 0x0a00ae27; 0x7d079eb1; 0xf00f9344;
   0x8708a3d2; 0x1e01f268; 0x6906c2fe; 0xf762575d; 0x806567cb;
   0x196c3671; 0x6e6b06e7; 0xfed41b76; 0x89d32be0; 0x10da7a5a;
   0x67dd4acc; 0xf9b9df6f; 0x8ebeeff9; 0x17b7be43; 0x60b08ed5;
   0xd6d6a3e8; 0xa1d1937e; 0x38d8c2c4; 0x4fdff252; 0xd1bb67f1;
   0xa6bc5767; 0x3fb506dd; 0x48b2364b; 0xd80d2bda; 0xaf0a1b4c;
   0x36034af6; 0x41047a60; 0xdf60efc3; 0xa867df55; 0x316e8eef;
   0x4669be79; 0xcb61b38c; 0xbc66831a; 0x256fd2a0; 0x5268e236;
   0xcc0c7795; 0xbb0b4703; 0x220216b9; 0x5505262f; 0xc5ba3bbe;
   0xb2bd0b28; 0x2bb45a92; 0x5cb36a04; 0xc2d7ffa7; 0xb5d0cf31;
   0x2cd99e8b; 0x5bdeae1d; 0x9b64c2b0; 0xec63f226; 0x756aa39c;
   0x026d930a; 0x9c0906a9; 0xeb0e363f; 0x72076785; 0x05005713;
   0x95bf4a82; 0xe2b87a14; 0x7bb12bae; 0x0cb61b38; 0x92d28e9b;
   0xe5d5be0d; 0x7cdcefb7; 0x0bdbdf21; 0x86d3d2d4; 0xf1d4e242;
   0x68ddb3f8; 0x1fda836e; 0x81be16cd; 0xf6b9265b; 0x6fb077e1;
   0x18b74777; 0x88085ae6; 0xff0f6a70; 0x66063bca; 0x11010b5c;
   0x8f659eff; 0xf862ae69; 0x616bffd3; 0x166ccf45; 0xa00ae278;
   0xd70dd2ee; 0x4e048354; 0x3903b3c2; 0xa7672661; 0xd06016f7;
   0x4969474d; 0x3e6e77db; 0xaed16a4a; 0xd9d65adc; 0x40df0b66;
   0x37d83bf0; 0xa9bcae53; 0xdebb9ec5; 0x47b2cf7f; 0x30b5ffe9;
   0xbdbdf21c; 0xcabac28a; 0x53b39330; 0x24b4a3a6; 0xbad03605;
   0xcdd70693; 0x54de5729; 0x23d967bf; 0xb3667a2e; 0xc4614ab8;
   0x5d681b02; 0x2a6f2b94; 0xb40bbe37; 0xc30c8ea1; 0x5a05df1b;
   0x2d02ef8d
  ].

(** [DO1(buf)], over any table: the three programs have a copy each. *)
Definition DO1 (table : list Z) (crc b : Z) : Z :=
  Z.lxor (nth (Z.to_nat (Z.land (Z.lxor crc b) 0xff)) table 0) (Z.shiftr crc 8).

Definition DO8 (table : list Z) (crc b0 b1 b2 b3 b4 b5 b6 b7 : Z) : Z :=
  let D := DO1 table in
  D (D (D (D (D (D (D (D crc b0) b1) b2) b3) b4) b5) b6) b7.

(** [while (len >= 8) { DO8(buf); len -= 8; } if (len) do DO1(buf) while (--len);]
    over the [len] bytes at [buf]. *)
Fixpoint crc_loop (table : list Z) (crc : Z) (buf : list Z) : Z :=
  match buf with
  | b0 :: b1 :: b2 :: b3 :: b4 :: b5 :: b6 :: b7 :: rest =>
      crc_loop table (DO8 table crc b0 b1 b2 b3 b4 b5 b6 b7) rest
  | _ => fold_left (DO1 table) buf crc
  end.

Definition crc32 (crc : Z) (buf : list Z) : Z :=
  Z.lxor (crc_loop crc_table (Z.lxor crc 0xffffffff) buf) 0xffffffff.

Definition crc32_no_comp (crc : Z) (buf : list Z) : Z := crc_loop crc_table crc buf.

(** ** The reference: a 32-bit shift register, one message bit per step *)

Definition crc_bit (c : Z) : Z :=
  if Z.odd c then Z.lxor (Z.shiftr c 1) 0xEDB88320 else Z.shiftr c 1.
Definition crc_byte (c b : Z) : Z := Nat.iter 8 crc_bit (Z.lxor c b).
Definition crc32_spec (crc : Z) (buf : list Z) : Z :=
  Z.lxor (fold_left crc_byte buf (Z.lxor crc 0xffffffff)) 0xffffffff.

(** Bytes and 32-bit words. *)
Definition is_byte (b : Z) : Prop := 0 ≤ b < 256.
Definition is_word (w : Z) : Prop := 0 ≤ w < 2 ^ 32.
#[export] Instance is_byte_dec b : Decision (is_byte b).
Proof. rw /is_byte. apply _. Defined.

(** ** Bit-level lemmas *)

Lemma word_testbit_high x i : is_word x → 32 ≤ i → Z.testbit x i = false.
Proof.
  intros [Hx0 Hx1] Hi. rw -(Z.mod_small x (2 ^ 32)) //.
  apply Z.mod_pow2_bits_high. lia.
Qed.

Lemma word_of_testbits x : 0 ≤ x → (∀ i, 32 ≤ i → Z.testbit x i = false) → is_word x.
Proof.
  intros Hx Hhigh. split; [done|].
  assert (x = x mod 2 ^ 32) as ->; [|by apply Z.mod_pos_bound].
  apply Z.bits_inj'. intros i Hi. destruct (Z.lt_ge_cases i 32).
  - by rw Z.mod_pow2_bits_low.
  - rw Z.mod_pow2_bits_high ?Hhigh //; lia.
Qed.

Lemma is_word_lxor x y : is_word x → is_word y → is_word (Z.lxor x y).
Proof.
  intros Hx Hy. apply word_of_testbits.
  - apply Z.lxor_nonneg. split; intros; [apply Hy|apply Hx].
  - intros i Hi. by rw Z.lxor_spec !word_testbit_high.
Qed.

Lemma is_word_shiftr x n : is_word x → 0 ≤ n → is_word (Z.shiftr x n).
Proof.
  intros Hx Hn. apply word_of_testbits; [apply Z.shiftr_nonneg, Hx|].
  intros i Hi. rw Z.shiftr_spec; [lia|]. apply word_testbit_high; [done|lia].
Qed.

Lemma is_byte_word b : is_byte b → is_word b.
Proof. rw /is_byte /is_word. lia. Qed.

Lemma is_byte_lxor x y : is_byte x → is_byte y → is_byte (Z.lxor x y).
Proof.
  intros [Hx0 Hx1] [Hy0 Hy1]. split; [apply Z.lxor_nonneg; lia|].
  destruct (decide (Z.lxor x y = 0)) as [->|Hne]; [lia|].
  assert (0 < Z.lxor x y).
  { assert (0 ≤ Z.lxor x y) by (apply Z.lxor_nonneg; lia). lia. }
  change 256 with (2 ^ 8). apply Z.log2_lt_pow2; [done|].
  eapply Z.le_lt_trans; [apply Z.log2_lxor; lia|].
  assert (∀ z, 0 ≤ z < 256 → Z.log2 z < 8) as Hlog.
  { intros z Hz. destruct (decide (z = 0)) as [->|]; [done|].
    apply Z.log2_lt_pow2; simpl; lia. }
  apply Z.max_lub_lt; apply Hlog; lia.
Qed.

Lemma is_byte_land x : is_byte (Z.land x 0xff).
Proof.
  change 0xff with (Z.ones 8). rw Z.land_ones //.
  rw /is_byte. change 256 with (2 ^ 8). by apply Z.mod_pos_bound.
Qed.

Lemma byte_index x : (Z.to_nat (Z.land x 0xff) < 256)%nat.
Proof. pose proof (is_byte_land x) as Hb. rw /is_byte in Hb. lia. Qed.

(** ** The table is the generator's output *)

Lemma crc_table_generated : crc_table = make_crc_table.
Proof. vm_compute. reflexivity. Qed.

Lemma make_crc_bit_spec c : make_crc_bit c = crc_bit c.
Proof.
  rw /make_crc_bit /crc_bit. change make_crc_poly with 0xEDB88320.
  change 1 with (Z.ones 1) at 1. rw Z.land_ones //. change (2 ^ 1) with 2.
  rw Zmod_odd. destruct (Z.odd c); simpl; [by rw Z.lxor_comm|done].
Qed.

Lemma length_crc_table : length crc_table = 256%nat.
Proof. reflexivity. Qed.

Lemma crc_table_nth n :
  (n < 256)%nat → nth n crc_table 0 = Nat.iter 8 crc_bit (Z.of_nat n).
Proof.
  intros Hn. rw crc_table_generated /make_crc_table.
  rw (nth_indep _ _ (Nat.iter 8 make_crc_bit (Z.of_nat 0))).
  { by rw length_map length_seq. }
  rw (map_nth (λ n, Nat.iter 8 make_crc_bit (Z.of_nat n))).
  rw seq_nth // /=. by rw !make_crc_bit_spec.
Qed.

Lemma crc_table_word n : is_word (nth n crc_table 0).
Proof.
  destruct (decide (n < 256)%nat) as [Hn|Hn].
  2:{ rw nth_overflow; [rw length_crc_table; lia|]. by rw /is_word. }
  assert (Forall is_word crc_table) as Hall.
  { rw /crc_table. repeat constructor; unfold is_word; vm_compute; intros; discriminate. }
  apply (proj1 (List.Forall_forall is_word crc_table) Hall). apply nth_In.
  by rw length_crc_table.
Qed.

(** ** The shift register is linear over xor *)

Lemma crc_bit_lxor x y : crc_bit (Z.lxor x y) = Z.lxor (crc_bit x) (crc_bit y).
Proof.
  rw /crc_bit Z.shiftr_lxor.
  assert (Z.odd (Z.lxor x y) = xorb (Z.odd x) (Z.odd y)) as ->.
  { by rw -!Z.bit0_odd Z.lxor_spec. }
  apply Z.bits_inj'. intros i Hi.
  destruct (Z.odd x), (Z.odd y); simpl; rw ?Z.lxor_spec;
    repeat match goal with |- context [Z.testbit ?a i] => destruct (Z.testbit a i) end;
    reflexivity.
Qed.

Lemma crc_bit_iter_lxor n x y :
  Nat.iter n crc_bit (Z.lxor x y) = Z.lxor (Nat.iter n crc_bit x) (Nat.iter n crc_bit y).
Proof. induction n as [|n IH]; simpl; [done|]. by rw IH crc_bit_lxor. Qed.

(** Clocking a register whose low bits are zero only shifts it. *)
Lemma crc_bit_double h : crc_bit (Z.shiftl h 1) = h.
Proof.
  rw /crc_bit -Z.bit0_odd Z.shiftl_spec_low //.
  by rw Z.shiftr_shiftl_r // Z.shiftr_0_r.
Qed.

Lemma crc_bit_iter_shiftl n h : Nat.iter n crc_bit (Z.shiftl h (Z.of_nat n)) = h.
Proof.
  revert h. induction n as [|n IH]; intros h; [by rw Z.shiftl_0_r|].
  rw Nat.iter_succ_r Nat2Z.inj_succ -Z.add_1_r -Z.shiftl_shiftl; [lia|].
  by rw crc_bit_double.
Qed.

Lemma split_low_byte x : x = Z.lxor (Z.land x 0xff) (Z.shiftl (Z.shiftr x 8) 8).
Proof.
  apply Z.bits_inj'. intros i Hi. change 0xff with (Z.ones 8).
  rw Z.lxor_spec Z.land_spec Z.shiftl_spec //.
  destruct (Z.lt_ge_cases i 8).
  - rw Z.ones_spec_low; [lia|]. rw (Z.testbit_neg_r _ (i - 8)); [lia|].
    by destruct (Z.testbit x i).
  - rw Z.ones_spec_high; [lia|]. rw Z.shiftr_spec; [lia|].
    replace (i - 8 + 8) with i by lia. by destruct (Z.testbit x i).
Qed.

Lemma shiftr_byte_lxor c b : is_byte b → Z.shiftr (Z.lxor c b) 8 = Z.shiftr c 8.
Proof.
  intros Hb. rw Z.shiftr_lxor (Z.shiftr_div_pow2 b) //.
  rw (Z.div_small b); [done|]. by rw Z.lxor_0_r.
Qed.

Lemma DO1_spec c b : is_byte b → DO1 crc_table c b = crc_byte c b.
Proof.
  intros Hb. rw /DO1 /crc_byte crc_table_nth; [apply byte_index|].
  rw Z2Nat.id; [apply is_byte_land|].
  rw {2}(split_low_byte (Z.lxor c b)) crc_bit_iter_lxor.
  by rw (crc_bit_iter_shiftl 8) shiftr_byte_lxor.
Qed.

(** ** The unrolled loop is the byte-at-a-time loop *)

Lemma crc_loop_fold table buf crc : crc_loop table crc buf = fold_left (DO1 table) buf crc.
Proof.
  enough (∀ n buf crc, (length buf < n)%nat →
    crc_loop table crc buf = fold_left (DO1 table) buf crc) as H by (eapply H; eauto).
  clear buf crc.
  induction n as [|n IH]; intros buf crc Hlen; [lia|].
  do 8 (destruct buf as [|? buf]; [done|]).
  cbn [crc_loop]. rw IH; [simpl in Hlen; lia|]. done.
Qed.

Lemma fold_DO1_spec buf crc :
  Forall is_byte buf → fold_left (DO1 crc_table) buf crc = fold_left crc_byte buf crc.
Proof.
  intros Hb. revert crc. induction Hb as [|b buf Hb _ IH]; intros crc; simpl; [done|].
  by rw DO1_spec.
Qed.

(** ** Injectivity of the register updates *)

Lemma DO1_word table c b :
  (∀ n, is_word (nth n table 0)) → is_word c → is_word (DO1 table c b).
Proof. intros Ht Hc. apply is_word_lxor; [apply Ht|by apply is_word_shiftr]. Qed.

Lemma fold_DO1_word buf c :
  is_word c → is_word (fold_left (DO1 crc_table) buf c).
Proof.
  revert c. induction buf as [|b buf IH]; intros c Hc; simpl; [done|].
  apply IH, DO1_word; [apply crc_table_word|done].
Qed.

(** ** The message as bits

    The register takes the bits of a byte from the lowest on. *)

Fixpoint low_bits (n : nat) (b : Z) : list bool :=
  match n with
  | O => []
  | S n' => Z.odd b :: low_bits n' (Z.shiftr b 1)
  end.
Definition bits_of (buf : list Z) : list bool := concat (low_bits 8 <$> buf).

(** One clock of the register with a message bit. *)
Definition crc_shift (c : Z) (x : bool) : Z := crc_bit (Z.lxor c (Z.b2z x)).

Lemma split_low_bit b : b = Z.lxor (Z.b2z (Z.odd b)) (Z.shiftl (Z.shiftr b 1) 1).
Proof.
  apply Z.bits_inj'. intros i Hi. rw Z.lxor_spec Z.shiftl_spec // -Z.bit0_odd.
  destruct (decide (i = 0)) as [->|Hi0].
  - rw Z.b2z_bit0 (Z.testbit_neg_r _ (0 - 1)); [lia|]. by rw xorb_false_r.
  - rw Z.shiftr_spec; [lia|].
    replace (i - 1 + 1) with i by lia.
    replace (Z.testbit (Z.b2z (Z.testbit b 0)) i) with false; [by rw xorb_false_l|].
    symmetry. destruct (Z.testbit b 0); [apply (Z.pow2_bits_false 0); lia|apply Z.bits_0].
Qed.

Lemma crc_iter_bits n c b :
  0 ≤ b < 2 ^ Z.of_nat n → Nat.iter n crc_bit (Z.lxor c b) = fold_left crc_shift (low_bits n b) c.
Proof.
  revert c b. induction n as [|n IH]; intros c b Hb.
  { assert (b = 0) as -> by (simpl in Hb; lia). apply Z.lxor_0_r. }
  rw Nat.iter_succ_r. cbn [low_bits fold_left]. rw {1}(split_low_bit b) -Z.lxor_assoc.
  rw crc_bit_lxor crc_bit_double. apply IH. rw Z.shiftr_div_pow2 // Z.pow_1_r.
  rw Nat2Z.inj_succ Z.pow_succ_r in Hb; [lia|].
  split; [apply Z.div_pos; lia|apply Z.div_lt_upper_bound; lia].
Qed.

Lemma fold_crc_bits buf c :
  Forall is_byte buf → fold_left crc_byte buf c = fold_left crc_shift (bits_of buf) c.
Proof.
  intros Hb. revert c. induction Hb as [|b buf Hb _ IH]; intros c; [done|].
  cbn [fold_left bits_of fmap list_fmap concat]. rw fold_left_app -crc_iter_bits; [exact Hb|]. apply IH.
Qed.

Lemma crc_bit_word c : is_word c → is_word (crc_bit c).
Proof.
  intros Hc. rw /crc_bit. destruct (Z.odd c); [apply is_word_lxor; [|done]|]; by apply is_word_shiftr.
Qed.

Lemma is_word_b2z x : is_word (Z.b2z x).
Proof. by destruct x. Qed.

Lemma fold_crc_word l c : is_word c → is_word (fold_left crc_shift l c).
Proof.
  revert c. induction l as [|x l IH]; intros c Hc; [done|]. apply IH, crc_bit_word, is_word_lxor;
    [done|apply is_word_b2z].
Qed.

(** ** Injectivity of the register updates *)

(** The bit that leaves the register comes back at the top. *)
Lemma crc_bit_top c : is_word c → Z.testbit (crc_bit c) 31 = Z.odd c.
Proof.
  intros Hc. rw /crc_bit. assert (Z.testbit (Z.shiftr c 1) 31 = false) as Hs.
  { rw Z.shiftr_spec //. by apply word_testbit_high. }
  destruct (Z.odd c); [|done]. by rw Z.lxor_spec Hs.
Qed.

Lemma odd_lxor_b2z c x : Z.odd (Z.lxor c (Z.b2z x)) = xorb (Z.odd c) x.
Proof. by rw -!Z.bit0_odd Z.lxor_spec Z.b2z_bit0. Qed.

Lemma shiftr_lxor_b2z c x j : 0 ≤ j → Z.shiftr (Z.lxor c (Z.b2z x)) (1 + j) = Z.shiftr c (1 + j).
Proof.
  intros Hj. rw -!Z.shiftr_shiftr // Z.shiftr_lxor.
  replace (Z.shiftr (Z.b2z x) 1) with 0 by by destruct x. by rw Z.lxor_0_r.
Qed.

(** If two clocks agree above bit [j], the same bit left the registers, and the
    registers agree above bit [j + 1]. *)
Lemma crc_shift_agree j c x c' x' :
  0 ≤ j ≤ 31 → is_word c → is_word c' →
  Z.shiftr (crc_shift c x) j = Z.shiftr (crc_shift c' x') j →
  xorb (Z.odd c) x = xorb (Z.odd c') x' ∧ Z.shiftr c (1 + j) = Z.shiftr c' (1 + j).
Proof.
  intros Hj Hc Hc' Heq.
  assert (Z.odd (Z.lxor c (Z.b2z x)) = Z.odd (Z.lxor c' (Z.b2z x'))) as Hodd.
  { apply (f_equal (λ z, Z.testbit z (31 - j))) in Heq. rw !Z.shiftr_spec in Heq; [lia..|].
    replace (31 - j + j) with 31 in Heq by lia.
    rw /crc_shift !crc_bit_top in Heq; try done; apply is_word_lxor; try done; apply is_word_b2z. }
  split; [by rw -!odd_lxor_b2z|].
  rw -(shiftr_lxor_b2z c x) -?(shiftr_lxor_b2z c' x'); [lia..|].
  rw /crc_shift /crc_bit Hodd in Heq. rw -!Z.shiftr_shiftr; [lia..|].
  destruct (Z.odd (Z.lxor c' _)); [|done]. rw !Z.shiftr_lxor in Heq.
  apply (f_equal (λ z, Z.lxor z (Z.shiftr 0xEDB88320 j))) in Heq.
  by rw !(Z.lxor_assoc _ (Z.shiftr 0xEDB88320 j)) !Z.lxor_nilpotent !Z.lxor_0_r -!Z.shiftr_lxor in Heq.
Qed.

(** Over the same bits, different registers stay different. *)
Lemma fold_crc_inj l c c' :
  is_word c → is_word c' → fold_left crc_shift l c = fold_left crc_shift l c' → c = c'.
Proof.
  revert c c'. induction l as [|x l IH]; intros c c' Hc Hc' Heq; [done|].
  apply IH in Heq; [|by apply (fold_crc_word [x])..].
  destruct (crc_shift_agree 0 c x c' x) as [Hlow Hhigh]; [lia|done..|by rw Heq|].
  assert (Z.odd c = Z.odd c') as Hodd by by destruct (Z.odd c), (Z.odd c'), x.
  by rw (split_low_bit c) (split_low_bit c') Hhigh Hodd.
Qed.

(** Two runs of at most 32 bits from the same register that agree above bit [j]
    consumed the same bits. *)
Lemma fold_crc_burst c l l' j :
  is_word c → length l = length l' → 0 ≤ j → j + Z.of_nat (length l) ≤ 32 →
  Z.shiftr (fold_left crc_shift l c) j = Z.shiftr (fold_left crc_shift l' c) j → l = l'.
Proof.
  intros Hc. revert l' j. induction l as [|x l IH] using rev_ind; intros l' j Hlen Hj Hk Heq.
  { by destruct l'. }
  destruct l' as [|x' l' _] using rev_ind; [rw length_app /= in Hlen; lia|].
  rw !length_app /= in Hlen Hk. rw !fold_left_app /= in Heq.
  apply crc_shift_agree in Heq as [Hidx Hagree]; [|lia|by apply fold_crc_word..].
  assert (l = l') as -> by (eapply IH; [..|exact Hagree]; lia).
  do 2 f_equal. by destruct (Z.odd _), x, x'.
Qed.

(** ** Properties *)

(** C9: the eight-times unrolled, table-driven [crc32] computes the CRC of the
    shift register clocked one bit at a time with the polynomial 0xEDB88320. *)
Theorem crc32_is_bitwise_crc (crc : Z) (buf : list Z) :
  Forall is_byte buf → crc32 crc buf = crc32_spec crc buf.
Proof. intros Hb. by rw /crc32 /crc32_spec crc_loop_fold fold_DO1_spec. Qed.

Lemma crc32_is_bitwise_crc_witness :
  crc32 0 [49; 50; 51; 52; 53; 54; 55; 56; 57] = 0xCBF43926.
Proof.
  rewrite -> crc32_is_bitwise_crc; [vm_compute; reflexivity|].
  repeat constructor; vm_compute; congruence.
Defined.

(** C10: two buffers that differ only inside a window of at most 32 consecutive
    bits, at any position and not only at byte boundaries, never have the same CRC,
    whatever surrounds the window.  Bits are counted from the lowest of each byte
    on.  A corrupted word in a protected block is always noticed. *)
Theorem crc32_detects_burst (crc : Z) (buf buf' : list Z) (pre old new post : list bool) :
  is_word crc → Forall is_byte buf → Forall is_byte buf' →
  bits_of buf = pre ++ old ++ post → bits_of buf' = pre ++ new ++ post →
  length old = length new → (length old ≤ 32)%nat → old ≠ new →
  crc32 crc buf ≠ crc32 crc buf'.
Proof.
  intros Hcrc Hb Hb' Hbits Hbits' Hlen H32 Hne Heq. apply Hne.
  rw /crc32 in Heq. apply (f_equal (λ z, Z.lxor z 0xffffffff)) in Heq.
  rw !Z.lxor_assoc !Z.lxor_nilpotent !Z.lxor_0_r !crc_loop_fold !fold_DO1_spec // in Heq.
  rw !fold_crc_bits // Hbits Hbits' !fold_left_app in Heq.
  assert (is_word (Z.lxor crc 0xffffffff)) as Hc by (by apply is_word_lxor).
  apply fold_crc_inj in Heq; [|by do 2 apply fold_crc_word..].
  apply (fold_crc_burst _ _ _ 0 (fold_crc_word pre _ Hc)); [done|lia|lia|by rw Heq].
Qed.

(** A burst over five bytes: the high bits of the second to the low bits of the
    sixth. *)
Lemma crc32_detects_burst_witness :
  crc32 0 [98; 111; 111; 116; 61; 49; 0] ≠ crc32 0 [98; 159; 222; 17; 190; 50; 0].
Proof.
  apply (crc32_detects_burst 0 _ _ (take 12 (bits_of [98; 111; 111; 116; 61; 49; 0]))
    (take 30 (drop 12 (bits_of [98; 111; 111; 116; 61; 49; 0])))
    (take 30 (drop 12 (bits_of [98; 159; 222; 17; 190; 50; 0])))
    (drop 42 (bits_of [98; 111; 111; 116; 61; 49; 0])));
    [split; vm_compute; congruence
    |repeat constructor; vm_compute; congruence
    |repeat constructor; vm_compute; congruence
    |vm_compute; reflexivity|vm_compute; reflexivity
    |reflexivity|vm_compute; lia|vm_compute; congruence].
Defined.
