(* ===== verification/Ctype.v ===== *)
(** * Character classes (u-boot/lib_generic/ctype.c, include/linux/ctype.h) *)

From Stdlib Require Import ssreflect ZArith Lia.
From stdpp Require Import base tactics numbers list.
From S2P Require Import Prelude.

Set Default Goal Selector "!".
Open Scope general_if_scope.
#[local] Open Scope Z_scope.


Definition _U : Z := 0x01. (** upper *)
Definition _L : Z := 0x02. (** lower *)
Definition _D : Z := 0x04. (** digit *)
Definition _C : Z := 0x08. (** cntrl *)
Definition _P : Z := 0x10. (** punct *)
Definition _S : Z := 0x20. (** white space *)
Definition _X : Z := 0x40. (** hex digit *)
Definition _SP : Z := 0x80. (** hard space *)

Definition _ctype : list Z :=
  [
   _C; _C; _C; _C; _C; _C; _C; _C;
   _C; Z.lor _C _S; Z.lor _C _S; Z.lor _C _S; Z.lor _C _S; Z.lor _C _S; _C; _C;
   _C; _C; _C; _C; _C; _C; _C; _C;
   _C; _C; _C; _C; _C; _C; _C; _C;
   Z.lor _S _SP; _P; _P; _P; _P; _P; _P; _P;
   _P; _P; _P; _P; _P; _P; _P; _P;
   _D; _D; _D; _D; _D; _D; _D; _D;
   _D; _D; _P; _P; _P; _P; _P; _P;
   _P; Z.lor _U _X; Z.lor _U _X; Z.lor _U _X; Z.lor _U _X; Z.lor _U _X; Z.lor _U _X; _U;
   _U; _U; _U; _U; _U; _U; _U; _U;
   _U; _U; _U; _U; _U; _U; _U; _U;
   _U; _U; _U; _P; _P; _P; _P; _P;
   _P; Z.lor _L _X; Z.lor _L _X; Z.lor _L _X; Z.lor _L _X; Z.lor _L _X; Z.lor _L _X; _L;
   _L; _L; _L; _L; _L; _L; _L; _L;
   _L; _L; _L; _L; _L; _L; _L; _L;
   _L; _L; _L; _P; _P; _P; _P; _C;
   0; 0; 0; 0; 0; 0; 0; 0; 0; 0; 0; 0; 0; 0; 0; 0;
   0; 0; 0; 0; 0; 0; 0; 0; 0; 0; 0; 0; 0; 0; 0; 0;
   Z.lor _S _SP; _P; _P; _P; _P; _P; _P; _P; _P; _P; _P; _P; _P; _P; _P; _P;
   _P; _P; _P; _P; _P; _P; _P; _P; _P; _P; _P; _P; _P; _P; _P; _P;
   _U; _U; _U; _U; _U; _U; _U; _U; _U; _U; _U; _U; _U; _U; _U; _U;
   _U; _U; _U; _U; _U; _U; _U; _P; _U; _U; _U; _U; _U; _U; _U; _L;
   _L; _L; _L; _L; _L; _L; _L; _L; _L; _L; _L; _L; _L; _L; _L; _L;
   _L; _L; _L; _L; _L; _L; _L; _P; _L; _L; _L; _L; _L; _L; _L; _L
  ].

(** [__ismask(x)] indexes the table with [(unsigned char)(x)]. *)
Definition __ismask (x : Z) : Z := nth (Z.to_nat (u8 x)) _ctype 0.

Definition ctype_test (mask c : Z) : bool := negb (Z.land (__ismask c) mask =? 0).

Definition isalnum : Z → bool := ctype_test (Z.lor (Z.lor _U _L) _D).
Definition isalpha : Z → bool := ctype_test (Z.lor _U _L).
Definition iscntrl : Z → bool := ctype_test _C.
Definition isdigit : Z → bool := ctype_test _D.
Definition isgraph : Z → bool := ctype_test (Z.lor (Z.lor (Z.lor _P _U) _L) _D).
Definition islower : Z → bool := ctype_test _L.
Definition isprint : Z → bool :=
  ctype_test (Z.lor (Z.lor (Z.lor (Z.lor _P _U) _L) _D) _SP).
Definition ispunct : Z → bool := ctype_test _P.
Definition isspace : Z → bool := ctype_test _S.
Definition isupper : Z → bool := ctype_test _U.
Definition isxdigit : Z → bool := ctype_test (Z.lor _D _X).

Definition isascii (c : Z) : bool := u8 c <=? 0x7f.
Definition toascii (c : Z) : Z := Z.land (u8 c) 0x7f.

(** [unsigned char] arithmetic: [c -= 'A'-'a'] adds 32 modulo 256. *)
Definition tolower (c : Z) : Z := if isupper c then u8 (c - (65 - 97)) else c.
Definition toupper (c : Z) : Z := if islower c then u8 (c - (97 - 65)) else c.

(** ** Facts about all 256 bytes, by computation *)

(** A boolean statement about every byte. *)
Definition all_bytes (P : Z → bool) : bool := forallb (λ n, P (Z.of_nat n)) (seq 0 256).

Lemma all_bytes_spec P c : all_bytes P = true → 0 ≤ c < 256 → P c = true.
Proof.
  rw /all_bytes forallb_forall. intros H Hc.
  rw -(Z2Nat.id c); [lia|]. apply H, in_seq. lia.
Qed.

Lemma isdigit_spec c : 0 ≤ c < 256 → isdigit c = (48 <=? c) && (c <=? 57).
Proof.
  intros Hc. apply Bool.eqb_prop.
  exact (all_bytes_spec (λ c, Bool.eqb (isdigit c) ((48 <=? c) && (c <=? 57))) c
           ltac:(vm_compute; reflexivity) Hc).
Qed.

Lemma isxdigit_spec c :
  0 ≤ c < 256 →
  isxdigit c = ((48 <=? c) && (c <=? 57)) || ((65 <=? c) && (c <=? 70))
               || ((97 <=? c) && (c <=? 102)).
Proof.
  intros Hc. apply Bool.eqb_prop.
  exact (all_bytes_spec (λ c, Bool.eqb (isxdigit c)
           (((48 <=? c) && (c <=? 57)) || ((65 <=? c) && (c <=? 70))
               || ((97 <=? c) && (c <=? 102)))) c ltac:(vm_compute; reflexivity) Hc).
Qed.

Lemma tolower_byte c : 0 ≤ c < 256 → 0 ≤ tolower c < 256.
Proof.
  intros Hc. rw /tolower. destruct (isupper c); [|done].
  change 256 with (2 ^ 8). by apply wrap_range.
Qed.
