(* ===== verification/Vsprintf.v ===== *)
(** * Number parsing and formatting (u-boot/lib_generic/vsprintf.c)

    [simple_strtoul] and its relatives, [number] and [vsprintf] as functions
    on byte strings.  A [const char *cp] that only moves forward inside one C
    string is the list of the bytes from [cp] to the NUL, so [*cp] is its head
    (NUL at the end) and [cp++] its tail; output through [*str++] is the list
    of the bytes written.  [long] and [unsigned long] have 32 bits on this
    target, and CFG_64BIT_VSPRINTF is not defined for it. *)

From Stdlib Require Import ssreflect ZArith Lia.
From stdpp Require Import base tactics numbers list sets.
From S2P Require Import Prelude Ctype.

Set Default Goal Selector "!".
Open Scope general_if_scope.
#[local] Open Scope Z_scope.


(** [*cp] *)
Definition deref (cp : list Z) : Z := default 0 (head cp).

(** ** Parsing *)

(** The digit value in the condition of the [while] loop. *)
Definition strto_value (c : Z) : Z :=
  if isdigit c then c - 48 else (if islower c then toupper c else c) - 65 + 10.

Fixpoint strto_loop (bits base result : Z) (cp : list Z) : Z * list Z :=
  match cp with
  | c :: cp' =>
      if isxdigit c && (strto_value c <? base)
      then strto_loop bits base (wrap bits (result * base + strto_value c)) cp'
      else (result, cp)
  | [] => (result, [])
  end.

(** The prefix handling that [simple_strtoul] and [simple_strtoull] share:
    the string after the prefix, and the base. *)
Definition strto_prefix (cp : list Z) (base : Z) : list Z * Z :=
  let '(cp, base) :=
    if deref cp =? 48 then
      let cp := tail cp in
      let '(cp, base) :=
        if (deref cp =? 120) && isxdigit (deref (tail cp)) then (tail cp, 16)
        else (cp, base) in
      (cp, if base =? 0 then 8 else base)
    else (cp, base) in
  (cp, if base =? 0 then 10 else base).

(** The value and what [*endp] points to. *)
Definition simple_strtoul (cp : list Z) (base : Z) : Z * list Z :=
  let '(cp, base) := strto_prefix cp base in strto_loop 32 base 0 cp.

Definition simple_strtol (cp : list Z) (base : Z) : Z * list Z :=
  if deref cp =? 45 then
    let '(v, e) := simple_strtoul (tail cp) base in (s32 (- v), e)
  else let '(v, e) := simple_strtoul cp base in (s32 v, e).

Definition simple_strtoull (cp : list Z) (base : Z) : Z * list Z :=
  let '(cp, base) := strto_prefix cp base in strto_loop 64 base 0 cp.

Definition is_digit (c : Z) : bool := (48 <=? c) && (c <=? 57).

Fixpoint skip_atoi (i : Z) (s : list Z) : Z * list Z :=
  match s with
  | c :: s' => if is_digit c then skip_atoi (s32 (i * 10 + c - 48)) s' else (i, s)
  | [] => (i, [])
  end.

(** ** Formatting one number *)

Definition ZEROPAD : Z := 1.
Definition SIGN : Z := 2.
Definition PLUS : Z := 4.
Definition SPACE : Z := 8.
Definition LEFT : Z := 16.
Definition SPECIAL : Z := 32.
Definition LARGE : Z := 64.

Definition has_flag (type flag : Z) : bool := negb (Z.land type flag =? 0).

(** "0123456789abcdefghijklmnopqrstuvwxyz" and its upper-case twin. *)
Definition small_digits : list Z :=
  [48; 49; 50; 51; 52; 53; 54; 55; 56; 57] ++ (Z.add 97 ∘ Z.of_nat <$> seq 0 26).
Definition large_digits : list Z :=
  [48; 49; 50; 51; 52; 53; 54; 55; 56; 57] ++ (Z.add 65 ∘ Z.of_nat <$> seq 0 26).

(** [while (num != 0) tmp[i++] = digits[do_div(num,base)];], least significant
    digit first; [room] is the space left in [tmp]. *)
Fixpoint number_digits (room : nat) (digits : list Z) (num base : Z) : outcome (list Z) :=
  if num =? 0 then Ok [] else
  match room with
  | O => Err OutOfBounds
  | S room' =>
      match number_digits room' digits (u32 num / base) base with
      | Ok ds => Ok (nth (Z.to_nat (u32 num mod base)) digits 0 :: ds)
      | Err f => Err f
      end
  end.

(** [while (size-- > 0) *str++ = c;] and the value it leaves in [size]. *)
Definition pad (c size : Z) : list Z := replicate (Z.to_nat size) c.
Definition pad_left (size : Z) : Z := if 0 <? size then -1 else size - 1.

(** The bytes [number] writes; [None] is its [return 0]. *)
Definition number (num base size precision type : Z) : outcome (option (list Z)) :=
  let digits := if has_flag type LARGE then large_digits else small_digits in
  let type := if has_flag type LEFT then Z.land type (Z.lnot ZEROPAD) else type in
  if (base <? 2) || (36 <? base) then Ok None else
  let c := if has_flag type ZEROPAD then 48 else 32 in
  let '(sign, num, size) :=
    if has_flag type SIGN then
      if num <? 0 then (45, s32 (- num), size - 1)
      else if has_flag type PLUS then (43, num, size - 1)
      else if has_flag type SPACE then (32, num, size - 1)
      else (0, num, size)
    else (0, num, size) in
  let size :=
    if has_flag type SPECIAL then
      if base =? 16 then size - 2 else if base =? 8 then size - 1 else size
    else size in
  match (if num =? 0 then Ok [48] else number_digits 66 digits num base) with
  | Err f => Err f
  | Ok tmp =>
      let i := Z.of_nat (length tmp) in
      let precision := if precision <? i then i else precision in
      let size := size - precision in
      let '(out1, size) :=
        if has_flag type (ZEROPAD + LEFT) then ([], size) else (pad 32 size, pad_left size) in
      let out2 := if sign =? 0 then [] else [sign] in
      let out3 :=
        if has_flag type SPECIAL then
          if base =? 8 then [48] else if base =? 16 then [48; nth 33 digits 0] else []
        else [] in
      let '(out4, size) :=
        if has_flag type LEFT then ([], size) else (pad c size, pad_left size) in
      let out5 := pad 48 (precision - i) in
      Ok (Some (out1 ++ out2 ++ out3 ++ out4 ++ out5 ++ rev tmp ++ pad 32 size))
  end.

(** ** [vsprintf] *)

(** A variadic argument: a 32-bit word, or a string pointer (possibly null). *)
Inductive varg : Set :=
| VWord (w : Z)
| VStr (s : option (list Z)).

Definition va_word (args : list varg) : outcome (Z * list varg) :=
  match args with
  | VWord w :: args' => Ok (w, args')
  | _ => Err OutOfBounds
  end.
Definition va_str (args : list varg) : outcome (option (list Z) * list varg) :=
  match args with
  | VStr s :: args' => Ok (s, args')
  | _ => Err OutOfBounds
  end.

(** [repeat: ++fmt; switch ...] on the next character *)
Fixpoint vs_flags (flags : Z) (fmt : list Z) : Z * list Z :=
  match fmt with
  | c :: fmt' =>
      if c =? 45 then vs_flags (Z.lor flags LEFT) fmt'
      else if c =? 43 then vs_flags (Z.lor flags PLUS) fmt'
      else if c =? 32 then vs_flags (Z.lor flags SPACE) fmt'
      else if c =? 35 then vs_flags (Z.lor flags SPECIAL) fmt'
      else if c =? 48 then vs_flags (Z.lor flags ZEROPAD) fmt'
      else (flags, fmt)
  | [] => (flags, [])
  end.

(** Field width: flags, width, rest of the format, rest of the arguments. *)
Definition vs_width (flags : Z) (fmt : list Z) (args : list varg)
    : outcome (Z * Z * list Z * list varg) :=
  if is_digit (deref fmt) then
    let '(w, fmt) := skip_atoi 0 fmt in Ok (flags, w, fmt, args)
  else if deref fmt =? 42 then
    match va_word args with
    | Err f => Err f
    | Ok (w, args) =>
        let w := s32 w in
        if w <? 0 then Ok (Z.lor flags LEFT, s32 (- w), tail fmt, args)
        else Ok (flags, w, tail fmt, args)
    end
  else Ok (flags, -1, fmt, args).

Definition vs_precision (fmt : list Z) (args : list varg)
    : outcome (Z * list Z * list varg) :=
  if deref fmt =? 46 then
    let fmt := tail fmt in
    let clamp p := if p <? 0 then 0 else p in
    if is_digit (deref fmt) then
      let '(p, fmt) := skip_atoi 0 fmt in Ok (clamp p, fmt, args)
    else if deref fmt =? 42 then
      match va_word args with
      | Err f => Err f
      | Ok (p, args) => Ok (clamp (s32 p), tail fmt, args)
      end
    else Ok (0, fmt, args)
  else Ok (-1, fmt, args).

Definition vs_qualifier (fmt : list Z) : Z * list Z :=
  if (deref fmt =? 104) || (deref fmt =? 108) || (deref fmt =? 113)
  then (deref fmt, tail fmt) else (-1, fmt).

(** "<NULL>" *)
Definition null_string : list Z := [60; 78; 85; 76; 76; 62].

(** The integer argument of a conversion. *)
Definition vs_num (qualifier flags w : Z) : Z :=
  if qualifier =? 108 then u32 w
  else if qualifier =? 104 then
    let num := wrap 16 w in
    if has_flag flags SIGN then u32 (swrap 16 num) else num
  else u32 w.

(** The output so far, and the stores of [%n] as (address, value). *)
Record vs_out := VsOut { vs_str : list Z; vs_stores : list (Z * Z) }.
Definition vs_emit (o : vs_out) (bs : list Z) : vs_out :=
  VsOut (vs_str o ++ bs) (vs_stores o).

(** The conversion at [fmt], after flags, width, precision and qualifier: the
    output, the arguments left, and what is left of the format after [++fmt]. *)
Definition vs_convert (o : vs_out) (flags field_width precision qualifier : Z)
    (fmt : list Z) (args : list varg) : outcome (vs_out * list Z * list varg) :=
  let c := deref fmt in
  let num_conv flags base :=
    match va_word args with
    | Err f => Err f
    | Ok (w, args) =>
        match number (s32 (vs_num qualifier flags w)) base field_width precision flags with
        | Err f => Err f
        | Ok (Some bs) => Ok (vs_emit o bs, tail fmt, args)
        | Ok None => Err NullDeref
        end
    end in
  if c =? 99 (* 'c' *) then
    match va_word args with
    | Err f => Err f
    | Ok (w, args) =>
        let fill := pad 32 (field_width - 1) in
        Ok (vs_emit o (if has_flag flags LEFT then u8 w :: fill else fill ++ [u8 w]),
            tail fmt, args)
    end
  else if c =? 115 (* 's' *) then
    match va_str args with
    | Err f => Err f
    | Ok (os, args) =>
        let s := default null_string os in
        let len := Z.to_nat (Z.min (Z.of_nat (length s)) (u32 precision)) in
        let fill := pad 32 (field_width - Z.of_nat len) in
        Ok (vs_emit o (if has_flag flags LEFT then take len s ++ fill
                       else fill ++ take len s), tail fmt, args)
    end
  else if c =? 112 (* 'p' *) then
    match va_word args with
    | Err f => Err f
    | Ok (w, args) =>
        let '(field_width, flags) :=
          if field_width =? -1 then (8, Z.lor flags ZEROPAD) else (field_width, flags) in
        match number (s32 w) 16 field_width precision flags with
        | Err f => Err f
        | Ok (Some bs) => Ok (vs_emit o bs, tail fmt, args)
        | Ok None => Err NullDeref
        end
    end
  else if c =? 110 (* 'n' *) then
    match va_word args with
    | Err f => Err f
    | Ok (ip, args) =>
        Ok (VsOut (vs_str o) (vs_stores o ++ [(ip, Z.of_nat (length (vs_str o)))]),
            tail fmt, args)
    end
  else if c =? 37 (* '%' *) then Ok (vs_emit o [37], tail fmt, args)
  else if c =? 111 (* 'o' *) then num_conv flags 8
  else if c =? 88 (* 'X' *) then num_conv (Z.lor flags LARGE) 16
  else if c =? 120 (* 'x' *) then num_conv flags 16
  else if (c =? 100) || (c =? 105) (* 'd' 'i' *) then num_conv (Z.lor flags SIGN) 10
  else if c =? 117 (* 'u' *) then num_conv flags 10
  else Ok (vs_emit o (37 :: (if c =? 0 then [] else [c])), tail fmt, args).

Fixpoint vsprintf_loop (fuel : nat) (o : vs_out) (fmt : list Z) (args : list varg)
    : outcome vs_out :=
  match fmt, fuel with
  | [], _ => Ok o
  | _ :: _, O => Err Timeout
  | c :: fmt', S fuel' =>
      if negb (c =? 37) then vsprintf_loop fuel' (vs_emit o [c]) fmt' args
      else
        let '(flags, fmt) := vs_flags 0 fmt' in
        match vs_width flags fmt args with
        | Err f => Err f
        | Ok (flags, field_width, fmt, args) =>
            match vs_precision fmt args with
            | Err f => Err f
            | Ok (precision, fmt, args) =>
                let '(qualifier, fmt) := vs_qualifier fmt in
                match vs_convert o flags field_width precision qualifier fmt args with
                | Err f => Err f
                | Ok (o, fmt, args) => vsprintf_loop fuel' o fmt args
                end
            end
        end
  end.

(** The bytes written before the final NUL and the [%n] stores; the return
    value of the C function is the number of those bytes. *)
Definition vsprintf (fmt : list Z) (args : list varg) : outcome vs_out :=
  vsprintf_loop (length fmt) (VsOut [] []) fmt args.

Definition sprintf (fmt : list Z) (args : list varg) : outcome (list Z * Z) :=
  match vsprintf fmt args with
  | Err f => Err f
  | Ok o => Ok (vs_str o, Z.of_nat (length (vs_str o)))
  end.

(** ** [number] never overruns its 66-byte buffer *)

Lemma number_digits_step room digits num base :
  num ≠ 0 →
  number_digits (S room) digits num base =
  match number_digits room digits (u32 num / base) base with
  | Ok ds => Ok (nth (Z.to_nat (u32 num mod base)) digits 0 :: ds)
  | Err f => Err f
  end.
Proof. intros H. cbn [number_digits]. by rw (proj2 (Z.eqb_neq _ _) H). Qed.

Lemma number_digits_zero room digits base : number_digits room digits 0 base = Ok [].
Proof. by destruct room. Qed.

Lemma u32_range n : 0 ≤ u32 n < 2 ^ 32.
Proof. by apply wrap_range. Qed.

(** As many places as bits are enough, in any base. *)
Lemma number_digits_total (room : nat) digits n base :
  2 ≤ base → 0 ≤ n < 2 ^ 32 → n < 2 ^ Z.of_nat room →
  ∃ ds, number_digits room digits n base = Ok ds.
Proof.
  intros Hb. revert n. induction room as [|room IH]; intros n Hn Hr.
  - assert (n = 0) as -> by (simpl in Hr; lia). by eexists.
  - destruct (decide (n = 0)) as [->|Hne]; [by rw number_digits_zero; eexists|].
    rw number_digits_step // u32_small //.
    destruct (IH (n / base)) as [ds ->]; [| |by eexists].
    + split; [apply Z.div_pos; lia|].
      apply Z.le_lt_trans with n; [apply Z.div_le_upper_bound; nia|lia].
    + apply Z.div_lt_upper_bound; [lia|].
      rw Nat2Z.inj_succ Z.pow_succ_r in Hr; [lia|]. nia.
Qed.

Lemma number_digits_tmp digits num base :
  2 ≤ base → ∃ ds, number_digits 66 digits num base = Ok ds.
Proof.
  intros Hb. destruct (decide (num = 0)) as [->|Hne]; [by eexists|].
  rw number_digits_step //. pose proof (u32_range num) as Hu.
  assert (0 ≤ u32 num / base ≤ u32 num) as Hd.
  { split; [apply Z.div_pos; lia|]. apply Z.div_le_upper_bound; nia. }
  destruct (number_digits_total 65 digits (u32 num / base) base) as [ds ->];
    [done|lia| |by eexists].
  apply Z.le_lt_trans with (u32 num); [lia|].
  apply Z.lt_trans with (2 ^ 32); [lia|]. apply Z.pow_lt_mono_r; lia.
Qed.

Lemma number_total num base size precision type :
  ∃ o, number num base size precision type = Ok o ∧ (o = None ↔ base < 2 ∨ 36 < base).
Proof.
  rw /number. destruct ((base <? 2) || (36 <? base)) eqn:Hbase.
  { eexists. split; [done|]. split; [lia|done]. }
  assert (2 ≤ base) as Hb by lia.
  repeat case_match; simplify_eq;
    try match goal with
    | H : (if ?b then Ok _ else _) = Err _ |- _ => destruct b; [done|]
    end;
    try match goal with
    | H : number_digits 66 ?d ?n ?b = Err _ |- _ =>
        destruct (number_digits_tmp d n b Hb) as [? E]; rw E in H; done
    end; (eexists; split; [done|]; split; [done|lia]).
Qed.

(** ** Digits and their values *)

(** The digit a number of base at most 16 prints parses back to itself. *)
Lemma digit_roundtrip digits d :
  digits = small_digits ∨ digits = large_digits → 0 ≤ d < 16 →
  isxdigit (nth (Z.to_nat d) digits 0) = true ∧
  strto_value (nth (Z.to_nat d) digits 0) = d.
Proof.
  intros Hds Hd.
  assert (d ∈ map Z.of_nat (seq 0 16)) as Hin.
  { apply list_elem_of_fmap. exists (Z.to_nat d).
    split; [lia|]. apply elem_of_seq. lia. }
  clear Hd. revert d Hin.
  apply (Forall_forall (λ d, isxdigit (nth (Z.to_nat d) digits 0) = true ∧
                             strto_value (nth (Z.to_nat d) digits 0) = d)).
  destruct Hds as [->| ->]; repeat constructor.
Qed.

(** What a parse must see after the digits to stop there. *)
Definition strto_stop (base : Z) (rest : list Z) : Prop :=
  match rest with
  | [] => True
  | c :: _ => (isxdigit c = false ∨ base ≤ strto_value c) ∧ c ≠ 120
  end.

Lemma strto_loop_stop bits base acc rest :
  strto_stop base rest → strto_loop bits base acc rest = (acc, rest).
Proof.
  destruct rest as [|c rest]; [done|]. simpl. intros [[->|Hv] _]; [done|].
  rw (proj2 (Z.ltb_ge _ _) Hv). by rw andb_false_r.
Qed.

(** Parsing printed digits appends them to the accumulator. *)
Lemma strto_loop_digits bits room digits n base ds acc rest :
  digits = small_digits ∨ digits = large_digits → 2 ≤ base ≤ 16 → 0 ≤ n < 2 ^ 32 →
  number_digits room digits n base = Ok ds →
  0 ≤ acc → acc * base ^ Z.of_nat (length ds) + n < 2 ^ bits →
  strto_loop bits base acc (rev ds ++ rest) =
  strto_loop bits base (acc * base ^ Z.of_nat (length ds) + n) rest.
Proof.
  intros Hds Hb. revert n ds acc rest. induction room as [|room IH];
    intros n ds acc rest Hn Hdig Hacc Hbound.
  { simpl in Hdig. destruct (Z.eqb_spec n 0) as [->|]; simplify_eq.
    f_equal. simpl. lia. }
  destruct (decide (n = 0)) as [->|Hne].
  { rw number_digits_zero in Hdig. simplify_eq. simpl. f_equal. lia. }
  rw number_digits_step // u32_small // in Hdig.
  destruct (number_digits room digits (n / base) base) as [ds'|] eqn:E; simplify_eq.
  pose proof (Z.div_mod n base) as Hdm. pose proof (Z.mod_pos_bound n base) as Hmod.
  assert (0 ≤ n / base ≤ n) as Hq.
  { split; [apply Z.div_pos; lia|]. apply Z.div_le_upper_bound; nia. }
  destruct (digit_roundtrip digits (n mod base) Hds) as [Hx Hv]; [lia|].
  cbn [length rev] in Hbound |- *. rw Nat2Z.inj_succ Z.pow_succ_r in Hbound |- *; [lia..|].
  set (p := base ^ Z.of_nat (length ds')) in *.
  assert (0 < p) by (apply Z.pow_pos_nonneg; lia).
  assert (acc * p + n / base < 2 ^ bits) by nia.
  rw -app_assoc (IH (n / base)) //=; [lia|]. fold p. rw Hx Hv.
  rw (proj2 (Z.ltb_lt _ _)); [lia|]. simpl. f_equal. rw wrap_small; nia.
Qed.

Lemma number_digits_nonzero room digits n base ds :
  n ≠ 0 → number_digits room digits n base = Ok ds → ds ≠ [].
Proof.
  intros Hn. destruct room as [|room]; simpl; rw (proj2 (Z.eqb_neq _ _) Hn); [done|].
  destruct (number_digits _ _ _ _); intros ?; by simplify_eq.
Qed.

(** The leading digit is not '0'. *)
Lemma number_digits_lead room digits n base ds :
  digits = small_digits ∨ digits = large_digits → 2 ≤ base ≤ 16 → 0 < n < 2 ^ 32 →
  number_digits room digits n base = Ok ds →
  ∃ c ds', rev ds = c :: ds' ∧ c ≠ 48.
Proof.
  intros Hds Hb. revert n ds. induction room as [|room IH]; intros n ds Hn Hdig.
  { simpl in Hdig. rw (proj2 (Z.eqb_neq n 0)) in Hdig; [lia|done]. }
  rw number_digits_step in Hdig; [lia|]. rw u32_small in Hdig; [lia|].
  destruct (number_digits room digits (n / base) base) as [ds'|] eqn:E; simplify_eq.
  pose proof (Z.div_mod n base) as Hdm. pose proof (Z.mod_pos_bound n base) as Hmod.
  destruct (decide (n / base = 0)) as [Hz|Hz].
  - rw Hz number_digits_zero in E. simplify_eq. simpl. do 2 eexists. split; [done|].
    destruct (digit_roundtrip digits (n mod base) Hds) as [_ Hv]; [lia|].
    intros Heq. rw Heq in Hv. change (strto_value 48) with 0 in Hv.
    rw Hz -Hv in Hdm. lia.
  - destruct (IH (n / base) ds') as (c & ds'' & Hrev & Hc); [|done|].
    { split; [assert (0 ≤ n / base) by (apply Z.div_pos; lia); lia|].
      apply Z.le_lt_trans with n; [apply Z.div_le_upper_bound; nia|lia]. }
    exists c, (ds'' ++ [nth (Z.to_nat (n mod base)) digits 0]). simpl. by rw Hrev.
Qed.

(** ** Printing without flags *)

Lemma u32_s32 n : u32 (s32 n) = u32 n.
Proof.
  rw /u32 /s32 /wrap /swrap Zminus_mod Z.mod_mod // -Zminus_mod. f_equal. lia.
Qed.

Lemma s32_eq0 n : 0 ≤ n < 2 ^ 32 → (s32 n =? 0) = (n =? 0).
Proof.
  intros Hn. destruct (Z.eqb_spec n 0) as [->|Hne]; [done|].
  apply Z.eqb_neq. intros H0. pose proof (u32_s32 n) as Hu.
  rw H0 (u32_small n) // in Hu.
Qed.

Lemma number_digits_s32 room digits n base :
  0 ≤ n < 2 ^ 32 →
  number_digits (S room) digits (s32 n) base = number_digits (S room) digits n base.
Proof. intros Hn. cbn [number_digits]. by rw s32_eq0 // u32_s32. Qed.

#[local] Arguments number_digits : simpl never.
#[local] Arguments number : simpl never.
#[local] Arguments u32 : simpl never.
#[local] Arguments s32 : simpl never.

Lemma pad_neg c size : size ≤ 0 → pad c size = [].
Proof. intros H. rw /pad. by replace (Z.to_nat size) with 0%nat by lia. Qed.

(** Evaluates the tests of known flags. *)
Ltac eval_flags :=
  repeat match goal with
  | |- context [has_flag ?a ?b] =>
      let v := eval vm_compute in (has_flag a b) in change (has_flag a b) with v
  end; cbv beta iota zeta.

(** The digit set the LARGE flag selects. *)
Definition digits_of (flags : Z) : list Z :=
  if has_flag flags LARGE then large_digits else small_digits.

(** The digits a nonnegative number prints: most significant first. *)
Lemma number_plain flags n base :
  flags = 0 ∨ flags = LARGE → 2 ≤ base ≤ 16 → 0 ≤ n < 2 ^ 32 →
  ∃ ds, (if n =? 0 then Ok [48] else number_digits 66 (digits_of flags) n base) = Ok ds ∧
        number (s32 n) base (-1) (-1) flags = Ok (Some (rev ds)).
Proof.
  intros Hf Hb Hn. rw /number.
  rw (proj2 (Z.ltb_ge base 2)); [lia|]. rw (proj2 (Z.ltb_ge 36 base)); [lia|].
  destruct (number_digits_tmp (digits_of flags) n base) as [ds0 Hds0]; [lia|].
  assert (∃ ds, (if n =? 0 then Ok [48] else number_digits 66 (digits_of flags) n base)
                = Ok ds) as [ds Hds].
  { destruct (n =? 0); [by eexists|]. by exists ds0. }
  exists ds. split; [done|]. clear Hds0.
  destruct Hf as [->| ->]; eval_flags; rw s32_eq0 // number_digits_s32 // Hds
      (proj2 (Z.ltb_lt (-1) _)) ?Z.sub_diag //; try lia;
    rw !pad_neg ?app_nil_r //; rw /pad_left; repeat case_match; lia.
Qed.

Lemma strto_prefix_plain c cp base :
  c ≠ 48 → base ≠ 0 → strto_prefix (c :: cp) base = (c :: cp, base).
Proof.
  intros Hc Hb. rw /strto_prefix /=. rw (proj2 (Z.eqb_neq c 48)) //.
  by rw (proj2 (Z.eqb_neq base 0)).
Qed.

Lemma strto_prefix_zero rest base :
  strto_stop base rest → base ≠ 0 → strto_prefix (48 :: rest) base = (rest, base).
Proof.
  intros Hstop Hb. rw /strto_prefix /=.
  assert ((deref rest =? 120) = false) as ->.
  { apply Z.eqb_neq. destruct rest as [|c rest]; [done|]. apply Hstop. }
  rw andb_false_l. destruct (Z.eqb_spec base 0); [done|].
  by rw (proj2 (Z.eqb_neq base 0)).
Qed.

Lemma strtoul_number flags n base rest :
  flags = 0 ∨ flags = LARGE → 2 ≤ base ≤ 16 → 0 ≤ n < 2 ^ 32 → strto_stop base rest →
  ∃ out, number (s32 n) base (-1) (-1) flags = Ok (Some out) ∧
         simple_strtoul (out ++ rest) base = (n, rest).
Proof.
  intros Hf Hb Hn Hstop.
  destruct (number_plain flags n base Hf Hb Hn) as (ds & Hds & Hnum).
  exists (rev ds). split; [done|]. rw /simple_strtoul.
  assert (digits_of flags = small_digits ∨ digits_of flags = large_digits) as Hdig
    by (destruct Hf as [->| ->]; auto).
  destruct (Z.eqb_spec n 0) as [->|Hne].
  - simplify_eq. simpl. rw strto_prefix_zero //; [lia|]. by apply strto_loop_stop.
  - destruct (number_digits_lead 66 (digits_of flags) n base ds) as (c & ds' & Hrev & Hc);
      [done..|lia|done|].
    rw Hrev -app_comm_cons strto_prefix_plain //; [lia|].
    rw app_comm_cons -Hrev (strto_loop_digits 32 66 (digits_of flags) n) //; [lia|].
    by apply strto_loop_stop.
Qed.

(** A plain numeric conversion is a call of [number]. *)
Lemma sprintf_number conv base flags n bs :
  (conv, base, flags) ∈ [(111, 8, 0); (117, 10, 0); (120, 16, 0); (88, 16, LARGE);
                         (100, 10, SIGN)] →
  number (s32 (u32 n)) base (-1) (-1) flags = Ok (Some bs) →
  sprintf [37; conv] [VWord n] = Ok (bs, Z.of_nat (length bs)).
Proof.
  intros Hin Hnum. rw !elem_of_cons elem_of_nil in Hin.
  destruct Hin as [[= -> -> ->]|[[= -> -> ->]|[[= -> -> ->]|[[= -> -> ->]|[[= -> -> ->]|[]]]]]];
    rw /sprintf /vsprintf; cbn -[number s32 u32 Z.of_nat vs_convert];
    rw /vs_convert; cbn -[number s32 u32 Z.of_nat]; rw Hnum; done.
Qed.

(** ** [vsprintf] terminates on its own fuel *)

Lemma skip_atoi_length i s : (length (skip_atoi i s).2 ≤ length s)%nat.
Proof.
  revert i. induction s as [|c s IH]; intros i; simpl; [done|].
  destruct (is_digit c); simpl; [|done]. etrans; [apply IH|lia].
Qed.

Lemma vs_flags_length flags fmt : (length (vs_flags flags fmt).2 ≤ length fmt)%nat.
Proof.
  revert flags. induction fmt as [|c fmt IH]; intros flags; simpl; [done|].
  repeat case_match; simpl; first [done|etrans; [apply IH|lia]].
Qed.

Lemma tail_length {A} (l : list A) : (length (tail l) ≤ length l)%nat.
Proof. destruct l; simpl; lia. Qed.

Lemma vs_width_length flags fmt args r :
  vs_width flags fmt args = Ok r → (length r.1.2 ≤ length fmt)%nat.
Proof.
  rw /vs_width. pose proof (skip_atoi_length 0 fmt) as Hs.
  pose proof (tail_length fmt) as Ht.
  repeat case_match; intros; simplify_eq; simpl in *; lia.
Qed.

Lemma vs_precision_length fmt args r :
  vs_precision fmt args = Ok r → (length r.1.2 ≤ length fmt)%nat.
Proof.
  rw /vs_precision. pose proof (skip_atoi_length 0 (tail fmt)) as Hs.
  pose proof (tail_length fmt) as Ht. pose proof (tail_length (tail fmt)) as Htt.
  repeat case_match; intros; simplify_eq; simpl in *; lia.
Qed.

Lemma vs_qualifier_length fmt : (length (vs_qualifier fmt).2 ≤ length fmt)%nat.
Proof. rw /vs_qualifier. case_match; simpl; [apply tail_length|done]. Qed.

Lemma vs_convert_length o flags w p q fmt args r :
  vs_convert o flags w p q fmt args = Ok r → (length r.1.2 ≤ length fmt)%nat.
Proof.
  rw /vs_convert. pose proof (tail_length fmt) as Ht.
  repeat case_match; intros; simplify_eq; simpl in *; lia.
Qed.

Lemma va_word_err args f : va_word args = Err f → f = OutOfBounds.
Proof. destruct args as [|[] ]; simpl; congruence. Qed.
Lemma va_str_err args f : va_str args = Err f → f = OutOfBounds.
Proof. destruct args as [|[] ]; simpl; congruence. Qed.

Lemma number_not_err num base size precision type f :
  number num base size precision type ≠ Err f.
Proof. destruct (number_total num base size precision type) as (o & -> & _). done. Qed.

Lemma number_some num base size precision type :
  2 ≤ base ≤ 36 → number num base size precision type ≠ Ok None.
Proof.
  intros Hb. destruct (number_total num base size precision type) as (o & -> & Ho).
  intros ?; simplify_eq. destruct Ho as [Ho _]. specialize (Ho eq_refl). lia.
Qed.

Lemma vs_width_err flags fmt args f : vs_width flags fmt args = Err f → f = OutOfBounds.
Proof. rw /vs_width. repeat case_match; intros; simplify_eq; eauto using va_word_err. Qed.

Lemma vs_precision_err fmt args f : vs_precision fmt args = Err f → f = OutOfBounds.
Proof. rw /vs_precision. repeat case_match; intros; simplify_eq; eauto using va_word_err. Qed.

Lemma vs_convert_err o flags w p q fmt args f :
  vs_convert o flags w p q fmt args = Err f → f = OutOfBounds.
Proof.
  rw /vs_convert. intros Herr.
  repeat case_match; simplify_eq; eauto using va_word_err, va_str_err;
    exfalso;
    match goal with
    | H : number _ _ _ _ _ = Err _ |- _ => by apply number_not_err in H
    | H : number _ _ _ _ _ = Ok None |- _ => revert H; apply number_some; lia
    end.
Qed.

Lemma vsprintf_loop_err fuel o fmt args f :
  (length fmt ≤ fuel)%nat → vsprintf_loop fuel o fmt args = Err f → f = OutOfBounds.
Proof.
  revert o fmt args. induction fuel as [|fuel IH]; intros o fmt args Hlen.
  { destruct fmt; simpl in Hlen; [done|lia]. }
  destruct fmt as [|c fmt]; [done|]. cbn [vsprintf_loop]. simpl in Hlen.
  destruct (negb (c =? 37)); [apply IH; lia|].
  pose proof (vs_flags_length 0 fmt) as H1.
  destruct (vs_flags 0 fmt) as [flags fmt1]; simpl in H1.
  destruct (vs_width flags fmt1 args) as [[[[flags' w] fmt2] args2]|g] eqn:E2;
    [|intros; simplify_eq; eauto using vs_width_err].
  apply vs_width_length in E2; simpl in E2.
  destruct (vs_precision fmt2 args2) as [[[p fmt3] args3]|g] eqn:E3;
    [|intros; simplify_eq; eauto using vs_precision_err].
  apply vs_precision_length in E3; simpl in E3.
  pose proof (vs_qualifier_length fmt3) as H4.
  destruct (vs_qualifier fmt3) as [q fmt4]; simpl in H4.
  destruct (vs_convert o flags' w p q fmt4 args3) as [[[o' fmt5] args4]|g] eqn:E5;
    [|intros; simplify_eq; eauto using vs_convert_err].
  apply vs_convert_length in E5; simpl in E5. apply IH. lia.
Qed.

(** ** Properties *)

(** C34: printing an unsigned number with %o, %u, %x or %X and parsing the
    result with [simple_strtoul] in the same base gives the number back, and
    the parse stops exactly after the digits. *)
Theorem sprintf_strtoul_roundtrip (n conv base flags : Z) (rest : list Z) :
  0 ≤ n < 2 ^ 32 →
  (conv, base, flags) ∈ [(111, 8, 0); (117, 10, 0); (120, 16, 0); (88, 16, LARGE)] →
  strto_stop base rest →
  ∃ out, sprintf [37; conv] [VWord n] = Ok (out, Z.of_nat (length out)) ∧
         simple_strtoul (out ++ rest) base = (n, rest).
Proof.
  intros Hn Hin Hstop.
  destruct (strtoul_number flags n base rest) as (out & Hnum & Hparse);
    [set_solver| set_unfold; naive_solver lia|done..|].
  exists out. split; [|done]. eapply sprintf_number; [|by rw u32_small].
  set_solver.
Qed.

Lemma sprintf_strtoul_roundtrip_witness :
  ∃ out, sprintf [37; 120] [VWord 0xfffd0000] = Ok (out, Z.of_nat (length out)) ∧
         simple_strtoul (out ++ [58; 49]) 16 = (0xfffd0000, [58; 49]).
Proof.
  apply (sprintf_strtoul_roundtrip 0xfffd0000 120 16 0 [58; 49]).
  - lia.
  - do 2 right. left.
  - split; [left; reflexivity|discriminate].
Defined.

(** [vsprintf] returns for every format string and argument list, and the
    only way it can go wrong is to run out of arguments (or find one of the
    wrong kind): it never overruns the 66-byte digit buffer of [number] and
    never uses a null pointer returned by it. *)
Theorem vsprintf_total (fmt : list Z) (args : list varg) :
  (∃ o, vsprintf fmt args = Ok o) ∨ vsprintf fmt args = Err OutOfBounds.
Proof.
  destruct (vsprintf fmt args) as [o|f] eqn:E; [left; by eexists|right].
  by rw (vsprintf_loop_err _ _ _ _ _ (le_n _) E).
Qed.

(** ** Strings in a format *)

Lemma vsprintf_loop_literal l fuel o fmt args :
  Forall (λ c, c ≠ 37) l →
  vsprintf_loop (length l + fuel) o (l ++ fmt) args =
  vsprintf_loop fuel (VsOut (vs_str o ++ l) (vs_stores o)) fmt args.
Proof.
  intros Hl. revert o. induction Hl as [|c l Hc Hl IH]; intros o; simpl.
  - rw app_nil_r. by destruct o.
  - rw (proj2 (Z.eqb_neq c 37)) //=. rw IH /vs_emit /=. by rw -app_assoc.
Qed.

(** A format with one [%s] in it. *)
Lemma sprintf_s pre post s :
  Forall (λ c, c ≠ 37) pre → Forall (λ c, c ≠ 37) post → Z.of_nat (length s) < 2 ^ 32 →
  sprintf (pre ++ [37; 115] ++ post) [VStr (Some s)] =
  Ok (pre ++ s ++ post, Z.of_nat (length (pre ++ s ++ post))).
Proof.
  intros Hpre Hpost Hs.
  assert (vsprintf (pre ++ [37; 115] ++ post) [VStr (Some s)] =
          Ok (VsOut (pre ++ s ++ post) [])) as H.
  { rw /vsprintf. replace (length (pre ++ [37; 115] ++ post))
      with (length pre + S (S (length post)))%nat by (rw !length_app /=; lia).
    rw vsprintf_loop_literal //. remember (S (length post)) as fuel eqn:Hfuel. simpl.
    replace (Z.to_nat (Z.min (Z.of_nat (length s)) (u32 (-1)))) with (length s)
      by (change (u32 (-1)) with (2 ^ 32 - 1); lia).
    rw (pad_neg 32 (-1 - Z.of_nat (length s))); [lia|]. rw firstn_all. simpl.
    rw Hfuel -(app_nil_r post) length_app Nat.add_0_r -Nat.add_1_r vsprintf_loop_literal //. simpl.
    by rw app_nil_r -!app_assoc. }
  by rw /sprintf H.
Qed.
