(* ===== verification/EnvFormat.v ===== *)
(** * The environment block: format and abstract contents

    cmd_nvedit.c and environment.h describe the data part of an environment
    block in words: '\0'-terminated "name=value" strings, the end marked by a
    double '\0'.  Here it is a predicate on byte arrays, [env_repr], against
    an abstract list of entries with lookup, removal and setting.  U-Boot and
    the kernel both implement these operations on the bytes. *)

From Stdlib Require Import ssreflect ZArith Lia.
From stdpp Require Import base tactics numbers list sets.
From S2P Require Import Prelude.

Set Default Goal Selector "!".
Open Scope general_if_scope.

Definition NUL : Z := 0.
Definition EQ : Z := 61.

(** ** Abstract contents *)

(** An entry is the bytes of one "name=value" string. *)
Abbreviation entry := (list Z).

Fixpoint entry_name (e : entry) : list Z :=
  match e with
  | [] => []
  | c :: e' => if decide (c = EQ) then [] else c :: entry_name e'
  end.

Definition entry_value (e : entry) : list Z := drop (S (length (entry_name e))) e.

Definition mk_entry (name value : list Z) : entry := name ++ EQ :: value.

(** A string of the block: no NUL inside, and a '='. *)
Definition entry_ok (e : entry) : Prop := (NUL ∉ e) ∧ (EQ ∈ e).
(** A name one can ask for: no NUL, no '='. *)
Definition name_ok (name : list Z) : Prop := (NUL ∉ name) ∧ (EQ ∉ name).

Fixpoint env_lookup (name : list Z) (es : list entry) : option (list Z) :=
  match es with
  | [] => None
  | e :: es' => if decide (entry_name e = name) then Some (entry_value e)
                else env_lookup name es'
  end.

Fixpoint env_remove (name : list Z) (es : list entry) : list entry :=
  match es with
  | [] => []
  | e :: es' => if decide (entry_name e = name) then es'
                else e :: env_remove name es'
  end.

Definition env_set (name value : list Z) (es : list entry) : list entry :=
  env_remove name es ++ [mk_entry name value].

(** Well-formed contents: proper strings, each name at most once. *)
Definition env_wf (es : list entry) : Prop :=
  Forall entry_ok es ∧ NoDup (entry_name <$> es).

(** ** Concrete format *)

Definition enc (es : list entry) : list Z := mjoin ((λ e, e ++ [NUL]) <$> es).

(** The array starts with the strings, then the final NUL.  An empty
    environment starts with two NULs. *)
Definition env_repr (es : list entry) (data : list Z) : Prop :=
  ∃ rest, data = enc es ++ NUL :: rest ∧ (es = [] → head rest = Some NUL).

(** Bytes the strings and the double NUL take. *)
Definition env_bytes (es : list entry) : nat :=
  match es with [] => 2 | _ => S (length (enc es)) end.

#[export] Instance entry_ok_dec e : Decision (entry_ok e).
Proof. rw /entry_ok. apply _. Defined.
#[export] Instance name_ok_dec n : Decision (name_ok n).
Proof. rw /name_ok. apply _. Defined.
#[export] Instance env_wf_dec es : Decision (env_wf es).
Proof. rw /env_wf. apply _. Defined.

(** ** Lists *)

Lemma lookup_app_add {A} (l1 l2 : list A) i : (l1 ++ l2) !! (length l1 + i) = l2 !! i.
Proof. rw lookup_app_r; [lia|]. f_equal. lia. Qed.

Lemma lookup_app_len {A} (l1 l2 : list A) x : (l1 ++ x :: l2) !! length l1 = Some x.
Proof. by rw list_lookup_middle. Qed.

Lemma insert_app_len {A} (l1 l2 : list A) x y :
  <[length l1 := y]> (l1 ++ x :: l2) = l1 ++ y :: l2.
Proof. by rw insert_app_r_alt // Nat.sub_diag. Qed.

Lemma length_app4 {A} (l1 l2 l3 l4 : list A) :
  length (l1 ++ l2 ++ l3 ++ l4) = (length l1 + length l2 + length l3 + length l4)%nat.
Proof. rw !length_app. lia. Qed.

Lemma head_app_some {A} (l1 l2 : list A) x :
  head l1 = Some x → head (l1 ++ l2) = Some x.
Proof. by destruct l1. Qed.

(** ** Entries *)

Lemma entry_name_cons c e :
  entry_name (c :: e) = if decide (c = EQ) then [] else c :: entry_name e.
Proof. done. Qed.

Lemma entry_name_mk name value : EQ ∉ name → entry_name (mk_entry name value) = name.
Proof.
  rw /mk_entry. induction name as [|c name IH]; intros Hn.
  - done.
  - apply not_elem_of_cons in Hn as [Hc Hn].
    rw -app_comm_cons entry_name_cons decide_False; [done|]. by rw IH.
Qed.

Lemma entry_value_mk name value : EQ ∉ name → entry_value (mk_entry name value) = value.
Proof.
  intros Hn. rw /entry_value entry_name_mk //. rw /mk_entry.
  by rw -(Nat.add_1_r (length name)) -drop_drop drop_app_length.
Qed.

Lemma entry_name_no_eq e : EQ ∉ entry_name e.
Proof.
  induction e as [|c e IH]; [apply not_elem_of_nil|]. rw entry_name_cons.
  destruct (decide (c = EQ)); [apply not_elem_of_nil|].
  by apply not_elem_of_cons.
Qed.

(** An entry is its name, '=' and its value. *)
Lemma entry_split e : EQ ∈ e → e = mk_entry (entry_name e) (entry_value e).
Proof.
  rw /entry_value. induction e as [|c e IH]; [by intros ?%elem_of_nil|]. rw entry_name_cons.
  intros Hin. destruct (decide (c = EQ)) as [->|Hne].
  - done.
  - apply elem_of_cons in Hin as [?|Hin]; [done|].
    rw {1}(IH Hin). done.
Qed.

Lemma mk_entry_ok name value : name_ok name → NUL ∉ value → entry_ok (mk_entry name value).
Proof.
  rw /mk_entry. intros [Hn _] Hv. split; [|set_solver].
  apply not_elem_of_app. split; [done|]. by apply not_elem_of_cons.
Qed.

Lemma entry_name_no_nul e : NUL ∉ e → NUL ∉ entry_name e.
Proof.
  induction e as [|c e IH]; [done|]. rw entry_name_cons.
  intros [Hc He]%not_elem_of_cons. destruct (decide (c = EQ)); [apply not_elem_of_nil|].
  apply not_elem_of_cons. auto.
Qed.

(** ** The abstract operations *)

Lemma env_lookup_app name es1 es2 :
  env_lookup name (es1 ++ es2) =
  match env_lookup name es1 with Some v => Some v | None => env_lookup name es2 end.
Proof. induction es1 as [|e es1 IH]; simpl; [done|]. by destruct (decide _). Qed.

Lemma env_lookup_none name es : env_lookup name es = None ↔ name ∉ entry_name <$> es.
Proof.
  induction es as [|e es IH]; simpl; [split; [by intros _ ?%elem_of_nil|done]|].
  rw not_elem_of_cons. destruct (decide _); naive_solver.
Qed.

Lemma env_remove_notin name es : name ∉ entry_name <$> es → env_remove name es = es.
Proof.
  induction es as [|e es IH]; simpl; [done|].
  intros [Hn Hns]%not_elem_of_cons. rw decide_False; [done|]. by rw IH.
Qed.

Lemma env_remove_names_subseteq name es :
  entry_name <$> env_remove name es ⊆ entry_name <$> es.
Proof.
  induction es as [|e es IH]; simpl; [done|].
  destruct (decide _); simpl; set_solver.
Qed.

Lemma env_remove_wf name es : env_wf es → env_wf (env_remove name es).
Proof.
  intros [Hok Hnd]. induction es as [|e es IH]; simpl; [done|].
  apply Forall_cons in Hok as [He Hok]. apply NoDup_cons in Hnd as [Hni Hnd].
  destruct (decide _); [done|]. destruct (IH Hok Hnd) as [Hok' Hnd'].
  split; [by apply Forall_cons|]. simpl. apply NoDup_cons. split; [|done].
  intros Hin. apply Hni. by apply (env_remove_names_subseteq name).
Qed.

Lemma env_remove_gone name es : env_wf es → name ∉ entry_name <$> env_remove name es.
Proof.
  intros [_ Hnd]. induction es as [|e es IH]; simpl; [apply not_elem_of_nil|].
  simpl in Hnd. apply NoDup_cons in Hnd as [Hni Hnd].
  destruct (decide _) as [<-|Hne]; [done|]. simpl. apply not_elem_of_cons; auto.
Qed.

Lemma env_lookup_remove_ne name name' es :
  name ≠ name' → env_lookup name' (env_remove name es) = env_lookup name' es.
Proof.
  intros Hne. induction es as [|e es IH]; simpl; [done|].
  destruct (decide (entry_name e = name)) as [<-|]; simpl; [by rw decide_False|].
  by rw IH.
Qed.

Lemma env_set_wf name value es :
  env_wf es → name_ok name → NUL ∉ value → env_wf (env_set name value es).
Proof.
  intros Hwf Hn Hv. destruct (env_remove_wf name es Hwf) as [Hok Hnd]. split.
  - apply Forall_app. split; [done|]. by apply Forall_singleton, mk_entry_ok.
  - rw fmap_app /= entry_name_mk; [apply Hn|]. apply NoDup_app.
    split_and!; [done| |by apply NoDup_singleton].
    intros x Hx ->%list_elem_of_singleton. by eapply env_remove_gone.
Qed.

Lemma env_lookup_set_eq name value es :
  env_wf es → name_ok name → env_lookup name (env_set name value es) = Some value.
Proof.
  intros Hwf Hn. rw env_lookup_app.
  rw (proj2 (env_lookup_none _ _)); [by apply env_remove_gone|]. simpl.
  rw entry_name_mk; [apply Hn|]. rw decide_True //. f_equal. apply entry_value_mk, Hn.
Qed.

Lemma env_lookup_set_ne name name' value es :
  name_ok name → name ≠ name' →
  env_lookup name' (env_set name value es) = env_lookup name' es.
Proof.
  intros Hn Hne. rw env_lookup_app env_lookup_remove_ne //.
  destruct (env_lookup name' es); [done|]. simpl.
  rw entry_name_mk; [apply Hn|]. by rw decide_False.
Qed.

(** ** The encoding *)

Lemma enc_nil : enc [] = [].
Proof. done. Qed.

Lemma enc_app es1 es2 : enc (es1 ++ es2) = enc es1 ++ enc es2.
Proof. by rw /enc fmap_app join_app. Qed.

Lemma enc_cons e es : enc (e :: es) = e ++ NUL :: enc es.
Proof. rw /enc /=. by rw -app_assoc. Qed.

Lemma enc_snoc es e : enc (es ++ [e]) = enc es ++ e ++ [NUL].
Proof. rw enc_app enc_cons. done. Qed.

Lemma entry_ok_ne e : entry_ok e → e ≠ [].
Proof. intros [_ Hin] ->. by apply elem_of_nil in Hin. Qed.

Lemma env_repr_length es data : env_repr es data → (env_bytes es ≤ length data)%nat.
Proof.
  intros (rest & -> & Hnil). rw length_app /=. destruct es as [|e es].
  - rw enc_nil. destruct rest; [by specialize (Hnil eq_refl)|simpl; lia].
  - simpl. lia.
Qed.

Lemma env_remove_split name es1 e es2 :
  name ∉ (entry_name <$> es1) → entry_name e = name →
  env_remove name (es1 ++ e :: es2) = es1 ++ es2.
Proof.
  intros Hn He. induction es1 as [|e1 es1 IH]; simpl.
  - by rw decide_True.
  - simpl in Hn. apply not_elem_of_cons in Hn as [Hne Hn].
    rw decide_False; [done|]. by rw IH.
Qed.

Lemma env_lookup_split name es1 e es2 :
  name ∉ (entry_name <$> es1) → entry_name e = name →
  env_lookup name (es1 ++ e :: es2) = Some (entry_value e).
Proof.
  intros Hn He. rw env_lookup_app (proj2 (env_lookup_none _ _)) //=. by rw decide_True.
Qed.

(** The value of a string starts after its name and the '='. *)
Lemma entry_value_drop e name : entry_name e = name → entry_value e = drop (S (length name)) e.
Proof. by intros <-. Qed.
