(* ===== verification/EnvOps.v ===== *)
(** * Environment algorithms on the bytes (u-boot/common/cmd_nvedit.c)

    The loops with which U-Boot searches, deletes from and appends to the data
    part of the environment, one definition per loop, over the byte array of
    [Prelude]: an index is a pointer minus [env_data].  The kernel's
    kernel/drivers/mtd/wmt_env.c has the same loops and is built on these
    definitions too.  Every definition takes the fuel [n] of its loops; any
    [n] above the length of the array is enough. *)

From Stdlib Require Import ssreflect ZArith Lia.
From stdpp Require Import base tactics numbers list sets.
From S2P Require Import Prelude EnvFormat.

Set Default Goal Selector "!".
Open Scope general_if_scope.

(** [for (nxt=i; env_get_char(nxt) != '\0'; ++nxt) ;] *)
Definition env_string_end (n i : nat) : M (list Z) nat :=
  loopM n (λ nxt,
    let! c := load nxt in
    if (c =? NUL)%Z then ret (inr nxt) else ret (inl (S nxt))) i.

(** [envmatch]: the index after the '=', or -1. *)
Definition envmatch (n : nat) (s1 : list Z) (i2 : nat) : M (list Z) Z :=
  loopM n (λ '(s1i, i2),
    let! c1 := str_get s1 s1i in
    let! c2 := load i2 in
    let i2 := S i2 in
    if (c1 =? c2)%Z then
      if (c1 =? EQ)%Z then ret (inr (Z.of_nat i2)) else ret (inl (S s1i, i2))
    else
      if (c1 =? NUL)%Z then
        let! c := load (i2 - 1) in
        if (c =? EQ)%Z then ret (inr (Z.of_nat i2)) else ret (inr (-1)%Z)
      else ret (inr (-1)%Z)) (0, i2).

(** The search loop of [_do_setenv]: where [env] and [nxt] stop, and [oldval]. *)
Definition env_search (n : nat) (name : list Z) : M (list Z) (nat * nat * Z) :=
  loopM n (λ '(env, nxt, oldval),
    let! c := load env in
    if (c =? NUL)%Z then ret (inr (env, nxt, oldval)) else
    let! nxt := env_string_end n env in
    let! oldval := envmatch n name env in
    if (0 <=? oldval)%Z then ret (inr (env, nxt, oldval))
    else ret (inl (nxt + 1, nxt, oldval))) (0, 0, (-1)%Z).

(** "Delete any existing definition": [env] is the start of the string and
    [nxt] its NUL. *)
Definition env_delete (n env nxt : nat) : M (list Z) unit :=
  let nxt := S nxt in
  let! c := load nxt in
  let! env :=
    if (c =? NUL)%Z then
      if decide (0 < env) then ret (env - 1) else store env NUL ;;; ret env
    else
      loopM n (λ '(env, nxt),
        let! c := load nxt in
        let nxt := S nxt in
        store env c ;;;
        let! c1 := load env in
        if (c1 =? NUL)%Z then
          let! c2 := load nxt in
          if (c2 =? NUL)%Z then ret (inr env) else ret (inl (S env, nxt))
        else ret (inl (S env, nxt))) (env, nxt) in
  store (S env) NUL.

(** [for (env=env_data; *env || *(env+1); ++env) ; if (env > env_data) ++env;] *)
Definition env_end (n : nat) : M (list Z) nat :=
  let! env :=
    loopM n (λ env,
      let! c := load env in
      if (c =? NUL)%Z then
        let! c' := load (env + 1) in
        if (c' =? NUL)%Z then ret (inr env) else ret (inl (S env))
      else ret (inl (S env))) 0 in
  ret (if decide (0 < env) then S env else env).

(** Copying a C string with its NUL to [env]: the loop that copies the name and,
    entered one byte further, the loop that copies a value.  It leaves [env] at
    the NUL. *)
Definition env_put_string (s : list Z) (env : nat) : M (list Z) nat :=
  loopM (S (length s)) (λ '(i, env),
    let! c := str_get s i in
    store env c ;;;
    if (c =? NUL)%Z then ret (inr env) else ret (inl (S i, S env))) (0, env).

(** ** Reading a string inside the array *)

Lemma wp_string_end n pre e suf Q :
  NUL ∉ e → (length e < n)%nat →
  Q (length pre + length e) (pre ++ e ++ NUL :: suf) →
  wp (env_string_end n (length pre)) Q (pre ++ e ++ NUL :: suf).
Proof.
  intros He Hn HQ. set (data := pre ++ e ++ NUL :: suf) in *.
  apply (wp_loop (λ i d, d = data ∧ (length pre ≤ i ≤ length pre + length e)%nat)
           (λ i, length pre + length e - i)%nat); [|split; [done|lia]|lia].
  intros i d [-> Hi]. apply wp_bind.
  replace i with (length pre + (i - length pre))%nat at 1 by lia.
  destruct (decide (i - length pre < length e)%nat) as [Hlt|Hge].
  - destruct (lookup_lt_is_Some_2 e (i - length pre) Hlt) as [c Hc].
    eapply wp_load; [by rw lookup_app_add lookup_app_l|].
    destruct (Z.eqb_spec c NUL) as [->|Hne].
    + exfalso. by apply He, (list_elem_of_lookup_2 _ (i - length pre)).
    + apply wp_ret. split; [split; [done|]|]; lia.
  - replace (i - length pre)%nat with (length e) by lia.
    eapply wp_load; [by rw lookup_app_add lookup_app_len|]. rw Z.eqb_refl.
    apply wp_ret. replace i with (length pre + length e)%nat by lia. done.
Qed.

(** Matching a name against a string of the block: the index of its value. *)
Lemma wp_envmatch n name pre e suf Q :
  name_ok name → entry_ok e → (length name < n)%nat →
  Q (if decide (entry_name e = name) then Z.of_nat (length pre + length name + 1)
     else (-1)%Z) (pre ++ e ++ NUL :: suf) →
  wp (envmatch n name (length pre)) Q (pre ++ e ++ NUL :: suf).
Proof.
  intros [Hn0 HnE] [He0 HeE] Hn HQ. set (data := pre ++ e ++ NUL :: suf) in *.
  pose proof (entry_split e HeE) as Hsplit.
  set (en := entry_name e) in *. set (ev := entry_value e) in *.
  assert (EQ ∉ en) as HenE by apply entry_name_no_eq.
  assert (∀ i, data !! (length pre + i)%nat = (en ++ EQ :: ev ++ NUL :: suf) !! i) as Hdata.
  { intros i. rw /data lookup_app_add Hsplit /mk_entry -!app_assoc. done. }
  apply (wp_loop (λ '(si, i2) d, d = data ∧ i2 = (length pre + si)%nat ∧
                    (si ≤ length name)%nat ∧ (si ≤ length en)%nat ∧ take si name = take si en)
           (λ '(si, i2), length name - si)%nat); [|split_and!; [done|lia..|done]|lia].
  intros [si i2] d (-> & -> & Hsi & Hse & Htake).
  assert (∃ c1, (name ++ [NUL]) !! si = Some c1) as [c1 Hc1].
  { apply lookup_lt_is_Some_2. rw length_app /=. lia. }
  assert (∃ c2, (en ++ [EQ]) !! si = Some c2) as [c2 Hc2].
  { apply lookup_lt_is_Some_2. rw length_app /=. lia. }
  assert (data !! (length pre + si)%nat = Some c2) as Hload.
  { rw Hdata (cons_middle EQ) app_assoc lookup_app_l //. rw length_app /=. lia. }
  apply wp_bind. eapply wp_str_get; [exact Hc1|]. apply wp_bind.
  eapply wp_load; [exact Hload|]. cbv beta zeta.
  assert (si < length name → si < length en → c1 = c2 →
          take (S si) name = take (S si) en)%nat as Hext.
  { intros Hl1 Hl2 ->. rw lookup_app_l // in Hc1. rw lookup_app_l // in Hc2.
    by rw (take_S_r _ _ _ Hc1) (take_S_r _ _ _ Hc2) Htake. }
  destruct (decide (si < length name)%nat) as [Hl1|Hl1];
    destruct (decide (si < length en)%nat) as [Hl2|Hl2].
  - rw lookup_app_l // in Hc1. rw lookup_app_l // in Hc2.
    destruct (Z.eqb_spec c1 c2) as [Heq|Hne].
    + destruct (Z.eqb_spec c1 EQ) as [->|_].
      { exfalso. apply HnE. by eapply list_elem_of_lookup_2. }
      apply wp_ret. split; [split_and!; [done|lia..|by apply Hext]|lia].
    + destruct (Z.eqb_spec c1 NUL) as [->|_].
      { exfalso. apply Hn0. by eapply list_elem_of_lookup_2. }
      apply wp_ret. rw decide_False // in HQ. intros ->. by simplify_eq.
  - (* the string's name is a proper prefix of the name *)
    assert (si = length en) as -> by lia. rw lookup_app_l // in Hc1.
    rw lookup_app_len in Hc2. simplify_eq.
    assert (c1 ≠ EQ) as Hc1E.
    { intros ->. apply HnE. by eapply list_elem_of_lookup_2. }
    rw (proj2 (Z.eqb_neq c1 EQ)) //. destruct (Z.eqb_spec c1 NUL) as [->|_].
    { exfalso. apply Hn0. by eapply list_elem_of_lookup_2. }
    apply wp_ret. rw decide_False // in HQ. intros Heq. rw Heq in Hl1. lia.
  - (* the name is a proper prefix of the string's name *)
    assert (si = length name) as -> by lia. rw lookup_app_len in Hc1. simplify_eq.
    rw lookup_app_l // in Hc2.
    assert (c2 ≠ NUL) as Hc20.
    { intros ->. apply (entry_name_no_nul e He0). by eapply list_elem_of_lookup_2. }
    assert (c2 ≠ EQ) as Hc2E.
    { intros ->. apply HenE. by eapply list_elem_of_lookup_2. }
    rw (proj2 (Z.eqb_neq NUL c2)) //= Nat.sub_0_r. apply wp_bind.
    eapply wp_load; [exact Hload|]. rw (proj2 (Z.eqb_neq c2 EQ)) //.
    apply wp_ret. rw decide_False // in HQ. intros Heq. rw Heq in Hl2. lia.
  - (* the names are equal *)
    assert (si = length name) as -> by lia.
    assert (length en = length name) as Hlen by lia.
    rw lookup_app_len in Hc1. rw -Hlen lookup_app_len in Hc2. simplify_eq.
    rw firstn_all -Hlen firstn_all in Htake.
    change (NUL =? EQ)%Z with false. cbv iota. rw Z.eqb_refl /= Nat.sub_0_r.
    apply wp_bind. eapply wp_load; [rw -Hlen in Hload |- *; exact Hload|].
    rw Z.eqb_refl. apply wp_ret. rw decide_True // in HQ.
    by rw (Nat.add_comm _ 1) in HQ.
Qed.

(** ** Searching *)

Lemma enc_length_pos e es : (0 < length (enc (e :: es)))%nat.
Proof. rw enc_cons length_app /=. lia. Qed.

(** What the search loop finds in a block that holds [es]. *)
Definition search_result (name : list Z) (es : list entry) (r : nat * nat * Z) : Prop :=
  (∃ es1 e es2, es = es1 ++ e :: es2 ∧ name ∉ (entry_name <$> es1) ∧ entry_name e = name ∧
     r = (length (enc es1), length (enc es1) + length e,
          Z.of_nat (length (enc es1) + length name + 1))) ∨
  (name ∉ (entry_name <$> es) ∧ r.2 = (-1)%Z).

Lemma enc_split_data es1 e es2 rest :
  enc (es1 ++ e :: es2) ++ NUL :: rest = enc es1 ++ e ++ NUL :: enc es2 ++ NUL :: rest.
Proof. by rw enc_app enc_cons -!app_assoc. Qed.

Lemma entry_name_length e : (length (entry_name e) ≤ length e)%nat.
Proof.
  induction e as [|c e IH]; [done|]. rw entry_name_cons. destruct (decide _); simpl; lia.
Qed.

Lemma wp_search n name es data (Q : nat * nat * Z → list Z → Prop) :
  env_wf es → env_repr es data → name_ok name →
  (length name < n)%nat → (length data < n)%nat →
  (∀ r, search_result name es r → Q r data) →
  wp (env_search n name) Q data.
Proof.
  intros [Hok Hnd] (rest & Hdata & _) Hname Hn Hn' HQ.
  apply (wp_loop (λ '(env, nxt, oldval) d, d = data ∧ oldval = (-1)%Z ∧
           ∃ es1 es2, es = es1 ++ es2 ∧ env = length (enc es1) ∧ name ∉ (entry_name <$> es1))
           (λ '(env, nxt, oldval), length data - env)%nat);
    [|split_and!; [done..|exists [], es; split_and!; [done..|apply not_elem_of_nil]]|lia].
  intros [[env nxt] oldval] d (-> & -> & es1 & es2 & -> & -> & Hnot).
  apply wp_bind. destruct es2 as [|e es2].
  - rw app_nil_r in Hdata HQ. eapply wp_load; [by rw Hdata lookup_app_len|].
    rw Z.eqb_refl. apply wp_ret, HQ. by right.
  - rw enc_split_data in Hdata.
    apply Forall_app in Hok as [_ Hok]. apply Forall_cons in Hok as [He Hok].
    assert (length (enc es1) + length e < length data)%nat as Hlen.
    { rw Hdata !length_app /=. lia. }
    destruct e as [|c e]; [by apply entry_ok_ne in He|].
    eapply (wp_load _ _ c); [by rw Hdata lookup_app_r // Nat.sub_diag|].
    destruct (Z.eqb_spec c NUL) as [->|_].
    { exfalso. apply (proj1 He). by left. }
    rw Hdata. apply wp_bind, wp_string_end; [apply He|simpl in *; lia|].
    apply wp_bind, wp_envmatch; [done..|].
    destruct (decide (entry_name (c :: e) = name)) as [Heq|Hne].
    + rw (proj2 (Z.leb_le _ _)); [lia|]. apply wp_ret. rw -Hdata. apply HQ.
      left. by exists es1, (c :: e), es2.
    + change (0 <=? -1)%Z with false. apply wp_ret. rw -Hdata. split; [|simpl in *; lia].
      split_and!; [done..|]. exists (es1 ++ [c :: e]), es2.
      rw -app_assoc enc_snoc !length_app fmap_app /=. split_and!; [done|lia|].
      apply not_elem_of_app. split; [done|]. by apply not_elem_of_cons; split; [|apply not_elem_of_nil].
Qed.

(** ** The double NUL *)

(** Inside the strings, a NUL is followed by the first byte of the next string. *)
Lemma enc_nul_next es k c :
  Forall entry_ok es → enc es !! k = Some NUL → enc es !! S k = Some c → c ≠ NUL.
Proof.
  intros Hok. revert k. induction Hok as [|e es He Hok IH]; intros k; [done|].
  rw enc_cons. destruct (decide (k < length e)%nat) as [Hlt|Hge].
  - rw lookup_app_l //. intros Hk. exfalso. apply (proj1 He). by eapply list_elem_of_lookup_2.
  - replace k with (length e + (k - length e))%nat at 1 2 by lia.
    rw -Nat.add_succ_r !lookup_app_add.
    destruct (k - length e)%nat as [|k']; simpl; [|apply IH].
    intros _. destruct es as [|e2 es]; [done|]. rw enc_cons.
    apply Forall_cons in Hok as [He2 _].
    destruct e2 as [|c2 e2]; [by apply entry_ok_ne in He2|]. intros [= <-] ->.
    apply (proj1 He2). by left.
Qed.

Lemma enc_last es : es ≠ [] → enc es !! (length (enc es) - 1) = Some NUL.
Proof.
  destruct es as [|e es _] using rev_ind; [done|]. intros _.
  rw enc_snoc app_assoc lookup_app_r !length_app /=; [lia|].
  match goal with |- _ !! ?k = _ => replace k with 0%nat by lia end. done.
Qed.

Lemma enc_length_ge2 e es : entry_ok e → (2 ≤ length (enc (e :: es)))%nat.
Proof.
  intros He. rw enc_cons length_app /=. destruct e; [by apply entry_ok_ne in He|simpl; lia].
Qed.

(** In a block, a NUL at [k] before the last string's end has no NUL after it. *)
Lemma block_nul_next es rest k :
  Forall entry_ok es → (S k < length (enc es))%nat →
  enc es !! k = Some NUL →
  ∃ c, (enc es ++ NUL :: rest) !! S k = Some c ∧ c ≠ NUL.
Proof.
  intros Hok Hk HN. destruct (lookup_lt_is_Some_2 (enc es) (S k) Hk) as [c Hc].
  exists c. split; [by rw lookup_app_l|]. by eapply enc_nul_next.
Qed.

(** Scanning for the end of the block. *)
Lemma wp_env_end n es data (Q : nat → list Z → Prop) :
  Forall entry_ok es → env_repr es data → (length data < n)%nat →
  Q (length (enc es)) data → wp (env_end n) Q data.
Proof.
  intros Hok (rest & Hdata & Hnil) Hn HQ. rw /env_end. apply wp_bind.
  destruct es as [|e0 es0].
  { apply (wp_loop (λ env d, d = data ∧ env = 0%nat) (λ _, 0%nat)); [|done|lia].
    intros env d [-> ->]. rw enc_nil /= in Hdata. specialize (Hnil eq_refl).
    destruct rest as [|? rest]; simplify_eq/=.
    apply wp_bind. eapply wp_load; [done|]. rw Z.eqb_refl.
    apply wp_bind. eapply wp_load; [done|]. rw Z.eqb_refl.
    apply wp_ret, wp_ret. done. }
  set (es := e0 :: es0) in *. set (L := length (enc es)) in *.
  assert (2 ≤ L)%nat as HL.
  { apply enc_length_ge2. by apply Forall_cons in Hok as [? _]. }
  assert (L < length data)%nat as HLd. { rw Hdata length_app /=. lia. }
  apply (wp_loop (λ env d, d = data ∧ (env < L)%nat) (λ env, L - env)%nat); [|split; [done|lia]|lia].
  intros env d [-> Henv].
  destruct (lookup_lt_is_Some_2 (enc es) env Henv) as [c Hc].
  apply wp_bind. eapply wp_load; [by rw Hdata lookup_app_l|].
  destruct (decide (env = L - 1)%nat) as [->|Hne].
  - rw enc_last // in Hc. injection Hc as <-. rw Z.eqb_refl. apply wp_bind.
    eapply wp_load; [replace (L - 1 + 1)%nat with L by lia; by rw Hdata lookup_app_len|].
    rw Z.eqb_refl. apply wp_ret, wp_ret. rw decide_True; [lia|].
    by replace (S (L - 1)) with L by lia.
  - destruct (Z.eqb_spec c NUL) as [->|_]; [|apply wp_ret; split; [split; [done|]|]; lia].
    destruct (block_nul_next es rest env) as (c' & Hc' & Hne'); [done|lia|done|].
    apply wp_bind. eapply wp_load; [by rw Nat.add_1_r Hdata|].
    rw (proj2 (Z.eqb_neq c' NUL)) //. apply wp_ret. split; [split; [done|]|]; lia.
Qed.

(** ** Copying a string *)

Lemma wp_put_string s pre old suf (Q : nat → list Z → Prop) :
  NUL ∉ s → length old = S (length s) →
  Q (length pre + length s) (pre ++ s ++ NUL :: suf) →
  wp (env_put_string s (length pre)) Q (pre ++ old ++ suf).
Proof.
  intros Hs Hold HQ.
  apply (wp_loop (λ '(i, env) d, (i ≤ length s)%nat ∧ env = (length pre + i)%nat ∧
           d = pre ++ take i s ++ drop i old ++ suf) (λ '(i, env), length s - i)%nat);
    [|split_and!; [lia..|done]|lia].
  intros [i env] d (Hi & -> & ->).
  assert (length (pre ++ take i s) = (length pre + i)%nat) as Hlen.
  { rw length_app length_take. lia. }
  destruct (drop i old) as [|x old'] eqn:Hdrop.
  { apply (f_equal length) in Hdrop. rw length_drop /= in Hdrop. lia. }
  assert (drop (S i) old = old') as Hdrop'.
  { rw -Nat.add_1_r -drop_drop Hdrop. done. }
  assert (∃ c, (s ++ [NUL]) !! i = Some c) as [c Hc].
  { apply lookup_lt_is_Some_2. rw length_app /=. lia. }
  apply wp_bind. eapply wp_str_get; [exact Hc|]. apply wp_bind.
  rw app_assoc -Hlen. apply wp_store; [rw !length_app /=; lia|].
  rw -app_comm_cons insert_app_len.
  destruct (decide (i < length s)%nat) as [Hlt|Hge].
  - rw lookup_app_l // in Hc. destruct (Z.eqb_spec c NUL) as [->|_].
    { exfalso. apply Hs. by eapply list_elem_of_lookup_2. }
    apply wp_ret. split; [|lia]. split_and!; [lia|lia|].
    rw Hdrop' (take_S_r _ _ _ Hc) -!app_assoc. done.
  - assert (i = length s) as -> by lia. rw lookup_app_len in Hc. simplify_eq.
    rw Z.eqb_refl. apply wp_ret. rw Hlen.
    assert (length (drop (S (length s)) old) = 0)%nat as Hnil.
    { rw length_drop. lia. }
    apply nil_length_inv in Hnil as ->. by rw firstn_all -app_assoc.
Qed.

(** ** Deleting *)

(** Shifting the strings [es2] down over the deleted one. *)
Lemma wp_delete_shift n pre gap es2 rest (Q : nat → list Z → Prop) :
  Forall entry_ok es2 → es2 ≠ [] → gap ≠ [] → (length (enc es2) < n)%nat →
  (∀ tl, length tl = S (length gap + length rest) →
     Q (length pre + length (enc es2) - 1) (pre ++ enc es2 ++ tl)) →
  wp (loopM n (λ '(env, nxt),
        let! c := load nxt in
        let nxt := S nxt in
        store env c ;;;
        let! c1 := load env in
        if (c1 =? NUL)%Z then
          let! c2 := load nxt in
          if (c2 =? NUL)%Z then ret (inr env) else ret (inl (S env, nxt))
        else ret (inl (S env, nxt))) (length pre, length pre + length gap))
     Q (pre ++ gap ++ enc es2 ++ NUL :: rest).
Proof.
  intros Hok Hne Hgap Hn HQ. set (src := enc es2) in *.
  set (data := pre ++ gap ++ src ++ NUL :: rest) in *.
  set (p := length pre) in *. set (g := length gap) in *.
  assert (0 < g)%nat by (destruct gap; [done|simpl in *; lia]).
  assert (0 < length src)%nat as HL.
  { subst src. destruct es2; [done|apply enc_length_pos]. }
  apply (wp_loop (λ '(env, nxt) d, ∃ k, (k < length src)%nat ∧ env = (p + k)%nat ∧
             nxt = (p + g + k)%nat ∧ d = (pre ++ take k src) ++ drop (p + k) data)
           (λ '(env, nxt), p + length src - env)%nat); [| |lia].
  2:{ exists 0%nat. split_and!; [lia..|]. by rw take_0 app_nil_r Nat.add_0_r /data drop_app_length. }
  intros [env nxt] d (k & Hk & -> & -> & ->).
  assert (length (pre ++ take k src) = (p + k)%nat) as Hl1.
  { rw length_app length_take. lia. }
  assert (∀ j, data !! (p + g + j)%nat = (src ++ NUL :: rest) !! j) as Hdata.
  { intros j. by rw -Nat.add_assoc /data !lookup_app_add. }
  assert (length data = p + g + length src + S (length rest))%nat as Hld.
  { rw /data !length_app /=. lia. }
  destruct (lookup_lt_is_Some_2 src k Hk) as [c Hc].
  destruct (drop (p + k) data) as [|x tl] eqn:Hdrop.
  { apply (f_equal length) in Hdrop. rw length_drop /= in Hdrop. lia. }
  assert (tl = drop (p + S k) data) as Htl.
  { rw -(Nat.add_1_r k) Nat.add_assoc -drop_drop Hdrop. done. }
  assert (∀ j, ((pre ++ take k src) ++ c :: tl) !! (p + g + k + j)%nat
               = data !! (p + g + k + j)%nat) as Hnew.
  { intros j. rw (cons_middle c) app_assoc lookup_app_r length_app Hl1 /=; [lia|].
    rw Htl lookup_drop. f_equal. lia. }
  apply wp_bind. eapply (wp_load _ _ c).
  { rw lookup_app_r Hl1; [lia|]. rw -Hdrop lookup_drop.
    replace (p + k + (p + g + k - (p + k)))%nat with (p + g + k)%nat by lia.
    by rw Hdata lookup_app_l. }
  cbv zeta. apply wp_bind. rw -Hl1. apply wp_store; [rw !length_app /=; lia|].
  rw insert_app_len. apply wp_bind. eapply wp_load; [by rw lookup_app_len|]. rw Hl1.
  assert (take k src ++ [c] = take (S k) src) as Htake by (by rw -take_S_r).
  assert ((pre ++ take k src) ++ c :: tl =
          (pre ++ take (S k) src) ++ drop (p + S k) data) as Hstep.
  { by rw (cons_middle c) app_assoc -(app_assoc pre) Htake Htl. }
  destruct (Z.eqb_spec c NUL) as [->|Hcne].
  - destruct (decide (k = length src - 1)%nat) as [->|Hlast].
    + apply wp_bind. eapply wp_load.
      { rw -(Nat.add_1_r) Hnew -Nat.add_assoc Hdata.
        replace (length src - 1 + 1)%nat with (length src) by lia. by rw lookup_app_len. }
      rw Z.eqb_refl. apply wp_ret.
      replace (p + (length src - 1))%nat with (p + length src - 1)%nat by lia.
      rw Hstep. replace (S (length src - 1)) with (length src) by lia.
      rw firstn_all -app_assoc. apply HQ. rw length_drop. lia.
    + destruct (block_nul_next es2 rest k) as (c' & Hc' & Hne'); [done|fold src; lia|done|].
      apply wp_bind. eapply wp_load.
      { rw -(Nat.add_1_r) Hnew -Nat.add_assoc Hdata Nat.add_1_r. exact Hc'. }
      rw (proj2 (Z.eqb_neq c' NUL)) //. apply wp_ret. split; [|lia].
      exists (S k). split_and!; [lia..|exact Hstep].
  - apply wp_ret. assert (k ≠ length src - 1)%nat.
    { intros ->. rw /src enc_last // in Hc. by injection Hc as <-. }
    split; [|lia]. exists (S k). split_and!; [lia..|exact Hstep].
Qed.

(** Deleting a string leaves the others, in order, in an array of the same
    size. *)
Lemma wp_delete n es1 e es2 data (Q : unit → list Z → Prop) :
  Forall entry_ok (es1 ++ e :: es2) → env_repr (es1 ++ e :: es2) data →
  (length data < n)%nat →
  (∀ data', env_repr (es1 ++ es2) data' → length data' = length data → Q tt data') →
  wp (env_delete n (length (enc es1)) (length (enc es1) + length e)) Q data.
Proof.
  intros Hok (rest & Hdata & _) Hn HQ. rw enc_split_data in Hdata.
  apply Forall_app in Hok as [Hok1 [He Hok2]%Forall_cons].
  rw /env_delete. apply wp_bind. destruct es2 as [|e2 es2].
  - (* the last string *)
    rw app_nil_r in HQ. rw enc_nil /= in Hdata. eapply wp_load.
    { rw Hdata -Nat.add_succ_r !lookup_app_add -Nat.add_1_r lookup_app_add. done. }
    rw Z.eqb_refl. apply wp_bind. destruct es1 as [|e1 es1].
    + destruct (decide _) as [Hlt|_]; [rw enc_nil /= in Hlt; lia|]. rw enc_nil /= in Hdata |- *.
      destruct e as [|c0 [|c1 e]]; [by apply entry_ok_ne in He| |].
      * apply wp_bind, wp_store; [subst; simpl; lia|]. apply wp_ret, wp_store.
        { subst; simpl; lia. }
        subst. apply HQ; [|done]. by eexists.
      * apply wp_bind, wp_store; [subst; simpl; lia|]. apply wp_ret, wp_store.
        { subst; simpl; lia. }
        subst. apply HQ; [|done]. by eexists.
    + pose proof (enc_length_pos e1 es1). rw decide_True //. apply wp_ret.
      replace (S (length (enc (e1 :: es1)) - 1)) with (length (enc (e1 :: es1))) by lia.
      destruct e as [|c e]; [by apply entry_ok_ne in He|].
      apply wp_store; [rw Hdata !length_app /=; lia|].
      rw Hdata -app_comm_cons insert_app_len. apply HQ.
      * by eexists.
      * rw Hdata !length_app /= !length_app /=. lia.
  - (* strings follow: shift them down *)
    assert (∃ c, e2 = c :: tail e2 ∧ c ≠ NUL) as (c & He2 & Hc).
    { apply Forall_cons in Hok2 as [He2 _].
      destruct e2 as [|c e2]; [by apply entry_ok_ne in He2|]. exists c. split; [done|].
      intros ->. apply (proj1 He2). by left. }
    eapply (wp_load _ _ c).
    { rw Hdata -Nat.add_succ_r !lookup_app_add -Nat.add_1_r lookup_app_add enc_cons He2. done. }
    rw (proj2 (Z.eqb_neq c NUL)) //. apply wp_bind.
    assert (data = enc es1 ++ (e ++ [NUL]) ++ enc (e2 :: es2) ++ NUL :: rest) as Hd'.
    { by rw Hdata -!app_assoc. }
    replace (S (length (enc es1) + length e)) with (length (enc es1) + length (e ++ [NUL]))%nat
      by (rw length_app /=; lia).
    assert (length (enc (e2 :: es2)) < n)%nat as Hfuel.
    { apply (f_equal length) in Hd'. rw length_app4 in Hd'. lia. }
    rw Hd'. apply wp_delete_shift; [done|done|by destruct e|done|].
    intros tl Htl. pose proof (enc_length_pos e2 es2).
    replace (S (length (enc es1) + length (enc (e2 :: es2)) - 1))
      with (length (enc es1 ++ enc (e2 :: es2))) by (rw length_app; lia).
    rw app_assoc. destruct tl as [|x tl]; [done|].
    apply wp_store; [rw (length_app _ (x :: tl)) length_cons; lia|]. rw insert_app_len -enc_app. apply HQ.
    + eexists. split; [done|]. by destruct es1.
    + rw Hd' length_app4 length_app !length_cons enc_app (length_app (enc es1)).
      rw length_cons in Htl. lia.
Qed.

(** ** Loops over the strings

    Every reader of the environment is a loop that starts at index 0, stops at
    the NUL after the last string, and goes from one string to the next.  [pos]
    is the index in the loop variables and [J] what they say about the strings
    passed. *)

Section scan.
Context {A B : Type} (pos : A → nat) (J : list entry → A → Prop).
Context (body : A → M (list Z) (A + B)) (Q : B → list Z → Prop).
Context (es : list entry) (data : list Z).

Lemma wp_scan n a0 :
  Forall entry_ok es → env_repr es data → (length data < n)%nat →
  pos a0 = 0 → J [] a0 →
  (∀ a rest, J es a → pos a = length (enc es) → data = enc es ++ NUL :: rest →
     wp (body a) (λ r d, match r with inl _ => False | inr b => Q b d end) data) →
  (∀ es1 e es2 rest a, es = es1 ++ e :: es2 → J es1 a → pos a = length (enc es1) →
     data = enc es1 ++ e ++ NUL :: enc es2 ++ NUL :: rest →
     wp (body a) (λ r d, match r with
                         | inl a' => d = data ∧ pos a' = length (enc es1) + length e + 1 ∧
                                     J (es1 ++ [e]) a'
                         | inr b => Q b d
                         end) data) →
  wp (loopM n body a0) Q data.
Proof.
  intros Hok (rest & Hdata & _) Hn Hpos HJ Hend Hentry.
  apply (wp_loop (λ a d, d = data ∧ ∃ es1 es2, es = es1 ++ es2 ∧ J es1 a ∧
                           pos a = length (enc es1))
           (λ a, length data - pos a)%nat);
    [|split; [done|]; exists [], es; split_and!; [done..|by rw enc_nil]|lia].
  intros a d (-> & es1 & es2 & Hes & HJ1 & Hpos1). destruct es2 as [|e es2].
  - rw app_nil_r in Hes. subst es1. eapply wp_mono; [by eapply Hend|]. by intros [a'|b] d.
  - assert (data = enc es1 ++ e ++ NUL :: enc es2 ++ NUL :: rest) as Hd
      by (by rw Hdata Hes enc_split_data).
    eapply wp_mono; [by eapply Hentry|]. intros [a'|b] d; [|done].
    intros (-> & Hpos' & HJ'). split.
    + split; [done|]. exists (es1 ++ [e]), es2. rw -app_assoc. split_and!; [done..|].
      rw Hpos' enc_snoc !length_app /=. lia.
    + apply (f_equal length) in Hd. rw (length_app (enc es1)) (length_app e) length_cons in Hd. lia.
Qed.

End scan.

(** The byte at the start of a string. *)
Lemma wp_load_entry pre e suf (Q : Z → list Z → Prop) :
  entry_ok e →
  (∀ c, c ≠ NUL → Q c (pre ++ e ++ suf)) → wp (load (length pre)) Q (pre ++ e ++ suf).
Proof.
  intros He HQ. destruct e as [|c e]; [by apply entry_ok_ne in He|].
  eapply wp_load; [by rw -app_comm_cons lookup_app_len|]. apply HQ.
  intros ->. apply (proj1 He). by left.
Qed.

(** The C string at the head of an array. *)
Fixpoint cstr (l : list Z) : list Z :=
  match l with
  | [] => []
  | c :: l' => if (c =? NUL)%Z then [] else c :: cstr l'
  end.
Definition cstr_at (d : list Z) (k : nat) : list Z := cstr (drop k d).

Lemma cstr_nul s suf : NUL ∉ s → cstr (s ++ NUL :: suf) = s.
Proof.
  induction s as [|c s IH]; simpl; [done|].
  intros [Hc Hs]%not_elem_of_cons. rw (proj2 (Z.eqb_neq c NUL)); [congruence|]. by rw IH.
Qed.

(** The value of a string, read in the array. *)
Lemma cstr_at_value pre e suf name :
  entry_ok e → entry_name e = name →
  cstr_at (pre ++ e ++ NUL :: suf) (length pre + length name + 1) = entry_value e.
Proof.
  intros [He0 HeE] <-. pose proof (entry_split e HeE) as Hs.
  assert (e ++ NUL :: suf = (entry_name e ++ [EQ]) ++ entry_value e ++ NUL :: suf) as Hd
    by (rw {1}Hs /mk_entry -!app_assoc //).
  rw /cstr_at -Nat.add_assoc -drop_drop drop_app_length Hd.
  replace (length (entry_name e) + 1)%nat with (length (entry_name e ++ [EQ]))
    by (rw length_app; done).
  rw drop_app_length. apply cstr_nul.
  intros Hin. apply He0. rw Hs /mk_entry. set_solver.
Qed.

Lemma wp_envmatch_env n name pre e suf (Q : Z → list Z → Prop) :
  name_ok name → entry_ok e → (length name < n)%nat →
  (entry_name e = name → Q (Z.of_nat (length pre + length name + 1)) (pre ++ e ++ NUL :: suf)) →
  (entry_name e ≠ name → Q (-1)%Z (pre ++ e ++ NUL :: suf)) →
  wp (envmatch n name (length pre)) Q (pre ++ e ++ NUL :: suf).
Proof. intros Hn He Hl HQ1 HQ2. apply wp_envmatch; [done..|]. destruct (decide _); auto. Qed.

(** ** What a run keeps

    [keeps I m R]: when [m] returns from a state that satisfies [I], the state
    still does, and the result satisfies [R]. *)

Definition keeps {S A} (I : S → Prop) (m : M S A) (R : A → Prop) : Prop :=
  ∀ s a s', m s = Ok (a, s') → I s → I s' ∧ R a.

Lemma keeps_ret {S A} (I : S → Prop) (a : A) (R : A → Prop) : R a → keeps I (ret a) R.
Proof. by intros HR s a' s' [= <- <-]. Qed.

Lemma keeps_bind {S A B} (I : S → Prop) (m : M S A) (k : A → M S B) R R' :
  keeps I m R → (∀ a, R a → keeps I (k a) R') → keeps I (bind m k) R'.
Proof.
  intros Hm Hk s b s'. rw /bind. destruct (m s) as [[a s1]|f] eqn:E; [|done].
  intros Hrun HI. destruct (Hm _ _ _ E HI) as [HI1 HR]. by eapply Hk.
Qed.

Lemma keeps_loop {S A B} (I : S → Prop) (body : A → M S (A + B)) R fuel a :
  (∀ a, keeps I (body a) (λ r, match r with inl _ => True | inr b => R b end)) →
  keeps I (loopM fuel body a) R.
Proof.
  intros Hb. revert a. induction fuel as [|fuel IH]; intros a; [by intros s b s'|]. simpl.
  eapply keeps_bind; [apply Hb|]. intros [a'|b] HR; [apply IH|by apply keeps_ret].
Qed.

Lemma keeps_load P i : keeps (Forall P) (load i) P.
Proof.
  intros d c d'. rw /load. destruct (d !! i) as [x|] eqn:Hx; [|done]. intros [= -> ->] HP.
  split; [done|]. by eapply Forall_lookup_1.
Qed.

Lemma keeps_store P i v : P v → keeps (Forall P) (store i v) (λ _, True).
Proof.
  intros Hv d [] d'. rw /store. destruct (decide _); [|done]. intros [= <-] HP.
  split; [|done]. by apply Forall_insert.
Qed.

Create HintDb keeps.
#[export] Hint Resolve keeps_ret keeps_load keeps_store : keeps.

(** Deleting only moves bytes and writes NULs. *)
Lemma env_delete_keeps P n env nxt : P NUL → keeps (Forall P) (env_delete n env nxt) (λ _, True).
Proof.
  intros H0. rw /env_delete. eapply keeps_bind; [apply keeps_load|]. intros c Hc.
  eapply (keeps_bind _ _ _ (λ _, True)); [|intros env' _; by apply keeps_store].
  destruct (c =? NUL)%Z.
  - destruct (decide _); [by apply keeps_ret|].
    eapply keeps_bind; [by apply keeps_store|]. intros [] _. by apply keeps_ret.
  - apply keeps_loop. intros [e x]. eapply keeps_bind; [apply keeps_load|]. intros c1 Hc1.
    eapply keeps_bind; [by apply keeps_store|]. intros [] _.
    eapply keeps_bind; [apply keeps_load|]. intros c2 _.
    destruct (c2 =? NUL)%Z; [|by apply keeps_ret].
    eapply keeps_bind; [apply keeps_load|]. intros c3 _. by destruct (c3 =? NUL)%Z; apply keeps_ret.
Qed.

(** A total-correctness fact with a kept invariant. *)
Lemma wp_keeps {S A} (I : S → Prop) (m : M S A) R (Q : A → S → Prop) s :
  keeps I m R → I s → wp m Q s → wp m (λ a s', Q a s' ∧ I s' ∧ R a) s.
Proof.
  intros Hk HI. rw /wp. destruct (m s) as [[a s']|f] eqn:E; [|done]. intros HQ.
  split; [done|]. by eapply Hk.
Qed.
