(* ===== verification/NvEdit.v ===== *)
(** * Environment commands (u-boot/common/cmd_nvedit.c)

    [setenv], [printenv], [getenv] and [getenv_r] on the RAM copy of the
    environment, with the globals they change: the board data, the load
    address, the boot file name, the Ethernet devices (net/eth.c) and the
    console assignment (common/console.c).  The configuration is that of
    include/configs/wmt.h: CONFIG_ENV_OVERWRITE, CONFIG_NET_MULTI and the
    network commands on, CONFIG_SERIAL_MULTI off. *)

From Stdlib Require Import ssreflect ZArith Lia String.
From stdpp Require Import base tactics numbers list sets.
From S2P Require Import Prelude Crc32 Ctype Vsprintf EnvFormat EnvOps.

Set Default Goal Selector "!".
Open Scope general_if_scope.

(** ** State *)

(** [device_t]: flags, name, and what [start] returns when there is one. *)
Record device := Device { dev_flags : Z; dev_name : list Z; dev_start : option Z }.

Record uboot := Uboot {
  u_env : list Z;                 (** [env_ptr->data] *)
  u_crc : Z;                      (** [env_ptr->crc] *)
  u_baudrate : Z;                 (** [gd->baudrate] *)
  u_input : list Z;               (** characters the console will deliver *)
  u_devlist : list device;        (** [devlist] *)
  u_stdio : list (option device); (** [stdio_devices] *)
  u_jt_in : option device;        (** the device [gd->jt] reads from *)
  u_jt_out : option device;       (** the device [gd->jt] writes to *)
  u_eth : list (list Z);          (** the [enetaddr] of each Ethernet device *)
  u_enetaddr : list Z;            (** [bd->bi_enetaddr] *)
  u_ip_addr : Z;                  (** [bd->bi_ip_addr] *)
  u_load_addr : Z;                (** [load_addr] *)
  u_bootfile : list Z             (** [BootFile] *)
}.

Definition set_env u v := Uboot v (u_crc u) (u_baudrate u) (u_input u) (u_devlist u)
  (u_stdio u) (u_jt_in u) (u_jt_out u) (u_eth u) (u_enetaddr u) (u_ip_addr u)
  (u_load_addr u) (u_bootfile u).
Definition set_crc u v := Uboot (u_env u) v (u_baudrate u) (u_input u) (u_devlist u)
  (u_stdio u) (u_jt_in u) (u_jt_out u) (u_eth u) (u_enetaddr u) (u_ip_addr u)
  (u_load_addr u) (u_bootfile u).
Definition set_serial u b i := Uboot (u_env u) (u_crc u) b i (u_devlist u)
  (u_stdio u) (u_jt_in u) (u_jt_out u) (u_eth u) (u_enetaddr u) (u_ip_addr u)
  (u_load_addr u) (u_bootfile u).
Definition set_console u st ji jo := Uboot (u_env u) (u_crc u) (u_baudrate u) (u_input u)
  (u_devlist u) st ji jo (u_eth u) (u_enetaddr u) (u_ip_addr u)
  (u_load_addr u) (u_bootfile u).
Definition set_eth u v := Uboot (u_env u) (u_crc u) (u_baudrate u) (u_input u)
  (u_devlist u) (u_stdio u) (u_jt_in u) (u_jt_out u) v (u_enetaddr u) (u_ip_addr u)
  (u_load_addr u) (u_bootfile u).
Definition set_enetaddr u v := Uboot (u_env u) (u_crc u) (u_baudrate u) (u_input u)
  (u_devlist u) (u_stdio u) (u_jt_in u) (u_jt_out u) (u_eth u) v (u_ip_addr u)
  (u_load_addr u) (u_bootfile u).
Definition set_ip_addr u v := Uboot (u_env u) (u_crc u) (u_baudrate u) (u_input u)
  (u_devlist u) (u_stdio u) (u_jt_in u) (u_jt_out u) (u_eth u) (u_enetaddr u) v
  (u_load_addr u) (u_bootfile u).
Definition set_load_addr u v := Uboot (u_env u) (u_crc u) (u_baudrate u) (u_input u)
  (u_devlist u) (u_stdio u) (u_jt_in u) (u_jt_out u) (u_eth u) (u_enetaddr u) (u_ip_addr u)
  v (u_bootfile u).
Definition set_bootfile u v := Uboot (u_env u) (u_crc u) (u_baudrate u) (u_input u)
  (u_devlist u) (u_stdio u) (u_jt_in u) (u_jt_out u) (u_eth u) (u_enetaddr u) (u_ip_addr u)
  (u_load_addr u) v.

Definition on_env {A} (m : M (list Z) A) : M uboot A := zoom u_env set_env m.

(** [strcmp(a, b) == 0] on two strings. *)
Definition str_eq (a b : list Z) : bool := bool_decide (a = b).

(** ** The callees of [setenv] *)

Definition stdin : Z := 0.
Definition stdout : Z := 1.
Definition stderr : Z := 2.
Definition DEV_FLAGS_INPUT : Z := 1.
Definition DEV_FLAGS_OUTPUT : Z := 2.

Definition console_setfile (file : Z) (dev : option device) : M uboot Z :=
  match dev with
  | None => ret (-1)%Z
  | Some d =>
      if ((file =? stdin) || (file =? stdout) || (file =? stderr))%Z then
        let error := default 0%Z (dev_start d) in
        if (error <? 0)%Z then ret error else
        modify (λ u, set_console u (<[Z.to_nat file := Some d]> (u_stdio u))
          (if (file =? stdin)%Z then Some d else u_jt_in u)
          (if (file =? stdout)%Z then Some d else u_jt_out u)) ;;;
        ret error
      else ret (-1)%Z
  end.

(** The first device of that name decides. *)
Fixpoint find_device (devname : list Z) (l : list device) : option device :=
  match l with
  | [] => None
  | d :: l' => if str_eq devname (dev_name d) then Some d else find_device devname l'
  end.

Definition console_assign (file : Z) (devname : list Z) : M uboot Z :=
  let flag :=
    if (file =? stdin)%Z then Some DEV_FLAGS_INPUT
    else if ((file =? stdout) || (file =? stderr))%Z then Some DEV_FLAGS_OUTPUT
    else None in
  match flag with
  | None => ret (-1)%Z
  | Some flag =>
      let! u := get in
      match find_device devname (u_devlist u) with
      | Some d => if (Z.land (dev_flags d) flag =? 0)%Z then ret (-1)%Z
                  else console_setfile file (Some d)
      | None => ret (-1)%Z
      end
  end.

(** The loop that reads an Ethernet address: six hex numbers, one separator
    character after each. *)
Fixpoint parse_enetaddr (n : nat) (s : option (list Z)) : list Z :=
  match n with
  | O => []
  | S n' =>
      match s with
      | None => 0%Z :: parse_enetaddr n' None
      | Some s => let '(v, e) := simple_strtoul s 16 in
                  u8 v :: parse_enetaddr n' (Some (tail e))
      end
  end.

(** The devices are a circular list; [num] beyond its end changes nothing. *)
Definition eth_set_enetaddr (num : Z) (addr : option (list Z)) : M uboot unit :=
  modify (λ u,
    match u_eth u with
    | [] => u
    | _ => set_eth u (<[Z.to_nat num := parse_enetaddr 6 addr]> (u_eth u))
    end).

(** [copy_filename(dst, src, size)]: the bytes before the NUL in [dst]. *)
Fixpoint copy_filename_loop (size : nat) (src : list Z) : list Z :=
  match size, src with
  | S size', c :: src' => if (c =? 34)%Z then [] else c :: copy_filename_loop size' src'
  | _, _ => []
  end.
Definition copy_filename (src : list Z) (size : nat) : list Z :=
  if (deref src =? 34)%Z then copy_filename_loop (size - 2)%nat (tail src)
  else copy_filename_loop (size - 1)%nat src.

(** The loop that reads a dotted address into [addr]. *)
Fixpoint parse_ipaddr (n : nat) (addr : Z) (s : option (list Z)) : Z :=
  match n with
  | O => addr
  | S n' =>
      let '(val, s') :=
        match s with
        | None => (0%Z, None)
        | Some s => let '(v, e) := simple_strtoul s 10 in (v, Some (tail e))
        end in
      parse_ipaddr n' (Z.lor (u32 (Z.shiftl addr 8)) (Z.land val 0xFF)) s'
  end.

(** [htonl] on a little-endian machine. *)
Definition htonl (x : Z) : Z :=
  Z.lor (Z.lor (Z.shiftl (Z.land x 0xff) 24) (Z.shiftl (Z.land x 0xff00) 8))
        (Z.lor (Z.land (Z.shiftr x 8) 0xff00) (Z.shiftr x 24)).

Definition baudrate_table : list Z := [9600; 19200; 38400; 57600; 115200]%Z.

(** [for (;;) { if (getc() == '\r') break; }]; with no more input the loop
    does not end. *)
Fixpoint wait_cr (input : list Z) : outcome (list Z) :=
  match input with
  | [] => Err Timeout
  | c :: input' => if (c =? 13)%Z then Ok input' else wait_cr input'
  end.

Definition env_crc_update : M uboot unit := modify (λ u, set_crc u (crc32 0 (u_env u))).

(** A C pointer that must not be null. *)
Definition deref_ptr {S} (p : option (list Z)) : M S (list Z) :=
  match p with Some s => ret s | None => fail NullDeref end.

(** ** [_do_setenv]

    [args] is argv[2..argc-1]; a pointer may be null, and argv[argc] is. *)
Definition argv2 (args : list (option (list Z))) : option (list Z) := mjoin (head args).

(** The part inside [if (oldval >= 0)]: [Some rc] when it returns early. *)
Definition setenv_delete (n : nat) (name : list Z) (args : list (option (list Z)))
    (env nxt : nat) : M uboot (option Z) :=
  let console :=
    if str_eq name (bytes "stdin") then stdin
    else if str_eq name (bytes "stdout") then stdout
    else if str_eq name (bytes "stderr") then stderr else (-1)%Z in
  let! early :=
    if negb (console =? -1)%Z then
      if decide (length args < 1)%nat then ret (Some 1%Z) else
      let! devname := deref_ptr (argv2 args) in
      let! r := console_assign console devname in
      ret (if (r <? 0)%Z then Some 1%Z else None)
    else ret None in
  match early with
  | Some rc => ret (Some rc)
  | None =>
      let! early :=
        if str_eq name (bytes "baudrate") then
          let! v := deref_ptr (argv2 args) in
          let baudrate := s32 (simple_strtoul v 10).1 in
          if negb (existsb (Z.eqb (u32 baudrate)) baudrate_table) then ret (Some 1%Z) else
          let! u := get in
          match wait_cr (u_input u) with
          | Err f => fail f
          | Ok input => put (set_serial u baudrate input) ;;; ret None
          end
        else ret None in
      match early with
      | Some rc => ret (Some rc)
      | None => on_env (env_delete n env nxt) ;;; ret None
      end
  end.

(** [for (i=2; i<argc; ++i) len += strlen(argv[i]) + 1;] *)
Fixpoint args_length (args : list (option (list Z))) : outcome nat :=
  match args with
  | [] => Ok 0%nat
  | None :: _ => Err NullDeref
  | Some a :: args' =>
      match args_length args' with
      | Ok len => Ok (length a + 1 + len)%nat
      | Err f => Err f
      end
  end.

(** The copying of the values: '=' before the first, ' ' before the others. *)
Fixpoint put_args (first : bool) (args : list (option (list Z))) (env : nat)
    : M (list Z) nat :=
  match args with
  | [] => ret env
  | None :: _ => fail NullDeref
  | Some val :: args' =>
      store env (if first then EQ else 32%Z) ;;;
      let! env := env_put_string val (S env) in
      put_args false args' env
  end.

(** "Some variables should be updated when the corresponding entry in the
    environment is changed". *)
Definition setenv_globals (name : list Z) (args : list (option (list Z))) : M uboot unit :=
  if str_eq name (bytes "ethaddr") then
    modify (λ u, set_enetaddr u (parse_enetaddr 6 (argv2 args))) ;;;
    eth_set_enetaddr 0 (argv2 args)
  else if str_eq name (bytes "ipaddr") then
    modify (λ u, set_ip_addr u (htonl (parse_ipaddr 4 0 (argv2 args))))
  else if str_eq name (bytes "loadaddr") then
    let! v := deref_ptr (argv2 args) in
    modify (λ u, set_load_addr u (simple_strtoul v 16).1)
  else if str_eq name (bytes "bootfile") then
    let! v := deref_ptr (argv2 args) in
    modify (λ u, set_bootfile u (copy_filename v 128))
  else ret tt.

(** "Append new definition at the end". *)
Definition setenv_append (n ENV_SIZE : nat) (name : list Z) (args : list (option (list Z)))
    : M uboot Z :=
  let! env := on_env (env_end n) in
  match args_length args with
  | Err f => fail f
  | Ok alen =>
      let len := (length name + 2 + alen)%nat in
      if decide (ENV_SIZE < len + env)%nat then ret 1%Z else
      let! env := on_env (env_put_string name env) in
      let! env := on_env (put_args true args env) in
      on_env (store (S env) NUL) ;;;
      env_crc_update ;;;
      setenv_globals name args ;;;
      ret 0%Z
  end.

(** [setenv ethNaddr] also sets the address of device [N]. *)
Definition setenv_eth (name : list Z) (args : list (option (list Z))) : M uboot unit :=
  if str_eq (take 3 name) (bytes "eth") then
    let '(num, e) := simple_strtoul (drop 3 name) 10 in
    if str_eq e (bytes "addr") then eth_set_enetaddr (s32 num) (argv2 args) else ret tt
  else ret tt.

Definition _do_setenv (n ENV_SIZE : nat) (name : list Z) (args : list (option (list Z)))
    : M uboot Z :=
  let! (env, nxt, oldval) := on_env (env_search n name) in
  let! early :=
    if (0 <=? oldval)%Z then setenv_delete n name args env nxt else ret None in
  match early with
  | Some rc => ret rc
  | None =>
      setenv_eth name args ;;;
      match argv2 args with
      | None => env_crc_update ;;; ret 0%Z
      | Some _ => setenv_append n ENV_SIZE name args
      end
  end.

Definition setenv (n ENV_SIZE : nat) (varname : list Z) (varvalue : option (list Z))
    : M uboot unit :=
  let! _ := _do_setenv n ENV_SIZE varname [varvalue] in ret tt.

(** [argv] is argv[1..argc-1]. *)
Definition do_setenv (n ENV_SIZE : nat) (argv : list (list Z)) : M uboot Z :=
  match argv with
  | [] => ret 1%Z
  | name :: vals => _do_setenv n ENV_SIZE name (Some <$> vals)
  end.

(** ** [getenv], [getenv_r], [printenv] *)

(** The inner loop of [getenv]; [None] is its [return (NULL)]. *)
Definition getenv_string_end (n CFG_ENV_SIZE i : nat) : M (list Z) (option nat) :=
  loopM n (λ nxt,
    let! c := load nxt in
    if (c =? NUL)%Z then ret (inr (Some nxt))
    else if decide (CFG_ENV_SIZE ≤ nxt)%nat then ret (inr None)
    else ret (inl (S nxt))) i.

(** The index of the value, as [env_get_addr(val)] is used for. *)
Definition getenv (n CFG_ENV_SIZE : nat) (name : list Z) : M (list Z) (option nat) :=
  loopM n (λ i,
    let! c := load i in
    if (c =? NUL)%Z then ret (inr None) else
    let! nxt := getenv_string_end n CFG_ENV_SIZE i in
    match nxt with
    | None => ret (inr None)
    | Some nxt =>
        let! val := envmatch n name i in
        if (val <? 0)%Z then ret (inl (nxt + 1)%nat) else ret (inr (Some (Z.to_nat val)))
    end) 0%nat.

(** [*buf++ = c] into a caller's buffer. *)
Definition buf_store {S} (buf : list Z) (i : nat) (c : Z) : M S (list Z) :=
  if decide (i < length buf)%nat then ret (<[i := c]> buf) else fail OutOfBounds.

(** The copy of [getenv_r]: [len] is the size the caller gives for [buf]. *)
Definition getenv_r_copy (n len : nat) (buf : list Z) (val : nat)
    : M (list Z) (list Z * nat) :=
  let! (buf, bi, cnt) :=
    loopM n (λ '(buf, bi, cnt, val),
      if decide (cnt < len)%nat then
        let! c := load val in
        let! buf := buf_store buf bi c in
        if (c =? NUL)%Z then ret (inr (buf, S bi, S cnt))
        else ret (inl (buf, S bi, S cnt, S val))
      else ret (inr (buf, bi, S cnt))) (buf, 0%nat, 0%nat, val) in
  if decide (len = cnt) then
    let! buf := buf_store buf bi NUL in ret (buf, cnt)
  else ret (buf, cnt).

(** The buffer and the return value. *)
Definition getenv_r (n CFG_ENV_SIZE : nat) (name buf : list Z) (len : nat)
    : M (list Z) (list Z * Z) :=
  loopM n (λ i,
    let! c := load i in
    if (c =? NUL)%Z then ret (inr (buf, (-1)%Z)) else
    let! nxt := getenv_string_end n CFG_ENV_SIZE i in
    match nxt with
    | None => ret (inr (buf, (-1)%Z))
    | Some nxt =>
        let! val := envmatch n name i in
        if (val <? 0)%Z then ret (inl (nxt + 1)%nat) else
        let! (buf', cnt) := getenv_r_copy n len buf (Z.to_nat val) in
        ret (inr (buf', Z.of_nat cnt))
    end) 0%nat.

(** [while (k < nxt) putc(env_get_char(k++));] *)
Definition put_range (n k nxt : nat) (out : list Z) : M (list Z) (list Z) :=
  loopM n (λ '(k, out),
    if decide (k < nxt)%nat then let! c := load k in ret (inl (S k, out ++ [c]))
    else ret (inr out)) (k, out).

(** [printf] on the console output. *)
Definition cprintf {S} (out fmt : list Z) (args : list varg) : M S (list Z) :=
  match sprintf fmt args with
  | Ok (bs, _) => ret (out ++ bs)
  | Err f => fail f
  end.

(** All variables; [ctrlc k] is what the [k]-th call of [ctrlc()] returns. *)
Definition printenv_all (n ENV_SIZE : nat) (ctrlc : nat → bool) : M (list Z) (Z * list Z) :=
  loopM n (λ '(i, out, k),
    let! c := load i in
    if (c =? NUL)%Z then
      let! out := cprintf out ([10%Z] ++ bytes "Environment size: %d/%d bytes" ++ [10%Z])
                    [VWord (Z.of_nat i); VWord (Z.of_nat ENV_SIZE)] in
      ret (inr (0%Z, out))
    else
      let! nxt := env_string_end n i in
      let! out := put_range n i nxt out in
      let out := out ++ [10%Z] in
      if ctrlc k then ret (inr (1%Z, out ++ [10%Z] ++ bytes " ** Abort" ++ [10%Z]))
      else ret (inl ((nxt + 1)%nat, out, S k))) (0%nat, [], 0%nat).

(** One variable: the output and whether it was found. *)
Definition printenv_one (n : nat) (name out : list Z) : M (list Z) (list Z * bool) :=
  loopM n (λ j,
    let! c := load j in
    if (c =? NUL)%Z then ret (inr (out, false)) else
    let! nxt := env_string_end n j in
    let! k := envmatch n name j in
    if (k <? 0)%Z then ret (inl (nxt + 1)%nat) else
    let! out := put_range n (Z.to_nat k) nxt (out ++ name ++ [EQ]) in
    ret (inr (out ++ [10%Z], true))) 0%nat.

Fixpoint printenv_args (n : nat) (names : list (list Z)) (rcode : Z) (out : list Z)
    : M (list Z) (Z * list Z) :=
  match names with
  | [] => ret (rcode, out)
  | name :: names' =>
      let! (out, found) := printenv_one n name out in
      if (found : bool) then printenv_args n names' rcode out else
      let! out := cprintf out (bytes "## Error: " ++ [34%Z] ++ bytes "%s" ++ [34%Z] ++
                               bytes " not defined" ++ [10%Z]) [VStr (Some name)] in
      printenv_args n names' (rcode + 1)%Z out
  end.

(** The return code and the console output. *)
Definition do_printenv (n ENV_SIZE : nat) (ctrlc : nat → bool) (names : list (list Z))
    : M (list Z) (Z * list Z) :=
  match names with
  | [] => printenv_all n ENV_SIZE ctrlc
  | _ => printenv_args n names 0%Z []
  end.

(** ** The append *)

(** The bytes [put_args] writes, and the value they stand for. *)
Fixpoint args_bytes (first : bool) (vals : list (list Z)) : list Z :=
  match vals with
  | [] => []
  | v :: vs => (if first then EQ else 32%Z) :: v ++ args_bytes false vs
  end.
Definition args_value (v : list Z) (vs : list (list Z)) : list Z := v ++ args_bytes false vs.

Lemma args_length_bytes first vals :
  args_length (Some <$> vals) = Ok (length (args_bytes first vals)).
Proof.
  revert first. induction vals as [|v vs IH]; intros first; simpl; [done|].
  rw (IH false) length_app. f_equal. lia.
Qed.

Lemma wp_put_args first vals pre old suf (Q : nat → list Z → Prop) :
  Forall (λ v, NUL ∉ v) vals → length old = length (args_bytes first vals) →
  Q (length pre + length (args_bytes first vals))%nat
    (pre ++ args_bytes first vals ++ NUL :: suf) →
  wp (put_args first (Some <$> vals) (length pre)) Q (pre ++ NUL :: old ++ suf).
Proof.
  intros Hv. revert first pre old. induction Hv as [|v vs Hv Hvs IH]; intros first pre old Hlen HQ.
  { destruct old; [|done]. apply wp_ret. simpl in HQ. by rw Nat.add_0_r in HQ. }
  cbn [put_args fmap list_fmap]. set (sep := if first then EQ else 32%Z) in *.
  apply wp_bind, wp_store; [rw length_app /=; lia|]. rw insert_app_len.
  simpl in Hlen. rw length_app in Hlen.
  apply wp_bind. replace (S (length pre)) with (length (pre ++ [sep])) by (rw length_app /=; lia).
  replace (pre ++ sep :: old ++ suf)
    with ((pre ++ [sep]) ++ take (S (length v)) old ++ (drop (S (length v)) old ++ suf))
    by (by rw -!app_assoc (app_assoc (take _ _)) take_drop).
  apply wp_put_string; [done|rw length_take; lia|].
  replace (length (pre ++ [sep]) + length v)%nat with (length (pre ++ sep :: v))
    by (rw !length_app /=; lia).
  replace ((pre ++ [sep]) ++ v ++ NUL :: drop (S (length v)) old ++ suf)
    with ((pre ++ sep :: v) ++ NUL :: drop (S (length v)) old ++ suf)
    by (by rw -!app_assoc).
  apply IH; [rw length_drop; lia|].
  replace (length (pre ++ sep :: v) + length (args_bytes false vs))%nat
    with (length pre + length (args_bytes first (v :: vs)))%nat
    by (simpl; rw !length_app /=; lia).
  replace ((pre ++ sep :: v) ++ args_bytes false vs ++ NUL :: suf)
    with (pre ++ args_bytes first (v :: vs) ++ NUL :: suf)
    by (simpl; by rw -?app_assoc /= -?app_assoc).
  done.
Qed.

Lemma wp_globals name args u (Q : unit → uboot → Prop) :
  is_Some (argv2 args) →
  (∀ u', u_env u' = u_env u → u_crc u' = u_crc u → Q tt u') →
  wp (setenv_globals name args) Q u.
Proof.
  intros [v Hv] HQ. rw /setenv_globals Hv. repeat case_match; wp_steps; apply HQ; try done;
    simpl; by case_match.
Qed.

Lemma wp_eth name args u (Q : unit → uboot → Prop) :
  (∀ u', u_env u' = u_env u → u_crc u' = u_crc u → Q tt u') → wp (setenv_eth name args) Q u.
Proof.
  intros HQ. rw /setenv_eth. repeat case_match; wp_steps; apply HQ; try done;
    simpl; by case_match.
Qed.

(** Does the new definition fit after the strings [es]? *)
Definition env_fits (ENV_SIZE : nat) (name value : list Z) (es : list entry) : Prop :=
  (length (enc es) + length (mk_entry name value) + 2 ≤ ENV_SIZE)%nat.
#[export] Instance env_fits_dec s name value es : Decision (env_fits s name value es).
Proof. rw /env_fits. apply _. Defined.

(** Writing the string [e] and two NULs after the strings [es]. *)
Lemma env_repr_snoc es e suf :
  env_repr (es ++ [e]) ((enc es ++ e) ++ NUL :: NUL :: suf).
Proof.
  exists suf. split; [by rw enc_snoc -!app_assoc|]. by destruct es.
Qed.

Lemma wp_setenv_append n ENV_SIZE name v vs u es (Q : Z → uboot → Prop) :
  Forall entry_ok es → env_repr es (u_env u) → length (u_env u) = ENV_SIZE →
  (ENV_SIZE < n)%nat → NUL ∉ name → Forall (λ v, NUL ∉ v) (v :: vs) →
  (env_fits ENV_SIZE name (args_value v vs) es → ∀ u',
     env_repr (es ++ [mk_entry name (args_value v vs)]) (u_env u') →
     u_crc u' = crc32 0 (u_env u') → length (u_env u') = ENV_SIZE → Q 0%Z u') →
  (¬ env_fits ENV_SIZE name (args_value v vs) es → Q 1%Z u) →
  wp (setenv_append n ENV_SIZE name (Some <$> v :: vs)) Q u.
Proof.
  intros Hok Hrepr Hlen Hn Hname Hvals HQ0 HQ1. rw /setenv_append.
  apply wp_bind, wp_zoom. eapply wp_env_end; [done|done|lia|].
  replace (set_env u (u_env u)) with u by (by destruct u).
  rw (args_length_bytes true). set (ab := args_bytes true (v :: vs)).
  assert (mk_entry name (args_value v vs) = name ++ ab) as Hentry by done.
  destruct (decide (ENV_SIZE < _)%nat) as [Hbig|Hfits].
  { apply wp_ret, HQ1. rw /env_fits Hentry length_app. lia. }
  destruct Hrepr as (rest & Hdata & Hnil).
  assert (∃ o1 o2 x suf, NUL :: rest = o1 ++ o2 ++ x :: suf ∧ length o1 = S (length name) ∧
            length o2 = length ab) as (o1 & o2 & x & suf & Hold & Ho1 & Ho2).
  { assert (length name + length ab + 1 < length (NUL :: rest))%nat as Hroom.
    { apply (f_equal length) in Hdata. rw length_app in Hdata. lia. }
    exists (take (S (length name)) (NUL :: rest)),
      (take (length ab) (drop (S (length name)) (NUL :: rest))).
    destruct (drop (length ab) (drop (S (length name)) (NUL :: rest))) as [|x suf] eqn:Hd.
    { apply (f_equal length) in Hd. rw !length_drop in Hd. change (length []) with 0%nat in Hd. lia. }
    exists x, suf. rw -Hd !take_drop !length_take !length_drop. split; [done|lia]. }
  rw Hold in Hdata.
  apply wp_bind, wp_zoom. rw Hdata. apply wp_put_string; [done|done|]. cbn [u_env set_env].
  rw -length_app app_assoc.
  apply wp_bind, wp_zoom. cbn [u_env set_env]. apply wp_put_args; [done|done|]. fold ab.
  rw -length_app app_assoc.
  apply wp_bind, wp_zoom. cbn [u_env set_env].
  replace (S (length ((enc es ++ name) ++ ab)))
    with (length (((enc es ++ name) ++ ab) ++ [NUL])) by (rw length_app /=; lia).
  replace (((enc es ++ name) ++ ab) ++ NUL :: x :: suf)
    with ((((enc es ++ name) ++ ab) ++ [NUL]) ++ x :: suf) by (by rw -(app_assoc _ [NUL])).
  apply wp_store; [rw (length_app _ (x :: suf)) length_cons; lia|].
  rw insert_app_len. apply wp_bind, wp_modify. apply wp_bind, wp_globals; [done|].
  intros u' Henv Hcrc. apply wp_ret, HQ0.
  - rw /env_fits Hentry length_app. lia.
  - rw Henv Hentry. cbn. rw -(app_assoc _ [NUL]) -(app_assoc (enc es)). apply env_repr_snoc.
  - by rw Henv Hcrc.
  - rw Henv -Hlen Hdata. cbn [u_env set_env set_crc]. clearbody ab.
    rw !length_app !length_cons. simpl. lia.
Qed.

(** ** [getenv] *)

Lemma wp_getenv_string_end n SZ pre e suf (Q : option nat → list Z → Prop) :
  NUL ∉ e → (length e < n)%nat → (length (pre ++ e) ≤ SZ)%nat →
  Q (Some (length pre + length e)) (pre ++ e ++ NUL :: suf) →
  wp (getenv_string_end n SZ (length pre)) Q (pre ++ e ++ NUL :: suf).
Proof.
  intros He Hn HSZ HQ. rw length_app in HSZ. set (data := pre ++ e ++ NUL :: suf) in *.
  apply (wp_loop (λ i d, d = data ∧ (length pre ≤ i ≤ length pre + length e)%nat)
           (λ i, length pre + length e - i)%nat); [|split; [done|lia]|lia].
  intros i d [-> Hi]. apply wp_bind.
  replace i with (length pre + (i - length pre))%nat at 1 by lia.
  destruct (decide (i - length pre < length e)%nat) as [Hlt|Hge].
  - destruct (lookup_lt_is_Some_2 e (i - length pre) Hlt) as [c Hc].
    eapply wp_load; [by rw lookup_app_add lookup_app_l|].
    destruct (Z.eqb_spec c NUL) as [->|Hne].
    + exfalso. by apply He, (list_elem_of_lookup_2 _ (i - length pre)).
    + rw decide_False; [lia|]. apply wp_ret. split; [split; [done|]|]; lia.
  - replace (i - length pre)%nat with (length e) by lia.
    eapply wp_load; [by rw lookup_app_add lookup_app_len|]. rw Z.eqb_refl.
    apply wp_ret. replace i with (length pre + length e)%nat by lia. done.
Qed.

(** Where the value of a variable is in the array. *)
Definition getenv_found (name : list Z) (es : list entry) (data : list Z) (r : option nat)
    : Prop :=
  match r with
  | None => env_lookup name es = None
  | Some val => ∃ pre v suf, env_lookup name es = Some v ∧ NUL ∉ v ∧ val = length pre ∧
                   data = pre ++ v ++ NUL :: suf
  end.

Lemma entry_value_at pre e suf :
  entry_ok e →
  pre ++ e ++ NUL :: suf = (pre ++ entry_name e ++ [EQ]) ++ entry_value e ++ NUL :: suf ∧
  NUL ∉ entry_value e.
Proof.
  intros [He0 HeE]. pose proof (entry_split e HeE) as Hs. split.
  - by rw {1}Hs /mk_entry -!app_assoc.
  - intros Hin. apply He0. rw Hs /mk_entry. set_solver.
Qed.

Lemma wp_getenv_found n SZ name es data (Q : option nat → list Z → Prop) :
  Forall entry_ok es → env_repr es data → name_ok name →
  (length name < n)%nat → (length data < n)%nat → (length data ≤ SZ)%nat →
  (∀ r, getenv_found name es data r → Q r data) →
  wp (getenv n SZ name) Q data.
Proof.
  intros Hok Hrepr Hname Hn Hn' HSZ HQ.
  apply (wp_scan (λ i, i) (λ es1 _, name ∉ (entry_name <$> es1)) _ _ es);
    [done..|apply not_elem_of_nil| |].
  - intros i rest Hnot -> Hd. apply wp_bind. eapply wp_load; [by rw Hd lookup_app_len|].
    rw Z.eqb_refl. apply wp_ret, HQ. by apply env_lookup_none.
  - intros es1 e es2 rest i Hes Hnot -> Hd.
    assert (entry_ok e) as He.
    { rw Hes in Hok. by apply Forall_app in Hok as [_ [? _]%Forall_cons]. }
    pose proof (f_equal length Hd) as Hlen.
    rw (length_app (enc es1)) (length_app e) length_cons in Hlen.
    apply wp_bind. rw Hd. apply wp_load_entry; [done|]. intros c Hc.
    rw (proj2 (Z.eqb_neq c NUL)) //.
    apply wp_bind, wp_getenv_string_end; [apply He|lia|rw length_app; lia|].
    apply wp_bind, wp_envmatch_env; [done..|intros Heq|intros Hne].
    + rw (proj2 (Z.ltb_ge _ _)); [lia|]. apply wp_ret. rw -Hd. apply HQ. rw Nat2Z.id.
      destruct (entry_value_at (enc es1) e (enc es2 ++ NUL :: rest) He) as [Hv Hv0].
      do 3 eexists. rw Hes env_lookup_split //. split_and!; [done|done| |by rw Hd Hv].
      rw Heq !length_app /=. lia.
    + change (-1 <? 0)%Z with true. apply wp_ret. split_and!; [done|lia|].
      rw fmap_app. apply not_elem_of_app. split; [done|].
      by apply not_elem_of_cons; split; [|apply not_elem_of_nil].
Qed.

Lemma wp_getenv n SZ name es data (Q : option nat → list Z → Prop) :
  Forall entry_ok es → env_repr es data → name_ok name →
  (length name < n)%nat → (length data < n)%nat → (length data ≤ SZ)%nat →
  (∀ r, cstr_at data <$> r = env_lookup name es → Q r data) →
  wp (getenv n SZ name) Q data.
Proof.
  intros Hok Hrepr Hname Hn Hn' HSZ HQ. eapply wp_getenv_found; [done..|]. intros r Hr.
  apply HQ. destruct r as [val|]; [|done].
  destruct Hr as (pre & v & suf & Hl & Hv & -> & ->). simpl.
  by rw Hl /cstr_at drop_app_length cstr_nul.
Qed.

(** ** Deleting through [setenv] *)

(** The variables whose deletion or change drives the console or the serial
    line. *)
Definition is_special (name : list Z) : bool :=
  str_eq name (bytes "stdin") || str_eq name (bytes "stdout") ||
  str_eq name (bytes "stderr") || str_eq name (bytes "baudrate").

Lemma setenv_delete_plain n name args env nxt :
  is_special name = false →
  setenv_delete n name args env nxt = (on_env (env_delete n env nxt) ;;; ret None).
Proof.
  rw /is_special /setenv_delete. intros [[[-> ->]%orb_false_iff ->]%orb_false_iff ->]%orb_false_iff.
  done.
Qed.

Lemma wp_console_assign file devname u (Q : Z → uboot → Prop) :
  (∀ r u', u_env u' = u_env u → u_crc u' = u_crc u → u_input u' = u_input u → Q r u') →
  wp (console_assign file devname) Q u.
Proof.
  intros HQ. rw /console_assign /console_setfile. cbv zeta.
  repeat first [progress wp_steps | case_match | by apply HQ].
Qed.

Lemma wait_cr_ok input : 13%Z ∈ input → ∃ input', wait_cr input = Ok input'.
Proof.
  induction input as [|c input IH]; [by intros ?%elem_of_nil|]. intros Hin. simpl.
  destruct (Z.eqb_spec c 13) as [->|Hne]; [by eexists|]. apply IH. set_solver.
Qed.

(** With a value: the deletion is done, or the console or the serial line
    refuses the value and nothing of the environment has changed. *)
Lemma wp_setenv_delete_value n name v vs env nxt u (Q : option Z → uboot → Prop) :
  (name = bytes "baudrate" → 13%Z ∈ u_input u) →
  (∀ u', is_special name = true → u_env u' = u_env u → u_crc u' = u_crc u → Q (Some 1%Z) u') →
  (∀ u', u_env u' = u_env u → u_crc u' = u_crc u →
     wp (on_env (env_delete n env nxt)) (λ _, Q None) u') →
  wp (setenv_delete n name (Some <$> v :: vs) env nxt) Q u.
Proof.
  intros Hcr HQ1 HQ. destruct (is_special name) eqn:Hsp.
  2:{ rw setenv_delete_plain //. apply wp_bind. eapply wp_mono; [by apply HQ|].
      intros [] u' H. by apply wp_ret. }
  assert (∀ u1, u_env u1 = u_env u → u_crc u1 = u_crc u →
            wp (on_env (env_delete n env nxt) ;;; ret None) Q u1) as Hdel.
  { intros u1 H1 H2. apply wp_bind. eapply wp_mono; [by apply HQ|].
    intros [] u' H. by apply wp_ret. }
  rw /setenv_delete. cbv zeta. apply wp_bind.
  match goal with |- wp ?m ?K u => assert (wp m (λ early u', u_env u' = u_env u ∧
    u_crc u' = u_crc u ∧ u_input u' = u_input u ∧ (early = None ∨ early = Some 1%Z)) u) as Hc end.
  { destruct (negb _); [|apply wp_ret; auto]. simpl.
    apply wp_bind, wp_ret, wp_bind, wp_console_assign. intros r u' H1 H2 H3. apply wp_ret.
    split_and!; [done..|]. case_match; auto. }
  eapply wp_mono; [exact Hc|]. clear Hc. intros early u1 (H1 & H2 & H3 & [-> | ->]).
  2:{ apply wp_ret. by apply HQ1. }
  apply wp_bind. destruct (str_eq name (bytes "baudrate")) eqn:Hb.
  2:{ apply wp_ret. by apply Hdel. }
  apply bool_decide_eq_true in Hb. simpl. apply wp_bind, wp_ret.
  case_match; [apply wp_ret, wp_ret; by apply HQ1|]. apply wp_bind, wp_get. rw H3.
  destruct (wait_cr_ok _ (Hcr Hb)) as [input' ->].
  apply wp_bind, wp_put, wp_ret. by apply Hdel.
Qed.

Section prepare.
Context (n : nat) (name : list Z) (es : list entry) (u : uboot).
Hypothesis Hwf : env_wf es.
Hypothesis Hrepr : env_repr es (u_env u).
Hypothesis Hname : name_ok name.
Hypothesis Hn : (length name < n)%nat.
Hypothesis Hn' : (length (u_env u) < n)%nat.

(** The search, and what the two ways on have to show. *)
Lemma wp_setenv_search args (Q : option Z → uboot → Prop) :
  (∀ es1 e es2, es = es1 ++ e :: es2 → name ∉ (entry_name <$> es1) → entry_name e = name →
     wp (setenv_delete n name args (length (enc es1)) (length (enc es1) + length e)) Q u) →
  (name ∉ (entry_name <$> es) → Q None u) →
  wp (let! (env, nxt, oldval) := on_env (env_search n name) in
      if (0 <=? oldval)%Z then setenv_delete n name args env nxt else ret None) Q u.
Proof.
  intros Hdel HQ. apply wp_bind, wp_zoom.
  eapply wp_search; [done..|]. intros r Hr.
  replace (set_env u (u_env u)) with u by (by destruct u).
  destruct Hr as [(es1 & e & es2 & Hes & Hnot & Hen & ->)|[Hnot Hr]].
  - cbv beta iota. rw (proj2 (Z.leb_le _ _)); [lia|]. by eapply Hdel.
  - destruct r as [[env nxt] oldval]. simpl in Hr. subst oldval.
    apply wp_ret. by apply HQ.
Qed.

Lemma wp_delete_env es1 e es2 u1 (Q : uboot → Prop) :
  es = es1 ++ e :: es2 → name ∉ (entry_name <$> es1) → entry_name e = name →
  u_env u1 = u_env u → u_crc u1 = u_crc u →
  (∀ u', env_repr (env_remove name es) (u_env u') → length (u_env u') = length (u_env u) →
     u_crc u' = u_crc u → Q u') →
  wp (on_env (env_delete n (length (enc es1)) (length (enc es1) + length e))) (λ _, Q) u1.
Proof.
  intros Hes Hnot Hen He Hc HQ. apply wp_zoom. rw He.
  pose proof Hrepr as Hrepr'. pose proof Hwf as Hwf'. rw Hes in Hrepr' Hwf'.
  eapply wp_delete; [apply Hwf'|done|done|]. intros data' Hr Hlen. apply HQ; [|done|done].
  rw Hes env_remove_split //.
Qed.

(** Search and deletion leave [env_remove name es], unless the console or the
    serial line refuses the value. *)
Lemma wp_setenv_prepare v vs (Q : option Z → uboot → Prop) :
  (name = bytes "baudrate" → 13%Z ∈ u_input u) →
  (∀ u', is_special name = true → name ∈ (entry_name <$> es) → u_env u' = u_env u →
     u_crc u' = u_crc u → Q (Some 1%Z) u') →
  (∀ u', env_repr (env_remove name es) (u_env u') → length (u_env u') = length (u_env u) →
     u_crc u' = u_crc u → Q None u') →
  wp (let! (env, nxt, oldval) := on_env (env_search n name) in
      if (0 <=? oldval)%Z then setenv_delete n name (Some <$> v :: vs) env nxt
      else ret None) Q u.
Proof.
  intros Hcr HQ1 HQ. apply wp_setenv_search.
  - intros es1 e es2 Hes Hnot Hen. apply wp_setenv_delete_value; [done| |].
    + intros u' Hsp He Hc. apply HQ1; [done| |done..]. rw Hes fmap_app /= Hen. set_solver.
    + intros u1 He Hc. by eapply wp_delete_env.
  - intros Hnot. apply HQ; [|done..]. by rw env_remove_notin.
Qed.

End prepare.

(** A computation in two steps: [_do_setenv] after the search. *)
Lemma do_setenv_unfold n SZ name args u (Q : Z → uboot → Prop) :
  wp (let! (env, nxt, oldval) := on_env (env_search n name) in
      if (0 <=? oldval)%Z then setenv_delete n name args env nxt else ret None)
    (λ early, wp match early with
                 | Some rc => ret rc
                 | None =>
                     setenv_eth name args ;;;
                     match argv2 args with
                     | None => env_crc_update ;;; ret 0%Z
                     | Some _ => setenv_append n SZ name args
                     end
                 end Q) u →
  wp (_do_setenv n SZ name args) Q u.
Proof.
  intros H. apply wp_bind_inv in H. apply wp_bind. eapply wp_mono; [exact H|].
  intros [[env nxt] oldval] u1 H1. by apply wp_bind.
Qed.

Lemma wp_on_getenv n SZ name es u (Q : option nat → uboot → Prop) :
  env_wf es → env_repr es (u_env u) → name_ok name →
  (length name < n)%nat → (length (u_env u) < n)%nat → (length (u_env u) ≤ SZ)%nat →
  (∀ r, cstr_at (u_env u) <$> r = env_lookup name es → Q r u) →
  wp (on_env (getenv n SZ name)) Q u.
Proof.
  intros [Hok _] Hr Hname Hn Hn' Hl HQ. apply wp_zoom. eapply wp_getenv; [done..|].
  intros r Hr'. replace (set_env u (u_env u)) with u by (by destruct u). by apply HQ.
Qed.

(** ** [setenv name value ...] *)

Lemma wp_do_setenv n SZ name v vs u es (Q : Z → uboot → Prop) :
  env_wf es → env_repr es (u_env u) → length (u_env u) = SZ → (SZ < n)%nat →
  name_ok name → (length name < n)%nat → Forall (λ v, NUL ∉ v) (v :: vs) →
  (name = bytes "baudrate" → 13%Z ∈ u_input u) →
  (∀ u', env_fits SZ name (args_value v vs) (env_remove name es) →
     env_repr (env_set name (args_value v vs) es) (u_env u') →
     u_crc u' = crc32 0 (u_env u') → length (u_env u') = SZ → Q 0%Z u') →
  (∀ u', ¬ env_fits SZ name (args_value v vs) (env_remove name es) →
     env_repr (env_remove name es) (u_env u') → u_crc u' = u_crc u →
     length (u_env u') = SZ → Q 1%Z u') →
  (∀ u', is_special name = true → name ∈ (entry_name <$> es) → u_env u' = u_env u →
     u_crc u' = u_crc u → Q 1%Z u') →
  wp (_do_setenv n SZ name (Some <$> v :: vs)) Q u.
Proof.
  intros Hwf Hrepr Hlen Hn Hname Hnn Hvals Hcr HQ0 HQ1 HQs.
  apply do_setenv_unfold, (wp_setenv_prepare n name es u); [done..|lia|done| |].
  { intros u' Hsp Hin He Hc. apply wp_ret. by apply HQs. }
  intros u1 Hr1 Hl1 Hc1. apply wp_bind, wp_eth. intros u2 He2 Hc2. cbn [argv2 fmap list_fmap head mjoin option_join].
  eapply (wp_setenv_append _ _ _ v vs _ (env_remove name es)).
  - by apply env_remove_wf.
  - by rw He2.
  - rw He2. lia.
  - done.
  - apply Hname.
  - done.
  - intros Hfit u3 Hr3 Hc3 Hl3. by apply HQ0.
  - intros Hfit. apply HQ1; [done|by rw He2|congruence|rw He2; lia].
Qed.

Lemma args_value_nul v vs : Forall (λ v, NUL ∉ v) (v :: vs) → NUL ∉ args_value v vs.
Proof.
  rw /args_value. intros [Hv Hvs]%Forall_cons. apply not_elem_of_app. split; [done|].
  clear Hv. induction Hvs as [|w ws Hw Hws IH]; [apply not_elem_of_nil|]. simpl.
  apply not_elem_of_cons. split; [done|]. by apply not_elem_of_app.
Qed.

(** A small environment for the witnesses. *)
Definition demo_es : list entry := [bytes "ipaddr=10.0.0.1"; bytes "bootdelay=3"].
Definition demo_data : list Z := enc demo_es ++ replicate 20 0%Z.
Definition demo_uboot : uboot :=
  Uboot demo_data 0 115200 [] [] [None; None; None] None None [] [] 0 0 [].

Lemma demo_repr : env_repr demo_es demo_data.
Proof. exists (replicate 19 0%Z). by split. Qed.

(** C5: [setenv name value...] is complete and exact on every branch.  On a block
    that holds the well-formed strings [es], with a legal name and values, and
    with an ENTER to come on the console when the baud rate is changed, the
    command returns; and either it returns 0, the definition fitted, the block
    now holds [env_set name value es] (the other strings in their order, the new
    one last; still well-formed) with a correct CRC; or it returns 1, the
    definition did not fit, the old one is gone and the CRC field is unchanged;
    or it returns 1 because the console or the serial line refused the value of
    an existing stdin, stdout, stderr or baudrate, and the block is untouched. *)
Theorem do_setenv_correct n SZ name v vs u es :
  env_wf es → env_repr es (u_env u) → length (u_env u) = SZ → (SZ < n)%nat →
  name_ok name → (length name < n)%nat → Forall (λ v, NUL ∉ v) (v :: vs) →
  (name = bytes "baudrate" → 13%Z ∈ u_input u) →
  let value := args_value v vs in
  wp (do_setenv n SZ (name :: v :: vs)) (λ rc u',
    length (u_env u') = SZ ∧
    ((rc = 0%Z ∧ env_fits SZ name value (env_remove name es) ∧
      env_repr (env_set name value es) (u_env u') ∧ env_wf (env_set name value es) ∧
      u_crc u' = crc32 0 (u_env u')) ∨
     (rc = 1%Z ∧ ¬ env_fits SZ name value (env_remove name es) ∧
      env_repr (env_remove name es) (u_env u') ∧ u_crc u' = u_crc u) ∨
     (rc = 1%Z ∧ is_special name = true ∧ name ∈ (entry_name <$> es) ∧
      u_env u' = u_env u ∧ u_crc u' = u_crc u))) u.
Proof.
  intros Hwf Hrepr Hlen Hn Hname Hnn Hvals Hcr value.
  eapply wp_do_setenv; [done..|intros u' ????|intros u' ????|intros u' ????].
  - split; [done|]. left. split_and!; [done..| |done].
    by apply env_set_wf; [done..|apply args_value_nul].
  - split; [done|]. right; left. by split_and!.
  - split; [congruence|]. right; right. by split_and!.
Qed.

Lemma do_setenv_correct_witness :
  wp (do_setenv 100 (length demo_data) [bytes "ipaddr"; bytes "10.0.0.2"; bytes "x"])
    (λ rc u', rc = 0%Z ∧
       env_repr [bytes "bootdelay=3"; bytes "ipaddr=10.0.0.2 x"] (u_env u')) demo_uboot.
Proof.
  eapply wp_mono.
  - apply (do_setenv_correct 100 (length demo_data) (bytes "ipaddr") (bytes "10.0.0.2")
             [bytes "x"] demo_uboot demo_es).
    + by apply (bool_decide_unpack _).
    + apply demo_repr.
    + done.
    + vm_compute. lia.
    + by apply (bool_decide_unpack _).
    + vm_compute. lia.
    + by apply (bool_decide_unpack _).
    + done.
  - intros rc u' [_ [(-> & _ & H & _)|[(_ & Hf & _)|(_ & Hs & _)]]].
    + by split.
    + exfalso. apply Hf. by apply (bool_decide_unpack _).
    + done.
Defined.

(** C8: [setenv] and [getenv] agree: once [setenv name value...] has returned 0,
    [getenv] finds the value just set under [name], and under every other legal
    name what was there before. *)
Theorem setenv_getenv n SZ name v vs name' u es :
  env_wf es → env_repr es (u_env u) → length (u_env u) = SZ → (SZ < n)%nat →
  name_ok name → name_ok name' → (length name < n)%nat → (length name' < n)%nat →
  Forall (λ v, NUL ∉ v) (v :: vs) → (name = bytes "baudrate" → 13%Z ∈ u_input u) →
  wp (let! rc := do_setenv n SZ (name :: v :: vs) in
      let! r := on_env (getenv n SZ name') in ret (rc, r)) (λ '(rc, r) u',
    rc = 0%Z → cstr_at (u_env u') <$> r =
    if decide (name' = name) then Some (args_value v vs) else env_lookup name' es) u.
Proof.
  intros Hwf Hrepr Hlen Hn Hname Hname' Hnn Hnn' Hvals Hcr.
  apply wp_bind. eapply wp_do_setenv; [done..|intros u' Hf Hr Hc Hl|intros u' Hf Hr Hc Hl|].
  - assert (env_wf (env_set name (args_value v vs) es)) as Hwf'
      by (apply env_set_wf; [done..|by apply args_value_nul]).
    apply wp_bind, (wp_on_getenv _ _ _ _ _ _ Hwf' Hr); [done|lia..|].
    intros r Hr'. apply wp_ret. intros _. rw Hr'.
    destruct (decide _) as [->|Hne]; [by apply env_lookup_set_eq|by apply env_lookup_set_ne].
  - apply (env_remove_wf name) in Hwf.
    apply wp_bind, (wp_on_getenv _ _ _ _ _ _ Hwf Hr); [done|lia..|].
    intros r Hr'. by apply wp_ret.
  - intros u' _ _ He _. rw -He in Hrepr Hlen.
    apply wp_bind, (wp_on_getenv _ _ _ _ _ _ Hwf Hrepr); [done|lia..|].
    intros r Hr'. by apply wp_ret.
Qed.

Lemma setenv_getenv_witness :
  wp (let! rc := do_setenv 100 (length demo_data) [bytes "ipaddr"; bytes "10.0.0.2"] in
      let! r := on_env (getenv 100 (length demo_data) (bytes "bootdelay")) in ret (rc, r))
    (λ '(rc, r) u', rc = 0%Z → cstr_at (u_env u') <$> r = Some (bytes "3")) demo_uboot.
Proof.
  apply (setenv_getenv 100 (length demo_data) (bytes "ipaddr") (bytes "10.0.0.2") []
           (bytes "bootdelay") demo_uboot demo_es).
  - by apply (bool_decide_unpack _).
  - apply demo_repr.
  - done.
  - vm_compute. lia.
  - by apply (bool_decide_unpack _).
  - by apply (bool_decide_unpack _).
  - vm_compute. lia.
  - vm_compute. lia.
  - by apply (bool_decide_unpack _).
  - done.
Defined.

(** ** [setenv name] *)

Lemma wp_do_setenv_name n SZ name u es (Q : Z → uboot → Prop) :
  env_wf es → env_repr es (u_env u) → length (u_env u) = SZ → (SZ < n)%nat →
  name_ok name → (length name < n)%nat → is_special name = false →
  (∀ u', env_repr (env_remove name es) (u_env u') → u_crc u' = crc32 0 (u_env u') →
     length (u_env u') = SZ → Q 0%Z u') →
  wp (_do_setenv n SZ name []) Q u.
Proof.
  intros Hwf Hrepr Hlen Hn Hname Hnn Hsp HQ.
  assert (∀ u', env_repr (env_remove name es) (u_env u') → length (u_env u') = SZ →
    wp (setenv_eth name [] ;;; env_crc_update ;;; ret 0%Z) Q u') as Hend.
  { intros u1 Hr1 Hl1. apply wp_bind, wp_eth. intros u2 He2 Hc2.
    apply wp_bind, wp_modify, wp_ret. rw -He2 in Hr1 Hl1. by apply HQ. }
  apply do_setenv_unfold, (wp_setenv_search n name es u); [done..|lia| |].
  - intros es1 e es2 Hes Hnot Hen. rw setenv_delete_plain //. apply wp_bind.
    eapply (wp_delete_env _ name es u); [done|done|lia|done..|].
    intros u1 Hr1 Hl1 Hc1. apply wp_ret, Hend; [done|lia].
  - intros Hnot. apply Hend; [|done]. by rw env_remove_notin.
Qed.

(** [setenv name] deletes: for a name that does not drive the console or
    the serial line it returns 0, the block holds the other strings in their
    order (all of [es] when the name was not defined), the CRC is right, and
    [getenv] of the name finds nothing afterwards. *)
Theorem do_setenv_deletes n SZ name u es :
  env_wf es → env_repr es (u_env u) → length (u_env u) = SZ → (SZ < n)%nat →
  name_ok name → (length name < n)%nat → is_special name = false →
  wp (let! rc := do_setenv n SZ [name] in
      let! r := on_env (getenv n SZ name) in ret (rc, r)) (λ '(rc, r) u',
    rc = 0%Z ∧ r = None ∧ env_repr (env_remove name es) (u_env u') ∧
    env_wf (env_remove name es) ∧ u_crc u' = crc32 0 (u_env u') ∧
    length (u_env u') = SZ) u.
Proof.
  intros Hwf Hrepr Hlen Hn Hname Hnn Hsp. pose proof (env_remove_wf name _ Hwf) as Hwf'.
  apply wp_bind. apply (wp_do_setenv_name n SZ name u es); [done..|]. intros u' Hr Hc Hl.
  apply wp_bind, (wp_on_getenv _ _ _ _ _ _ Hwf'); [done|done|done|lia|lia|].
  intros r Hr'. apply wp_ret. split_and!; [done| |done..].
  rw (proj2 (env_lookup_none _ _)) in Hr'; [by apply env_remove_gone|]. by destruct r.
Qed.

Lemma do_setenv_deletes_witness :
  wp (let! rc := do_setenv 100 (length demo_data) [bytes "ipaddr"] in
      let! r := on_env (getenv 100 (length demo_data) (bytes "ipaddr")) in ret (rc, r))
    (λ '(rc, r) u', rc = 0%Z ∧ r = None ∧ env_repr [bytes "bootdelay=3"] (u_env u') ∧
       env_wf [bytes "bootdelay=3"] ∧
       u_crc u' = crc32 0 (u_env u') ∧ length (u_env u') = length demo_data) demo_uboot.
Proof.
  apply (do_setenv_deletes 100 (length demo_data) (bytes "ipaddr") demo_uboot demo_es).
  - by apply (bool_decide_unpack _).
  - apply demo_repr.
  - done.
  - vm_compute. lia.
  - by apply (bool_decide_unpack _).
  - vm_compute. lia.
  - done.
Defined.

(** [setenv baudrate] with no value, when baudrate is defined, reads the
    null pointer argv[2]: only the console variables are protected by the test
    on argc. *)
Theorem do_setenv_baudrate_null n SZ u es :
  env_wf es → env_repr es (u_env u) → (length (u_env u) < n)%nat → (8 < n)%nat →
  bytes "baudrate" ∈ (entry_name <$> es) →
  do_setenv n SZ [bytes "baudrate"] u = Err NullDeref.
Proof.
  intros Hwf Hrepr Hn Hn' Hin.
  assert (wp (on_env (env_search n (bytes "baudrate")))
            (λ r _, search_result (bytes "baudrate") es r) u) as Hs.
  { apply wp_zoom. eapply wp_search; [done|done|by apply (bool_decide_unpack _)|done..|].
    by intros r Hr. }
  apply wp_ok in Hs as ([[env nxt] oldval] & u' & Hrun & [(es1 & e & es2 & _ & _ & _ & Hr)|[Hno _]]);
    [|done].
  cbn [do_setenv fmap list_fmap]. rw /_do_setenv /bind Hrun. injection Hr as -> -> ->.
  rw (proj2 (Z.leb_le _ _)); [lia|]. done.
Qed.

Lemma do_setenv_baudrate_null_witness :
  let es := [bytes "baudrate=115200"] in
  do_setenv 100 20 [bytes "baudrate"] (set_env demo_uboot (enc es ++ [0; 0; 0; 0]%Z)) =
  Err NullDeref.
Proof.
  apply (do_setenv_baudrate_null 100 20 _ [bytes "baudrate=115200"]).
  - by apply (bool_decide_unpack _).
  - by exists [0; 0; 0]%Z.
  - vm_compute. lia.
  - lia.
  - by apply (bool_decide_unpack _).
Defined.

(** ** [getenv_r] *)

(** The copy loop on a value [v] in the array, into a buffer of [len] bytes. *)
Lemma wp_getenv_r_loop n len (buf pre v suf : list Z) (Q : list Z * nat * nat → list Z → Prop) :
  NUL ∉ v → length buf = len → (length v < n)%nat →
  Q (if decide (length v < len)%nat
     then (v ++ NUL :: drop (S (length v)) buf, S (length v), S (length v))
     else (take len v, len, S len)) (pre ++ v ++ NUL :: suf) →
  wp (loopM n (λ '(buf, bi, cnt, val),
      if decide (cnt < len)%nat then
        let! c := load val in
        let! buf := buf_store buf bi c in
        if (c =? NUL)%Z then ret (inr (buf, S bi, S cnt))
        else ret (inl (buf, S bi, S cnt, S val))
      else ret (inr (buf, bi, S cnt))) (buf, 0%nat, 0%nat, length pre))
    Q (pre ++ v ++ NUL :: suf).
Proof.
  intros Hv Hlen Hn HQ. set (data := pre ++ v ++ NUL :: suf) in *.
  apply (wp_loop (λ '(b, bi, cnt, val) d, d = data ∧ bi = cnt ∧ val = (length pre + cnt)%nat ∧
           (cnt ≤ length v)%nat ∧ (cnt ≤ len)%nat ∧ b = take cnt v ++ drop cnt buf)
           (λ '(b, bi, cnt, val), length v - cnt)%nat);
    [|split_and!; [done|done|lia..|by rw drop_0]|lia].
  intros [[[b bi] cnt] val] d (-> & -> & -> & Hcnt & Hcl & ->).
  assert (length (take cnt v) = cnt) as Htl by (rw length_take; lia).
  destruct (decide (cnt < len)%nat) as [Hlt|Hge].
  2:{ apply wp_ret. assert (cnt = len) as -> by lia. rw decide_False in HQ; [lia|].
      rw drop_ge ?app_nil_r //. lia. }
  destruct (drop cnt buf) as [|x tl] eqn:Hd.
  { apply (f_equal length) in Hd. rw length_drop /= in Hd. lia. }
  assert (tl = drop (S cnt) buf) as -> by (by rw -(Nat.add_1_r cnt) -drop_drop Hd).
  assert (∀ c, <[cnt := c]> (take cnt v ++ x :: drop (S cnt) buf) =
               take cnt v ++ c :: drop (S cnt) buf) as Hins.
  { intros c. rw -{1}Htl. apply insert_app_len. }
  destruct (decide (cnt < length v)%nat) as [Hcv|Hcv].
  - destruct (lookup_lt_is_Some_2 v cnt Hcv) as [c Hc]. apply wp_bind.
    eapply (wp_load _ _ c); [by rw /data lookup_app_add lookup_app_l|].
    apply wp_bind. rw /buf_store decide_True; [rw length_app /=; lia|].
    apply wp_ret. destruct (Z.eqb_spec c NUL) as [->|_].
    { exfalso. apply Hv. by eapply list_elem_of_lookup_2. }
    apply wp_ret. split; [|lia]. split_and!; [done|done|lia..|].
    rw Hins (take_S_r _ _ _ Hc) -app_assoc. done.
  - assert (cnt = length v) as -> by lia. apply wp_bind.
    eapply wp_load; [by rw /data lookup_app_add lookup_app_len|].
    apply wp_bind. rw /buf_store decide_True; [rw length_app /=; lia|].
    apply wp_ret. rw Z.eqb_refl. apply wp_ret. rw Hins firstn_all.
    rw decide_True // in HQ.
Qed.

(** [getenv_r] finds the value as [getenv] does, then copies. *)
Lemma getenv_r_getenv n SZ name buf len d :
  getenv_r n SZ name buf len d =
  (let! r := getenv n SZ name in
   match r with
   | None => ret (buf, (-1)%Z)
   | Some val => let! (buf', cnt) := getenv_r_copy n len buf val in ret (buf', Z.of_nat cnt)
   end) d.
Proof.
  apply loopM_fuse. clear d. intros i d. rw /bind /=.
  destruct (load i d) as [[c d1]|f]; [|done]. destruct (c =? NUL)%Z; [done|].
  destruct (getenv_string_end n SZ i d1) as [[[nxt|] d2]|f]; [|done..].
  destruct (envmatch n name i d2) as [[val d3]|f]; [|done].
  destruct (val <? 0)%Z; [done|]. simpl.
  by destruct (getenv_r_copy n len buf (Z.to_nat val) d3) as [[[b cnt] d4]|f].
Qed.

(** What [getenv_r] does with a buffer of [len] bytes, from the contents of the
    block. *)
Definition getenv_r_spec (es : list entry) (name buf : list Z) : outcome (list Z * Z) :=
  match env_lookup name es with
  | None => Ok (buf, (-1)%Z)
  | Some v =>
      if decide (length v + 1 < length buf)%nat
      then Ok (v ++ NUL :: drop (S (length v)) buf, Z.of_nat (length v + 1))
      else if decide (length v + 1 = length buf)%nat then Err OutOfBounds
      else Ok (take (length buf) v, Z.of_nat (length buf + 1))
  end.

Lemma getenv_r_copy_run n buf pre v suf :
  NUL ∉ v → (length v < n)%nat →
  getenv_r_copy n (length buf) buf (length pre) (pre ++ v ++ NUL :: suf) =
  if decide (length v + 1 < length buf)%nat
  then Ok (v ++ NUL :: drop (S (length v)) buf, (length v + 1)%nat, pre ++ v ++ NUL :: suf)
  else if decide (length v + 1 = length buf)%nat then Err OutOfBounds
  else Ok (take (length buf) v, (length buf + 1)%nat, pre ++ v ++ NUL :: suf).
Proof.
  intros Hv Hn. rw /getenv_r_copy {1}/bind.
  pose proof (wp_getenv_r_loop n (length buf) buf pre v suf
    (λ r d, r = (if decide (length v < length buf)%nat
       then (v ++ NUL :: drop (S (length v)) buf, S (length v), S (length v))
       else (take (length buf) v, length buf, S (length buf))) ∧ d = pre ++ v ++ NUL :: suf)
    Hv eq_refl Hn (conj eq_refl eq_refl)) as H.
  apply wp_ok in H as (r & d & -> & -> & ->).
  destruct (decide (length v < length buf)%nat) as [Hlt|Hge].
  - destruct (decide (length buf = S (length v))) as [Heq|Hne].
    + rw decide_False; [lia|]. rw decide_True; [lia|].
      rw /bind /buf_store decide_False //. rw length_app /= length_drop. lia.
    + rw decide_True; [lia|]. by rw -Nat.add_1_r.
  - rw (decide_False (P := length buf = S (length buf))); [lia|].
    rw !decide_False; [lia..|]. by rw -Nat.add_1_r.
Qed.

(** [getenv_r] on every value length.  A value that leaves a byte to spare is
    copied with its NUL and its length counted; a value that with its NUL fills
    the buffer exactly makes it write one byte past the buffer; a longer value is
    cut and left without a NUL, and the count returned exceeds the buffer; an
    undefined name gives -1 and an untouched buffer. *)
Theorem getenv_r_behaviour n SZ name buf es data :
  env_wf es → env_repr es data → name_ok name → (length name < n)%nat →
  (length data < n)%nat → (length data ≤ SZ)%nat →
  getenv_r n SZ name buf (length buf) data =
  match getenv_r_spec es name buf with
  | Ok r => Ok (r, data)
  | Err f => Err f
  end.
Proof.
  intros Hwf Hrepr Hname Hn Hn' HSZ.
  assert (wp (getenv n SZ name) (λ r d, d = data ∧ getenv_found name es data r) data) as Hget.
  { eapply wp_getenv_found; [apply Hwf|done..|]. done. }
  rw getenv_r_getenv /getenv_r_spec. apply wp_ok in Hget as (r & d & Hrun & -> & Hr).
  rw /bind Hrun. destruct r as [val|]; [|by rw Hr].
  destruct Hr as (pre & v & suf & -> & Hv & -> & ->).
  rw getenv_r_copy_run; [done|rw !length_app in Hn'; lia|].
  by repeat case_decide.
Qed.

Lemma getenv_r_behaviour_witness :
  getenv_r 100 100 (bytes "bootdelay") [7; 7]%Z 2 demo_data = Err OutOfBounds.
Proof.
  apply (getenv_r_behaviour 100 100 (bytes "bootdelay") [7; 7]%Z demo_es demo_data).
  - by apply (bool_decide_unpack _).
  - apply demo_repr.
  - by apply (bool_decide_unpack _).
  - vm_compute. lia.
  - vm_compute. lia.
  - vm_compute. lia.
Defined.

(** ** [printenv] *)

Lemma wp_put_range n pre v suf out (Q : list Z → list Z → Prop) :
  (length v < n)%nat → Q (out ++ v) (pre ++ v ++ suf) →
  wp (put_range n (length pre) (length pre + length v) out) Q (pre ++ v ++ suf).
Proof.
  intros Hn HQ. set (data := pre ++ v ++ suf) in *.
  apply (wp_loop (λ '(k, o) d, d = data ∧ ∃ j, (j ≤ length v)%nat ∧ k = (length pre + j)%nat ∧
             o = out ++ take j v) (λ '(k, o), length pre + length v - k)%nat);
    [|split; [done|]; exists 0%nat; split_and!; [lia|lia|by rw app_nil_r]|lia].
  intros [k o] d (-> & j & Hj & -> & ->). destruct (decide _) as [Hlt|Hge].
  - destruct (lookup_lt_is_Some_2 v j) as [c Hc]; [lia|].
    apply wp_bind. eapply (wp_load _ _ c); [rw /data lookup_app_add lookup_app_l //; lia|].
    apply wp_ret. split; [|lia]. split; [done|]. exists (S j).
    rw (take_S_r _ _ _ Hc) app_assoc. split_and!; [lia|lia|done].
  - apply wp_ret. assert (j = length v) as -> by lia. by rw firstn_all in HQ |- *.
Qed.

Definition NL : Z := 10.

Lemma wp_printenv_one n name out es data (Q : list Z * bool → list Z → Prop) :
  Forall entry_ok es → env_repr es data → name_ok name →
  (length name < n)%nat → (length data < n)%nat →
  Q (match env_lookup name es with
     | Some v => (out ++ mk_entry name v ++ [NL], true)
     | None => (out, false)
     end) data →
  wp (printenv_one n name out) Q data.
Proof.
  intros Hok Hrepr Hname Hn Hn' HQ.
  apply (wp_scan (λ i, i) (λ es1 _, name ∉ (entry_name <$> es1)) _ _ es);
    [done..|apply not_elem_of_nil| |].
  - intros i rest Hnot -> Hd. apply wp_bind. eapply wp_load; [by rw Hd lookup_app_len|].
    rw Z.eqb_refl. apply wp_ret. by rw (proj2 (env_lookup_none _ _)) in HQ.
  - intros es1 e es2 rest i Hes Hnot -> Hd.
    assert (entry_ok e) as He.
    { rw Hes in Hok. by apply Forall_app in Hok as [_ [? _]%Forall_cons]. }
    pose proof (f_equal length Hd) as Hlen.
    rw (length_app (enc es1)) (length_app e) length_cons in Hlen.
    apply wp_bind. rw Hd. apply wp_load_entry; [done|]. intros c Hc.
    rw (proj2 (Z.eqb_neq c NUL)) //.
    apply wp_bind, wp_string_end; [apply He|lia|].
    apply wp_bind, wp_envmatch_env; [done..|intros Heq|intros Hne].
    + rw (proj2 (Z.ltb_ge _ _)); [lia|]. apply wp_bind. rw Nat2Z.id.
      destruct (entry_value_at (enc es1) e (enc es2 ++ NUL :: rest) He) as [Hv _].
      assert (length e = length name + 1 + length (entry_value e))%nat as Hel.
      { rw {1}(entry_split e (proj2 He)) Heq /mk_entry length_app /=. lia. }
      replace (length (enc es1) + length e)%nat with
        (length (enc es1 ++ entry_name e ++ [EQ]) + length (entry_value e))%nat
        by (rw Heq !length_app /=; lia).
      replace (length (enc es1) + length name + 1)%nat with
        (length (enc es1 ++ entry_name e ++ [EQ])) by (rw Heq !length_app /=; lia).
      rw Hv. apply wp_put_range; [lia|]. rw -Hv -Hd. apply wp_ret.
      rw Hes env_lookup_split // /mk_entry in HQ. by rw -!app_assoc in HQ |- *.
    + change (-1 <? 0)%Z with true. apply wp_ret. split_and!; [done|lia|].
      rw fmap_app. apply not_elem_of_app. split; [done|].
      by apply not_elem_of_cons; split; [|apply not_elem_of_nil].
Qed.

(** What [printenv name...] prints, from the contents of the block. *)
Definition printenv_line (es : list entry) (name : list Z) : list Z :=
  match env_lookup name es with
  | Some v => mk_entry name v ++ [NL]
  | None => bytes "## Error: " ++ [34%Z] ++ name ++ [34%Z] ++ bytes " not defined" ++ [NL]
  end.
Definition undefined (es : list entry) (names : list (list Z)) : list (list Z) :=
  filter (λ name, env_lookup name es = None) names.

Lemma cprintf_not_defined {S} out name (Q : list Z → S → Prop) s :
  (Z.of_nat (length name) < 2 ^ 32)%Z →
  Q (out ++ bytes "## Error: " ++ [34%Z] ++ name ++ [34%Z] ++ bytes " not defined" ++ [NL]) s →
  wp (cprintf out (bytes "## Error: " ++ [34%Z] ++ bytes "%s" ++ [34%Z] ++
                   bytes " not defined" ++ [10%Z]) [VStr (Some name)]) Q s.
Proof.
  intros Hl HQ. rw /cprintf.
  pose proof (sprintf_s (bytes "## Error: " ++ [34%Z]) ([34%Z] ++ bytes " not defined" ++ [10%Z])
                name) as H.
  rw -!app_assoc in H. change (bytes "%s") with [37; 115]%Z. rw H; [by apply (bool_decide_unpack _)|by apply (bool_decide_unpack _)|done|]. by apply wp_ret.
Qed.

Lemma wp_printenv_args n names rcode out es data (Q : Z * list Z → list Z → Prop) :
  Forall entry_ok es → env_repr es data → Forall name_ok names →
  Forall (λ name, (length name < n)%nat ∧ (Z.of_nat (length name) < 2 ^ 32)%Z) names →
  (length data < n)%nat →
  Q ((rcode + Z.of_nat (length (undefined es names)))%Z,
     out ++ mjoin (printenv_line es <$> names)) data →
  wp (printenv_args n names rcode out) Q data.
Proof.
  intros Hok Hrepr Hnames Hl Hn. revert rcode out.
  induction names as [|name names IH]; intros rcode out HQ.
  { apply wp_ret. simpl in HQ. by rw Z.add_0_r app_nil_r in HQ. }
  apply Forall_cons in Hnames as [Hname Hnames]. apply Forall_cons in Hl as [[Hl1 Hl2] Hl].
  cbn [printenv_args]. apply wp_bind. eapply wp_printenv_one; [done..|lia|done|].
  rw /undefined filter_cons fmap_cons in HQ. cbn [mjoin list_join] in HQ.
  rw app_assoc {1}/printenv_line in HQ.
  destruct (env_lookup name es) as [v|] eqn:Hlk; cbv beta iota.
  - destruct (decide (Some v = None)); [done|]. by apply IH.
  - destruct (decide (None = None)); [|done]. rw length_cons in HQ. apply wp_bind, cprintf_not_defined; [done|].
    apply IH; [done..|].
    replace (rcode + 1 + Z.of_nat (length (undefined es names)))%Z
      with (rcode + Z.of_nat (S (length (undefined es names))))%Z by lia. done.
Qed.

(** [printenv name...] prints, in the order of its arguments, the line
    name=value of each defined name and an error line for each undefined one,
    returns the number of undefined ones and changes nothing. *)
Theorem do_printenv_names n SZ ctrlc name names es data :
  env_wf es → env_repr es data → (length data < n)%nat → Forall name_ok (name :: names) →
  Forall (λ name, (length name < n)%nat ∧ (Z.of_nat (length name) < 2 ^ 32)%Z) (name :: names) →
  do_printenv n SZ ctrlc (name :: names) data =
  Ok ((Z.of_nat (length (undefined es (name :: names))),
       mjoin (printenv_line es <$> name :: names)), data).
Proof.
  intros Hwf Hrepr Hn Hnames Hl.
  assert (wp (do_printenv n SZ ctrlc (name :: names)) (λ r d,
    r = (Z.of_nat (length (undefined es (name :: names))),
         mjoin (printenv_line es <$> name :: names)) ∧ d = data) data) as H.
  { apply (wp_printenv_args n (name :: names) 0 [] es); [apply Hwf|done..]. }
  by apply wp_ok in H as (r & d & -> & -> & ->).
Qed.

Lemma do_printenv_names_witness :
  do_printenv 100 100 (λ _, false) [bytes "bootdelay"; bytes "x"] demo_data =
  Ok ((1%Z, bytes "bootdelay=3" ++ [NL] ++ bytes "## Error: " ++ [34%Z] ++ bytes "x" ++ [34%Z] ++
            bytes " not defined" ++ [NL]), demo_data).
Proof.
  apply (do_printenv_names 100 100 (λ _, false) (bytes "bootdelay") [bytes "x"] demo_es).
  - by apply (bool_decide_unpack _).
  - apply demo_repr.
  - vm_compute. lia.
  - by apply (bool_decide_unpack _).
  - by apply (bool_decide_unpack _).
Defined.
