(* ===== verification/EnvFlash.v ===== *)
(** * Redundant environment in NOR flash (u-boot/common/env_common.c, env_flash.c)

    The environment has two sectors in flash, each a CRC, a flag byte and the
    data ([env_t] of include/environment.h).  [env_init] chooses one at start,
    [env_relocate] copies it to RAM and repairs the flags, [saveenv] writes the
    RAM copy to the sector that is not in use.  The model follows the flash to
    the byte: erasing sets every byte to 0xFF, programming can only clear bits,
    a call of the flash layer may fail half way, and power may go between any
    two atomic steps or during an erase.  The configuration is that of
    include/configs/wmt.h: CFG_ENV_ADDR_REDUND set, CFG_ENV_SECT_SIZE equal to
    CFG_ENV_SIZE.  The flash layer is an interface here whose erase returns 0 only
    when the sector is erased.  The drivers keep to that as long as ctrl-C is not
    pressed; EnvStack proves it for the serial flash and treats
    ctrl-C, where the driver returns 0 without erasing. *)

From Stdlib Require Import ssreflect ZArith Lia ZifyBool String.
From stdpp Require Import base tactics numbers list sets relations.
From S2P Require Import Prelude Crc32 EnvFormat.

Set Default Goal Selector "!".
Open Scope general_if_scope.
#[local] Open Scope Z_scope.

(** ** [env_t] *)

Definition ENV_HEADER_SIZE : nat := 5.
Definition ACTIVE_FLAG : Z := 1.
Definition OBSOLETE_FLAG : Z := 0.

(** A 32-bit word in memory, least significant byte first. *)
Definition le32 (w : Z) : list Z :=
  [w mod 256; w / 256 mod 256; w / 65536 mod 256; w / 16777216 mod 256].
Definition of_le32 (bs : list Z) : Z :=
  foldr (λ b acc, b + 256 * acc) 0 (take 4 bs).

(** The RAM copy. *)
Record env_t := EnvT { e_crc : Z; e_flags : Z; e_data : list Z }.

(** A sector is its bytes; its fields are at the offsets of [env_t]. *)
Abbreviation sector := (list Z).
Definition s_crc (s : sector) : Z := of_le32 s.
Definition s_flags (s : sector) : Z := default 0 (s !! 4%nat).
Definition s_data (s : sector) : list Z := drop ENV_HEADER_SIZE s.
Definition s_env (s : sector) : env_t := EnvT (s_crc s) (s_flags s) (s_data s).

(** ** The flash *)

Inductive sect := Sect1 | Sect2.
#[export] Instance sect_eq_dec : EqDecision sect.
Proof. solve_decision. Defined.
Definition other (s : sect) : sect := match s with Sect1 => Sect2 | Sect2 => Sect1 end.

Record flash := Flash { sec1 : sector; sec2 : sector }.
Definition fl_get (f : flash) (s : sect) : sector :=
  match s with Sect1 => sec1 f | Sect2 => sec2 f end.
Definition fl_set (f : flash) (s : sect) (v : sector) : flash :=
  match s with Sect1 => Flash v (sec2 f) | Sect2 => Flash (sec1 f) v end.

(** Atomic steps: an erase, an erase that was torn, one byte programmed. *)
Inductive step :=
| Erase (s : sect)
| Tear (s : sect) (junk : sector)
| Prog (s : sect) (off : nat) (v : Z).

Definition apply_step (f : flash) (st : step) : flash :=
  match st with
  | Erase s => fl_set f s (replicate (length (fl_get f s)) 0xFF)
  | Tear s junk => fl_set f s (resize (length (fl_get f s)) 0xFF junk)
  | Prog s off v => fl_set f s (alter (λ old, Z.land old v) off (fl_get f s))
  end.
Definition run_steps (f : flash) (steps : list step) : flash := fold_left apply_step steps f.
Definition progs (s : sect) (off : nat) (bs : list Z) : list step :=
  imap (λ i v, Prog s (off + i) v) bs.

(** What the flash layer answers to its [k]-th call: a return code, and what an
    unsuccessful erase leaves or how many bytes an unsuccessful write did. *)
Class FlashDev := {
  dev_protect : nat → Z;
  dev_erase : nat → Z * sector;
  dev_write : nat → Z * nat
}.

(** Where [gd->env_addr] points. *)
Inductive env_loc := LocSect (s : sect) | LocDefault | LocRam | LocUnset.
#[export] Instance env_loc_eq_dec : EqDecision env_loc.
Proof. solve_decision. Defined.

Record fstate := FState {
  fs_flash : flash;
  fs_trace : list step;       (** the atomic steps done, for the crash model *)
  fs_calls : nat;             (** calls of the flash layer so far *)
  fs_prot : sect → bool;      (** [info->protect] of the two sectors *)
  fs_cur : sect;              (** [flash_addr]; [flash_addr_new] is the other *)
  fs_addr : env_loc;          (** [gd->env_addr] *)
  fs_valid : Z;               (** [gd->env_valid] *)
  fs_ram : env_t              (** [*env_ptr] *)
}.

Definition set_prot st p := FState (fs_flash st) (fs_trace st) (fs_calls st) p (fs_cur st)
  (fs_addr st) (fs_valid st) (fs_ram st).
Definition set_cur st c := FState (fs_flash st) (fs_trace st) (fs_calls st) (fs_prot st) c
  (fs_addr st) (fs_valid st) (fs_ram st).
Definition set_gd st a v := FState (fs_flash st) (fs_trace st) (fs_calls st) (fs_prot st)
  (fs_cur st) a v (fs_ram st).
Definition set_ram st r := FState (fs_flash st) (fs_trace st) (fs_calls st) (fs_prot st)
  (fs_cur st) (fs_addr st) (fs_valid st) r.
Definition set_calls st k := FState (fs_flash st) (fs_trace st) k (fs_prot st) (fs_cur st)
  (fs_addr st) (fs_valid st) (fs_ram st).
Definition do_steps st steps := FState (run_steps (fs_flash st) steps) (fs_trace st ++ steps)
  (fs_calls st) (fs_prot st) (fs_cur st) (fs_addr st) (fs_valid st) (fs_ram st).

Section env_flash.
Context {dev : FlashDev}.

(** ** The flash layer, as [saveenv] uses it *)

Definition next_call : M fstate nat :=
  let! st := get in
  put (set_calls st (S (fs_calls st))) ;;;
  ret (fs_calls st).

(** [flash_sect_protect(p, start, end)] on one of the sectors. *)
Definition flash_sect_protect (p : bool) (s : sect) : M fstate Z :=
  let! k := next_call in
  let rc := dev_protect k in
  (if rc =? 0 then modify (λ st, set_prot st (λ s', if decide (s' = s) then p else fs_prot st s'))
   else ret tt) ;;;
  ret rc.

(** The result 0 means that the sector is erased: ctrl-C is outside this interface. *)
Definition flash_sect_erase (s : sect) : M fstate Z :=
  let! k := next_call in
  let '(rc, junk) := dev_erase k in
  modify (λ st, do_steps st [if rc =? 0 then Erase s else Tear s junk]) ;;;
  ret rc.

Definition ERR_PROTECTED : Z := 4.

Definition flash_write (src : list Z) (s : sect) (off : nat) : M fstate Z :=
  let! k := next_call in
  let! st := get in
  if fs_prot st s then ret ERR_PROTECTED else
  let '(rc, done) := dev_write k in
  modify (λ st, do_steps st (if rc =? 0 then progs s off src
                             else take done (progs s off src))) ;;;
  ret rc.

(** ** env_flash.c *)

Definition crc_ok (s : sector) : bool := crc32 0 (s_data s) =? s_crc s.

(** The choice of [env_init] from the two sectors; [None] when no branch
    applies and [gd] is left as it was. *)
Definition env_choice (f : flash) : option (env_loc * Z) :=
  let flag1 := s_flags (sec1 f) in
  let flag2 := s_flags (sec2 f) in
  let crc1_ok := crc_ok (sec1 f) in
  let crc2_ok := crc_ok (sec2 f) in
  if crc1_ok && negb crc2_ok then Some (LocSect Sect1, 1)
  else if negb crc1_ok && crc2_ok then Some (LocSect Sect2, 1)
  else if negb crc1_ok && negb crc2_ok then Some (LocDefault, 0)
  else if (flag1 =? ACTIVE_FLAG) && (flag2 =? OBSOLETE_FLAG) then Some (LocSect Sect1, 1)
  else if (flag1 =? OBSOLETE_FLAG) && (flag2 =? ACTIVE_FLAG) then Some (LocSect Sect2, 1)
  else if flag1 =? flag2 then Some (LocSect Sect1, 2)
  else if flag1 =? 0xFF then Some (LocSect Sect1, 2)
  else if flag2 =? 0xFF then Some (LocSect Sect2, 2)
  else None.

Definition env_init : M fstate Z :=
  let! st := get in
  match env_choice (fs_flash st) with
  | Some (loc, valid) => put (set_gd st loc valid)
  | None => ret tt
  end ;;;
  ret 0.

(** The label [Done]: re-protect and return. *)
Definition saveenv_done (rc : Z) : M fstate Z :=
  let! st := get in
  flash_sect_protect true (fs_cur st) ;;;
  flash_sect_protect true (other (fs_cur st)) ;;;
  ret rc.

Definition saveenv : M fstate Z :=
  let! st := get in
  let flash_addr := fs_cur st in
  let flash_addr_new := other (fs_cur st) in
  let! r := flash_sect_protect false flash_addr in
  if negb (r =? 0) then saveenv_done 1 else
  let! r := flash_sect_protect false flash_addr_new in
  if negb (r =? 0) then saveenv_done 1 else
  let! r := flash_sect_erase flash_addr_new in
  if negb (r =? 0) then saveenv_done 1 else
  let! rc := flash_write (e_data (fs_ram st)) flash_addr_new ENV_HEADER_SIZE in
  if negb (rc =? 0) then saveenv_done rc else
  let! rc := flash_write (le32 (e_crc (fs_ram st))) flash_addr_new 0 in
  if negb (rc =? 0) then saveenv_done rc else
  let! rc := flash_write [OBSOLETE_FLAG] flash_addr 4 in
  if negb (rc =? 0) then saveenv_done rc else
  let! rc := flash_write [ACTIVE_FLAG] flash_addr_new 4 in
  if negb (rc =? 0) then saveenv_done rc else
  modify (λ st, set_cur st flash_addr_new) ;;;
  saveenv_done 0.

(** The command (common/cmd_nvedit.c). *)
Definition do_saveenv : M fstate Z :=
  let! r := saveenv in ret (if negb (r =? 0) then 1 else 0).

Definition env_relocate_spec : M fstate unit :=
  let! st := get in
  (if decide (fs_addr st = LocSect (fs_cur st)) then ret tt
   else put (set_cur st (other (fs_cur st)))) ;;;
  let! st := get in
  let new := other (fs_cur st) in
  let s := fl_get (fs_flash st) new in
  (if negb (s_flags s =? OBSOLETE_FLAG) && crc_ok s then
     modify (λ st, set_gd st (fs_addr st) 2) ;;;
     flash_sect_protect false new ;;;
     flash_write [OBSOLETE_FLAG] new 4 ;;;
     flash_sect_protect true new ;;;
     ret tt
   else ret tt) ;;;
  let! st := get in
  let cur := fs_cur st in
  let s := fl_get (fs_flash st) cur in
  (if negb (s_flags s =? ACTIVE_FLAG) && (Z.land (s_flags s) ACTIVE_FLAG =? ACTIVE_FLAG) then
     modify (λ st, set_gd st (fs_addr st) 2) ;;;
     flash_sect_protect false cur ;;;
     flash_write [ACTIVE_FLAG] cur 4 ;;;
     flash_sect_protect true cur ;;;
     ret tt
   else ret tt) ;;;
  modify (λ st, set_ram st (s_env (fl_get (fs_flash st) (fs_cur st)))).

(** ** env_common.c *)

Definition env_crc_update : M fstate unit :=
  modify (λ st, set_ram st (EnvT (crc32 0 (e_data (fs_ram st))) (e_flags (fs_ram st))
                              (e_data (fs_ram st)))).

(** [env_relocate], with the size of [env_t]'s data and the default
    environment; the RAM copy is the one [malloc] returned. *)
Definition env_relocate (ENV_SIZE : nat) (default_environment : list Z) : M fstate unit :=
  let! st := get in
  if fs_valid st =? 0 then
    if decide (ENV_SIZE < length default_environment)%nat then ret tt else
    modify (λ st, set_ram st (EnvT 0 0 (replicate ENV_SIZE 0))) ;;;
    modify (λ st, set_ram st (EnvT (e_crc (fs_ram st)) (e_flags (fs_ram st))
      (default_environment ++ drop (length default_environment) (e_data (fs_ram st))))) ;;;
    modify (λ st, set_ram st (EnvT (e_crc (fs_ram st)) 0xFF (e_data (fs_ram st)))) ;;;
    env_crc_update ;;;
    modify (λ st, set_gd st LocRam 1)
  else
    env_relocate_spec ;;;
    modify (λ st, set_gd st LocRam (fs_valid st)).

(** The bytes [gd->env_addr] points to, and the readers. *)
Definition env_bytes_at (st : fstate) (default_environment : list Z) : list Z :=
  match fs_addr st with
  | LocSect s => s_data (fl_get (fs_flash st) s)
  | LocDefault => default_environment
  | LocRam => e_data (fs_ram st)
  | LocUnset => []
  end.
Definition env_get_char_memory (default_environment : list Z) (index : nat) : M fstate Z :=
  let! st := get in
  let src := if fs_valid st =? 0 then default_environment
             else env_bytes_at st default_environment in
  match src !! index with Some c => ret c | None => fail OutOfBounds end.

End env_flash.

(** ** The default environment of include/configs/wmt.h *)

Definition quoted (s : list Z) : list Z := [34] ++ s ++ [34].
Definition default_entries : list entry :=
  [bytes "bootargs=mem=127M root=dev/ram0 rw initrd=0x01000000,32768K console=ttyS0,115200n8";
   bytes "bootcmd=cp.b ff200000 01000000 $(rootfs_size); bootm ff000000";
   bytes "bootdelay=3";
   bytes "baudrate=115200";
   bytes "ethaddr=00:40:63:00:00:00";
   bytes "ipaddr=192.168.1.2";
   bytes "serverip=192.168.1.1";
   bytes "netmask=255.255.255.0";
   bytes "bootfile=" ++ quoted (bytes "uzImage.bin");
   bytes "loadaddr=0x02000000"].
(** The strings, the "\0" of the initialiser and the NUL C adds. *)
Definition default_environment : list Z := enc default_entries ++ [NUL; NUL].

(** ** Words and sectors *)

Lemma of_le32_le32 w rest : is_word w → of_le32 (le32 w ++ rest) = w.
Proof.
  rw /is_word /of_le32 /le32 /= => Hw. change (2 ^ 32) with 4294967296 in Hw.
  Z.to_euclidean_division_equations. lia.
Qed.

Lemma le32_bytes w : Forall is_byte (le32 w).
Proof. rw /le32 /is_byte. repeat constructor; apply Z.mod_pos_bound; lia. Qed.

Lemma crc32_word bs : is_word (crc32 0 bs).
Proof.
  rw /crc32 crc_loop_fold. apply is_word_lxor; [|rw /is_word; lia].
  apply fold_DO1_word. by rw /is_word.
Qed.

Lemma other_ne s : other s ≠ s.
Proof. by destruct s. Qed.
Lemma other_other s : other (other s) = s.
Proof. by destruct s. Qed.
Lemma sect_cases s s' : s = s' ∨ s = other s'.
Proof. destruct s, s'; auto. Qed.
Lemma fl_get_set f s v : fl_get (fl_set f s v) s = v.
Proof. by destruct s. Qed.
Lemma fl_get_set_other f s v : fl_get (fl_set f s v) (other s) = fl_get f (other s).
Proof. by destruct s. Qed.
Lemma fl_get_other_set f s v : fl_get (fl_set f (other s) v) s = fl_get f s.
Proof. by destruct s. Qed.
Lemma fl_set_set f s v w : fl_set (fl_set f s v) s w = fl_set f s w.
Proof. by destruct s. Qed.
Lemma fl_eq f f' s :
  fl_get f s = fl_get f' s → fl_get f (other s) = fl_get f' (other s) → f = f'.
Proof. destruct f, f', s; naive_solver. Qed.

Lemma land_ff b : is_byte b → Z.land 0xFF b = b.
Proof.
  rw /is_byte => Hb. rw Z.land_comm. change 0xFF with (Z.ones 8). rw Z.land_ones; [lia|].
  apply Z.mod_small. lia.
Qed.

(** ** Programming an erased range *)

Lemma alter_app_len {A} (g : A → A) (l1 l2 : list A) x :
  alter g (length l1) (l1 ++ x :: l2) = l1 ++ g x :: l2.
Proof. induction l1 as [|y l1 IH]; simpl; [done|]. f_equal. apply IH. Qed.

Lemma progs_cons s off b bs : progs s off (b :: bs) = Prog s off b :: progs s (S off) bs.
Proof.
  rw /progs imap_cons Nat.add_0_r. f_equal. apply imap_ext. intros i x _. simpl. f_equal. lia.
Qed.

Lemma run_steps_app f t1 t2 : run_steps f (t1 ++ t2) = run_steps (run_steps f t1) t2.
Proof. apply fold_left_app. Qed.

Lemma run_progs f s off bs pre suf :
  Forall is_byte bs → length pre = off →
  fl_get f s = pre ++ replicate (length bs) 0xFF ++ suf →
  run_steps f (progs s off bs) = fl_set f s (pre ++ bs ++ suf).
Proof.
  intros Hbs. revert f off pre.
  induction Hbs as [|b bs Hb Hbs IH]; intros f off pre Hoff Hf.
  - simpl in *. rw -Hf. by destruct f, s.
  - rw progs_cons. simpl in Hf |- *. subst off. rw Hf alter_app_len land_ff //.
    rw (IH _ _ (pre ++ [b])); [rw length_app /=; lia|by rw fl_get_set -app_assoc|].
    by rw fl_set_set -app_assoc.
Qed.

(** Programming one flag byte. *)
Definition with_flag (sc : sector) (v : Z) : sector := alter (λ old, Z.land old v) 4%nat sc.

Lemma run_prog_flag f s v :
  run_steps f (progs s 4 [v]) = fl_set f s (with_flag (fl_get f s) v).
Proof. done. Qed.

Lemma with_flag_spec sc v :
  (5 ≤ length sc)%nat →
  s_crc (with_flag sc v) = s_crc sc ∧ s_data (with_flag sc v) = s_data sc ∧
  s_flags (with_flag sc v) = Z.land (s_flags sc) v ∧
  crc_ok (with_flag sc v) = crc_ok sc ∧ length (with_flag sc v) = length sc.
Proof. destruct sc as [|?[|?[|?[|?[|? ?]]]]]; simpl; try lia. done. Qed.

(** ** Runs and crashes *)

(** The flash contents at which power may go during the steps [tr]: between two
    steps, or with a sector torn in the middle of its erase. *)
Inductive crash (f : flash) (tr : list step) : flash → Prop :=
| crash_between k : crash f tr (run_steps f (take k tr))
| crash_erase k s junk :
    tr !! k = Some (Erase s) → crash f tr (apply_step (run_steps f (take k tr)) (Tear s junk)).

Lemma crash_app f t1 t2 f' :
  crash f (t1 ++ t2) f' → crash f t1 f' ∨ crash (run_steps f t1) t2 f'.
Proof.
  destruct 1 as [k|k s junk Hk].
  - destruct (decide (k ≤ length t1)%nat) as [Hle|Hgt].
    + left. rw take_app_le //. constructor.
    + right. rw take_app_ge; [lia|]. rw run_steps_app. constructor.
  - destruct (decide (k < length t1)%nat) as [Hlt|Hge].
    + left. rw take_app_le; [lia|]. rw lookup_app_l // in Hk. by constructor.
    + right. rw take_app_ge; [lia|]. rw run_steps_app. rw lookup_app_r in Hk; [lia|].
      by constructor.
Qed.

Lemma crash_nil f f' : crash f [] f' → f' = f.
Proof. destruct 1 as [k|k s junk Hk]; [by destruct k|done]. Qed.

Lemma crash_end f tr : crash f tr (run_steps f tr).
Proof. rw -{2}(firstn_all tr). constructor. Qed.

Lemma crash_take f n tr f' : crash f (take n tr) f' → crash f tr f'.
Proof.
  destruct 1 as [k|k s junk Hk]; [rw take_take; constructor|].
  rw take_take. pose proof (lookup_lt_Some _ _ _ Hk) as Hlt. rw length_take in Hlt.
  rw Nat.min_l; [lia|]. constructor. rw lookup_take_Some in Hk. by destruct Hk.
Qed.

Definition step_sect (st : step) : sect :=
  match st with Erase s | Tear s _ | Prog s _ _ => s end.

Lemma apply_step_other f st s :
  step_sect st = other s →
  fl_get (apply_step f st) s = fl_get f s ∧
  length (fl_get (apply_step f st) (other s)) = length (fl_get f (other s)).
Proof.
  destruct st as [s'|s' junk|s' off v]; simpl; intros ->; rw fl_get_other_set fl_get_set.
  - by rw length_replicate.
  - by rw length_resize.
  - by rw length_alter.
Qed.

Lemma run_steps_other f steps s :
  Forall (λ st, step_sect st = other s) steps →
  fl_get (run_steps f steps) s = fl_get f s ∧
  length (fl_get (run_steps f steps) (other s)) = length (fl_get f (other s)).
Proof.
  intros Hs. revert f. induction Hs as [|st steps Hst Hs IH]; intros f; [done|]. simpl.
  destruct (IH (apply_step f st)) as [-> ->]. by apply apply_step_other.
Qed.

Lemma crash_other f steps s f' :
  Forall (λ st, step_sect st = other s) steps → crash f steps f' →
  fl_get f' s = fl_get f s ∧ length (fl_get f' (other s)) = length (fl_get f (other s)).
Proof.
  intros Hs. destruct 1 as [k|k s' junk Hk].
  - apply run_steps_other. by apply Forall_take.
  - assert (s' = other s) as ->.
    { rw Forall_lookup in Hs. by apply (Hs _ _ Hk). }
    destruct (apply_step_other (run_steps f (take k steps)) (Tear (other s) junk) s) as [-> ->];
      [done|]. apply run_steps_other. by apply Forall_take.
Qed.

Lemma progs_sect s off bs : Forall (λ st, step_sect st = s) (progs s off bs).
Proof.
  revert off. induction bs as [|b bs IH]; intros off; [constructor|].
  rw progs_cons. by constructor.
Qed.

(** ** The choice of [env_init] *)

Definition selected_data (f : flash) : option (list Z) :=
  match env_choice f with
  | Some (LocSect s, _) => Some (s_data (fl_get f s))
  | _ => None
  end.

(** The flag bytes the code writes, and the erased one. *)
Definition flag_ok (v : Z) : Prop := v = 0 ∨ v = 1 ∨ v = 0xFF.

(** [env_init] takes its data from a sector with a regular flag byte. *)
Definition selects (f : flash) (data : list Z) : Prop :=
  ∃ s v, env_choice f = Some (LocSect s, v) ∧ v ≠ 0 ∧ s_data (fl_get f s) = data ∧
         flag_ok (s_flags (fl_get f s)).

Lemma choice_crc_ok f s v : env_choice f = Some (LocSect s, v) → crc_ok (fl_get f s) = true.
Proof.
  rw /env_choice. destruct (crc_ok (sec1 f)) eqn:H1, (crc_ok (sec2 f)) eqn:H2; simpl;
    repeat case_match; intros [= <- <-]; done.
Qed.

Lemma choice_single f s :
  crc_ok (fl_get f s) = true → crc_ok (fl_get f (other s)) = false →
  env_choice f = Some (LocSect s, 1).
Proof. destruct s; rw /env_choice /=; by intros -> ->. Qed.

Lemma choice_blank f s :
  crc_ok (fl_get f s) = true → crc_ok (fl_get f (other s)) = true →
  flag_ok (s_flags (fl_get f s)) → s_flags (fl_get f (other s)) = 0xFF →
  env_choice f = Some (LocSect (if decide (s_flags (fl_get f s) = 0xFF) then Sect1 else other s), 2).
Proof.
  destruct s; rw /env_choice /=; intros -> -> [-> |[-> | ->]] ->; done.
Qed.

Lemma choice_active f s :
  crc_ok (fl_get f s) = true → crc_ok (fl_get f (other s)) = true →
  s_flags (fl_get f s) = 0 → s_flags (fl_get f (other s)) = 1 →
  env_choice f = Some (LocSect (other s), 1).
Proof. destruct s; rw /env_choice /=; intros -> -> -> ->; done. Qed.

(** ** Crash safety of [saveenv] *)

Section saveenv.
Context {dev : FlashDev} (SZ : nat) (f0 : flash) (A : sect) (new : list Z).
Let B := other A.
Let old := s_data (fl_get f0 A).
Hypothesis HlenA : length (fl_get f0 A) = (ENV_HEADER_SIZE + SZ)%nat.
Hypothesis HlenB : length (fl_get f0 B) = (ENV_HEADER_SIZE + SZ)%nat.
Hypothesis HokA : crc_ok (fl_get f0 A) = true.
Hypothesis HflagA : flag_ok (s_flags (fl_get f0 A)).
Hypothesis Hnewlen : length new = SZ.
Hypothesis Hnewbytes : Forall is_byte new.

(** The sector being rewritten passes its CRC check although it is not the
    complete new copy: its data is not all there, or its flag byte is not blank. *)
Definition accident (f' : flash) : Prop :=
  fl_get f' A = fl_get f0 A ∧ fl_get f' B ≠ fl_get f0 B ∧ crc_ok (fl_get f' B) = true ∧
  ¬ (s_data (fl_get f' B) = new ∧ s_flags (fl_get f' B) = 0xFF).

(** The copy in use still passes its check and has its data. *)
Definition intact (f' : flash) : Prop :=
  crc_ok (fl_get f' A) = true ∧ s_data (fl_get f' A) = old ∧ flag_ok (s_flags (fl_get f' A)).

Definition crash_good (f' : flash) : Prop :=
  intact f' ∧ (f' = f0 ∨ selects f' old ∨ selects f' new ∨ accident f').

Lemma selects_blank f' :
  intact f' → crc_ok (fl_get f' B) = true → s_data (fl_get f' B) = new →
  s_flags (fl_get f' B) = 0xFF → selects f' old ∨ selects f' new.
Proof.
  intros (HA & HdA & HfA) HB HdB HfB. pose proof (choice_blank f' A HA HB HfA HfB) as Hch.
  destruct (decide _) as [HfA'|HfA'].
  - destruct (sect_cases Sect1 A) as [Hs|Hs]; rw Hs in Hch; [left|right].
    + by exists A, 2.
    + exists B, 2. split_and!; [done..|]. rw HfB. by right; right.
  - right. exists B, 2. split_and!; [done..|]. rw HfB. by right; right.
Qed.

Lemma good_same_A f' : fl_get f' A = fl_get f0 A → crash_good f'.
Proof.
  intros HA. assert (intact f') as Hi by (by rw /intact HA). split; [done|].
  rw /accident -/B. destruct (decide (fl_get f' B = fl_get f0 B)) as [HB|HB].
  { left. by apply (fl_eq _ _ A). }
  destruct (crc_ok (fl_get f' B)) eqn:Hok.
  - destruct (decide (s_data (fl_get f' B) = new ∧ s_flags (fl_get f' B) = 0xFF)) as [[Hd Hf]|Hno].
    + right. destruct (selects_blank f') as [?|?]; auto.
    + right; right; right. done.
  - right; left. exists A, 1. rw (choice_single f' A) //; [by rw HA|]. by rw HA.
Qed.

(** From the moment the new copy is complete. *)
Definition committed (f' : flash) : Prop :=
  crc_ok (fl_get f' A) = true ∧ s_data (fl_get f' A) = old ∧
  length (fl_get f' A) = (ENV_HEADER_SIZE + SZ)%nat ∧
  crc_ok (fl_get f' B) = true ∧ s_data (fl_get f' B) = new ∧
  length (fl_get f' B) = (ENV_HEADER_SIZE + SZ)%nat ∧
  ((flag_ok (s_flags (fl_get f' A)) ∧ s_flags (fl_get f' B) = 0xFF) ∨
   (s_flags (fl_get f' A) = 0 ∧ s_flags (fl_get f' B) = 1)).

Lemma good_committed f' : committed f' → crash_good f'.
Proof.
  intros (HA & Hold & _ & HB & Hnew & _ & [[HfA HfB]|[HfA HfB]]).
  - assert (intact f') as Hi by done. split; [done|].
    destruct (selects_blank f') as [?|?]; auto.
  - split; [split_and!; [done..|rw HfA; by left]|]. right; right; left.
    exists B, 1. rw (choice_active f' A) // HfB. split_and!; [done..|]. by right; left.
Qed.

(** The state of a run of [saveenv]: every crash point so far is good. *)
Definition run_inv (st : fstate) : Prop :=
  fs_flash st = run_steps f0 (fs_trace st) ∧ ∀ f', crash f0 (fs_trace st) f' → crash_good f'.

Definition same (st st' : fstate) : Prop :=
  fs_flash st' = fs_flash st ∧ fs_trace st' = fs_trace st ∧ fs_cur st' = fs_cur st ∧
  fs_ram st' = fs_ram st.

Lemma same_trans st st' st'' : same st st' → same st' st'' → same st st''.
Proof. rw /same. intros (?&?&?&?) (?&?&?&?). split_and!; congruence. Qed.

Lemma run_inv_same st st' : same st st' → run_inv st → run_inv st'.
Proof. rw /run_inv. by intros (-> & -> & _). Qed.

Lemma run_inv_steps st steps :
  run_inv st → (∀ f', crash (fs_flash st) steps f' → crash_good f') →
  run_inv (do_steps st steps).
Proof.
  intros [Hf Hc] Hs. split; simpl; [by rw run_steps_app -Hf|].
  intros f' [H|H]%crash_app; [by apply Hc|]. rw -Hf in H. by apply Hs.
Qed.

Lemma wp_protect p s st (Q : Z → fstate → Prop) :
  (∀ rc st', same st st' → Q rc st') → wp (flash_sect_protect p s) Q st.
Proof.
  intros HQ. rw /flash_sect_protect /next_call. wp_steps. case_match; wp_steps; by apply HQ.
Qed.

Lemma wp_saveenv_done rc st (Q : Z → fstate → Prop) :
  (∀ st', same st st' → Q rc st') → wp (saveenv_done rc) Q st.
Proof.
  intros HQ. rw /saveenv_done. apply wp_bind, wp_get, wp_bind, wp_protect. intros _ st1 H1.
  apply wp_bind, wp_protect. intros _ st2 H2. apply wp_ret, HQ.
  by eapply same_trans.
Qed.

Lemma wp_erase s st (Q : Z → fstate → Prop) :
  (∀ rc st1 junk, same st st1 → rc ≠ 0 → Q rc (do_steps st1 [Tear s junk])) →
  (∀ st1, same st st1 → Q 0 (do_steps st1 [Erase s])) →
  wp (flash_sect_erase s) Q st.
Proof.
  intros HQ1 HQ0. rw /flash_sect_erase /next_call.
  apply wp_bind, wp_bind, wp_get, wp_bind, wp_put, wp_ret. cbn beta.
  destruct (dev_erase (fs_calls st)) as [rc junk]. destruct (Z.eqb_spec rc 0) as [->|Hne]; wp_steps.
  - by apply HQ0.
  - by apply HQ1.
Qed.

Lemma wp_write src s off st (Q : Z → fstate → Prop) :
  (∀ rc st1 done, same st st1 → rc ≠ 0 → Q rc (do_steps st1 (take done (progs s off src)))) →
  (∀ st1, same st st1 → Q 0 (do_steps st1 (progs s off src))) →
  wp (flash_write src s off) Q st.
Proof.
  intros HQ1 HQ0. rw /flash_write /next_call. wp_steps. destruct (fs_prot _ s).
  - wp_steps. assert (∀ st1, do_steps st1 (take 0 (progs s off src)) = st1) as Hid.
    { intros []. rw /do_steps /= app_nil_r. done. }
    rw -(Hid (set_calls _ _)). by apply HQ1.
  - destruct (dev_write (fs_calls st)) as [rc done'].
    destruct (Z.eqb_spec rc 0) as [->|Hne]; wp_steps.
    + by apply HQ0.
    + by apply HQ1.
Qed.

(** After the three first calls: the new copy, with a blank flag byte. *)
Definition new_sector : sector := le32 (crc32 0 new) ++ [0xFF] ++ new.
Definition f_new : flash := fl_set f0 B new_sector.

Lemma new_sector_spec :
  s_data new_sector = new ∧ s_flags new_sector = 0xFF ∧ crc_ok new_sector = true ∧
  length new_sector = (ENV_HEADER_SIZE + SZ)%nat.
Proof.
  assert (s_data new_sector = new) as Hd by done. split_and!; [done|done| |].
  - rw /crc_ok Hd /s_crc /new_sector of_le32_le32; [apply crc32_word|]. by rw Z.eqb_refl.
  - rw /new_sector !length_app Hnewlen. done.
Qed.

Lemma committed_new : committed f_new.
Proof.
  destruct new_sector_spec as (Hd & Hf & Hok & Hl).
  rw /committed /f_new fl_get_set fl_get_other_set. split_and!; [done..|]. by left.
Qed.

Lemma committed_obsolete f' :
  committed f' → s_flags (fl_get f' B) = 0xFF →
  committed (fl_set f' A (with_flag (fl_get f' A) OBSOLETE_FLAG)) ∧
  s_flags (with_flag (fl_get f' A) OBSOLETE_FLAG) = 0.
Proof.
  intros (HA & Hold & HlA & HB & Hn & HlB & _) HfB.
  destruct (with_flag_spec (fl_get f' A) OBSOLETE_FLAG) as (Hc & Hd & Hf & Ho & Hl);
    [rw HlA /ENV_HEADER_SIZE; lia|].
  assert (s_flags (with_flag (fl_get f' A) OBSOLETE_FLAG) = 0) as Hf0 by (by rw Hf Z.land_0_r).
  split; [|done]. rw /committed fl_get_set fl_get_set_other Ho Hd Hl.
  split_and!; [done..|]. left. split; [|done]. rw Hf0. by left.
Qed.

Lemma committed_active f' :
  committed f' → s_flags (fl_get f' B) = 0xFF → s_flags (fl_get f' A) = 0 →
  committed (fl_set f' B (with_flag (fl_get f' B) ACTIVE_FLAG)) ∧
  s_flags (with_flag (fl_get f' B) ACTIVE_FLAG) = 1.
Proof.
  intros (HA & Hold & HlA & HB & Hn & HlB & _) HfB HfA.
  destruct (with_flag_spec (fl_get f' B) ACTIVE_FLAG) as (Hc & Hd & Hf & Ho & Hl);
    [rw HlB /ENV_HEADER_SIZE; lia|].
  assert (s_flags (with_flag (fl_get f' B) ACTIVE_FLAG) = 1) as Hf0 by (by rw Hf HfB).
  split; [|done]. rw /committed fl_get_set fl_get_other_set Ho Hd Hl.
  split_and!; [done..|]. by right.
Qed.

(** Crash points of programming one flag. *)
Lemma crash_flag f s v n f' :
  crash f (take n (progs s 4 [v])) f' → f' = f ∨ f' = fl_set f s (with_flag (fl_get f s) v).
Proof.
  intros Hcr%crash_take. destruct Hcr as [[|k]|[|k] s' junk Hk]; [by left| |done|done].
  right. simpl. by rw take_nil.
Qed.

Lemma crash_B_good f steps f' :
  fl_get f A = fl_get f0 A → Forall (λ st, step_sect st = B) steps → crash f steps f' →
  crash_good f'.
Proof. intros Hf Hs Hcr. apply good_same_A. rw -Hf. by eapply crash_other. Qed.

(** The contents of the target sector after the erase and the two writes. *)
Lemma run_erase : run_steps f0 [Erase B] = fl_set f0 B (replicate (ENV_HEADER_SIZE + SZ) 0xFF).
Proof. rw /run_steps /= HlenB. done. Qed.

Lemma run_data :
  run_steps (run_steps f0 [Erase B]) (progs B ENV_HEADER_SIZE new) =
  fl_set f0 B (replicate ENV_HEADER_SIZE 0xFF ++ new).
Proof.
  rw run_erase (run_progs _ _ _ _ (replicate ENV_HEADER_SIZE 0xFF) []) //.
  - by rw fl_get_set app_nil_r Hnewlen replicate_add.
  - by rw fl_set_set app_nil_r.
Qed.

Lemma run_crc :
  run_steps (fl_set f0 B (replicate ENV_HEADER_SIZE 0xFF ++ new)) (progs B 0 (le32 (crc32 0 new))) =
  f_new.
Proof.
  rw (run_progs _ _ _ _ [] ([0xFF] ++ new)); [apply le32_bytes|done|by rw fl_get_set|].
  by rw fl_set_set.
Qed.

(** [st] is in a run of [saveenv] that has done the steps of flash [f]. *)
Definition at_flash (f : flash) (st : fstate) : Prop :=
  run_inv st ∧ fs_flash st = f ∧ fs_cur st = A ∧ fs_ram st = EnvT (crc32 0 new) (e_flags (fs_ram st)) new.

Lemma at_flash_same f st st' : same st st' → at_flash f st → at_flash f st'.
Proof.
  intros Hs (Hi & Hf & Hc & Hr). pose proof (run_inv_same _ _ Hs Hi).
  destruct Hs as (H1 & H2 & H3 & H4). split_and!; [done|congruence|congruence|].
  by rw H4 {1}Hr.
Qed.

Lemma at_flash_steps f st steps :
  at_flash f st → (∀ f', crash f steps f' → crash_good f') →
  at_flash (run_steps f steps) (do_steps st steps).
Proof.
  intros (Hi & Hf & Hc & Hr) Hs. split_and!; [|by rw /= Hf|done|done].
  apply run_inv_steps; [done|]. by rw Hf.
Qed.

(** What a finished run leaves. *)
Definition saved (rc : Z) (st : fstate) : Prop :=
  run_inv st ∧
  (rc ≠ 0 ∧ fs_cur st = A ∨
   rc = 0 ∧ fs_cur st = B ∧ committed (fs_flash st) ∧
   s_flags (fl_get (fs_flash st) A) = 0 ∧ s_flags (fl_get (fs_flash st) B) = 1).

Lemma wp_abort rc f st : at_flash f st → rc ≠ 0 → wp (saveenv_done rc) saved st.
Proof.
  intros H Hrc. apply wp_saveenv_done. intros st' Hs.
  destruct (at_flash_same _ _ _ Hs H) as (Hi & _ & Hc & _). split; [done|]. by left.
Qed.

(** A write in the run: the two ways on. *)
Lemma wp_save_write f src s off st (k : Z → M fstate Z) :
  at_flash f st → (∀ f', crash f (progs s off src) f' → crash_good f') →
  (∀ st', at_flash (run_steps f (progs s off src)) st' → wp (k 0) saved st') →
  wp (let! rc := flash_write src s off in
      if negb (rc =? 0) then saveenv_done rc else k rc) saved st.
Proof.
  intros Hat Hcr Hk. apply wp_bind, wp_write.
  - intros rc st1 n Hs Hrc. rw (proj2 (Z.eqb_neq rc 0)) //.
    eapply wp_abort; [|done]. apply at_flash_steps; [by eapply at_flash_same|].
    intros f' Hf'. apply Hcr. by eapply crash_take.
  - intros st1 Hs. apply Hk. apply at_flash_steps; [by eapply at_flash_same|done].
Qed.

(** The two flag writes, once the new copy is complete. *)
Lemma wp_save_flags st :
  at_flash f_new st →
  wp (let! rc := flash_write [OBSOLETE_FLAG] A 4 in
      if negb (rc =? 0) then saveenv_done rc else
      let! rc := flash_write [ACTIVE_FLAG] B 4 in
      if negb (rc =? 0) then saveenv_done rc else
      modify (λ st, set_cur st B) ;;;
      saveenv_done 0) saved st.
Proof.
  intros Hat. assert (committed f_new) as Hcom by apply committed_new.
  assert (s_flags (fl_get f_new B) = 0xFF) as HfB by (by rw /f_new fl_get_set; apply new_sector_spec).
  destruct (committed_obsolete _ Hcom HfB) as [Hcom' HfA].
  set (f1 := fl_set f_new A (with_flag (fl_get f_new A) OBSOLETE_FLAG)) in *.
  assert (fl_get f1 A = with_flag (fl_get f_new A) OBSOLETE_FLAG) as HgA by (by rw /f1 fl_get_set).
  assert (s_flags (fl_get f1 B) = 0xFF) as HfB1 by (by rw /f1 fl_get_set_other).
  rw -HgA in HfA. destruct (committed_active _ Hcom' HfB1 HfA) as [Hcom'' HfB2].
  set (f2 := fl_set f1 B (with_flag (fl_get f1 B) ACTIVE_FLAG)) in *.
  eapply wp_save_write; [exact Hat| |].
  { intros f' Hcr. rw -(firstn_all (progs A 4 [OBSOLETE_FLAG])) in Hcr.
    apply crash_flag in Hcr as [-> | ->]; by apply good_committed. }
  rw run_prog_flag. fold f1. intros st6 Hat6.
  eapply wp_save_write; [exact Hat6| |].
  { intros f' Hcr. rw -(firstn_all (progs B 4 [ACTIVE_FLAG])) in Hcr.
    apply crash_flag in Hcr as [-> | ->]; by apply good_committed. }
  rw run_prog_flag. fold f2. intros st7 (Hi & Hf & Hc & Hr).
  apply wp_bind, wp_modify, wp_saveenv_done. intros st8 Hs.
  split; [by eapply run_inv_same|]. right. destruct Hs as (Hs1 & _ & Hs3 & _).
  rw Hs1 Hs3 /= Hf. split_and!; [done..| |].
  - by rw /f2 fl_get_other_set HfA.
  - by rw /f2 fl_get_set.
Qed.

Lemma wp_saveenv st : at_flash f0 st → wp saveenv saved st.
Proof.
  intros Hat. destruct (Hat) as (_ & _ & Hcur & Hram).
  rw /saveenv. apply wp_bind, wp_get. rw Hcur Hram. cbn [e_data e_crc]. fold B.
  apply wp_bind, wp_protect. intros r st1 H1. pose proof (at_flash_same _ _ _ H1 Hat) as Hat1.
  destruct (negb (r =? 0)); [by eapply wp_abort|].
  apply wp_bind, wp_protect. intros r2 st2 H2. pose proof (at_flash_same _ _ _ H2 Hat1) as Hat2.
  destruct (negb (r2 =? 0)); [by eapply wp_abort|]. clear dependent st st1.
  assert (∀ steps f f', fl_get f A = fl_get f0 A → Forall (λ st, step_sect st = B) steps →
            crash f steps f' → crash_good f') as HB by (intros; by eapply crash_B_good).
  apply wp_bind, wp_erase.
  { intros rc st3 junk H3 Hrc. rw (proj2 (Z.eqb_neq rc 0)) //. eapply wp_abort; [|done].
    apply at_flash_steps; [by eapply at_flash_same|]. intros f'. apply HB; [done|]. by constructor. }
  intros st3 H3. assert (at_flash (run_steps f0 [Erase B]) (do_steps st3 [Erase B])) as Hat3.
  { apply at_flash_steps; [by eapply at_flash_same|]. intros f'. apply HB; [done|]. by constructor. }
  cbn [negb Z.eqb].
  eapply wp_save_write; [exact Hat3| |].
  { intros f'. apply HB; [by rw run_erase fl_get_other_set|apply progs_sect]. }
  rw run_data. intros st4 Hat4.
  eapply wp_save_write; [exact Hat4| |].
  { intros f'. apply HB; [by rw fl_get_other_set|apply progs_sect]. }
  rw run_crc. intros st5 Hat5. by apply wp_save_flags.
Qed.

End saveenv.

(** ** A flash layer that reports no error *)

Class FlashDevOk {dev : FlashDev} : Prop := {
  ok_protect k : dev_protect k = 0;
  ok_erase k : (dev_erase k).1 = 0;
  ok_write k : (dev_write k).1 = 0
}.
Arguments FlashDevOk dev : clear implicits.

(** The flash after a complete [saveenv]: the new copy active, the other one
    obsolete. *)
Definition saved_flash (f : flash) (A : sect) (ram : env_t) : flash :=
  fl_set (fl_set f A (with_flag (fl_get f A) OBSOLETE_FLAG)) (other A)
    (le32 (e_crc ram) ++ [ACTIVE_FLAG] ++ e_data ram).

Lemma saved_flash_steps SZ f A ram :
  length (fl_get f (other A)) = (ENV_HEADER_SIZE + SZ)%nat →
  length (e_data ram) = SZ → Forall is_byte (e_data ram) →
  run_steps (run_steps (run_steps (run_steps (run_steps f [Erase (other A)])
    (progs (other A) ENV_HEADER_SIZE (e_data ram))) (progs (other A) 0 (le32 (e_crc ram))))
    (progs A 4 [OBSOLETE_FLAG])) (progs (other A) 4 [ACTIVE_FLAG]) = saved_flash f A ram.
Proof.
  intros HlB Hl Hb. rw (run_data SZ) //.
  rw (run_progs _ _ _ (le32 _) [] ([0xFF] ++ e_data ram));
    [apply le32_bytes|done|by rw fl_get_set|].
  rw !run_prog_flag fl_set_set fl_get_other_set fl_get_set_other fl_get_set /saved_flash.
  by destruct A.
Qed.

Section no_errors.
Context {dev : FlashDev} {Hok : FlashDevOk dev}.

Lemma wp_protect_ok p s st (Q : Z → fstate → Prop) :
  (∀ st', same st st' → (∀ s', fs_prot st' s' = if decide (s' = s) then p else fs_prot st s') →
     Q 0 st') → wp (flash_sect_protect p s) Q st.
Proof.
  intros HQ. rw /flash_sect_protect /next_call. wp_steps. rw ok_protect. simpl. wp_steps.
  by apply HQ.
Qed.

Lemma wp_write_ok src s off st (Q : Z → fstate → Prop) :
  fs_prot st s = false →
  (∀ st1, same st st1 → fs_prot st1 = fs_prot st → Q 0 (do_steps st1 (progs s off src))) →
  wp (flash_write src s off) Q st.
Proof.
  intros Hp HQ. rw /flash_write /next_call.
  apply wp_bind, wp_bind, wp_get, wp_bind, wp_put, wp_ret, wp_bind, wp_get.
  cbn [fs_prot set_calls]. rw Hp. pose proof (ok_write (fs_calls st)) as Hw.
  destruct (dev_write (fs_calls st)) as [rc n]. simpl in Hw. subst rc. wp_steps. by apply HQ.
Qed.

Lemma wp_erase_ok s st (Q : Z → fstate → Prop) :
  (∀ st1, same st st1 → fs_prot st1 = fs_prot st → Q 0 (do_steps st1 [Erase s])) →
  wp (flash_sect_erase s) Q st.
Proof.
  intros HQ. rw /flash_sect_erase /next_call.
  apply wp_bind, wp_bind, wp_get, wp_bind, wp_put, wp_ret. cbn beta.
  pose proof (ok_erase (fs_calls st)) as He. destruct (dev_erase (fs_calls st)) as [rc junk].
  simpl in He. subst rc. wp_steps. by apply HQ.
Qed.

Lemma wp_saveenv_ok SZ st (Q : Z → fstate → Prop) :
  length (fl_get (fs_flash st) (other (fs_cur st))) = (ENV_HEADER_SIZE + SZ)%nat →
  length (e_data (fs_ram st)) = SZ → Forall is_byte (e_data (fs_ram st)) →
  (∀ st', fs_flash st' = saved_flash (fs_flash st) (fs_cur st) (fs_ram st) →
     fs_cur st' = other (fs_cur st) → fs_ram st' = fs_ram st → Q 0 st') →
  wp saveenv Q st.
Proof.
  intros HlB Hl Hb HQ. rw /saveenv. apply wp_bind, wp_get.
  set (A := fs_cur st) in *. set (f0 := fs_flash st) in *. set (ram := fs_ram st) in *.
  apply wp_bind, wp_protect_ok. intros st1 S1 P1. cbn [negb Z.eqb].
  apply wp_bind, wp_protect_ok. intros st2 S2 P2. cbn [negb Z.eqb].
  assert (fs_prot st2 A = false ∧ fs_prot st2 (other A) = false) as [PA PB].
  { rw !P2 P1. by destruct A. }
  destruct (same_trans _ _ _ S1 S2) as (F2 & _ & C2 & R2).
  apply wp_bind, wp_erase_ok. intros st3 (F3 & _ & C3 & R3) P3. cbn [negb Z.eqb].
  apply wp_bind, wp_write_ok; [by rw /= P3|]. intros st4 (F4 & _ & C4 & R4) P4. cbn [negb Z.eqb].
  apply wp_bind, wp_write_ok; [by rw /= P4 /= P3|]. intros st5 (F5 & _ & C5 & R5) P5.
  cbn [negb Z.eqb].
  apply wp_bind, wp_write_ok; [by rw /= P5 /= P4 /= P3|]. intros st6 (F6 & _ & C6 & R6) P6.
  cbn [negb Z.eqb].
  apply wp_bind, wp_write_ok; [by rw /= P6 /= P5 /= P4 /= P3|]. intros st7 (F7 & _ & C7 & R7) P7.
  cbn [negb Z.eqb].
  apply wp_bind, wp_modify, wp_saveenv_done. intros st8 (F8 & _ & C8 & R8).
  apply HQ; [|by rw C8|rw R8 /= R7 /= R6 /= R5 /= R4 /= R3 R2 //].
  rw F8. cbn [fs_flash set_cur do_steps]. rw F7. cbn [fs_flash do_steps]. rw F6.
  cbn [fs_flash do_steps]. rw F5. cbn [fs_flash do_steps]. rw F4. cbn [fs_flash do_steps].
  rw F3 F2. apply (saved_flash_steps SZ); done.
Qed.

End no_errors.

Lemma saved_sector_spec ram :
  is_word (e_crc ram) →
  let s := le32 (e_crc ram) ++ [ACTIVE_FLAG] ++ e_data ram in
  s_data s = e_data ram ∧ s_flags s = 1 ∧ crc_ok s = (crc32 0 (e_data ram) =? e_crc ram).
Proof.
  intros Hw s. assert (s_data s = e_data ram) as Hd by done. split_and!; [done|done|].
  by rw /crc_ok Hd /s_crc /s of_le32_le32.
Qed.

(** The two sectors and the RAM copy have the sizes of [env_t]. *)
Definition sizes_ok (SZ : nat) (st : fstate) : Prop :=
  length (sec1 (fs_flash st)) = (ENV_HEADER_SIZE + SZ)%nat ∧
  length (sec2 (fs_flash st)) = (ENV_HEADER_SIZE + SZ)%nat ∧
  length (e_data (fs_ram st)) = SZ ∧ Forall is_byte (e_data (fs_ram st)) ∧
  is_word (e_crc (fs_ram st)).

Lemma sizes_ok_get SZ st s :
  sizes_ok SZ st → length (fl_get (fs_flash st) s) = (ENV_HEADER_SIZE + SZ)%nat.
Proof. intros (H1 & H2 & _). by destruct s. Qed.

(** A state for the witnesses: a valid active first sector and an erased second
    one, with a changed RAM copy. *)
Definition demo_data : list Z := bytes "a=1" ++ [0; 0].
Definition demo_new : list Z := bytes "a=2" ++ [0; 0].
Definition demo_state : fstate :=
  FState (Flash (le32 (crc32 0 demo_data) ++ [ACTIVE_FLAG] ++ demo_data) (replicate 10 0xFF))
    [] 0 (λ _, true) Sect1 LocRam 1 (EnvT (crc32 0 demo_new) 1 demo_new).
#[local] Instance demo_dev : FlashDev :=
  {| dev_protect _ := 0; dev_erase _ := (0, []); dev_write _ := (0, 0%nat) |}.

Lemma demo_dev_ok : FlashDevOk demo_dev.
Proof. by constructor. Qed.

Lemma demo_sizes : sizes_ok 5 demo_state.
Proof.
  split_and!; [done|done|done| |apply crc32_word].
  rw /demo_state /demo_new /is_byte /=. repeat (apply Forall_cons; split; [lia|]). constructor.
Qed.

(** What a complete [saveenv] leaves is chosen at the next start. *)
Lemma saved_flash_choice SZ st :
  sizes_ok SZ st → e_crc (fs_ram st) = crc32 0 (e_data (fs_ram st)) →
  let f := saved_flash (fs_flash st) (fs_cur st) (fs_ram st) in
  env_choice f = Some (LocSect (other (fs_cur st)), 1) ∧
  s_env (fl_get f (other (fs_cur st))) = EnvT (e_crc (fs_ram st)) ACTIVE_FLAG (e_data (fs_ram st)).
Proof.
  intros Hsz Hcrc f. pose proof Hsz as (_ & _ & _ & _ & Hw).
  destruct (saved_sector_spec (fs_ram st) Hw) as (Hd & Hfl & Hcok). split.
  - set (A := fs_cur st) in *.
    assert (crc_ok (fl_get f (other A)) = true) as HokB.
    { rw /f /saved_flash fl_get_set Hcok Hcrc. apply Z.eqb_refl. }
    destruct (with_flag_spec (fl_get (fs_flash st) A) OBSOLETE_FLAG) as (_ & _ & HfA & _).
    { rw (sizes_ok_get SZ st A) // /ENV_HEADER_SIZE. lia. }
    destruct (crc_ok (fl_get f A)) eqn:HokA.
    + apply choice_active; [done|done| |by rw /f /saved_flash fl_get_set].
      by rw /f /saved_flash fl_get_other_set fl_get_set HfA Z.land_0_r.
    + apply choice_single; [done|by rw other_other].
  - rw /f /saved_flash fl_get_set /s_env Hd Hfl /s_crc of_le32_le32 //.
Qed.

(** C1: [saveenv] survives any crash.  Let the sector in use pass its CRC check
    and have one of the flag bytes the code writes, and let the RAM copy carry
    its CRC.  Whatever the flash layer answers to each call, and at whatever
    step power goes (between two programmed bytes, or in the middle of the
    erase), the copy in use is intact, and the next [env_init] finds the flash
    as it was, or takes the old data, or takes the new data; the one exception
    is that the half-written sector passes its CRC check by accident. *)
Theorem saveenv_crash_safe `{!FlashDev} SZ st :
  sizes_ok SZ st → fs_trace st = [] →
  crc_ok (fl_get (fs_flash st) (fs_cur st)) = true →
  flag_ok (s_flags (fl_get (fs_flash st) (fs_cur st))) →
  e_crc (fs_ram st) = crc32 0 (e_data (fs_ram st)) →
  wp saveenv (λ rc st', ∀ f', crash (fs_flash st) (fs_trace st') f' →
    crash_good (fs_flash st) (fs_cur st) (e_data (fs_ram st)) f') st.
Proof.
  intros Hsz Htr HokA HfA Hcrc. pose proof Hsz as (_ & _ & Hl & Hb & _).
  eapply wp_mono.
  - apply (wp_saveenv SZ (fs_flash st) (fs_cur st) (e_data (fs_ram st)));
      [by apply sizes_ok_get|by apply sizes_ok_get|done..|].
    split_and!; [|done|done|rw -Hcrc; by destruct (fs_ram st)].
    split; rw Htr; [done|]. intros f' ->%crash_nil. split; [done|by left].
  - by intros rc st' [[_ Hcr] _].
Qed.

Lemma saveenv_crash_safe_witness :
  wp saveenv (λ rc st', ∀ f', crash (fs_flash demo_state) (fs_trace st') f' →
    crash_good (fs_flash demo_state) Sect1 demo_new f') demo_state.
Proof.
  apply (saveenv_crash_safe 5 demo_state).
  - apply demo_sizes.
  - done.
  - vm_compute. done.
  - vm_compute. auto.
  - done.
Defined.

(** C7: [saveenv] commits: when the flash layer reports no error it returns 0, the
    other sector now holds the RAM copy, [env_init] finds that sector as the
    active one without a warning ([env_valid] 1), and later saves go to the
    sector that was in use before. *)
Theorem saveenv_commits `{!FlashDev} SZ st :
  FlashDevOk _ → sizes_ok SZ st → e_crc (fs_ram st) = crc32 0 (e_data (fs_ram st)) →
  wp saveenv (λ rc st', rc = 0 ∧ fs_cur st' = other (fs_cur st) ∧
    env_choice (fs_flash st') = Some (LocSect (fs_cur st'), 1) ∧
    s_env (fl_get (fs_flash st') (fs_cur st')) =
      EnvT (e_crc (fs_ram st)) ACTIVE_FLAG (e_data (fs_ram st))) st.
Proof.
  intros Hok Hsz Hcrc. pose proof Hsz as (_ & _ & Hl & Hb & Hw).
  eapply (wp_saveenv_ok SZ); [by apply sizes_ok_get|done..|]. intros st' Hf Hc Hr.
  rw Hc Hf. split; [done|]. split; [done|]. by apply (saved_flash_choice SZ).
Qed.

Lemma saveenv_commits_witness :
  wp saveenv (λ rc st', rc = 0 ∧ fs_cur st' = Sect2 ∧
    env_choice (fs_flash st') = Some (LocSect (fs_cur st'), 1) ∧
    s_env (fl_get (fs_flash st') (fs_cur st')) =
      EnvT (crc32 0 demo_new) ACTIVE_FLAG demo_new) demo_state.
Proof. apply (saveenv_commits 5 demo_state demo_dev_ok demo_sizes). done. Defined.

(** [saveenv] writes the CRC field of the RAM copy as it is.  When that field
    is stale, as [setenv] leaves it on overflow (it deletes the old definition
    and returns before [env_crc_update]), [saveenv] still returns 0, but the
    copy it wrote fails its check and the next start goes back to the old data. *)
Theorem saveenv_stale_crc `{!FlashDev} SZ st :
  FlashDevOk _ → sizes_ok SZ st → crc_ok (fl_get (fs_flash st) (fs_cur st)) = true →
  e_crc (fs_ram st) ≠ crc32 0 (e_data (fs_ram st)) →
  wp saveenv (λ rc st', rc = 0 ∧
    selected_data (fs_flash st') = Some (s_data (fl_get (fs_flash st) (fs_cur st)))) st.
Proof.
  intros Hok Hsz HokA Hcrc. pose proof Hsz as (_ & _ & Hl & Hb & Hw).
  eapply (wp_saveenv_ok SZ); [by apply sizes_ok_get|done..|]. intros st' Hf Hc Hr.
  destruct (saved_sector_spec (fs_ram st) Hw) as (Hd & Hfl & Hcok).
  destruct (with_flag_spec (fl_get (fs_flash st) (fs_cur st)) OBSOLETE_FLAG)
    as (_ & HdA & _ & HcA & _).
  { rw (sizes_ok_get SZ st) // /ENV_HEADER_SIZE. lia. }
  split; [done|]. rw /selected_data Hf /saved_flash (choice_single _ (fs_cur st)).
  - by rw fl_get_other_set fl_get_set HcA.
  - rw fl_get_set Hcok. apply Z.eqb_neq. congruence.
  - by rw fl_get_other_set fl_get_set HdA.
Qed.

Lemma saveenv_stale_crc_witness :
  wp saveenv (λ rc st', rc = 0 ∧ selected_data (fs_flash st') = Some demo_data)
    (set_ram demo_state (EnvT 0 1 demo_new)).
Proof.
  apply (saveenv_stale_crc 5 (set_ram demo_state (EnvT 0 1 demo_new)) demo_dev_ok).
  - destruct demo_sizes as (?&?&?&?&?). split_and!; done.
  - vm_compute. done.
  - vm_compute. done.
Defined.

(** ** Start-up *)

Lemma apply_step_length f st s : length (fl_get (apply_step f st) s) = length (fl_get f s).
Proof.
  destruct (sect_cases (step_sect st) (other s)) as [H|H]; rw ?other_other in H.
  - by destruct (apply_step_other f st s H) as [-> _].
  - rw -{1 2}(other_other s). apply apply_step_other. by rw other_other.
Qed.

Lemma run_steps_length f steps s : length (fl_get (run_steps f steps) s) = length (fl_get f s).
Proof.
  revert f. induction steps as [|st steps IH]; intros f; [done|]. simpl.
  rw IH. apply apply_step_length.
Qed.

Lemma crash_length f steps f' s : crash f steps f' → length (fl_get f' s) = length (fl_get f s).
Proof.
  destruct 1 as [k|k s' junk Hk]; [apply run_steps_length|].
  rw apply_step_length. apply run_steps_length.
Qed.

(** The copy [env_init] chose stays the chosen one while the flags are repaired. *)
Lemma choice_obsolete f s v :
  env_choice f = Some (LocSect s, v) → flag_ok (s_flags (fl_get f s)) →
  crc_ok (fl_get f (other s)) = true → s_flags (fl_get f (other s)) ≠ 0 →
  (5 ≤ length (fl_get f (other s)))%nat →
  ∃ v', v' ≠ 0 ∧ env_choice (fl_set f (other s)
    (with_flag (fl_get f (other s)) OBSOLETE_FLAG)) = Some (LocSect s, v').
Proof.
  intros Hch Hf HB HfB Hl. pose proof (choice_crc_ok _ _ _ Hch) as HA.
  destruct (with_flag_spec _ OBSOLETE_FLAG Hl) as (_ & _ & Hf0 & Hok & _).
  rw Z.land_0_r in Hf0. rw HB in Hok.
  destruct s; simpl in *; rw /env_choice /= HA HB /= in Hch; rw /env_choice /= Hf0 Hok HA /=;
    rw /ACTIVE_FLAG /OBSOLETE_FLAG in Hch |- *;
    destruct Hf as [Hf|[Hf|Hf]]; rw Hf /= in Hch |- *; try (eexists; split; [|reflexivity]; done);
    exfalso; revert Hch; repeat case_match; intros [=]; lia.
Qed.

Lemma choice_activate f s v :
  env_choice f = Some (LocSect s, v) → s_flags (fl_get f s) = 0xFF →
  (crc_ok (fl_get f (other s)) = true → s_flags (fl_get f (other s)) = 0) →
  (5 ≤ length (fl_get f s))%nat →
  env_choice (fl_set f s (with_flag (fl_get f s) ACTIVE_FLAG)) = Some (LocSect s, 1) ∧
  s_flags (with_flag (fl_get f s) ACTIVE_FLAG) = 1.
Proof.
  intros Hch Hf HB Hl. pose proof (choice_crc_ok _ _ _ Hch) as HA.
  destruct (with_flag_spec _ ACTIVE_FLAG Hl) as (_ & _ & Hf0 & Hok & _).
  rw Hf in Hf0. change (Z.land 255 ACTIVE_FLAG) with 1 in Hf0. split; [|done].
  destruct s; simpl in *; rw /env_choice /= Hok HA;
    [destruct (crc_ok (sec2 f)) eqn:E|destruct (crc_ok (sec1 f)) eqn:E]; simpl; try done;
    by rw HB // Hf0.
Qed.

(** The states of a start-up: the sector [s] with the data [d] is the choice. *)
Definition chosen (s : sect) (d : list Z) (f : flash) : Prop :=
  ∃ v, env_choice f = Some (LocSect s, v) ∧ v ≠ 0 ∧ s_data (fl_get f s) = d ∧
       flag_ok (s_flags (fl_get f s)).

Definition boot_inv (f0 : flash) (s : sect) (d : list Z) (st : fstate) : Prop :=
  fs_flash st = run_steps f0 (fs_trace st) ∧ fs_cur st = s ∧
  (∀ f', crash f0 (fs_trace st) f' → chosen s d f').

Lemma boot_inv_chosen f0 s d st : boot_inv f0 s d st → chosen s d (fs_flash st).
Proof. intros (-> & _ & Hc). apply Hc, crash_end. Qed.

Section boot.
Context {dev : FlashDev} {Hok : FlashDevOk dev}.
Context (SZ : nat) (f0 : flash) (s : sect) (d : list Z).
Hypothesis Hlen : ∀ s', length (fl_get f0 s') = (ENV_HEADER_SIZE + SZ)%nat.

(** One repaired flag. *)
Lemma wp_repair sc v st (Q : unit → fstate → Prop) :
  boot_inv f0 s d st →
  chosen s d (fl_set (fs_flash st) sc (with_flag (fl_get (fs_flash st) sc) v)) →
  (∀ st', boot_inv f0 s d st' → fs_flash st' =
     fl_set (fs_flash st) sc (with_flag (fl_get (fs_flash st) sc) v) → Q tt st') →
  wp (modify (λ st, set_gd st (fs_addr st) 2) ;;;
      flash_sect_protect false sc ;;;
      flash_write [v] sc 4 ;;;
      flash_sect_protect true sc ;;;
      ret tt) Q st.
Proof.
  intros Hi Hch HQ. pose proof (boot_inv_chosen _ _ _ _ Hi) as Hch0.
  destruct Hi as (Hf & Hc & Hcr).
  apply wp_bind, wp_modify, wp_bind, wp_protect_ok. intros st1 (F1 & T1 & C1 & _) P1.
  apply wp_bind, wp_write_ok; [by rw P1 decide_True|]. intros st2 (F2 & T2 & C2 & _) _.
  apply wp_bind, wp_protect_ok. intros st3 (F3 & T3 & C3 & _) _. apply wp_ret.
  simpl in F1, T1, C1. cbn [do_steps fs_flash fs_trace fs_cur] in F3, T3, C3.
  rw F2 F1 run_prog_flag in F3. rw T2 T1 in T3. rw C2 C1 in C3.
  apply HQ; [|done]. split_and!; [|congruence|].
  - by rw F3 T3 run_steps_app -Hf run_prog_flag.
  - rw T3. intros f' [Hcr'|Hcr']%crash_app; [by apply Hcr|]. rw -Hf in Hcr'.
    rw -(firstn_all (progs sc 4 [v])) in Hcr'. by apply crash_flag in Hcr' as [-> | ->].
Qed.

(** Setting [flash_addr] to the sector [env_init] chose. *)
Lemma wp_switch st (Q : unit → fstate → Prop) :
  fs_flash st = f0 → fs_trace st = [] → fs_addr st = LocSect s → chosen s d f0 →
  (∀ st', boot_inv f0 s d st' → fs_flash st' = f0 → Q tt st') →
  wp (if decide (fs_addr st = LocSect (fs_cur st)) then ret tt
      else put (set_cur st (other (fs_cur st)))) Q st.
Proof.
  intros Hf Ht Ha Hch HQ.
  assert (∀ st1, fs_flash st1 = f0 → fs_trace st1 = [] → fs_cur st1 = s → Q tt st1) as Hinit.
  { intros st1 H1 H2 H3. apply HQ; [|done]. rw /boot_inv H1 H2. split_and!; [done..|].
    by intros f' ->%crash_nil. }
  rw Ha. destruct (sect_cases (fs_cur st) s) as [<-|Hs].
  - rw decide_True //. by apply wp_ret, Hinit.
  - rw Hs decide_False; [by destruct s|]. rw other_other. by apply wp_put, Hinit.
Qed.

(** The second repair and the copy to RAM. *)
Lemma wp_activate st (Q : unit → fstate → Prop) :
  boot_inv f0 s d st →
  (crc_ok (fl_get (fs_flash st) (other s)) = true →
   s_flags (fl_get (fs_flash st) (other s)) = 0) →
  (5 ≤ length (fl_get (fs_flash st) s))%nat →
  (∀ st', boot_inv f0 s d st' → fs_ram st' = s_env (fl_get (fs_flash st') s) → Q tt st') →
  wp (let! st := get in
      let cur := fs_cur st in
      let sc := fl_get (fs_flash st) cur in
      (if negb (s_flags sc =? ACTIVE_FLAG) && (Z.land (s_flags sc) ACTIVE_FLAG =? ACTIVE_FLAG) then
         modify (λ st, set_gd st (fs_addr st) 2) ;;;
         flash_sect_protect false cur ;;;
         flash_write [ACTIVE_FLAG] cur 4 ;;;
         flash_sect_protect true cur ;;;
         ret tt
       else ret tt) ;;;
      modify (λ st, set_ram st (s_env (fl_get (fs_flash st) (fs_cur st))))) Q st.
Proof.
  intros Hi HB Hl HQ. pose proof (boot_inv_chosen _ _ _ _ Hi) as (v & Hch & Hv & Hd & Hfl).
  apply wp_bind, wp_get. destruct (Hi) as (Hf & Hc & Hcr). rw Hc. cbv zeta.
  assert (∀ st3, boot_inv f0 s d st3 →
    wp (modify (λ st, set_ram st (s_env (fl_get (fs_flash st) (fs_cur st))))) Q st3) as Hlast.
  { intros st3 Hi3. apply wp_modify, HQ; [done|]. by destruct Hi3 as (_ & <- & _). }
  apply wp_bind. destruct (_ && _) eqn:Hcond; [|apply wp_ret; by apply Hlast].
  apply andb_true_iff in Hcond as [Hne%negb_true_iff Hodd].
  assert (s_flags (fl_get (fs_flash st) s) = 0xFF) as HFF.
  { destruct Hfl as [H|[H|H]]; [|by rw H in Hne|done]. by rw H in Hodd. }
  destruct (choice_activate _ _ _ Hch HFF HB Hl) as [Hch3 Hf3].
  destruct (with_flag_spec (fl_get (fs_flash st) s) ACTIVE_FLAG Hl) as (_ & Hd3 & _).
  eapply (wp_repair s); [done| |by auto].
  exists 1. rw fl_get_set Hd3 Hf3. split_and!; [done..|]. by right; left.
Qed.

Lemma wp_relocate_spec st (Q : unit → fstate → Prop) :
  fs_flash st = f0 → fs_trace st = [] → fs_addr st = LocSect s → chosen s d f0 →
  (∀ st', boot_inv f0 s d st' → fs_ram st' = s_env (fl_get (fs_flash st') s) → Q tt st') →
  wp env_relocate_spec Q st.
Proof.
  intros Hf Ht Ha Hch HQ. rw /env_relocate_spec.
  apply wp_bind, wp_get, wp_bind, wp_switch; [done..|]. intros st1 Hi1 Hf1.
  apply wp_bind, wp_get. destruct (Hi1) as (_ & Hc1 & _). rw Hc1 Hf1.
  destruct Hch as (v & Hch & Hv & Hd & Hfl).
  assert (∀ sc, (5 ≤ length (fl_get f0 sc))%nat) as Hlen5
    by (intros sc; rw Hlen /ENV_HEADER_SIZE; lia).
  apply wp_bind. destruct (_ && _) eqn:Hcond.
  - apply andb_true_iff in Hcond as [Hc%negb_true_iff HokB]. apply Z.eqb_neq in Hc.
    destruct (choice_obsolete f0 s v) as (v' & Hv' & Hch'); [done..|].
    destruct (with_flag_spec (fl_get f0 (other s)) OBSOLETE_FLAG) as (_ & _ & Hf0 & _); [done|].
    eapply (wp_repair (other s)); [done|rw Hf1; exists v'; by rw fl_get_other_set|].
    rw Hf1. intros st2 Hi2 Hf2. apply wp_activate; [done|intros _|by rw Hf2 fl_get_other_set|done].
    by rw Hf2 fl_get_set Hf0 Z.land_0_r.
  - apply wp_ret, wp_activate; [done| |by rw Hf1|done].
    rw Hf1. intros HokB. rw HokB andb_true_r in Hcond. by apply negb_false_iff, Z.eqb_eq in Hcond.
Qed.

End boot.

(** ** Sessions

    A system is the flash, the sector the running U-Boot considers in use ([None]
    when it is off) and the environments that were ever handed to [saveenv],
    with the one the system started from. *)

Record sys := Sys { sy_flash : flash; sy_cur : option sect; sy_hist : list (list Z) }.

(** The state in which [env_init] runs: the static pointers, nothing done yet. *)
Definition start_state (f : flash) (prot : sect → bool) (valid : Z) (ram : env_t) : fstate :=
  FState f [] 0 prot Sect1 LocUnset valid ram.

Definition boot {dev : FlashDev} (SZ : nat) : M fstate unit :=
  env_init ;;; env_relocate SZ default_environment.

Inductive sys_step (SZ : nat) : sys → sys → Prop :=
| sys_off f c h : sys_step SZ (Sys f c h) (Sys f None h)
| sys_boot dev prot valid ram f h st' :
    FlashDevOk dev →
    boot SZ (start_state f prot valid ram) = Ok (tt, st') →
    sys_step SZ (Sys f None h) (Sys (fs_flash st') (Some (fs_cur st')) h)
| sys_boot_crash dev prot valid ram f h st' f' :
    FlashDevOk dev →
    boot SZ (start_state f prot valid ram) = Ok (tt, st') → crash f (fs_trace st') f' →
    sys_step SZ (Sys f None h) (Sys f' None h)
| sys_save (dev : FlashDev) st rc st' h :
    sizes_ok SZ st → fs_trace st = [] → e_crc (fs_ram st) = crc32 0 (e_data (fs_ram st)) →
    saveenv st = Ok (rc, st') →
    ¬ accident (fs_flash st) (fs_cur st) (e_data (fs_ram st)) (fs_flash st') →
    sys_step SZ (Sys (fs_flash st) (Some (fs_cur st)) h)
             (Sys (fs_flash st') (Some (fs_cur st')) (e_data (fs_ram st) :: h))
| sys_save_crash (dev : FlashDev) st rc st' h f' :
    sizes_ok SZ st → fs_trace st = [] → e_crc (fs_ram st) = crc32 0 (e_data (fs_ram st)) →
    saveenv st = Ok (rc, st') → crash (fs_flash st) (fs_trace st') f' →
    ¬ accident (fs_flash st) (fs_cur st) (e_data (fs_ram st)) f' →
    sys_step SZ (Sys (fs_flash st) (Some (fs_cur st)) h) (Sys f' None (e_data (fs_ram st) :: h)).

Definition sys_inv (SZ : nat) (sy : sys) : Prop :=
  (∀ s, length (fl_get (sy_flash sy) s) = (ENV_HEADER_SIZE + SZ)%nat) ∧
  (∃ d, selects (sy_flash sy) d ∧ d ∈ sy_hist sy) ∧
  (∀ c, sy_cur sy = Some c →
     crc_ok (fl_get (sy_flash sy) c) = true ∧ flag_ok (s_flags (fl_get (sy_flash sy) c)) ∧
     s_data (fl_get (sy_flash sy) c) ∈ sy_hist sy).

Lemma boot_spec {dev : FlashDev} SZ f prot valid ram st' s d :
  FlashDevOk dev → (∀ s', length (fl_get f s') = (ENV_HEADER_SIZE + SZ)%nat) → chosen s d f →
  boot SZ (start_state f prot valid ram) = Ok (tt, st') → boot_inv f s d st'.
Proof.
  intros Hok Hlen Hch Hrun.
  assert (wp (boot SZ) (λ _, boot_inv f s d) (start_state f prot valid ram)) as Hw.
  { rw /boot /env_init. apply wp_bind, wp_bind, wp_get. destruct (Hch) as (v & Hc & Hv & _).
    cbn [fs_flash start_state]. rw Hc. apply wp_bind, wp_put, wp_ret.
    rw /env_relocate. apply wp_bind, wp_get. cbn [fs_valid set_gd]. rw (proj2 (Z.eqb_neq v 0)) //.
    apply wp_bind, (wp_relocate_spec SZ f s d); [done..|]. intros st1 Hi Hr.
    by apply wp_modify. }
  by rw /wp Hrun in Hw.
Qed.

Lemma selects_chosen f d : selects f d ↔ ∃ s, chosen s d f.
Proof. rw /selects /chosen. naive_solver. Qed.

(** What the invariant gives after a [saveenv], complete or not. *)
Lemma save_crash_inv SZ f A new h f' :
  (∀ s, length (fl_get f' s) = (ENV_HEADER_SIZE + SZ)%nat) →
  sys_inv SZ (Sys f (Some A) h) → crash_good f A new f' → ¬ accident f A new f' →
  sys_inv SZ (Sys f' None (new :: h)).
Proof.
  intros Hl (_ & (d & Hd & Hin) & Hcur) [_ Hg] Hna. split_and!; [done| |done].
  destruct (Hcur A eq_refl) as (_ & _ & HdA). simpl in *.
  destruct Hg as [-> |[Hs|[Hs|Ha]]]; [exists d; set_solver|eexists; split; [done|set_solver]..|done].
Qed.

(** A run of [saveenv] on a good sector, complete. *)
Lemma saveenv_outcome {dev : FlashDev} SZ st rc st' :
  sizes_ok SZ st → fs_trace st = [] → e_crc (fs_ram st) = crc32 0 (e_data (fs_ram st)) →
  crc_ok (fl_get (fs_flash st) (fs_cur st)) = true →
  flag_ok (s_flags (fl_get (fs_flash st) (fs_cur st))) →
  saveenv st = Ok (rc, st') →
  let good := crash_good (fs_flash st) (fs_cur st) (e_data (fs_ram st)) in
  good (fs_flash st') ∧ (∀ f', crash (fs_flash st) (fs_trace st') f' → good f') ∧
  (∀ s, length (fl_get (fs_flash st') s) = (ENV_HEADER_SIZE + SZ)%nat) ∧
  (fs_cur st' = fs_cur st ∨
   fs_cur st' = other (fs_cur st) ∧
   crc_ok (fl_get (fs_flash st') (other (fs_cur st))) = true ∧
   s_data (fl_get (fs_flash st') (other (fs_cur st))) = e_data (fs_ram st) ∧
   s_flags (fl_get (fs_flash st') (other (fs_cur st))) = 1).
Proof.
  intros Hsz Htr Hcrc HokA HfA Hrun good. pose proof Hsz as (_ & _ & Hl & Hb & _).
  pose proof (wp_saveenv SZ (fs_flash st) (fs_cur st) (e_data (fs_ram st))
    (sizes_ok_get _ _ _ Hsz) (sizes_ok_get _ _ _ Hsz) HokA HfA Hl Hb st) as Hw.
  rw /wp Hrun in Hw. destruct Hw as [[Hf Hcr] Hfin].
  { split_and!; [|done|done|rw -Hcrc; by destruct (fs_ram st)].
    split; rw Htr; [done|]. intros f' ->%crash_nil. split; [done|by left]. }
  split_and!.
  - rw Hf. apply Hcr, crash_end.
  - done.
  - intros s. by rw Hf run_steps_length (sizes_ok_get SZ).
  - destruct Hfin as [[_ Hc]|(_ & Hc & (_ & _ & _ & HB & HdB & _) & _ & HfB)]; [by left|right].
    by split_and!.
Qed.

Lemma sys_inv_step SZ sy sy' : sys_step SZ sy sy' → sys_inv SZ sy → sys_inv SZ sy'.
Proof.
  destruct 1 as [f c h|dev prot valid ram f h st' Hok Hrun|dev prot valid ram f h st' f' Hok Hrun Hcr
    |dev st rc st' h Hsz Ht Hcrc Hrun Hna|dev st rc st' h f' Hsz Ht Hcrc Hrun Hcr Hna];
    intros Hinv.
  - destruct Hinv as (Hl & Hs & _). done.
  - destruct Hinv as (Hl & (d & [s Hch]%selects_chosen & Hin) & _). simpl in *.
    pose proof (boot_spec SZ _ _ _ _ _ _ _ Hok Hl Hch Hrun) as Hi.
    pose proof (boot_inv_chosen _ _ _ _ Hi) as Hch'. destruct Hi as (Hf & Hc & _).
    split_and!; simpl.
    + intros s'. by rw Hf run_steps_length.
    + exists d. split; [|done]. apply selects_chosen. by exists s.
    + intros c [= <-]. rw Hc. destruct Hch' as (v & Hv & _ & Hd & Hfl).
      split_and!; [by eapply choice_crc_ok|done|by rw Hd].
  - destruct Hinv as (Hl & (d & [s Hch]%selects_chosen & Hin) & _). simpl in *.
    pose proof (boot_spec SZ _ _ _ _ _ _ _ Hok Hl Hch Hrun) as (_ & _ & Hc).
    split_and!; simpl; [intros s'; by rw (crash_length _ _ _ _ Hcr)| |done].
    exists d. split; [|done]. apply selects_chosen. exists s. by apply Hc.
  - destruct (saveenv_outcome SZ st rc st') as (Hend & Hall & Hlen & Hcur); [done..|by apply Hinv|by apply Hinv|done|].
    pose proof (save_crash_inv SZ _ _ _ _ _ Hlen Hinv Hend Hna) as (Hl' & Hs' & _).
    split_and!; [done|done|]. simpl. intros c [= <-].
    destruct Hcur as [->|(-> & HB & HdB & HfB)].
    + destruct Hend as [(HA & Hd & Hf) _]. split_and!; [done..|]. rw Hd.
      destruct Hinv as (_ & _ & Hc). destruct (Hc _ eq_refl) as (_ & _ & ?). by right.
    + split_and!; [done|rw HfB; by right; left|rw HdB; by left].
  - destruct (saveenv_outcome SZ st rc st') as (Hend & Hall & _ & _); [done..|by apply Hinv|by apply Hinv|done|].
    eapply save_crash_inv; [|done|by apply Hall|done].
    intros s. rw (crash_length _ _ _ _ Hcr). apply Hinv.
Qed.



(** With no valid copy in flash, start-up installs the default environment:
    the RAM copy holds exactly the default strings, well-formed, followed by
    zeros, under a correct CRC; it is what [getenv] reads from then on, and the
    flash is not touched. *)
Theorem boot_default {dev : FlashDev} SZ f prot valid ram :
  crc_ok (sec1 f) = false → crc_ok (sec2 f) = false →
  (length default_environment ≤ SZ)%nat →
  wp (boot SZ) (λ _ st',
    env_repr default_entries (e_data (fs_ram st')) ∧ env_wf default_entries ∧
    length (e_data (fs_ram st')) = SZ ∧ e_crc (fs_ram st') = crc32 0 (e_data (fs_ram st')) ∧
    fs_addr st' = LocRam ∧ fs_valid st' = 1 ∧ fs_flash st' = f ∧ fs_trace st' = [])
    (start_state f prot valid ram).
Proof.
  intros H1 H2 Hl. rw /boot /env_init. apply wp_bind, wp_bind, wp_get.
  rw /env_choice /= H1 H2 /=. apply wp_bind, wp_put, wp_ret.
  rw /env_relocate. apply wp_bind, wp_get. cbn [fs_valid set_gd Z.eqb].
  rw decide_False; [lia|]. rw /env_crc_update. wp_steps. cbn -[default_environment crc32 env_repr].
  split_and!; try done.
  - exists (NUL :: drop (length default_environment) (replicate SZ 0)). split; [|done].
    by rw {1}/default_environment -app_assoc.
  - by apply (bool_decide_unpack _).
  - rw length_app length_drop length_replicate. lia.
Qed.

Lemma boot_default_witness :
  wp (boot (dev := demo_dev) 400) (λ _ st',
    env_repr default_entries (e_data (fs_ram st')) ∧ env_wf default_entries ∧
    length (e_data (fs_ram st')) = 400%nat ∧
    e_crc (fs_ram st') = crc32 0 (e_data (fs_ram st')) ∧
    fs_addr st' = LocRam ∧ fs_valid st' = 1 ∧
    fs_flash st' = Flash (replicate 405 0xFF) (replicate 405 0xFF) ∧ fs_trace st' = [])
    (start_state (Flash (replicate 405 0xFF) (replicate 405 0xFF)) (λ _, true) 0 (EnvT 0 0 [])).
Proof.
  apply (boot_default 400).
  - by vm_compute.
  - by vm_compute.
  - by apply (bool_decide_unpack _).
Defined.
