(* ===== verification/WmtEnv.v ===== *)
(** * System parameters of the kernel (kernel/drivers/mtd/wmt_env.c)

    The kernel reads and writes the environment that U-Boot uses: [env_init]
    finds the valid copy (in the serial flash, through MTD or before MTD is up,
    or in NAND blocks), [wmt_getsyspara] and [wmt_setsyspara] look up and change
    a variable in the RAM copy, [env_update] writes it back.  The RAM copy is the
    raw kmalloc'ed buffer: an access outside it is a fault.  The configuration is
    that of kernel/.config: CONFIG_MTD_WMT_SF set, CONFIG_MTD_WMT_NOR not set. *)

From Stdlib Require Import ssreflect ZArith Lia String.
From stdpp Require Import base tactics numbers list sets.
From S2P Require Import Prelude Crc32 Ctype Vsprintf EnvFormat EnvOps NvEdit EnvFlash.

Set Default Goal Selector "!".
Open Scope general_if_scope.
#[local] Open Scope Z_scope.

Definition sf_crc_table : list Z :=
  [0x00000000; 0x77073096; 0xee0e612c; 0x990951ba; 0x076dc419;
   0x706af48f; 0xe963a535; 0x9e6495a3; 0x0edb8832; 0x79dcb8a4;
   0xe0d5e91e; 0x97d2d988; 0x09b64c2b; 0x7eb17cbd; 0xe7b82d07;
   0x90bf1d91; 0x1db71064; 0x6ab020f2; 0xf3b97148; 0x84be41de;
   0x1adad47d; 0x6ddde4eb; 0xf4d4b551; 0x83d385c7; 0x136c9856;
   0x646ba8c0; 0xfd62f97a; 0x8a65c9ec; 0x14015c4f; 0x63066cd9;
   0xfa0f3d63; 0x8d080df5; 0x3b6e20c8; 0x4c69105e; 0xd56041e4;
   0xa2677172; 0x3c03e4d1; 0x4b04d447; 0xd20d85fd; 0xa50ab56b;
   0x35b5a8fa; 0x42b2986c; 0xdbbbc9d6; 0xacbcf940; 0x32d86ce3;
   0x45df5c75; 0xdcd60dcf; 0xabd13d59; 0x26d930ac; 0x51de003a;
   0xc8d75180; 0xbfd06116; 0x21b4f4b5; 0x56b3c423; 0xcfba9599;
   0xb8bda50f; 0x2802b89e; 0x5f058808; 0xc60cd9b2; 0xb10be924;
   0x2f6f7c87; 0x58684c11; 0xc1611dab; 0xb6662d3d; 0x76dc4190;
   0x01db7106; 0x98d220bc; 0xefd5102a; 0x71b18589; 0x06b6b51f;
   0x9fbfe4a5; 0xe8b8d433; 0x7807c9a2; 0x0f00f934; 0x9609a88e;
   0xe10e9818; 0x7f6a0dbb; 0x086d3d2d; 0x91646c97; 0xe6635c01;
   0x6b6b51f4; 0x1c6c6162; 0x856530d8; 0xf262004e; 0x6c0695ed;
   0x1b01a57b; 0x8208f4c1; 0xf50fc457; 0x65b0d9c6; 0x12b7e950;
   0x8bbeb8ea; 0xfcb9887c; 0x62dd1ddf; 0x15da2d49; 0x8cd37cf3;
   0xfbd44c65; 0x4db26158; 0x3ab551ce; 0xa3bc0074; 0xd4bb30e2;
   0x4adfa541; 0x3dd895d7; 0xa4d1c46d; 0xd3d6f4fb; 0x4369e96a;
   0x346ed9fc; 0xad678846; 0xda60b8d0; 0x44042d73; 0x33031de5;
   0xaa0a4c5f; 0xdd0d7cc9; 0x5005713c; 0x270241aa; 0xbe0b1010;
   0xc90c2086; 0x5768b525; 0x206f85b3; 0xb966d409; 0xce61e49f;
   0x5edef90e; 0x29d9c998; 0xb0d09822; 0xc7d7a8b4; 0x59b33d17;
   0x2eb40d81; 0xb7bd5c3b; 0xc0ba6cad; 0xedb88320; 0x9abfb3b6;
   0x03b6e20c; 0x74b1d29a; 0xead54739; 0x9dd277af; 0x04db2615;
   0x73dc1683; 0xe3630b12; 0x94643b84; 0x0d6d6a3e; 0x7a6a5aa8;
   0xe40ecf0b; 0x9309ff9d; 0x0a00ae27; 0x7d079eb1; 0xf00f9344;
   0x8708a3d2; 0x1e01f268; 0x6906c2fe; 0xf762575d; 0x806567cb;
   0x196c3671; 0x6e6b06e7; 0xfed41b76; 0x89d32be0; 0x10da7a5a;
   0x67dd4acc; 0xf9b9df6f; 0x8ebeeff9; 0x17b7be43; 0x60b08ed5;
   0xd6d6a3e8; 0xa1d1937e; 0x38d8c2c4; 0x4fdff252; 0xd1bb67f1;
   0xa6bc5767; 0x3fb506dd; 0x48b2364b; 0xd80d2bda; 0xaf0a1b4c;
   0x36034af6; 0x41047a60; 0xdf60efc3; 0xa867df55; 0x316e8eef;
   0x4669be79; 0xcb61b38c; 0xbc66831a; 0x256fd2a0; 0x5268e236;
   0xcc0c7795; 0xbb0b4703; 0x220216b9; 0x5505262f; 0xc5ba3bbe;
   0xb2bd0b28; 0x2bb45a92; 0x5cb36a04; 0xc2d7ffa7; 0xb5d0cf31;
   0x2cd99e8b; 0x5bdeae1d; 0x9b64c2b0; 0xec63f226; 0x756aa39c;
   0x026d930a; 0x9c0906a9; 0xeb0e363f; 0x72076785; 0x05005713;
   0x95bf4a82; 0xe2b87a14; 0x7bb12bae; 0x0cb61b38; 0x92d28e9b;
   0xe5d5be0d; 0x7cdcefb7; 0x0bdbdf21; 0x86d3d2d4; 0xf1d4e242;
   0x68ddb3f8; 0x1fda836e; 0x81be16cd; 0xf6b9265b; 0x6fb077e1;
   0x18b74777; 0x88085ae6; 0xff0f6a70; 0x66063bca; 0x11010b5c;
   0x8f659eff; 0xf862ae69; 0x616bffd3; 0x166ccf45; 0xa00ae278;
   0xd70dd2ee; 0x4e048354; 0x3903b3c2; 0xa7672661; 0xd06016f7;
   0x4969474d; 0x3e6e77db; 0xaed16a4a; 0xd9d65adc; 0x40df0b66;
   0x37d83bf0; 0xa9bcae53; 0xdebb9ec5; 0x47b2cf7f; 0x30b5ffe9;
   0xbdbdf21c; 0xcabac28a; 0x53b39330; 0x24b4a3a6; 0xbad03605;
   0xcdd70693; 0x54de5729; 0x23d967bf; 0xb3667a2e; 0xc4614ab8;
   0x5d681b02; 0x2a6f2b94; 0xb40bbe37; 0xc30c8ea1; 0x5a05df1b;
   0x2d02ef8d].

(** ** Library code of the kernel *)

Definition TOLOWER (x : Z) : Z := Z.lor x 0x20.

Definition simple_guess_base (cp : list Z) : Z :=
  if deref cp =? 48 then
    if (TOLOWER (deref (tail cp)) =? 120) && isxdigit (deref (tail (tail cp))) then 16 else 8
  else 10.

Fixpoint kstrtoul_loop (base result : Z) (cp : list Z) : Z :=
  match cp with
  | [] => result
  | c :: cp' =>
      if isxdigit c then
        let value := if isdigit c then c - 48 else TOLOWER c - 97 + 10 in
        if base <=? value then result
        else kstrtoul_loop base (u32 (result * base + value)) cp'
      else result
  end.

(** [simple_strtoul] of kernel/lib/vsprintf.c, without the end pointer. *)
Definition kernel_strtoul (cp : list Z) (base : Z) : Z :=
  let base := if base =? 0 then simple_guess_base cp else base in
  let cp := if (base =? 16) && (deref cp =? 48) && (TOLOWER (deref (tail cp)) =? 120)
            then tail (tail cp) else cp in
  kstrtoul_loop base 0 cp.

(** The kernel's copy of the table of supported baud rates. *)
Definition kernel_baudrate_table : list Z := [9600; 19200; 38400; 57600; 115200].

(** ** State *)

(** An MTD device: its name and geometry, its bytes, its bad blocks. *)
Record mtd := Mtd {
  m_name : list Z; m_size : nat; m_erasesize : nat; m_data : list Z; m_isbad : nat → bool
}.
Definition set_mdata (m : mtd) (d : list Z) : mtd :=
  Mtd (m_name m) (m_size m) (m_erasesize m) d (m_isbad m).

Definition MAX_MTD_DEVICES : nat := 32.
Definition ENV_INVALID : nat := 0xFF.
Definition NAND_ENV_BLK_LENGTH : nat := 9.
Inductive flash_type := SPI_FLASH_TYPE | NAND_FLASH_TYPE | NOR_FLASH_TYPE.
#[export] Instance flash_type_eq_dec : EqDecision flash_type.
Proof. solve_decision. Defined.

Record kst := Kst {
  k_buf : option (list Z);          (** [*env_ptr], null before the first use *)
  k_valid : nat;                    (** [env_valid] *)
  k_invalid : nat;                  (** [env_invalid] *)
  k_nand_block : nat;               (** [nand_block] *)
  k_valid_offs : Z;                 (** [env_valid_offs] *)
  k_invalid_offs : Z;               (** [env_invalid_offs] *)
  k_mtd : list (option mtd);        (** [mtd_table] *)
  k_sf : Z → Z;                     (** the serial flash, by offset *)
  k_calls : nat                     (** device calls so far *)
}.
Definition k_set_buf k v := Kst v (k_valid k) (k_invalid k) (k_nand_block k) (k_valid_offs k)
  (k_invalid_offs k) (k_mtd k) (k_sf k) (k_calls k).
Definition k_set_ids k v i := Kst (k_buf k) v i (k_nand_block k) (k_valid_offs k)
  (k_invalid_offs k) (k_mtd k) (k_sf k) (k_calls k).
Definition k_set_nand k v := Kst (k_buf k) (k_valid k) (k_invalid k) v (k_valid_offs k)
  (k_invalid_offs k) (k_mtd k) (k_sf k) (k_calls k).
Definition k_set_offs k v i := Kst (k_buf k) (k_valid k) (k_invalid k) (k_nand_block k) v i
  (k_mtd k) (k_sf k) (k_calls k).
Definition k_set_mtd k v := Kst (k_buf k) (k_valid k) (k_invalid k) (k_nand_block k)
  (k_valid_offs k) (k_invalid_offs k) v (k_sf k) (k_calls k).
Definition k_set_sf k v := Kst (k_buf k) (k_valid k) (k_invalid k) (k_nand_block k)
  (k_valid_offs k) (k_invalid_offs k) (k_mtd k) v (k_calls k).
Definition k_set_calls k v := Kst (k_buf k) (k_valid k) (k_invalid k) (k_nand_block k)
  (k_valid_offs k) (k_invalid_offs k) (k_mtd k) (k_sf k) v.

(** The machine: the strapping register, what the [k]-th device call does when it
    fails ([Some] of what it leaves in the device), the memory functions. *)
Class Machine := {
  strap : Z;                              (** GPIO_BASE_ADDR + 0x100 *)
  dev_fails : nat → option (list Z);
  kmalloc : option (list Z);              (** the buffer, when there is one *)
  ioremap_ok : bool
}.

(** [boot_partitions] of kernel/drivers/mtd/devices/wmt_sf.c: names and offsets. *)
Definition boot_partitions : list (list Z * Z) :=
  [(bytes "filesystem-SF", 0x00000000); (bytes "kernel-SF", 0x00D00000);
   (bytes "u-boot-SF", 0x00F80000); (bytes "u-boot env. cfg. 1-SF", 0x00FD0000);
   (bytes "u-boot env. cfg. 2-SF", 0x00FE0000); (bytes "w-load-SF", 0x00FF0000)].
Definition SF_UBOOT_ENV1 : list Z := bytes "u-boot env. cfg. 1-SF".
Definition SF_UBOOT_ENV2 : list Z := bytes "u-boot env. cfg. 2-SF".
Definition NAND_UBOOT_ENV1 : list Z := bytes "u-boot env. cfg. 1-NAND".
Definition NAND_UBOOT_ENV2 : list Z := bytes "u-boot env. cfg. 2-NAND".
Definition NOR_UBOOT_ENV1 : list Z := bytes "u-boot env. cfg. 1-NOR".
Definition NOR_UBOOT_ENV2 : list Z := bytes "u-boot env. cfg. 2-NOR".

Section wmt_env.
Context {mach : Machine} (ENV_MAX_SIZE : nat).

(** ** The devices *)

(** [mtd_table[i]]: outside the table is a fault. *)
Definition mtd_at (i : nat) : M kst (option mtd) :=
  let! k := get in
  match k_mtd k !! i with
  | Some m => ret m
  | None => fail OutOfBounds
  end.
(** [mtd_table[i]->...]. *)
Definition mtd_deref (i : nat) : M kst mtd :=
  let! m := mtd_at i in
  match m with Some m => ret m | None => fail NullDeref end.

Definition next_dev_call : M kst (option (list Z)) :=
  let! k := get in
  put (k_set_calls k (S (k_calls k))) ;;;
  ret (dev_fails (k_calls k)).

(** Flash programming can only clear bits. *)
Definition program (off : nat) (bs d : list Z) : list Z :=
  imap (λ i old, if decide (off ≤ i)%nat
                 then match bs !! (i - off)%nat with Some v => Z.land old v | None => old end
                 else old) d.
Definition erase_range (off len : nat) (d : list Z) : list Z :=
  imap (λ i old, if decide (off ≤ i < off + len)%nat then 0xFF else old) d.

Definition mtd_update (i : nat) (m : mtd) (d : list Z) : M kst unit :=
  modify (λ k, k_set_mtd k (<[i := Some (set_mdata m (resize (length (m_data m)) 0xFF d))]> (k_mtd k))).

Definition mtd_erase (i addr len : nat) : M kst Z :=
  let! m := mtd_deref i in
  let! f := next_dev_call in
  match f with
  | Some junk => mtd_update i m junk ;;; ret 1
  | None => mtd_update i m (erase_range addr len (m_data m)) ;;; ret 0
  end.

Definition mtd_write (i off : nat) (bs : list Z) : M kst Z :=
  let! m := mtd_deref i in
  let! f := next_dev_call in
  match f with
  | Some junk => mtd_update i m junk ;;; ret 1
  | None => mtd_update i m (program off bs (m_data m)) ;;; ret 0
  end.

(** Reading into the buffer at [env_ptr]; past the end of the device is an
    error. *)
Definition mtd_read_buf (i off : nat) : M kst Z :=
  let! m := mtd_deref i in
  let! f := next_dev_call in
  match f with
  | Some _ => ret 1
  | None =>
      if decide (m_size m < off + ENV_MAX_SIZE)%nat then ret 1 else
      modify (λ k, k_set_buf k (Some (take ENV_MAX_SIZE (drop off (m_data m))))) ;;;
      ret 0
  end.

Definition sf_read_bytes (sf : Z → Z) (off : Z) (len : nat) : list Z :=
  map (λ i, sf (off + Z.of_nat i)) (seq 0 len).
Definition sf_erase_sector (sf : Z → Z) (off : Z) : Z → Z := λ a,
  if (off <=? a) && (a <? off + Z.of_nat ENV_MAX_SIZE) then 0xFF else sf a.
Definition sf_program (sf : Z → Z) (off : Z) (bs : list Z) : Z → Z := λ a,
  if off <=? a then
    match bs !! Z.to_nat (a - off) with Some v => Z.land (sf a) v | None => sf a end
  else sf a.

Definition spi_flash_sector_erase (off : Z) : M kst Z :=
  let! f := next_dev_call in
  match f with
  | Some _ => ret 1
  | None => modify (λ k, k_set_sf k (sf_erase_sector (k_sf k) off)) ;;; ret 0
  end.
Definition spi_flash_sector_write (off : Z) (bs : list Z) : M kst unit :=
  let! f := next_dev_call in
  match f with
  | Some _ => ret tt
  | None => modify (λ k, k_set_sf k (sf_program (k_sf k) off bs))
  end.

(** ** The buffer *)

(** The boot device the strapping selects. *)
Definition bootflash : flash_type :=
  let val := Z.land (Z.shiftr strap 1) 0x3 in
  if val =? 0 then SPI_FLASH_TYPE
  else if val =? 1 then NAND_FLASH_TYPE
  else if val =? 2 then NOR_FLASH_TYPE
  else SPI_FLASH_TYPE.

(** Where the data starts: [env_ptr_nand->data] or [env_ptr->data]. *)
Definition data_off : nat := if Z.land strap 6 =? 2 then 4%nat else 5%nat.

(** Code that works on the buffer. *)
Definition on_buf {A} (m : M (list Z) A) : M kst A := λ k,
  match k_buf k with
  | None => Err NullDeref
  | Some buf =>
      match m buf with
      | Ok (a, buf') => Ok (a, k_set_buf k (Some buf'))
      | Err f => Err f
      end
  end.

Definition env_crc32 : M (list Z) Z :=
  let! buf := get in
  ret (Z.lxor (crc_loop sf_crc_table (Z.lxor 0 0xffffffff)
                 (take (ENV_MAX_SIZE - data_off) (drop data_off buf))) 0xffffffff).

Definition buf_crc (buf : list Z) : Z := of_le32 buf.
Definition buf_flags (buf : list Z) : Z := default 0 (buf !! 4%nat).
Definition set_buf_crc (crc : Z) : M (list Z) unit := modify (λ buf, le32 crc ++ drop 4 buf).

Definition env_get_char (index : nat) : M (list Z) Z := at_offset data_off (load index).

(** ** [env_init] *)

(** The search for the partitions: the indices of the two copies and, from the
    static table when MTD is not up yet, their offsets (unset before). *)
Record parts := Parts { p_env1 : nat; p_env2 : nat; p_off1 : option Z; p_off2 : option Z;
                        p_count : nat }.

Definition match_name (n1 n2 name : list Z) (i : nat) (p : parts) : parts :=
  if str_eq n1 name then Parts i (p_env2 p) (p_off1 p) (p_off2 p) (p_count p)
  else if str_eq n2 name then Parts (p_env1 p) i (p_off1 p) (p_off2 p) (p_count p)
  else p.

Definition env_find_parts_step (i : nat) (p : parts) : M kst (nat * parts + parts) :=
  if decide (MAX_MTD_DEVICES ≤ i)%nat then ret (inr p) else
  let! m := mtd_at i in
  match m with
  | None =>
      if decide (bootflash = SPI_FLASH_TYPE) then
        match boot_partitions !! i with
        | None => fail OutOfBounds
        | Some (name, offset) =>
            let p :=
              if str_eq SF_UBOOT_ENV1 name
              then Parts i (p_env2 p) (Some offset) (p_off2 p) (S (p_count p))
              else if str_eq SF_UBOOT_ENV2 name
              then Parts (p_env1 p) i (p_off1 p) (Some offset) (S (p_count p))
              else p in
            if decide (p_count p = 2)%nat then ret (inr p) else ret (inl (S i, p))
        end
      else ret (inr p)
  | Some m =>
      let p :=
        match bootflash with
        | SPI_FLASH_TYPE => match_name SF_UBOOT_ENV1 SF_UBOOT_ENV2 (m_name m) i p
        | NAND_FLASH_TYPE => match_name NAND_UBOOT_ENV1 NAND_UBOOT_ENV2 (m_name m) i p
        | NOR_FLASH_TYPE => match_name NOR_UBOOT_ENV1 NOR_UBOOT_ENV2 (m_name m) i p
        end in
      ret (inl (S i, p))
  end.

Definition env_find_parts : M kst parts :=
  loopM (S MAX_MTD_DEVICES) (λ '(i, p), env_find_parts_step i p)
    (0%nat, Parts ENV_INVALID ENV_INVALID None None 0).

(** The inner [while] at [next_blk]: skip bad blocks.  On the ninth block the
    code jumps back without moving [offs]. *)
Definition nand_skip_bad (n env offs blk_cnt : nat) : M kst (nat * nat) :=
  loopM n (λ '(offs, blk_cnt),
    let! m := mtd_deref env in
    if decide (offs < NAND_ENV_BLK_LENGTH * m_erasesize m)%nat then
      if negb (m_isbad m offs) then ret (inr (offs, blk_cnt)) else
      let blk_cnt := S blk_cnt in
      if decide (blk_cnt = NAND_ENV_BLK_LENGTH) then ret (inl (offs, blk_cnt))
      else ret (inl ((offs + m_erasesize m)%nat, blk_cnt))
    else ret (inr (offs, blk_cnt))) (offs, blk_cnt).

Definition env_init_nand (n env : nat) : M kst Z :=
  let! m := mtd_at env in
  if decide (m = None ∨ env = ENV_INVALID) then ret 1 else
  loopM n (λ '(offs, blk_cnt),
    let! (offs, blk_cnt) := nand_skip_bad n env offs blk_cnt in
    if decide (NAND_ENV_BLK_LENGTH * 2 ≤ blk_cnt)%nat then ret (inr 1) else
    let! r := mtd_read_buf env offs in
    if negb (r =? 0) then ret (inr 1) else
    let! m := mtd_deref env in
    let! crc := on_buf (let! b := get in ret (buf_crc b)) in
    let advance blk_cnt :=
      let offs := (offs + m_erasesize m)%nat in
      ((if decide (blk_cnt = NAND_ENV_BLK_LENGTH) then 0%nat else offs), blk_cnt) in
    if (crc =? 0xFFFFFFFF) && bool_decide (blk_cnt < NAND_ENV_BLK_LENGTH)%nat then
      ret (inl (advance (S blk_cnt)))
    else
      let! crc32 := on_buf env_crc32 in
      if crc =? crc32 then
        modify (λ k, k_set_ids k env (k_invalid k)) ;;;
        modify (λ k, k_set_nand k (blk_cnt mod NAND_ENV_BLK_LENGTH)%nat) ;;;
        ret (inr 0)
      else if decide (S blk_cnt < NAND_ENV_BLK_LENGTH * 2)%nat then
        ret (inl (advance (S blk_cnt)))
      else ret (inr 1)) (0%nat, 0%nat).

(** Record the valid copy and its partner. *)
Definition env_set_valid (p : parts) (env : nat) : M kst unit :=
  modify (λ k, k_set_ids k env (if decide (env = p_env1 p) then p_env2 p else p_env1 p)).

(** One of the two copies in serial flash: [Some rc] returns, [None] goes on to
    the next copy. *)
Definition env_init_sf_one (p : parts) (i : nat) : M kst (option Z) :=
  let env := if decide (i = 0)%nat then p_env1 p else p_env2 p in
  let offset := if decide (i = 0)%nat then p_off1 p else p_off2 p in
  let! m := mtd_at env in
  let normal : M kst (option Z) :=
    let! r := mtd_read_buf env 0 in
    if negb (r =? 0) then ret (Some 1) else
    let! flags := on_buf (let! b := get in ret (buf_flags b)) in
    if flags =? 1 then
      let! crc := on_buf (let! b := get in ret (buf_crc b)) in
      let! crc32 := on_buf env_crc32 in
      if crc =? crc32 then env_set_valid p env ;;; ret (Some 0) else ret None
    else ret None in
  if decide (m = None ∧ env ≠ ENV_INVALID) then
    if negb ioremap_ok then ret (Some 1) else
    match offset with
    | None => fail OutOfBounds
    | Some off =>
        modify (λ k, k_set_buf k (Some (sf_read_bytes (k_sf k) off ENV_MAX_SIZE))) ;;;
        let! flags := on_buf (let! b := get in ret (buf_flags b)) in
        if flags =? 1 then
          let! crc := on_buf (let! b := get in ret (buf_crc b)) in
          let! crc32 := on_buf env_crc32 in
          if crc =? crc32 then
            env_set_valid p env ;;;
            match (if decide (env = p_env1 p) then p_off2 p else p_off1 p) with
            | None => fail OutOfBounds
            | Some ioff => modify (λ k, k_set_offs k off ioff)
            end ;;;
            ret (Some 0)
          else normal
        else ret None
    end
  else if decide (m = None ∨ env = ENV_INVALID) then ret (Some 1)
  else normal.

Definition env_init (n : nat) : M kst Z :=
  let! p := env_find_parts in
  if decide (bootflash = NAND_FLASH_TYPE) then env_init_nand n (p_env1 p)
  else
    (* the test before [wmt_sfc_init] reads mtd_table[env] too *)
    let! _ := mtd_at (p_env1 p) in
    let! r := env_init_sf_one p 0 in
    match r with
    | Some rc => ret rc
    | None =>
        let! r := env_init_sf_one p 1 in
        match r with Some rc => ret rc | None => ret 1 end
    end.

(** ** [env_update] *)

(** The search for a good block after [orig_block]: its offset, or [None]. *)
Definition nand_find_block (n : nat) (m : mtd) (orig_block : nat) : M kst (option nat) :=
  let wrap offs := if decide (m_size m ≤ offs)%nat then 0%nat else offs in
  let! (chk_offs, found) :=
    loopM n (λ '(chk_offs, offs),
      if decide (chk_offs < m_size m)%nat then
        if m_isbad m offs
        then ret (inl ((chk_offs + m_erasesize m)%nat, wrap (offs + m_erasesize m)%nat))
        else ret (inr ((chk_offs + m_erasesize m)%nat, Some offs))
      else ret (inr (chk_offs, None)))
      (0%nat, wrap ((orig_block + 1) * m_erasesize m)%nat) in
  if decide (m_size m ≤ chk_offs)%nat then ret None else ret found.

Definition env_update_nand (n : nat) : M kst Z :=
  let! k := get in
  let orig_block := k_nand_block k in
  let! m := mtd_deref (k_valid k) in
  let! b := nand_find_block n m orig_block in
  match b with
  | None => ret 1
  | Some block_offs =>
      let! r := mtd_erase (k_valid k) block_offs (m_erasesize m) in
      if negb (r =? 0) then ret 1 else
      let! buf := on_buf get in
      let! r := mtd_write (k_valid k) block_offs (take ENV_MAX_SIZE buf) in
      if negb (r =? 0) then ret 1 else
      modify (λ k, k_set_nand k (block_offs / m_erasesize m)%nat) ;;;
      let! r := mtd_erase (k_valid k) (orig_block * m_erasesize m)%nat (m_erasesize m) in
      if negb (r =? 0) then ret 1 else ret 0
  end.

(** The exchange of the two copies at the end. *)
Definition env_swap : M kst unit :=
  modify (λ k, k_set_ids k (k_invalid k) (k_valid k)) ;;;
  modify (λ k, k_set_offs k (k_invalid_offs k) (k_valid_offs k)).

Definition env_update (n : nat) : M kst Z :=
  on_buf (let! crc := env_crc32 in set_buf_crc crc) ;;;
  let! k := get in
  let! m := mtd_at (k_invalid k) in
  if decide (bootflash = NAND_FLASH_TYPE) then env_update_nand n
  else
    let! buf := on_buf get in
    match m with
    | None =>
        if decide (k_invalid k ≠ ENV_INVALID) then
          (* before the MTD driver is up *)
          if negb ioremap_ok then ret 1 else
          let! r := (if decide (bootflash = SPI_FLASH_TYPE)
                     then spi_flash_sector_erase (k_invalid_offs k) else ret 0) in
          if negb (r =? 0) then ret 1 else
          if decide (bootflash = SPI_FLASH_TYPE) then
            spi_flash_sector_write (k_invalid_offs k) (take ENV_MAX_SIZE buf) ;;;
            spi_flash_sector_write (k_valid_offs k + 4) [0] ;;;
            env_swap ;;;
            ret 0
          else fail NullDeref
        else fail NullDeref
    | Some m =>
        let! r := mtd_erase (k_invalid k) 0 (m_size m) in
        if negb (r =? 0) then ret 1 else
        let! r := mtd_write (k_invalid k) 0 (take ENV_MAX_SIZE buf) in
        if negb (r =? 0) then ret 1 else
        let! r := mtd_write (k_valid k) 4 [0] in
        if negb (r =? 0) then ret 1 else
        env_swap ;;;
        ret 0
    end.

(** ** [wmt_getsyspara], [wmt_setsyspara] *)

(** "need copy in RAM": [Some rc] when the function returns. *)
Definition env_ensure (n : nat) : M kst (option Z) :=
  let! k := get in
  match k_buf k with
  | Some _ => ret None
  | None =>
      match kmalloc with
      | None => ret (Some 1)
      | Some buf =>
          put (k_set_nand (k_set_buf k (Some buf)) 0) ;;;
          let! r := env_init n in
          if negb (r =? 0) then ret (Some 1) else ret None
      end
  end.

(** [while (k < nxt) varval[i++] = env_get_char(k++);] *)
Definition get_value (n k nxt : nat) (varval : list Z) : M (list Z) (list Z * nat) :=
  loopM n (λ '(k, i, varval),
    if decide (k < nxt)%nat then
      let! c := load k in
      let! varval := buf_store varval i c in
      ret (inl (S k, S i, varval))
    else ret (inr (varval, i))) (k, 0%nat, varval).

(** The search loop: the buffer, the count and the last [k]. *)
Definition getsyspara_loop (n : nat) (varname varval : list Z) : M (list Z) (list Z * nat * Z) :=
  loopM n (λ '(j, k),
    let! c := load j in
    if c =? NUL then ret (inr (varval, 0%nat, k)) else
    let! nxt := env_string_end n j in
    let! k := envmatch n varname j in
    if k <? 0 then ret (inl ((nxt + 1)%nat, k)) else
    let! (varval, i) := get_value n (Z.to_nat k) nxt varval in
    ret (inr (varval, i, k))) (0%nat, -1).

(** The return code, the caller's buffer and its [*varlen]. *)
Definition wmt_getsyspara (n : nat) (varname varval : list Z) (varlen : Z)
    : M kst (Z * list Z * Z) :=
  let! r := env_ensure n in
  match r with
  | Some rc => ret (rc, varval, varlen)
  | None =>
      let! (varval, i, k) := on_buf (at_offset data_off (getsyspara_loop n varname varval)) in
      let! varval := buf_store varval i NUL in
      if varlen <? Z.of_nat i then ret (1, varval, Z.of_nat i)
      else if k <? 0 then ret (1, varval, varlen)
      else ret (0, varval, varlen)
  end.

(** Deleting the old definition: [Some rc] when the function returns. *)
Definition setsyspara_delete (n : nat) (varname : list Z) (varval : option (list Z))
    (env nxt : nat) : M kst (option Z) :=
  let! early :=
    if str_eq varname (bytes "baudrate") then
      let! v := deref_ptr varval in
      let baudrate := s32 (kernel_strtoul v 10) in
      if negb (existsb (Z.eqb (u32 baudrate)) kernel_baudrate_table) then ret (Some 1) else ret None
    else ret None in
  match early with
  | Some rc => ret (Some rc)
  | None => on_buf (at_offset data_off (env_delete n env nxt)) ;;; ret None
  end.

(** "Append new definition at the end": [None] on overflow. *)
Definition setsyspara_append (n : nat) (varname varval : list Z) : M (list Z) (option unit) :=
  let! env := env_end n in
  let len := (length varname + 2 + length varval)%nat in
  if decide (ENV_MAX_SIZE < len + env)%nat then ret None else
  let! env := env_put_string varname env in
  store env EQ ;;;
  let! env := env_put_string varval (S env) in
  store (S env) NUL ;;;
  ret (Some tt).

Definition wmt_setsyspara (n : nat) (varname : list Z) (varval : option (list Z)) : M kst Z :=
  let! r := env_ensure n in
  match r with
  | Some rc => ret rc
  | None =>
      let! (env, nxt, oldval) := on_buf (at_offset data_off (env_search n varname)) in
      let! early := (if 0 <=? oldval then setsyspara_delete n varname varval env nxt
                     else ret None) in
      match early with
      | Some rc => ret rc
      | None =>
          match varval with
          | None | Some [] =>
              if oldval <? 0 then ret 1 else
              let! r := env_update n in
              ret (if r =? 0 then 0 else 1)
          | Some v =>
              let! a := on_buf (at_offset data_off (setsyspara_append n varname v)) in
              match a with
              | None => ret 1
              | Some _ => let! r := env_update n in ret (if r =? 0 then 0 else 1)
              end
          end
      end
  end.

End wmt_env.

(** ** Copying a string past the end of the array *)

Lemma put_string_oob s fuel i env d :
  NUL ∉ s → (i ≤ length s)%nat → (env ≤ length d)%nat →
  (length d - env ≤ length s - i)%nat → (length s - i < fuel)%nat →
  loopM fuel (λ '(i, env),
    let! c := str_get s i in
    store env c ;;;
    if (c =? NUL)%Z then ret (inr env) else ret (inl (S i, S env))) (i, env) d = Err OutOfBounds.
Proof.
  intros Hs. revert i env d. induction fuel as [|fuel IH]; intros i env d Hi Henv Hroom Hfuel; [lia|].
  destruct (lookup_lt_is_Some_2 (s ++ [0]) i) as [c Hc]; [rw length_app /=; lia|].
  simpl. rw /bind {1}/str_get Hc /ret /store.
  destruct (decide (env < length d)%nat) as [Hlt|Hge]; [|done].
  assert (i < length s)%nat as Hil by lia. rw lookup_app_l // in Hc.
  destruct (Z.eqb_spec c NUL) as [->|_].
  { exfalso. apply Hs. by eapply list_elem_of_lookup_2. }
  apply IH; rw ?length_insert; lia.
Qed.

Lemma env_put_string_oob s env d :
  NUL ∉ s → (env ≤ length d)%nat → (length d ≤ env + length s)%nat →
  env_put_string s env d = Err OutOfBounds.
Proof. intros. apply put_string_oob; [done|lia..]. Qed.

(** ** Buffer code *)

Section buf.
Context {mach : Machine}.

Lemma wp_on_buf {A} (m : M (list Z) A) k buf (Q : A → kst → Prop) :
  k_buf k = Some buf → wp m (λ a b', Q a (k_set_buf k (Some b'))) buf → wp (on_buf m) Q k.
Proof. rw /wp /on_buf => ->. by destruct (m buf) as [[a b']|f]. Qed.

Lemma wp_on_data {A} (m : M (list Z) A) k hdr data (Q : A → kst → Prop) :
  k_buf k = Some (hdr ++ data) → length hdr = data_off →
  wp m (λ a d', Q a (k_set_buf k (Some (hdr ++ d')))) data →
  wp (on_buf (at_offset data_off m)) Q k.
Proof.
  intros Hb Hh Hm. eapply wp_on_buf; [done|]. rw -Hh. by apply wp_at_offset.
Qed.

(** The strapping bits [env_init] and the data offset look at agree. *)
Lemma data_off_bootflash : data_off = if decide (bootflash = NAND_FLASH_TYPE) then 4%nat else 5%nat.
Proof.
  rw /data_off /bootflash.
  assert (Z.land strap 6 = Z.shiftl (Z.land (Z.shiftr strap 1) 3) 1) as ->.
  { apply Z.bits_inj'. intros i Hi. rw Z.shiftl_spec // !Z.land_spec.
    change 6 with (Z.shiftl 3 1). rw Z.shiftl_spec //.
    destruct (decide (i = 0)) as [->|Hne]; [by rw !(Z.testbit_neg_r _ (0 - 1)) // andb_false_r|].
    rw Z.shiftr_spec; [lia|]. by replace (i - 1 + 1) with i by lia. }
  rw Z.shiftl_mul_pow2 // Z.mul_comm.
  set (v := Z.land (Z.shiftr strap 1) 3).
  destruct (Z.eqb_spec (2 ^ 1 * v) 2); destruct (Z.eqb_spec v 0); destruct (Z.eqb_spec v 1);
    destruct (Z.eqb_spec v 2); try lia; by destruct (decide _).
Qed.

Lemma sf_crc_table_eq : sf_crc_table = crc_table.
Proof. done. Qed.

End buf.

(** ** Appending a definition *)

Section append.
Context (ENV_MAX_SIZE n : nat) (name v : list Z) (es : list entry) (data : list Z).
Hypothesis Hok : Forall entry_ok es.
Hypothesis Hrepr : env_repr es data.
Hypothesis Hn : (length data < n)%nat.
Hypothesis Hname : NUL ∉ name.
Hypothesis Hv : NUL ∉ v.

(** The test of the code: one byte and the header short of what is written. *)
Definition guard_passes : Prop :=
  (length name + 2 + length v + length (enc es) ≤ ENV_MAX_SIZE)%nat.

Lemma env_end_run : env_end n data = Ok (length (enc es), data).
Proof.
  assert (wp (env_end n) (λ r d, r = length (enc es) ∧ d = data) data) as H
    by (by eapply wp_env_end).
  by apply wp_ok in H as (r & d & -> & -> & ->).
Qed.

Lemma append_overflow :
  ¬ guard_passes → setsyspara_append ENV_MAX_SIZE n name v data = Ok (None, data).
Proof.
  intros Hg. rw /setsyspara_append /bind env_end_run decide_True //.
  rw /guard_passes in Hg. lia.
Qed.

Lemma wp_append_fits (Q : option unit → list Z → Prop) :
  guard_passes → env_fits (length data) name v es →
  (∀ data', env_repr (es ++ [mk_entry name v]) data' → length data' = length data →
     (∀ P, Forall P data → P 0 → P EQ → Forall P name → Forall P v → Forall P data') →
     Q (Some tt) data') →
  wp (setsyspara_append ENV_MAX_SIZE n name v) Q data.
Proof.
  intros Hg Hfit HQ. rw /setsyspara_append. apply wp_bind.
  eapply wp_env_end; [done..|]. rw /guard_passes in Hg. rw decide_False; [lia|].
  destruct Hrepr as (rest & Hdata & Hnil). rw /env_fits /mk_entry length_app length_cons in Hfit.
  pose proof (f_equal length Hdata) as Hlen. rw (length_app (enc es)) in Hlen.
  assert (∃ o1 o2 x suf, NUL :: rest = o1 ++ o2 ++ x :: suf ∧ length o1 = S (length name) ∧
            length o2 = S (length v)) as (o1 & o2 & x & suf & Hold & Ho1 & Ho2).
  { exists (take (S (length name)) (NUL :: rest)),
      (take (S (length v)) (drop (S (length name)) (NUL :: rest))).
    destruct (drop (S (length v)) (drop (S (length name)) (NUL :: rest))) as [|x suf] eqn:Hd.
    { apply (f_equal length) in Hd. rw !length_drop in Hd. change (length []) with 0%nat in Hd. lia. }
    exists x, suf. rw -Hd !take_drop !length_take !length_drop. split; [done|lia]. }
  rw Hold in Hdata. rw Hdata. apply wp_bind, wp_put_string; [done|done|].
  rw -length_app app_assoc. apply wp_bind, wp_store; [rw (length_app (enc es ++ name)) /=; lia|].
  rw insert_app_len. apply wp_bind.
  replace (S (length (enc es ++ name))) with (length ((enc es ++ name) ++ [EQ]))
    by (rw (length_app _ [EQ]) /=; lia).
  replace ((enc es ++ name) ++ EQ :: o2 ++ x :: suf)
    with (((enc es ++ name) ++ [EQ]) ++ o2 ++ x :: suf) by (by rw -(app_assoc _ [EQ])).
  apply wp_put_string; [done|done|]. rw -length_app app_assoc.
  set (p := ((enc es ++ name) ++ [EQ]) ++ v).
  replace (S (length p)) with (length (p ++ [NUL])) by (rw length_app /=; lia).
  replace (p ++ NUL :: x :: suf) with ((p ++ [NUL]) ++ x :: suf) by (by rw -app_assoc).
  apply wp_bind, wp_store; [rw (length_app (p ++ [NUL])) /=; lia|]. rw insert_app_len.
  apply wp_ret, HQ.
  - rw -app_assoc /p. replace (((enc es ++ name) ++ [EQ]) ++ v) with (enc es ++ mk_entry name v)
      by (by rw /mk_entry -!app_assoc). apply env_repr_snoc.
  - rw Hdata /p. set (E := enc es). clearbody E. rw !length_app /= Ho1 Ho2. lia.
  - intros P HPd HP0 HPE HPn HPv. rw Hdata in HPd.
    apply Forall_app in HPd as [HPe [_ [_ HPs]%Forall_app]%Forall_app].
    apply Forall_cons in HPs as [_ HPs].
    rw /p. repeat (apply Forall_app; split); try done; by constructor.
Qed.

(** The window between the test and the end of the data: the copy runs past the
    array. *)
Lemma append_oob :
  guard_passes → ¬ env_fits (length data) name v es →
  setsyspara_append ENV_MAX_SIZE n name v data = Err OutOfBounds.
Proof.
  intros Hg Hfit. rw /setsyspara_append {1}/bind env_end_run. rw /guard_passes in Hg.
  rw decide_False; [lia|]. rw /env_fits /mk_entry length_app length_cons in Hfit.
  assert (length (enc es) < length data)%nat as Hlt.
  { destruct Hrepr as (rest & -> & _). rw (length_app (enc es)) /=. lia. }
  destruct (decide (length data ≤ length (enc es) + length name)%nat) as [H1|H1].
  { rw {1}/bind env_put_string_oob //. lia. }
  assert (∀ env s d, NUL ∉ s → (env + length s < length d)%nat → ∃ d',
            env_put_string s env d = Ok ((env + length s)%nat, d') ∧ length d' = length d) as Hput.
  { intros env s d Hs Hd.
    assert (wp (env_put_string s env) (λ r d', r = (env + length s)%nat ∧ length d' = length d) d) as H.
    { rw -(take_drop env d) -(take_drop (S (length s)) (drop env d)).
      replace env with (length (take env d)) at 1 by (rw length_take; lia).
      apply wp_put_string; [done|rw length_take length_drop; lia|]. rw length_take Nat.min_l; [lia|].
      split; [done|]. rw !length_app /= !length_take !length_drop. lia. }
    apply wp_ok in H as (r & d' & -> & -> & Hd'). by eexists. }
  destruct (Hput (length (enc es)) name data) as (d1 & Hd1 & Hl1); [done|lia|].
  rw {1}/bind Hd1 {1}/bind /store decide_True; [lia|].
  set (d2 := <[_ := EQ]> d1). assert (length d2 = length data) as Hl2 by (by rw length_insert).
  destruct (decide (length data ≤ S (length (enc es) + length name) + length v)%nat) as [H2|H2].
  { rw {1}/bind env_put_string_oob //; lia. }
  destruct (Hput (S (length (enc es) + length name)) v d2) as (d3 & Hd3 & Hl3); [done|lia|].
  rw {1}/bind Hd3 /bind /store decide_False //. lia.
Qed.

End append.

(** ** [wmt_getsyspara] *)

Lemma get_value_loop v fuel pre suf done rest nxt :
  (length v < fuel)%nat → nxt = (length pre + length v)%nat →
  loopM fuel (λ '(k, i, varval),
    if decide (k < nxt)%nat then
      let! c := load k in
      let! varval := buf_store varval i c in
      ret (inl (S k, S i, varval))
    else ret (inr (varval, i))) (length pre, length done, done ++ rest) (pre ++ v ++ suf) =
  if decide (length v ≤ length rest)%nat
  then Ok ((done ++ v ++ drop (length v) rest, (length done + length v)%nat), pre ++ v ++ suf)
  else Err OutOfBounds.
Proof.
  revert fuel pre done rest. induction v as [|c v IH]; intros fuel pre done rest Hf Hnxt;
    (destruct fuel as [|fuel]; [simpl in Hf; lia|]); cbn [loopM].
  - rw {1}/bind decide_False; [simpl in Hnxt; lia|].
    simpl. by rw drop_0 Nat.add_0_r.
  - simpl in Hnxt, Hf. rw {1}/bind decide_True; [lia|]. rw {1}/bind /load lookup_app_len {1}/bind /buf_store.
    destruct rest as [|x rest].
    { rw decide_False; [rw length_app /=; lia|]. done. }
    rw decide_True; [rw length_app /=; lia|]. rw insert_app_len.
    specialize (IH fuel (pre ++ [c]) (done ++ [c]) rest ltac:(lia) ltac:(rw length_app /=; lia)).
    rw !length_app /= -!app_assoc /= in IH. rw !Nat.add_1_r in IH. cbn [ret app]. rw IH.
    simpl. destruct (decide (length v ≤ length rest)%nat);
      [rw decide_True; [lia|]|rw decide_False; [lia|done]].
    by replace (length done + S (length v))%nat with (S (length done) + length v)%nat by lia.
Qed.

Lemma get_value_run n v pre suf varval :
  (length v < n)%nat →
  get_value n (length pre) (length pre + length v) varval (pre ++ v ++ suf) =
  if decide (length v ≤ length varval)%nat
  then Ok ((v ++ drop (length v) varval, length v), pre ++ v ++ suf)
  else Err OutOfBounds.
Proof. intros Hn. by apply (get_value_loop v n pre suf [] varval). Qed.

(** The search part of the loop alone: where the value is, and where its string
    ends. *)
Definition getsyspara_find (n : nat) (varname : list Z) : M (list Z) (option (nat * nat) * Z) :=
  loopM n (λ '(j, k),
    let! c := load j in
    if c =? NUL then ret (inr (None, k)) else
    let! nxt := env_string_end n j in
    let! k := envmatch n varname j in
    if k <? 0 then ret (inl ((nxt + 1)%nat, k)) else ret (inr (Some (Z.to_nat k, nxt), k)))
    (0%nat, -1).

Lemma getsyspara_loop_find n varname varval d :
  getsyspara_loop n varname varval d =
  (let! (r, k) := getsyspara_find n varname in
   match r with
   | None => ret (varval, 0%nat, k)
   | Some (pos, nxt) => let! (varval, i) := get_value n pos nxt varval in ret (varval, i, k)
   end) d.
Proof.
  apply loopM_fuse. clear d. intros [j k] d. rw /bind /=.
  destruct (load j d) as [[c d1]|f]; [|done]. destruct (c =? NUL); [done|].
  destruct (env_string_end n j d1) as [[nxt d2]|f]; [|done].
  destruct (envmatch n varname j d2) as [[val d3]|f]; [|done].
  destruct (val <? 0); [done|]. simpl.
  by destruct (get_value n (Z.to_nat val) nxt varval d3) as [[[b i] d4]|f].
Qed.

Lemma wp_getsyspara_find n name es data (Q : option (nat * nat) * Z → list Z → Prop) :
  Forall entry_ok es → env_repr es data → name_ok name →
  (length name < n)%nat → (length data < n)%nat →
  (∀ k, k < 0 → env_lookup name es = None → Q (None, k) data) →
  (∀ k pre v suf, 0 ≤ k → env_lookup name es = Some v → data = pre ++ v ++ suf →
     Q (Some (length pre, (length pre + length v)%nat), k) data) →
  wp (getsyspara_find n name) Q data.
Proof.
  intros Hok Hrepr Hname Hn Hn' HQ0 HQ1.
  apply (wp_scan (λ '(j, k), j) (λ es1 '(j, k), k < 0 ∧ name ∉ (entry_name <$> es1)) _ _ es);
    [done..|split; [lia|apply not_elem_of_nil]| |].
  - intros [j k] rest [Hk Hnot] -> Hd. apply wp_bind. eapply wp_load; [by rw Hd lookup_app_len|].
    rw Z.eqb_refl. apply wp_ret, HQ0; [done|]. by apply env_lookup_none.
  - intros es1 e es2 rest [j k] Hes [Hk Hnot] -> Hd.
    assert (entry_ok e) as He.
    { rw Hes in Hok. by apply Forall_app in Hok as [_ [? _]%Forall_cons]. }
    pose proof (f_equal length Hd) as Hlen.
    rw (length_app (enc es1)) (length_app e) length_cons in Hlen.
    apply wp_bind. rw Hd. apply wp_load_entry; [done|]. intros c Hc.
    rw (proj2 (Z.eqb_neq c NUL)) //. apply wp_bind, wp_string_end; [apply He|lia|].
    apply wp_bind, wp_envmatch_env; [done..|intros Heq|intros Hne].
    + rw (proj2 (Z.ltb_ge _ _)); [lia|]. apply wp_ret. rw -Hd Nat2Z.id.
      destruct (entry_value_at (enc es1) e (enc es2 ++ NUL :: rest) He) as [Hv _].
      assert (length e = length name + 1 + length (entry_value e))%nat as Hel.
      { rw {1}(entry_split e (proj2 He)) Heq /mk_entry length_app /=. lia. }
      replace (length (enc es1) + length e)%nat with
        (length (enc es1 ++ entry_name e ++ [EQ]) + length (entry_value e))%nat
        by (rw Heq !length_app /=; lia).
      replace (length (enc es1) + length name + 1)%nat with
        (length (enc es1 ++ entry_name e ++ [EQ])) by (rw Heq !length_app /=; lia).
      apply (HQ1 _ _ _ (NUL :: enc es2 ++ NUL :: rest)); [lia| |by rw Hd Hv].
      by rw Hes env_lookup_split.
    + change (-1 <? 0) with true. apply wp_ret. split_and!; [done|lia|done|].
      rw fmap_app. apply not_elem_of_app. split; [done|].
      by apply not_elem_of_cons; split; [|apply not_elem_of_nil].
Qed.

(** What [wmt_getsyspara] does for a caller with the buffer [varval] and
    [*varlen = varlen], from the contents of the block. *)
Definition getsyspara_spec (es : list entry) (name varval : list Z) (varlen : Z)
    : outcome (Z * list Z * Z) :=
  match env_lookup name es with
  | None =>
      if decide (varval = []) then Err OutOfBounds
      else if varlen <? 0 then Ok (1, NUL :: drop 1 varval, 0)
      else Ok (1, NUL :: drop 1 varval, varlen)
  | Some v =>
      if decide (length v < length varval)%nat then
        let varval' := v ++ NUL :: drop (S (length v)) varval in
        if varlen <? Z.of_nat (length v) then Ok (1, varval', Z.of_nat (length v))
        else Ok (0, varval', varlen)
      else Err OutOfBounds
  end.

(** The RAM copy of the kernel is up and holds the strings [es]. *)
Definition k_cached `{!Machine} (k : kst) (hdr : list Z) (es : list entry) (data : list Z) : Prop :=
  k_buf k = Some (hdr ++ data) ∧ length hdr = data_off ∧ env_wf es ∧ env_repr es data.

Lemma on_data_run {mach : Machine} {A} (m : M (list Z) A) k hdr data :
  k_buf k = Some (hdr ++ data) → length hdr = data_off →
  on_buf (at_offset data_off m) k =
  match m data with
  | Ok (a, d') => Ok (a, k_set_buf k (Some (hdr ++ d')))
  | Err f => Err f
  end.
Proof.
  intros Hb Hh. rw /on_buf Hb /at_offset -Hh drop_app_length take_app_length.
  by destruct (m data) as [[a d']|f].
Qed.

Lemma k_set_buf_same k b : k_buf k = Some b → k_set_buf k (Some b) = k.
Proof. destruct k; simpl. by intros ->. Qed.

Lemma env_ensure_cached {mach : Machine} SZ n k b :
  k_buf k = Some b → env_ensure SZ n k = Ok (None, k).
Proof. intros Hb. by rw /env_ensure /bind /= Hb. Qed.

(** A small machine for the witnesses: serial flash boot, no errors. *)
#[local] Instance demo_machine : Machine :=
  {| strap := 0; dev_fails _ := None; kmalloc := Some (replicate 40 0); ioremap_ok := true |}.
Definition demo_kes : list entry := [bytes "a=1"; bytes "wmt.x=22"].
Definition demo_kdata : list Z := enc demo_kes ++ replicate 22 0.
Definition demo_hdr : list Z := [0; 0; 0; 0; 1].
Definition demo_mtd (i : nat) : mtd := Mtd (bytes "x") 40 40 (replicate 40 (Z.of_nat i)) (λ _, false).
Definition demo_kst : kst :=
  Kst (Some (demo_hdr ++ demo_kdata)) 3 4 0 0 0
    [None; None; None; Some (demo_mtd 3); Some (demo_mtd 4)] (λ _, 0) 0.

Lemma demo_cached : k_cached demo_kst demo_hdr demo_kes demo_kdata.
Proof.
  split_and!; [done|done|by apply (bool_decide_unpack _)|].
  by exists (replicate 21 0).
Qed.

(** C33: [wmt_getsyspara] on every outcome, once the RAM copy is up.  The value is
    copied with its NUL before its length is compared with [*varlen]: a value
    that does not fit the caller's buffer with its NUL is written past it, even
    the value of exactly [*varlen] bytes that the comparison then accepts.  A
    value that fits is returned exactly, with 0, or with 1 and its length when
    it is longer than [*varlen]; an undefined name gives 1 and the empty
    string. *)
Theorem wmt_getsyspara_behaviour {mach : Machine} SZ n name varval varlen k hdr es data :
  k_cached k hdr es data → name_ok name → (length name < n)%nat → (length data < n)%nat →
  wmt_getsyspara SZ n name varval varlen k =
  match getsyspara_spec es name varval varlen with
  | Ok r => Ok (r, k)
  | Err f => Err f
  end.
Proof.
  intros (Hb & Hh & Hwf & Hrepr) Hname Hn Hn'.
  rw /wmt_getsyspara {1}/bind (env_ensure_cached _ _ _ _ Hb) {1}/bind (on_data_run _ _ _ _ Hb Hh).
  rw getsyspara_loop_find {1}/bind /getsyspara_spec.
  assert (wp (getsyspara_find n name) (λ '(r, kk) d, d = data ∧
    match r with
    | None => kk < 0 ∧ env_lookup name es = None
    | Some (pos, nxt) => 0 ≤ kk ∧ ∃ pre v suf, env_lookup name es = Some v ∧
        data = pre ++ v ++ suf ∧ pos = length pre ∧ nxt = (length pre + length v)%nat
    end) data) as H.
  { eapply wp_getsyspara_find; [apply Hwf|done..|by auto|]. intros. naive_solver. }
  apply wp_ok in H as ([r kk] & d & -> & -> & H).
  destruct r as [[pos nxt]|].
  - destruct H as (Hkk & pre & v & suf & -> & -> & -> & ->). rw {1}/bind get_value_run.
    { rw !length_app in Hn'. lia. }
    destruct (decide (length v ≤ length varval)%nat) as [Hle|Hgt]; [|rw decide_False; [lia|done]].
    cbn [ret]. rw {1}/bind /buf_store (k_set_buf_same _ _ Hb).
    destruct (decide (length v < length varval)%nat) as [Hlt|Hge].
    + rw decide_True; [rw length_app length_drop; lia|]. cbn [ret].
      destruct (drop (length v) varval) as [|x tl] eqn:Hd.
      { apply (f_equal length) in Hd. rw length_drop /= in Hd. lia. }
      rw insert_app_len. assert (tl = drop (S (length v)) varval) as ->
        by (by rw -(Nat.add_1_r (length v)) -drop_drop Hd).
      rw (proj2 (Z.ltb_ge kk 0)) //. by destruct (varlen <? _).
    + rw decide_False; [rw length_app length_drop; lia|]. done.
  - destruct H as [Hkk ->]. cbn [ret]. rw {1}/bind /buf_store (k_set_buf_same _ _ Hb).
    destruct varval as [|x varval]; [done|].
    destruct (decide (0 < length (x :: varval))%nat) as [_|Hno]; [|simpl in Hno; lia].
    destruct (decide (x :: varval = [])); [done|]. cbn [ret insert list_insert drop]. rw (proj2 (Z.ltb_lt kk 0)) //.
    change (Z.of_nat 0) with 0. by destruct (varlen <? 0).
Qed.

Lemma wmt_getsyspara_behaviour_witness :
  wmt_getsyspara 40 60 (bytes "wmt.x") [7; 7] 2 demo_kst = Err OutOfBounds.
Proof.
  apply (wmt_getsyspara_behaviour 40 60 (bytes "wmt.x") [7; 7] 2 demo_kst demo_hdr demo_kes
           demo_kdata demo_cached).
  - by apply (bool_decide_unpack _).
  - vm_compute. lia.
  - vm_compute. lia.
Defined.

(** ** Writing back *)

Lemma erase_all d : erase_range 0 (length d) d = replicate (length d) 0xFF.
Proof.
  apply list_eq. intros i. rw /erase_range list_lookup_imap.
  destruct (decide (i < length d)%nat) as [Hlt|Hge].
  - destruct (lookup_lt_is_Some_2 d i Hlt) as [x ->]. simpl. rw decide_True; [lia|].
    by rw lookup_replicate_2.
  - rw lookup_ge_None_2; [lia|]. simpl. symmetry. apply lookup_replicate_None. lia.
Qed.

Lemma program_blank b : Forall is_byte b → program 0 b (replicate (length b) 0xFF) = b.
Proof.
  intros Hb. apply list_eq. intros i. rw /program list_lookup_imap.
  destruct (decide (i < length b)%nat) as [Hlt|Hge].
  - destruct (lookup_lt_is_Some_2 b i Hlt) as [x Hx]. rw lookup_replicate_2 // /=.
    rw Nat.sub_0_r Hx. f_equal. apply land_ff. by eapply Forall_lookup_1.
  - rw (lookup_ge_None_2 b i); [lia|]. rw (proj1 (lookup_replicate_None _ _ _)) //. lia.
Qed.

Lemma program_flag s : program 4 [0] s = with_flag s OBSOLETE_FLAG.
Proof.
  apply list_eq. intros i. rw /program /with_flag list_lookup_imap.
  destruct (decide (i = 4)%nat) as [->|Hne].
  - rw list_lookup_alter. destruct (s !! 4%nat); done.
  - rw list_lookup_alter_ne //. destruct (s !! i) as [x|] eqn:Hx; simpl; [|done]. f_equal.
    destruct (decide (4 ≤ i)%nat); [|done].
    destruct (i - 4)%nat as [|j] eqn:Hj; [lia|done].
Qed.

Section update.
Context {mach : Machine} (SZ : nat).
Hypothesis Hnofail : ∀ j, dev_fails j = None.

(** Everything but the devices. *)
Definition k_same (k k' : kst) : Prop :=
  k_buf k' = k_buf k ∧ k_valid k' = k_valid k ∧ k_invalid k' = k_invalid k ∧
  k_nand_block k' = k_nand_block k ∧ k_valid_offs k' = k_valid_offs k ∧
  k_invalid_offs k' = k_invalid_offs k.

Lemma wp_mtd_at i m k (Q : option mtd → kst → Prop) :
  k_mtd k !! i = Some m → Q m k → wp (mtd_at i) Q k.
Proof. intros Hm HQ. rw /mtd_at. apply wp_bind, wp_get. by rw Hm. Qed.

Lemma wp_mtd_deref i m k (Q : mtd → kst → Prop) :
  k_mtd k !! i = Some (Some m) → Q m k → wp (mtd_deref i) Q k.
Proof. intros Hm HQ. rw /mtd_deref. apply wp_bind. eapply wp_mtd_at; [done|]. done. Qed.

Lemma wp_mtd_erase i addr len m k (Q : Z → kst → Prop) :
  k_mtd k !! i = Some (Some m) →
  (∀ k', k_same k k' →
     k_mtd k' = <[i := Some (set_mdata m (erase_range addr len (m_data m)))]> (k_mtd k) → Q 0 k') →
  wp (mtd_erase i addr len) Q k.
Proof.
  intros Hm HQ. rw /mtd_erase /next_dev_call. apply wp_bind. eapply wp_mtd_deref; [done|].
  wp_steps. rw Hnofail. rw /mtd_update. wp_steps. apply HQ; [done|].
  rw resize_all_alt //. by rw length_imap.
Qed.

Lemma wp_mtd_write i off bs m k (Q : Z → kst → Prop) :
  k_mtd k !! i = Some (Some m) →
  (∀ k', k_same k k' →
     k_mtd k' = <[i := Some (set_mdata m (program off bs (m_data m)))]> (k_mtd k) → Q 0 k') →
  wp (mtd_write i off bs) Q k.
Proof.
  intros Hm HQ. rw /mtd_write /next_dev_call. apply wp_bind. eapply wp_mtd_deref; [done|].
  wp_steps. rw Hnofail. rw /mtd_update. wp_steps. apply HQ; [done|].
  rw resize_all_alt //. by rw length_imap.
Qed.

(** [env_update] on serial flash with MTD up: the RAM copy with a fresh CRC is in
    the other device, the old copy is marked obsolete, the two change places. *)
Definition updated_mtd (k : kst) (mv mi : mtd) (b : list Z) : list (option mtd) :=
  <[k_valid k := Some (set_mdata mv (with_flag (m_data mv) OBSOLETE_FLAG))]>
    (<[k_invalid k := Some (set_mdata mi b)]> (k_mtd k)).

Lemma wp_env_update n k b mv mi (Q : Z → kst → Prop) :
  bootflash ≠ NAND_FLASH_TYPE → k_buf k = Some b → length b = SZ → (5 ≤ SZ)%nat →
  Forall is_byte b →
  k_mtd k !! k_valid k = Some (Some mv) → k_mtd k !! k_invalid k = Some (Some mi) →
  k_valid k ≠ k_invalid k → length (m_data mi) = SZ → m_size mi = SZ →
  (∀ k' b', b' = le32 (crc32 0 (s_data b)) ++ drop 4 b → k_buf k' = Some b' →
     k_mtd k' = updated_mtd k mv mi b' → k_valid k' = k_invalid k → k_invalid k' = k_valid k →
     Q 0 k') →
  wp (env_update SZ n) Q k.
Proof.
  intros Hboot Hb Hlen HSZ Hbytes Hv Hi Hne Hlmi Hsmi HQ. rw /env_update.
  assert (data_off = 5%nat) as Hoff by (rw data_off_bootflash; by destruct (decide _)).
  set (b' := le32 (crc32 0 (s_data b)) ++ drop 4 b).
  assert (length b' = SZ) as Hlen' by (rw /b' length_app length_drop /=; lia).
  assert (Forall is_byte b') as Hbytes'.
  { apply Forall_app. split; [apply le32_bytes|by apply Forall_drop]. }
  apply wp_bind. eapply wp_on_buf; [done|]. apply wp_bind. rw /env_crc32. wp_steps.
  rw Hoff. replace (take (SZ - 5) (drop 5 b)) with (s_data b)
    by (rw take_ge ?length_drop //; lia).
  change (Z.lxor (crc_loop sf_crc_table (Z.lxor 0 4294967295) (s_data b)) 4294967295)
    with (crc32 0 (s_data b)).
  fold b'. apply wp_bind, wp_get. apply wp_bind. eapply wp_mtd_at; [exact Hi|].
  rw decide_False //. apply wp_bind. eapply wp_on_buf; [done|]. apply wp_get.
  change (le32 (crc32 0 (s_data b)) ++ drop 4 b) with b'. rw take_ge; [lia|].
  apply wp_bind. eapply wp_mtd_erase; [exact Hi|]. intros k2 S2 M2. cbn [negb Z.eqb].
  apply wp_bind. eapply wp_mtd_write.
  { rw M2 list_lookup_insert_eq //. by eapply lookup_lt_Some. }
  intros k3 S3 M3. cbn [negb Z.eqb].
  cbn [k_invalid k_valid k_set_buf] in M2, M3 |- *.
  apply wp_bind. eapply (wp_mtd_write _ _ _ mv).
  { by rw M3 list_lookup_insert_ne // M2 list_lookup_insert_ne. }
  intros k4 S4 M4. cbn [negb Z.eqb].
  rw /env_swap. wp_steps. destruct S2 as (B2 & V2 & I2 & _), S3 as (B3 & V3 & I3 & _),
    S4 as (B4 & V4 & I4 & _). apply (HQ _ b'); [done| | |cbn in *; congruence|cbn in *; congruence].
  - cbn. by rw B4 B3 B2.
  - cbn. rw M4 M3 M2 list_insert_insert_eq /updated_mtd program_flag. cbn [set_mdata m_data].
    do 3 f_equal. rw /set_mdata Hsmi -Hlmi erase_all Hlmi -Hlen' program_blank //.
Qed.

End update.

(** ** [wmt_setsyspara] *)

(** The end of [wmt_setsyspara] for a value that is not empty. *)
Definition setsyspara_finish {mach : Machine} (SZ n : nat) (name v : list Z) (early : option Z)
    : M kst Z :=
  match early with
  | Some rc => ret rc
  | None =>
      let! a := on_buf (at_offset data_off (setsyspara_append SZ n name v)) in
      match a with
      | None => ret 1
      | Some _ => let! r := env_update SZ n in ret (if r =? 0 then 0 else 1)
      end
  end.

Lemma wmt_setsyspara_value {mach : Machine} SZ n name v :
  v ≠ [] →
  wmt_setsyspara SZ n name (Some v) =
  (let! r := env_ensure SZ n in
   match r with
   | Some rc => ret rc
   | None =>
       let! (env, nxt, oldval) := on_buf (at_offset data_off (env_search n name)) in
       let! early := (if 0 <=? oldval then setsyspara_delete n name (Some v) env nxt
                      else ret None) in
       setsyspara_finish SZ n name v early
   end).
Proof. by destruct v. Qed.

Section set.
Context {mach : Machine} (SZ n : nat) (name v : list Z).
Context (k : kst) (hdr : list Z) (es : list entry) (data : list Z).
Hypothesis Hcached : k_cached k hdr es data.
Hypothesis Hname : name_ok name.
Hypothesis Hn : (length name < n)%nat.
Hypothesis Hn' : (length data < n)%nat.
(** A baud rate, when there is one to replace, is one of the supported ones. *)
Hypothesis Hbaud : name = bytes "baudrate" →
  existsb (Z.eqb (u32 (s32 (kernel_strtoul v 10)))) kernel_baudrate_table = true.

(** Search and deletion: the continuation gets the block without the name. *)
Lemma wp_setsyspara_prepare {B} (K : Z → option Z → M kst B) (Q : B → kst → Prop) :
  Forall is_byte data →
  (∀ oldval data1, env_repr (env_remove name es) data1 → length data1 = length data →
     Forall is_byte data1 → wp (K oldval None) Q (k_set_buf k (Some (hdr ++ data1)))) →
  wp (let! (env, nxt, oldval) := on_buf (at_offset data_off (env_search n name)) in
      let! early := (if 0 <=? oldval then setsyspara_delete n name (Some v) env nxt
                     else ret None) in
      K oldval early) Q k.
Proof.
  destruct Hcached as (Hb & Hh & Hwf & Hrepr). intros Hby HQ.
  apply wp_bind. eapply wp_on_data; [done..|]. eapply wp_search; [done..|]. intros r Hr.
  destruct Hr as [(es1 & e & es2 & Hes & Hnot & Hen & ->)|[Hnot Hr]].
  - cbv beta iota. rw (proj2 (Z.leb_le _ _)); [lia|]. apply wp_bind. rw /setsyspara_delete.
    apply wp_bind.
    match goal with |- wp ?m ?K' ?s => assert (wp m (λ r s', r = None ∧ s' = s) s) as Hearly end.
    { destruct (str_eq name (bytes "baudrate")) eqn:E; [|by apply wp_ret].
      apply bool_decide_eq_true in E. cbn [deref_ptr]. apply wp_bind, wp_ret. rw Hbaud //. }
    eapply wp_mono; [exact Hearly|]. intros r s' [-> ->]. clear Hearly.
    apply wp_bind. eapply wp_on_data; [done|done|].
    eapply wp_mono; [eapply (wp_keeps (Forall is_byte) _ (λ _, True) (λ _ d', env_repr (es1 ++ es2) d' ∧
      length d' = length data)); [by apply env_delete_keeps|done|]|].
    + rw Hes in Hrepr. eapply wp_delete; [|done|done|done].
      rw Hes in Hwf. apply Hwf.
    + intros [] d' [[Hr' Hl'] [Hby' _]]. apply wp_ret. apply HQ; [|done|done].
      by rw Hes env_remove_split.
  - destruct r as [[env nxt] oldval]. simpl in Hr. subst oldval.
    apply wp_bind, wp_ret. apply HQ; [|done|done]. by rw env_remove_notin.
Qed.

Let D := length data.

(** The write that overruns: the test lets it through, the data has no room. *)
Lemma wmt_setsyspara_window :
  v ≠ [] → NUL ∉ v → Forall is_byte data →
  guard_passes SZ name v (env_remove name es) → ¬ env_fits D name v (env_remove name es) →
  wmt_setsyspara SZ n name (Some v) k = Err OutOfBounds.
Proof.
  intros Hv0 Hv Hby Hg Hfit. destruct (Hcached) as (Hb & Hh & Hwf & Hrepr).
  assert (wp (let! (env, nxt, oldval) := on_buf (at_offset data_off (env_search n name)) in
      let! early := (if 0 <=? oldval then setsyspara_delete n name (Some v) env nxt
                     else ret None) in
      (λ s, Ok (setsyspara_finish SZ n name v early s, s))) (λ r _, r = Err OutOfBounds) k) as Hw.
  { eapply (wp_setsyspara_prepare (λ _ early s, Ok (setsyspara_finish SZ n name v early s, s)));
      [done|]. intros oldval data1 Hr1 Hl1 Hby1.
    rw /wp /setsyspara_finish {1}/bind (on_data_run _ _ hdr data1) //.
    rw (append_oob SZ n name v (env_remove name es)) //; [by apply env_remove_wf|lia|apply Hname|].
    by rw Hl1. }
  rw wmt_setsyspara_value // (bind_ok _ _ _ _ _ (env_ensure_cached _ _ _ _ Hb)).
  apply wp_ok in Hw as (r & s' & Hrun & ->).
  destruct (on_buf (at_offset data_off (env_search n name)) k)
    as [[[[env nxt] oldval] k1]|f] eqn:E1; [|by rw (bind_err _ _ _ _ E1) in Hrun].
  rw (bind_ok _ _ _ _ _ E1) in Hrun. rw (bind_ok _ _ _ _ _ E1). cbv beta iota in Hrun |- *.
  destruct ((if 0 <=? oldval then setsyspara_delete n name (Some v) env nxt else ret None) k1)
    as [[early k2]|f] eqn:E2; [|by rw (bind_err _ _ _ _ E2) in Hrun].
  rw (bind_ok _ _ _ _ _ E2) in Hrun. rw (bind_ok _ _ _ _ _ E2).
  injection Hrun as Hrun _. exact Hrun.
Qed.

(** The copy written back, when the definition fits. *)
Lemma wp_setsyspara_fits mv mi (Q : Z → kst → Prop) :
  (∀ j, dev_fails j = None) → bootflash ≠ NAND_FLASH_TYPE →
  length (hdr ++ data) = SZ → Forall is_byte (hdr ++ data) → Forall is_byte name →
  v ≠ [] → NUL ∉ v → Forall is_byte v →
  k_mtd k !! k_valid k = Some (Some mv) → k_mtd k !! k_invalid k = Some (Some mi) →
  k_valid k ≠ k_invalid k → length (m_data mi) = SZ → m_size mi = SZ →
  env_fits D name v (env_remove name es) →
  (∀ k' hdr' data', k_cached k' hdr' (env_set name v es) data' →
     length (hdr' ++ data') = SZ → crc_ok (hdr' ++ data') = true →
     s_flags (hdr' ++ data') = s_flags (hdr ++ data) →
     k_mtd k' = updated_mtd k mv mi (hdr' ++ data') →
     k_valid k' = k_invalid k → k_invalid k' = k_valid k → Q 0 k') →
  wp (wmt_setsyspara SZ n name (Some v)) Q k.
Proof.
  intros Hnf Hboot Hlen Hby Hbn Hv0 Hv Hbv Hmv Hmi Hne Hlmi Hsmi Hfit HQ.
  destruct (Hcached) as (Hb & Hh & Hwf & Hrepr).
  assert (data_off = 5%nat) as Hoff by (rw data_off_bootflash; by destruct (decide _)).
  apply Forall_app in Hby as [Hbyh Hbyd].
  rw wmt_setsyspara_value //. apply wp_bind. eapply wp_of_run; [by eapply env_ensure_cached|].
  eapply (wp_setsyspara_prepare (λ _, setsyspara_finish SZ n name v)); [done|].
  intros oldval data1 Hr1 Hl1 Hby1.
  apply wp_bind. eapply wp_on_data; [done|done|].
  assert (guard_passes SZ name v (env_remove name es)) as Hg.
  { rw /guard_passes. rw /env_fits /D /mk_entry length_app length_cons in Hfit.
    rw length_app in Hlen. lia. }
  eapply (wp_append_fits SZ n name v (env_remove name es)); [by apply env_remove_wf|done|lia|
    apply Hname|done|done|by rw Hl1|].
  intros data2 Hr2 Hl2 Hby2. cbn [k_set_buf].
  assert (length hdr = 5%nat) as Hh5 by congruence.
  apply wp_bind. eapply (wp_env_update SZ Hnf n _ (hdr ++ data2) mv mi).
  - done.
  - done.
  - rw length_app Hl2 Hl1 -length_app //.
  - rw -Hlen length_app. lia.
  - apply Forall_app. split; [done|]. apply Hby2; done.
  - done.
  - done.
  - done.
  - done.
  - done.
  - intros k' b' Hb'eq Hb' Hm' Hv' Hi'. apply wp_ret.
    destruct hdr as [|h0 [|h1 [|h2 [|h3 [|h4 [|??]]]]]]; try done.
    assert (b' = (le32 (crc32 0 data2) ++ [h4]) ++ data2) as Hsplit by (by rw Hb'eq).
    rw Hsplit in Hb' Hm'. apply (HQ k' (le32 (crc32 0 data2) ++ [h4]) data2); try done.
    + split_and!; [done|by rw Hoff|by apply env_set_wf; [|apply Hname|]|done].
    + rw length_app Hl2 Hl1. rw length_app in Hlen. done.
    + rw /crc_ok. change (s_data _) with data2. rw /s_crc -app_assoc of_le32_le32;
        [apply crc32_word|]. by rw Z.eqb_refl.
Qed.

End set.

(** The kernel is ready to change the environment: the RAM copy holds [es], the
    valid copy is the device [mv] and the other one [mi], both of the size of
    the block; the machine boots from serial flash and reports no error. *)
Record k_ready {mach : Machine} (SZ : nat) (k : kst) (hdr : list Z) (es : list entry)
    (data : list Z) (mv mi : mtd) : Prop := {
  kr_nofail : ∀ j, dev_fails j = None;
  kr_boot : bootflash ≠ NAND_FLASH_TYPE;
  kr_cached : k_cached k hdr es data;
  kr_length : length (hdr ++ data) = SZ;
  kr_bytes : Forall is_byte (hdr ++ data);
  kr_valid : k_mtd k !! k_valid k = Some (Some mv);
  kr_invalid : k_mtd k !! k_invalid k = Some (Some mi);
  kr_distinct : k_valid k ≠ k_invalid k;
  kr_mv : length (m_data mv) = SZ;
  kr_mi : length (m_data mi) = SZ ∧ m_size mi = SZ
}.

(** A value that can be set: not empty, bytes without a NUL, and for baudrate a
    supported rate. *)
Definition value_ok (name v : list Z) : Prop :=
  v ≠ [] ∧ NUL ∉ v ∧ Forall is_byte v ∧
  (name = bytes "baudrate" →
   existsb (Z.eqb (u32 (s32 (kernel_strtoul v 10)))) kernel_baudrate_table = true).

Lemma updated_lookup {mach : Machine} SZ k hdr es data mv mi b :
  k_ready SZ k hdr es data mv mi →
  updated_mtd k mv mi b !! k_invalid k = Some (Some (set_mdata mi b)) ∧
  updated_mtd k mv mi b !! k_valid k =
    Some (Some (set_mdata mv (with_flag (m_data mv) OBSOLETE_FLAG))).
Proof.
  intros [??????? Hne ??]. rw /updated_mtd. split.
  - rw list_lookup_insert_ne // list_lookup_insert_eq //. by eapply lookup_lt_Some.
  - rw list_lookup_insert_eq // length_insert. by eapply lookup_lt_Some.
Qed.

Lemma demo_ready : k_ready 40 demo_kst demo_hdr demo_kes demo_kdata (demo_mtd 3) (demo_mtd 4).
Proof.
  constructor; try done; [apply demo_cached|].
  apply (bool_decide_unpack _). by vm_compute.
Qed.

(** C6: [wmt_setsyspara] of a definition that fits returns 0; the RAM copy then
    holds the other strings in their order and the new one last, well-formed;
    the same bytes, with a correct CRC and the old flag byte, are in the device
    that was the spare one, the old copy keeps its data and is marked obsolete,
    and the two devices have changed places. *)
Theorem wmt_setsyspara_correct {mach : Machine} SZ n name v k hdr es data mv mi :
  k_ready SZ k hdr es data mv mi → name_ok name → Forall is_byte name → value_ok name v →
  (length name < n)%nat → (length data < n)%nat →
  env_fits (length data) name v (env_remove name es) →
  wp (wmt_setsyspara SZ n name (Some v)) (λ rc k', rc = 0 ∧
    ∃ hdr' data', let b := hdr' ++ data' in
      k_cached k' hdr' (env_set name v es) data' ∧
      length b = SZ ∧ crc_ok b = true ∧ s_flags b = s_flags (hdr ++ data) ∧
      k_valid k' = k_invalid k ∧ k_invalid k' = k_valid k ∧
      k_mtd k' !! k_valid k' = Some (Some (set_mdata mi b)) ∧
      k_mtd k' !! k_invalid k' =
        Some (Some (set_mdata mv (with_flag (m_data mv) OBSOLETE_FLAG)))) k.
Proof.
  intros Hr Hname Hbn (Hv0 & Hv & Hbv & Hbaud) Hn Hn' Hfit. pose proof Hr as Hr'.
  destruct Hr as [Hnf Hboot Hc Hl Hby Hmv Hmi Hne Hlmv [Hlmi Hsmi]].
  eapply (wp_setsyspara_fits SZ n name v k hdr es data); [done..|].
  intros k' hdr' data' Hc' Hl' Hok Hfl Hm Hv' Hi'. split; [done|]. exists hdr', data'.
  destruct (updated_lookup _ _ _ _ _ _ _ (hdr' ++ data') Hr') as [H1 H2].
  split_and!; [done..| |]; rw Hm ?Hv' ?Hi'; done.
Qed.

Lemma wmt_setsyspara_correct_witness :
  wp (wmt_setsyspara 40 60 (bytes "a") (Some (bytes "77"))) (λ rc k', rc = 0 ∧
    ∃ hdr' data', let b := hdr' ++ data' in
      k_cached k' hdr' [bytes "wmt.x=22"; bytes "a=77"] data' ∧
      length b = 40%nat ∧ crc_ok b = true ∧ s_flags b = 1 ∧
      k_valid k' = 4%nat ∧ k_invalid k' = 3%nat ∧
      k_mtd k' !! k_valid k' = Some (Some (set_mdata (demo_mtd 4) b)) ∧
      k_mtd k' !! k_invalid k' =
        Some (Some (set_mdata (demo_mtd 3) (with_flag (m_data (demo_mtd 3)) OBSOLETE_FLAG))))
    demo_kst.
Proof.
  apply (wmt_setsyspara_correct 40 60 (bytes "a") (bytes "77") demo_kst demo_hdr demo_kes
           demo_kdata (demo_mtd 3) (demo_mtd 4) demo_ready).
  - by apply (bool_decide_unpack _).
  - by apply (bool_decide_unpack _).
  - split_and!; [done|by apply (bool_decide_unpack _)|by apply (bool_decide_unpack _)|done].
  - vm_compute. lia.
  - vm_compute. lia.
  - by apply (bool_decide_unpack _).
Defined.

(** C37: [wmt_setsyspara] overruns its buffer: its overflow test compares with the
    size of the whole block instead of its data and leaves one byte out of the
    count, so every definition in the window between the two (up to six bytes)
    is written past the end of the buffer. *)
Theorem wmt_setsyspara_overrun {mach : Machine} SZ n name v k hdr es data mv mi :
  k_ready SZ k hdr es data mv mi → name_ok name → value_ok name v →
  (length name < n)%nat → (length data < n)%nat →
  let room := (length data - length (enc (env_remove name es)))%nat in
  let need := (length (mk_entry name v) + 2)%nat in
  (room < need ≤ room + 6)%nat →
  wmt_setsyspara SZ n name (Some v) k = Err OutOfBounds.
Proof.
  intros Hr Hname (Hv0 & Hv & Hbv & Hbaud) Hn Hn' room need Hwin.
  destruct Hr as [Hnf Hboot Hc Hl Hby Hmv Hmi Hne Hlmv [Hlmi Hsmi]].
  pose proof Hby as [_ Hbyd]%Forall_app. destruct (Hc) as (_ & Hh & Hwf & Hrepr).
  assert (length hdr = 5%nat) as Hh5.
  { rw Hh data_off_bootflash. by destruct (decide _). }
  assert (length (enc (env_remove name es)) ≤ length data)%nat as Hle.
  { destruct Hrepr as (rest & -> & _). clear. rw (length_app (enc es)).
    induction es as [|e es IH]; [simpl; lia|]. simpl. destruct (decide _); rw !enc_cons.
    - rw (length_app e) /=. lia.
    - rw (length_app e) (length_app e) /=. simpl in IH. lia. }
  rw /room /need /mk_entry length_app length_cons in Hwin.
  apply (wmt_setsyspara_window SZ n name v k hdr es data); try done.
  - rw /guard_passes. rw length_app in Hl. lia.
  - rw /env_fits /mk_entry length_app length_cons. lia.
Qed.

Lemma wmt_setsyspara_overrun_witness :
  wmt_setsyspara 40 60 (bytes "bb") (Some (bytes "0123456789012345678901")) demo_kst =
  Err OutOfBounds.
Proof.
  apply (wmt_setsyspara_overrun 40 60 _ _ demo_kst demo_hdr demo_kes demo_kdata (demo_mtd 3)
           (demo_mtd 4) demo_ready).
  - by apply (bool_decide_unpack _).
  - split_and!; [done|by apply (bool_decide_unpack _)|by apply (bool_decide_unpack _)|done].
  - vm_compute. lia.
  - vm_compute. lia.
  - vm_compute. lia.
Defined.

(** C11: U-Boot reads what the kernel wrote.  After a [wmt_setsyspara] that fits,
    U-Boot's [env_init], on a flash whose two sectors are the two devices in
    either order, takes the kernel's new environment; when the kernel had read
    an active copy it does so without a warning. *)
Theorem uboot_reads_setsyspara {mach : Machine} SZ n name v k hdr es data mv mi :
  k_ready SZ k hdr es data mv mi → name_ok name → Forall is_byte name → value_ok name v →
  (length name < n)%nat → (length data < n)%nat →
  env_fits (length data) name v (env_remove name es) → s_flags (hdr ++ data) = ACTIVE_FLAG →
  wp (wmt_setsyspara SZ n name (Some v)) (λ rc k',
    ∀ f s mnew mold, k_mtd k' !! k_valid k' = Some (Some mnew) →
      k_mtd k' !! k_invalid k' = Some (Some mold) →
      fl_get f s = m_data mnew → fl_get f (other s) = m_data mold →
      env_choice f = Some (LocSect s, 1) ∧
      env_repr (env_set name v es) (s_data (fl_get f s))) k.
Proof.
  intros Hr Hname Hbn (Hv0 & Hv & Hbv & Hbaud) Hn Hn' Hfit Hact. pose proof Hr as Hr'.
  destruct Hr as [Hnf Hboot Hc Hl Hby Hmv Hmi Hne Hlmv [Hlmi Hsmi]].
  eapply (wp_setsyspara_fits SZ n name v k hdr es data); [done..|].
  intros k' hdr' data' (Hb' & Hh' & Hwf' & Hrepr') Hl' Hok Hfl Hm Hv' Hi' f s mnew mold.
  destruct (updated_lookup _ _ _ _ _ _ _ (hdr' ++ data') Hr') as [H1 H2].
  rw Hm Hv' Hi' H1 H2. intros [= <-] [= <-] Hs Ho. cbn [m_data set_mdata] in Hs, Ho.
  assert (length hdr' = 5%nat) as Hh5.
  { rw Hh' data_off_bootflash. by destruct (decide _). }
  assert (5 ≤ length (m_data mv))%nat as Hl5 by (rw Hlmv -Hl' length_app Hh5; lia).
  destruct (with_flag_spec (m_data mv) OBSOLETE_FLAG Hl5) as (_ & _ & HfA & _).
  assert (s_data (hdr' ++ data') = data') as Hd by (by rw /s_data /ENV_HEADER_SIZE -Hh5 drop_app_length).
  split; [|by rw Hs Hd].
  destruct (crc_ok (fl_get f (other s))) eqn:HokA.
  - pose proof (choice_active f (other s)) as Hca. rw other_other in Hca. apply Hca.
    + done.
    + by rw Hs.
    + by rw Ho HfA Z.land_0_r.
    + by rw Hs Hfl Hact.
  - apply choice_single; [by rw Hs|done].
Qed.

Lemma uboot_reads_setsyspara_witness :
  wp (wmt_setsyspara 40 60 (bytes "a") (Some (bytes "77"))) (λ rc k',
    ∀ f s mnew mold, k_mtd k' !! k_valid k' = Some (Some mnew) →
      k_mtd k' !! k_invalid k' = Some (Some mold) →
      fl_get f s = m_data mnew → fl_get f (other s) = m_data mold →
      env_choice f = Some (LocSect s, 1) ∧
      env_repr [bytes "wmt.x=22"; bytes "a=77"] (s_data (fl_get f s))) demo_kst.
Proof.
  apply (uboot_reads_setsyspara 40 60 (bytes "a") (bytes "77") demo_kst demo_hdr demo_kes
           demo_kdata (demo_mtd 3) (demo_mtd 4) demo_ready).
  - by apply (bool_decide_unpack _).
  - by apply (bool_decide_unpack _).
  - split_and!; [done|by apply (bool_decide_unpack _)|by apply (bool_decide_unpack _)|done].
  - vm_compute. lia.
  - vm_compute. lia.
  - by apply (bool_decide_unpack _).
  - done.
Defined.

(** ** [env_init] on serial flash *)

Section init.
Context {mach : Machine} (SZ n : nat).
Hypothesis Hboot : bootflash = SPI_FLASH_TYPE.

(** Before MTD is up the partitions come from the static table. *)
Definition early_parts : parts := Parts 3 4 (Some 0x00FD0000) (Some 0x00FE0000) 2.

Lemma find_parts_early k :
  k_mtd k = replicate MAX_MTD_DEVICES None → env_find_parts k = Ok (early_parts, k).
Proof.
  destruct k. simpl. intros ->. rw /env_find_parts /env_find_parts_step Hboot. by vm_compute.
Qed.

(** What a copy read from the serial flash leads to. *)
Lemma init_sf_one_early k i off :
  k_mtd k = replicate MAX_MTD_DEVICES None → ioremap_ok = true → (i < 2)%nat →
  (if decide (i = 0%nat) then p_off1 early_parts else p_off2 early_parts) = Some off →
  let s := sf_read_bytes (k_sf k) off SZ in
  env_init_sf_one SZ early_parts i k =
  if s_flags s =? 1 then
    if crc_ok s then
      Ok (Some 0, k_set_offs (k_set_ids (k_set_buf k (Some s)) (3 + i) (4 - i)) off
                    (if decide (i = 0%nat) then 0x00FE0000 else 0x00FD0000))
    else Err NullDeref
  else Ok (None, k_set_buf k (Some s)).
Proof.
  intros Hm Hio Hi Hoff s.
  assert (data_off = 5%nat) as Hd by (rw data_off_bootflash Hboot; by destruct (decide _)).
  assert (length s = SZ) as Hl by (by rw /s length_map length_seq).
  assert (∀ k', k_buf k' = Some s → on_buf (env_crc32 SZ) k' = Ok (crc32 0 (s_data s), k')) as Hcrc.
  { intros k' Hb. rw /on_buf Hb /env_crc32 /bind /= Hd k_set_buf_same //.
    assert (take (SZ - 5) (drop 5 s) = s_data s) as -> by (apply take_ge; by rw length_drop Hl).
    done. }
  assert (k_mtd k !! (3 + i)%nat = Some None) as Hnone.
  { rw Hm. apply lookup_replicate_2. rw /MAX_MTD_DEVICES. lia. }
  assert (∀ k', k_buf k' = Some s → on_buf (let! b := get in ret (buf_flags b)) k' = Ok (s_flags s, k'))
    as Hfl by (intros k' Hb; by rw /on_buf Hb /= k_set_buf_same).
  assert (∀ k', k_buf k' = Some s → on_buf (let! b := get in ret (buf_crc b)) k' = Ok (s_crc s, k'))
    as Hcr by (intros k' Hb; by rw /on_buf Hb /= k_set_buf_same).
  assert (∀ k', k_mtd k' = k_mtd k → mtd_at (3 + i) k' = Ok (None, k')) as Hat
    by (intros k' Hk'; by rw /mtd_at /bind /= Hk' Hnone).
  set (k1 := k_set_buf k (Some s)).
  assert (∀ (m : M kst (option Z)), bind (mtd_read_buf SZ (3 + i) 0) (λ r, if negb (r =? 0) then
            ret (Some 1) else m) k1 = Err NullDeref) as Hnull.
  { intros m. apply bind_err. rw /mtd_read_buf. apply bind_err. rw /mtd_deref.
    by rw (bind_ok _ _ _ _ _ (Hat k1 eq_refl)). }
  rw /env_init_sf_one.
  replace (if decide (i = 0%nat) then p_env1 early_parts else p_env2 early_parts)
    with (3 + i)%nat by (by destruct i as [|[|i]]; [| |lia]).
  cbv zeta. rw (bind_ok _ _ _ _ _ (Hat k eq_refl)).
  rw decide_True; [split; [done|]; rw /ENV_INVALID; lia|]. rw Hio Hoff. cbn [negb].
  rw (bind_ok (modify _) _ _ tt k1) // (bind_ok _ _ _ _ _ (Hfl k1 eq_refl)).
  destruct (s_flags s =? 1); [|done].
  rw (bind_ok _ _ _ _ _ (Hcr k1 eq_refl)) (bind_ok _ _ _ _ _ (Hcrc k1 eq_refl)).
  rw /crc_ok (Z.eqb_sym (crc32 0 (s_data s))). destruct (s_crc s =? crc32 0 (s_data s)); [|apply Hnull].
  by destruct i as [|[|i]]; [| |lia].
Qed.

(** [env_init] before MTD is up, from the two sectors. *)
Lemma env_init_early k f :
  k_mtd k = replicate MAX_MTD_DEVICES None → ioremap_ok = true →
  sf_read_bytes (k_sf k) 0x00FD0000 SZ = sec1 f → sf_read_bytes (k_sf k) 0x00FE0000 SZ = sec2 f →
  env_init SZ n k =
  if s_flags (sec1 f) =? 1 then
    if crc_ok (sec1 f)
    then Ok (0, k_set_offs (k_set_ids (k_set_buf k (Some (sec1 f))) 3 4) 0x00FD0000 0x00FE0000)
    else Err NullDeref
  else if s_flags (sec2 f) =? 1 then
    if crc_ok (sec2 f)
    then Ok (0, k_set_offs (k_set_ids (k_set_buf k (Some (sec2 f))) 4 3) 0x00FE0000 0x00FD0000)
    else Err NullDeref
  else Ok (1, k_set_buf k (Some (sec2 f))).
Proof.
  intros Hm Hio H1 H2. rw /env_init (bind_ok _ _ _ _ _ (find_parts_early k Hm)).
  rw decide_False; [by rw Hboot|].
  assert (mtd_at (p_env1 early_parts) k = Ok (None, k)) as Hat by (by rw /mtd_at /bind /= Hm).
  rw (bind_ok _ _ _ _ _ Hat).
  pose proof (init_sf_one_early k 0 0x00FD0000 Hm Hio ltac:(lia) eq_refl) as E1. rw H1 in E1.
  cbv zeta in E1.
  destruct (s_flags (sec1 f) =? 1).
  { destruct (crc_ok (sec1 f)); [by rw (bind_ok _ _ _ _ _ E1)|by rw (bind_err _ _ _ _ E1)]. }
  rw (bind_ok _ _ _ _ _ E1). set (k1 := k_set_buf k (Some (sec1 f))).
  pose proof (init_sf_one_early k1 1 0x00FE0000 Hm Hio ltac:(lia) eq_refl) as E2.
  change (k_sf k1) with (k_sf k) in E2. rw H2 in E2.
  cbv zeta in E2. destruct (s_flags (sec2 f) =? 1).
  { destruct (crc_ok (sec2 f)); [by rw (bind_ok _ _ _ _ _ E2)|by rw (bind_err _ _ _ _ E2)]. }
  by rw (bind_ok _ _ _ _ _ E2).
Qed.

End init.

(** A serial flash with the two sectors of [f] in place. *)
Definition sf_of (f : flash) : Z → Z := λ a,
  if a <? 0x00FE0000 then nth (Z.to_nat (a - 0x00FD0000)) (sec1 f) 0
  else nth (Z.to_nat (a - 0x00FE0000)) (sec2 f) 0.
Definition fresh_kst (f : flash) : kst :=
  Kst (Some (replicate 10 0)) ENV_INVALID ENV_INVALID 0 0 0 (replicate MAX_MTD_DEVICES None)
    (sf_of f) 0.

(** C12: the kernel reads what U-Boot saved, at the start of the kernel.  On a flash
    layer without errors U-Boot's [saveenv] of a RAM copy that carries its CRC returns
    0, and then the kernel's [env_init], called before MTD is up with the two sectors
    in its serial flash window, returns 0 with exactly that copy in its buffer,
    whichever of the two sectors it is in, and knows which sector is the spare one.
    (Once MTD is up see [env_init_partition_overrun].) *)
Theorem kernel_reads_saveenv {mach : Machine} `{!FlashDev} SZ n st :
  bootflash = SPI_FLASH_TYPE → ioremap_ok = true →
  FlashDevOk _ → sizes_ok SZ st → e_crc (fs_ram st) = crc32 0 (e_data (fs_ram st)) →
  wp saveenv (λ rc st', rc = 0 ∧
    ∀ k, k_mtd k = replicate MAX_MTD_DEVICES None →
    sf_read_bytes (k_sf k) 0x00FD0000 (ENV_HEADER_SIZE + SZ) = sec1 (fs_flash st') →
    sf_read_bytes (k_sf k) 0x00FE0000 (ENV_HEADER_SIZE + SZ) = sec2 (fs_flash st') →
    wp (env_init (ENV_HEADER_SIZE + SZ) n) (λ rc k', rc = 0 ∧
      k_buf k' = Some (le32 (e_crc (fs_ram st)) ++ [ACTIVE_FLAG] ++ e_data (fs_ram st)) ∧
      (k_valid k', k_invalid k') =
        match fs_cur st with Sect1 => (4, 3)%nat | Sect2 => (3, 4)%nat end) k) st.
Proof.
  intros Hboot Hio Hdev Hsz Hcrc. pose proof Hsz as (_ & _ & Hl & Hb & Hw).
  eapply (wp_saveenv_ok SZ); [by apply sizes_ok_get|done..|]. intros st' Hf _ _. split; [done|].
  intros k Hm. rw Hf. set (f := saved_flash _ _ _). intros H1 H2.
  destruct (saved_sector_spec (fs_ram st) Hw) as (Hd & Hfl & Hok). rw Hcrc Z.eqb_refl -Hcrc in Hok.
  destruct (with_flag_spec (fl_get (fs_flash st) (fs_cur st)) OBSOLETE_FLAG) as (_ & _ & HfA & _).
  { rw (sizes_ok_get SZ) // /ENV_HEADER_SIZE. lia. }
  rw Z.land_0_r in HfA. rw /wp (env_init_early _ _ Hboot k f Hm Hio H1 H2) /f /saved_flash.
  destruct (fs_cur st); cbn -[le32 s_flags crc_ok with_flag] in *.
  - rw HfA. cbn [Z.eqb]. rw Hfl Hok. done.
  - rw Hfl Hok. done.
Qed.

Lemma sf_of_read (f : flash) :
  length (sec1 f) = 10%nat → length (sec2 f) = 10%nat →
  sf_read_bytes (sf_of f) 0x00FD0000 10 = sec1 f ∧ sf_read_bytes (sf_of f) 0x00FE0000 10 = sec2 f.
Proof.
  destruct f as [s1 s2]. cbn [sec1 sec2]. intros H1 H2.
  do 10 (destruct s1 as [|? s1]; [done|]). destruct s1; [|done].
  do 10 (destruct s2 as [|? s2]; [done|]). by destruct s2.
Qed.

Lemma demo_saved_length rc st' :
  saveenv (dev := demo_dev) demo_state = Ok (rc, st') →
  length (sec1 (fs_flash st')) = 10%nat ∧ length (sec2 (fs_flash st')) = 10%nat.
Proof. intros H. vm_compute in H. by injection H as <- <-. Qed.

Lemma kernel_reads_saveenv_witness :
  ∃ st', saveenv (dev := demo_dev) demo_state = Ok (0, st') ∧
    wp (env_init 10 0) (λ rc k', rc = 0 ∧
      k_buf k' = Some (le32 (crc32 0 demo_new) ++ [ACTIVE_FLAG] ++ demo_new) ∧
      (k_valid k', k_invalid k') = (4, 3)%nat) (fresh_kst (fs_flash st')).
Proof.
  pose proof (kernel_reads_saveenv 5 0 demo_state eq_refl eq_refl demo_dev_ok demo_sizes eq_refl) as H.
  apply wp_ok in H as (rc & st' & Hrun & -> & H).
  exists st'. split; [exact Hrun|]. apply demo_saved_length in Hrun as [Hl1 Hl2].
  destruct (sf_of_read (fs_flash st') Hl1 Hl2) as [H1 H2].
  exact (H (fresh_kst (fs_flash st')) eq_refl H1 H2).
Defined.

(** A torn copy stops the kernel.  When the first sector is marked active but
    fails its CRC check, as a write of [env_update] cut short leaves it (the
    header with the flag goes first), [env_init] called before MTD is up falls
    through to the read of an MTD device that is not there: a null pointer
    dereference, although the second sector may be good. *)
Theorem env_init_torn_null {mach : Machine} SZ n k f :
  bootflash = SPI_FLASH_TYPE → ioremap_ok = true →
  k_mtd k = replicate MAX_MTD_DEVICES None →
  sf_read_bytes (k_sf k) 0x00FD0000 SZ = sec1 f → sf_read_bytes (k_sf k) 0x00FE0000 SZ = sec2 f →
  s_flags (sec1 f) = ACTIVE_FLAG → crc_ok (sec1 f) = false →
  env_init SZ n k = Err NullDeref.
Proof.
  intros Hboot Hio Hm H1 H2 Hf Hok. by rw (env_init_early _ _ Hboot k f Hm Hio H1 H2) Hf Hok.
Qed.

Lemma env_init_torn_null_witness :
  env_init 10 0 (fresh_kst (Flash [1; 2; 3; 4; 1; 65; 61; 66; 0; 0]
    (le32 (crc32 0 demo_data) ++ [0xFF] ++ demo_data))) = Err NullDeref.
Proof.
  apply (env_init_torn_null 10 0 _ (Flash [1; 2; 3; 4; 1; 65; 61; 66; 0; 0]
           (le32 (crc32 0 demo_data) ++ [0xFF] ++ demo_data))).
  - done.
  - done.
  - done.
  - by vm_compute.
  - by vm_compute.
  - done.
  - by vm_compute.
Defined.

(** Once the MTD devices are registered, the search for the partitions leaves
    the static table: at the first empty slot of mtd_table it reads
    boot_partitions at that index, and the table has six entries. *)
Theorem env_init_partition_overrun {mach : Machine} SZ n k (i : nat) :
  bootflash = SPI_FLASH_TYPE → (6 ≤ i < MAX_MTD_DEVICES)%nat →
  (∀ j, (j < i)%nat → ∃ m, k_mtd k !! j = Some (Some m)) → k_mtd k !! i = Some None →
  env_init SZ n k = Err OutOfBounds.
Proof.
  intros Hboot Hi Hbefore Hnone. rw /env_init. apply bind_err. rw /env_find_parts.
  assert (∀ d j p fuel, (i - j = d)%nat → (j ≤ i)%nat → (i - j < fuel)%nat →
    loopM fuel (λ '(i, p), env_find_parts_step i p) (j, p) k = Err OutOfBounds) as Hloop; [|apply (Hloop i); rw /MAX_MTD_DEVICES in Hi |- *; lia].
  induction d as [|d IH]; intros j p fuel Hd Hj Hf; (destruct fuel as [|fuel]; [lia|]);
    cbn [loopM]; rw {1}/env_find_parts_step; (destruct (decide (MAX_MTD_DEVICES ≤ j)%nat) as [Hbad|_]; [lia|]).
  - assert (j = i) as -> by lia. apply bind_err.
    assert (mtd_at i k = Ok (None, k)) as Hat by (by rw /mtd_at /bind /= Hnone).
    rw (bind_ok _ _ _ _ _ Hat) decide_True //. by rw lookup_ge_None_2; [simpl; lia|].
  - destruct (Hbefore j) as [m Hm]; [lia|].
    assert (mtd_at j k = Ok (Some m, k)) as Hat by (by rw /mtd_at /bind /= Hm).
    rw {1}/bind (bind_ok _ _ _ _ _ Hat). apply IH; lia.
Qed.

Lemma env_init_partition_overrun_witness :
  env_init 40 0 (k_set_mtd demo_kst (replicate 6 (Some (demo_mtd 0)) ++ replicate 26 None)) =
  Err OutOfBounds.
Proof.
  apply (env_init_partition_overrun 40 0 _ 6).
  - done.
  - rw /MAX_MTD_DEVICES. lia.
  - intros j Hj. exists (demo_mtd 0). simpl.
    do 6 (destruct j as [|j]; [done|]). lia.
  - done.
Defined.
