(* ===== verification/SfEnv.v ===== *)
(** * The board's environment reader (u-boot/board/wmt/env.c)

    The drivers of the board read a few variables from the serial flash without
    the environment code of U-Boot: [sf_env_init] picks a sector by its flag
    byte, [env_find_env] searches it, [env_get_env_value] reads the value as a
    hexadecimal number.  The buffer is the sector; every access outside it is a
    fault. *)

From Stdlib Require Import ssreflect ZArith Lia ZifyBool String.
From stdpp Require Import base tactics numbers list sets.
From S2P Require Import Prelude Crc32 Ctype Vsprintf EnvFormat EnvOps NvEdit EnvFlash.

Set Default Goal Selector "!".
Open Scope general_if_scope.
#[local] Open Scope Z_scope.

Definition sf_crc_table : list Z :=
  [0x00000000; 0x77073096; 0xee0e612c; 0x990951ba; 0x076dc419;
   0x706af48f; 0xe963a535; 0x9e6495a3; 0x0edb8832; 0x79dcb8a4;
   0xe0d5e91e; 0x97d2d988; 0x09b64c2b; 0x7eb17cbd; 0xe7b82d07;
   0x90bf1d91; 0x1db71064; 0x6ab020f2; 0xf3b97148; 0x84be41de;
   0x1adad47d; 0x6ddde4eb; 0xf4d4b551; 0x83d385c7; 0x136c9856;
   0x646ba8c0; 0xfd62f97a; 0x8a65c9ec; 0x14015c4f; 0x63066cd9;
   0xfa0f3d63; 0x8d080df5; 0x3b6e20c8; 0x4c69105e; 0xd56041e4;
   0xa2677172; 0x3c03e4d1; 0x4b04d447; 0xd20d85fd; 0xa50ab56b;
   0x35b5a8fa; 0x42b2986c; 0xdbbbc9d6; 0xacbcf940; 0x32d86ce3;
   0x45df5c75; 0xdcd60dcf; 0xabd13d59; 0x26d930ac; 0x51de003a;
   0xc8d75180; 0xbfd06116; 0x21b4f4b5; 0x56b3c423; 0xcfba9599;
   0xb8bda50f; 0x2802b89e; 0x5f058808; 0xc60cd9b2; 0xb10be924;
   0x2f6f7c87; 0x58684c11; 0xc1611dab; 0xb6662d3d; 0x76dc4190;
   0x01db7106; 0x98d220bc; 0xefd5102a; 0x71b18589; 0x06b6b51f;
   0x9fbfe4a5; 0xe8b8d433; 0x7807c9a2; 0x0f00f934; 0x9609a88e;
   0xe10e9818; 0x7f6a0dbb; 0x086d3d2d; 0x91646c97; 0xe6635c01;
   0x6b6b51f4; 0x1c6c6162; 0x856530d8; 0xf262004e; 0x6c0695ed;
   0x1b01a57b; 0x8208f4c1; 0xf50fc457; 0x65b0d9c6; 0x12b7e950;
   0x8bbeb8ea; 0xfcb9887c; 0x62dd1ddf; 0x15da2d49; 0x8cd37cf3;
   0xfbd44c65; 0x4db26158; 0x3ab551ce; 0xa3bc0074; 0xd4bb30e2;
   0x4adfa541; 0x3dd895d7; 0xa4d1c46d; 0xd3d6f4fb; 0x4369e96a;
   0x346ed9fc; 0xad678846; 0xda60b8d0; 0x44042d73; 0x33031de5;
   0xaa0a4c5f; 0xdd0d7cc9; 0x5005713c; 0x270241aa; 0xbe0b1010;
   0xc90c2086; 0x5768b525; 0x206f85b3; 0xb966d409; 0xce61e49f;
   0x5edef90e; 0x29d9c998; 0xb0d09822; 0xc7d7a8b4; 0x59b33d17;
   0x2eb40d81; 0xb7bd5c3b; 0xc0ba6cad; 0xedb88320; 0x9abfb3b6;
   0x03b6e20c; 0x74b1d29a; 0xead54739; 0x9dd277af; 0x04db2615;
   0x73dc1683; 0xe3630b12; 0x94643b84; 0x0d6d6a3e; 0x7a6a5aa8;
   0xe40ecf0b; 0x9309ff9d; 0x0a00ae27; 0x7d079eb1; 0xf00f9344;
   0x8708a3d2; 0x1e01f268; 0x6906c2fe; 0xf762575d; 0x806567cb;
   0x196c3671; 0x6e6b06e7; 0xfed41b76; 0x89d32be0; 0x10da7a5a;
   0x67dd4acc; 0xf9b9df6f; 0x8ebeeff9; 0x17b7be43; 0x60b08ed5;
   0xd6d6a3e8; 0xa1d1937e; 0x38d8c2c4; 0x4fdff252; 0xd1bb67f1;
   0xa6bc5767; 0x3fb506dd; 0x48b2364b; 0xd80d2bda; 0xaf0a1b4c;
   0x36034af6; 0x41047a60; 0xdf60efc3; 0xa867df55; 0x316e8eef;
   0x4669be79; 0xcb61b38c; 0xbc66831a; 0x256fd2a0; 0x5268e236;
   0xcc0c7795; 0xbb0b4703; 0x220216b9; 0x5505262f; 0xc5ba3bbe;
   0xb2bd0b28; 0x2bb45a92; 0x5cb36a04; 0xc2d7ffa7; 0xb5d0cf31;
   0x2cd99e8b; 0x5bdeae1d; 0x9b64c2b0; 0xec63f226; 0x756aa39c;
   0x026d930a; 0x9c0906a9; 0xeb0e363f; 0x72076785; 0x05005713;
   0x95bf4a82; 0xe2b87a14; 0x7bb12bae; 0x0cb61b38; 0x92d28e9b;
   0xe5d5be0d; 0x7cdcefb7; 0x0bdbdf21; 0x86d3d2d4; 0xf1d4e242;
   0x68ddb3f8; 0x1fda836e; 0x81be16cd; 0xf6b9265b; 0x6fb077e1;
   0x18b74777; 0x88085ae6; 0xff0f6a70; 0x66063bca; 0x11010b5c;
   0x8f659eff; 0xf862ae69; 0x616bffd3; 0x166ccf45; 0xa00ae278;
   0xd70dd2ee; 0x4e048354; 0x3903b3c2; 0xa7672661; 0xd06016f7;
   0x4969474d; 0x3e6e77db; 0xaed16a4a; 0xd9d65adc; 0x40df0b66;
   0x37d83bf0; 0xa9bcae53; 0xdebb9ec5; 0x47b2cf7f; 0x30b5ffe9;
   0xbdbdf21c; 0xcabac28a; 0x53b39330; 0x24b4a3a6; 0xbad03605;
   0xcdd70693; 0x54de5729; 0x23d967bf; 0xb3667a2e; 0xc4614ab8;
   0x5d681b02; 0x2a6f2b94; 0xb40bbe37; 0xc30c8ea1; 0x5a05df1b;
   0x2d02ef8d].

Definition sf_env_crc32 (buf : list Z) : Z :=
  Z.lxor (crc_loop sf_crc_table (Z.lxor 0 0xffffffff) (take (Z.to_nat 0xfffb) buf)) 0xffffffff.

Definition char2int (c : Z) : Z :=
  if (48 <=? c) && (c <=? 57) then c - 48
  else if (c =? 65) || (c =? 97) then 10
  else if (c =? 66) || (c =? 98) then 11
  else if (c =? 67) || (c =? 99) then 12
  else if (c =? 68) || (c =? 100) then 13
  else if (c =? 69) || (c =? 101) then 14
  else if (c =? 70) || (c =? 102) then 15
  else c.

(** [struct env_para_def]; a null [value] when the size is 0. *)
Record env_para_def := EnvPara {
  value : option (list Z); npos : nat; ppos : nat; size : nat
}.

(** [while (buf[pos]) pos++;] *)
Definition scan_nul (n pos : nat) : M (list Z) nat :=
  loopM n (λ pos,
    let! c := load pos in
    if c =? NUL then ret (inr pos) else ret (inl (S pos))) pos.

Definition env_find_next_pos (n pos : nat) : M (list Z) nat :=
  let! pos := scan_nul n pos in ret (pos + 1)%nat.

(** [while (buf[pos] != '=') pos++;] *)
Definition scan_eq (n pos : nat) : M (list Z) nat :=
  loopM n (λ pos,
    let! c := load pos in
    if c =? EQ then ret (inr pos) else ret (inl (S pos))) pos.

Definition env_find_para_pos (n pos : nat) : M (list Z) nat :=
  let! pos := scan_eq n pos in ret (pos + 1)%nat.

(** The size of [test_name], into which the name is copied: a name of more than
    100 bytes overruns the array.  ([printf] is defined away in this file.) *)
Definition TEST_NAME_SIZE : nat := 100.

(** The comparison loop: [true] when the names match. *)
Definition cmp_loop (n : nat) (name : list Z) (pos : nat) : M (list Z) bool :=
  loopM n (λ '(cnt, pos),
    let! a := str_get name cnt in
    let! b := load pos in
    if negb (a =? b) then ret (inr false) else
    let cnt := S cnt in
    let pos := S pos in
    let! a := str_get name cnt in
    let! b := load pos in
    if (a =? 0) || (b =? EQ) then
      ret (inr (bool_decide (cnt = length name) && (b =? EQ)))
    else ret (inl (cnt, pos))) (0%nat, pos).

Definition env_cmp_name (n pos : nat) (name : list Z) : M (list Z) Z :=
  let! tmppos := scan_eq n pos in
  if decide (TEST_NAME_SIZE < tmppos - pos)%nat then fail OutOfBounds else
  let! mach := cmp_loop n name pos in
  ret (if (mach : bool) then 0 else -1).

(** The return code and what is left in [*para]. *)
Definition env_find_env (n : nat) (name : option (list Z)) : M (list Z) (Z * option env_para_def) :=
  match name with
  | None => ret (-1, None)
  | Some name =>
      loopM n (λ env_name_pos,
        let! r := env_cmp_name n env_name_pos name in
        if r =? 0 then
          let! env_para_pos := env_find_para_pos n env_name_pos in
          let! pos := scan_nul n env_para_pos in
          let! buf := get in
          let size := (pos - env_para_pos)%nat in
          let value := if decide (size = 0)%nat then None
                       else Some (take size (drop env_para_pos buf)) in
          ret (inr (0, Some (EnvPara value env_name_pos env_para_pos size)))
        else
          let! env_name_pos := env_find_next_pos n env_name_pos in
          let! c := load env_name_pos in
          if c =? 0 then ret (inr (-1, None)) else ret (inl env_name_pos)) 5%nat
  end.

(** The sector whose flag byte is not 0; the first one first. *)
Definition sf_env_init (f : flash) : option (list Z) :=
  if negb (s_flags (sec1 f) =? 0) then Some (sec1 f)
  else if negb (s_flags (sec2 f) =? 0) then Some (sec2 f)
  else None.

Definition env_read_para1 (n : nat) (f : flash) (name : option (list Z))
    : outcome (Z * option env_para_def) :=
  match name with
  | None => Ok (-1, None)
  | Some _ =>
      match sf_env_init f with
      | None => Ok (-1, None)
      | Some buf =>
          match env_find_env n name buf with
          | Err e => Err e
          | Ok ((r, para), _) =>
              if negb (r =? 0) then Ok (-1, para)
              else match para with
                   | Some p => if decide (size p = 0)%nat then Ok (-1, para) else Ok (0, para)
                   | None => Ok (0, para)
                   end
          end
      end
  end.

(** The first loop of [env_get_para_value]: the digits, least significant
    nibble first, and their number. *)
Fixpoint para_collect (s : list Z) (value cnt : Z) : Z * Z :=
  match s with
  | [] => (value, cnt)
  | c :: s' =>
      if c =? 0 then (value, cnt) else
      let value := Z.lor value (u32 (Z.shiftl (char2int c) (cnt * 4))) in
      let cnt := cnt + 1 in
      if 8 <? cnt then (value, cnt) else para_collect s' value cnt
  end.

(** The second loop: the nibbles in the other order. *)
Fixpoint para_reverse (cnt : nat) (value tmp : Z) : Z * Z :=
  match cnt with
  | O => (value, tmp)
  | S cnt' =>
      para_reverse cnt' (Z.lor value (u32 (Z.shiftl (Z.land tmp 0x0f) (Z.of_nat cnt * 4))))
        (Z.shiftr tmp 4)
  end.

(** [cnt--] on an empty string wraps around: 2^32 - 1 rounds follow. *)
Definition env_get_para_value (buf : list Z) : Z :=
  let '(value, cnt) := para_collect buf 0 0 in
  let '(value, tmp) := para_reverse (Z.to_nat (u32 (cnt - 1))) 0 value in
  Z.lor value tmp.

Definition env_get_env_value (n : nat) (f : flash) (name : list Z) : outcome Z :=
  match env_read_para1 n f (Some name) with
  | Err e => Err e
  | Ok (r, para) =>
      if negb (r =? 0) then Ok 0
      else match para with
           | Some (EnvPara (Some v) _ _ _) => Ok (env_get_para_value v)
           | _ => Err NullDeref
           end
  end.

(** ** Scanning *)

Lemma scan_nul_string_end n pos : scan_nul n pos = env_string_end n pos.
Proof. done. Qed.

Lemma wp_scan_eq n pre nm suf (Q : nat → list Z → Prop) :
  EQ ∉ nm → (length nm < n)%nat →
  Q (length pre + length nm)%nat (pre ++ nm ++ EQ :: suf) →
  wp (scan_eq n (length pre)) Q (pre ++ nm ++ EQ :: suf).
Proof.
  intros He Hn HQ. set (data := pre ++ nm ++ EQ :: suf) in *.
  apply (wp_loop (λ i d, d = data ∧ (length pre ≤ i ≤ length pre + length nm)%nat)
           (λ i, length pre + length nm - i)%nat); [|split; [done|lia]|lia].
  intros i d [-> Hi]. apply wp_bind.
  replace i with (length pre + (i - length pre))%nat at 1 by lia.
  destruct (decide (i - length pre < length nm)%nat) as [Hlt|Hge].
  - destruct (lookup_lt_is_Some_2 nm (i - length pre) Hlt) as [c Hc].
    eapply wp_load; [by rw lookup_app_add lookup_app_l|].
    destruct (Z.eqb_spec c EQ) as [->|Hne].
    + exfalso. by apply He, (list_elem_of_lookup_2 _ (i - length pre)).
    + apply wp_ret. split; [split; [done|]|]; lia.
  - replace (i - length pre)%nat with (length nm) by lia.
    eapply wp_load; [by rw lookup_app_add lookup_app_len|]. rw Z.eqb_refl.
    apply wp_ret. replace i with (length pre + length nm)%nat by lia. done.
Qed.

(** The comparison of a name that is not empty with the name of a string. *)
Lemma wp_cmp_loop n name pre nm suf (Q : bool → list Z → Prop) :
  name_ok name → name ≠ [] → (EQ ∉ nm) → (NUL ∉ nm) → (length name < n)%nat →
  Q (bool_decide (nm = name)) (pre ++ nm ++ EQ :: suf) →
  wp (cmp_loop n name (length pre)) Q (pre ++ nm ++ EQ :: suf).
Proof.
  intros [Hn0 HnE] Hne HnmE Hnm0 Hn HQ. set (data := pre ++ nm ++ EQ :: suf) in *.
  assert (0 < length name)%nat by (destruct name; [done|simpl; lia]).
  assert (∀ i, (i ≤ length nm)%nat → ∃ b, (nm ++ [EQ]) !! i = Some b ∧
            data !! (length pre + i)%nat = Some b) as Hdata.
  { intros i Hi. destruct (lookup_lt_is_Some_2 (nm ++ [EQ]) i) as [b Hb]; [rw length_app /=; lia|].
    exists b. split; [done|]. rw /data (cons_middle EQ) (app_assoc nm) lookup_app_add lookup_app_l //.
    rw length_app /=. lia. }
  apply (wp_loop (λ '(cnt, pos) d, d = data ∧ pos = (length pre + cnt)%nat ∧
           (cnt < length name)%nat ∧ (cnt ≤ length nm)%nat ∧ take cnt nm = take cnt name)
           (λ '(cnt, pos), length name - cnt)%nat); [|split_and!; [done|lia..|done]|lia].
  intros [cnt pos] d (-> & -> & Hcn & Hcm & Htake).
  destruct (lookup_lt_is_Some_2 (name ++ [0]) cnt) as [a Ha]; [rw length_app /=; lia|].
  destruct (Hdata cnt Hcm) as (b & Hb & Hload).
  apply wp_bind. eapply wp_str_get; [exact Ha|]. apply wp_bind. eapply wp_load; [exact Hload|].
  rw lookup_app_l // in Ha.
  destruct (Z.eqb_spec a b) as [<-|Hab]; cbn [negb].
  2:{ apply wp_ret. rw bool_decide_eq_false_2 // in HQ. intros ->.
      rw lookup_app_l // in Hb. congruence. }
  assert (cnt < length nm)%nat as Hlt.
  { destruct (decide (cnt = length nm)) as [->|]; [|lia]. rw lookup_app_len in Hb. simplify_eq.
    exfalso. apply HnE. by eapply list_elem_of_lookup_2. }
  rw lookup_app_l // in Hb.
  destruct (lookup_lt_is_Some_2 (name ++ [0]) (S cnt)) as [a' Ha']; [rw length_app /=; lia|].
  destruct (Hdata (S cnt)) as (b' & Hb' & Hload'); [lia|]. rw Nat.add_succ_r in Hload'.
  apply wp_bind. eapply wp_str_get; [exact Ha'|]. apply wp_bind. eapply wp_load; [exact Hload'|].
  assert (take (S cnt) nm = take (S cnt) name) as Htake'.
  { by rw (take_S_r _ _ _ Ha) (take_S_r _ _ _ Hb) Htake. }
  assert (b' = EQ ↔ S cnt = length nm) as HbE.
  { split; intros Heq.
    - destruct (decide (S cnt < length nm)%nat) as [Hl|]; [|lia]. rw lookup_app_l // in Hb'.
      exfalso. apply HnmE. rw -Heq. by eapply list_elem_of_lookup_2.
    - rw Heq lookup_app_len in Hb'. by simplify_eq. }
  assert (a' = 0 ↔ S cnt = length name) as Ha0.
  { split; intros Heq.
    - destruct (decide (S cnt < length name)%nat) as [Hl|]; [|lia]. rw lookup_app_l // in Ha'.
      exfalso. apply Hn0. rw /NUL -Heq. by eapply list_elem_of_lookup_2.
    - rw Heq lookup_app_len in Ha'. by simplify_eq. }
  destruct (_ || _) eqn:Hend.
  - apply wp_ret. replace (bool_decide (S cnt = length name) && (b' =? EQ))
      with (bool_decide (nm = name)); [done|].
    apply eq_true_iff_eq. rw andb_true_iff !bool_decide_eq_true Z.eqb_eq HbE. split.
    + intros ->. apply orb_true_iff in Hend as [Hend|Hend]; apply Z.eqb_eq in Hend;
        [apply Ha0 in Hend|apply HbE in Hend]; lia.
    + intros [H1 H2]. rw {1}H2 firstn_all {1}H1 firstn_all // in Htake'.
  - apply orb_false_iff in Hend as [H1%Z.eqb_neq H2%Z.eqb_neq]. apply wp_ret.
    split; [|lia]. split_and!; [done|lia| |lia|done].
    destruct (decide (S cnt = length name)) as [Heq|]; [by apply Ha0 in Heq|lia].
Qed.

(** What [env_find_env] leaves, from the contents of the block; [npos] is the
    place of the string. *)
Definition found_para (es : list entry) (name : list Z) (r : Z * option env_para_def) : Prop :=
  match env_lookup name es with
  | None => r = (-1, None)
  | Some v => ∃ np, r = (0, Some (EnvPara (if decide (length v = 0)%nat then None else Some v)
                                    np (np + length name + 1) (length v)))
  end.

(** The names of the strings fit [test_name]. *)
Definition names_short (es : list entry) : Prop :=
  Forall (λ e, length (entry_name e) ≤ TEST_NAME_SIZE)%nat es.

Lemma wp_env_cmp_name n name pre e suf (Q : Z → list Z → Prop) :
  name_ok name → name ≠ [] → entry_ok e → (length (entry_name e) ≤ TEST_NAME_SIZE)%nat →
  (length name < n)%nat → (length e < n)%nat →
  Q (if decide (entry_name e = name) then 0 else -1) (pre ++ e ++ suf) →
  wp (env_cmp_name n (length pre) name) Q (pre ++ e ++ suf).
Proof.
  intros Hname Hne [He0 HeE] Hs Hn Hn' HQ. pose proof (entry_split e HeE) as Hsplit.
  assert (e ++ suf = entry_name e ++ EQ :: entry_value e ++ suf) as Hd
    by (rw {1}Hsplit /mk_entry -app_assoc //).
  rw Hd in HQ |- *. pose proof (entry_name_length e). rw /env_cmp_name.
  apply wp_bind, wp_scan_eq; [apply entry_name_no_eq|lia|]. rw decide_False; [lia|].
  apply wp_bind, wp_cmp_loop; [done|done|apply entry_name_no_eq|by apply entry_name_no_nul|done|].
  apply wp_ret. by destruct (decide (entry_name e = name)) as [Heq|Hneq];
    [rw bool_decide_eq_true_2|rw bool_decide_eq_false_2].
Qed.

(** Reading the value of the string that matched. *)
Lemma wp_find_value n pre e suf (Q : nat + Z * option env_para_def → list Z → Prop) :
  entry_ok e → (length e < n)%nat →
  (let v := entry_value e in
   Q (inr (0, Some (EnvPara (if decide (length v = 0)%nat then None else Some v) (length pre)
                      (length pre + length (entry_name e) + 1) (length v))))
     (pre ++ e ++ NUL :: suf)) →
  wp (let! env_para_pos := env_find_para_pos n (length pre) in
      let! pos := scan_nul n env_para_pos in
      let! buf := get in
      let size := (pos - env_para_pos)%nat in
      let value := if decide (size = 0)%nat then None
                   else Some (take size (drop env_para_pos buf)) in
      ret (inr (0, Some (EnvPara value (length pre) env_para_pos size)))) Q (pre ++ e ++ NUL :: suf).
Proof.
  intros He Hn HQ. destruct (entry_value_at pre e suf He) as [Hv Hv0].
  assert (pre ++ e ++ NUL :: suf = pre ++ entry_name e ++ EQ :: entry_value e ++ NUL :: suf) as Hd
    by (by rw Hv -!app_assoc).
  pose proof (f_equal length (entry_split e (proj2 He))) as Hl.
  rw /mk_entry length_app /= in Hl. set (v := entry_value e) in *.
  apply wp_bind. rw /env_find_para_pos. apply wp_bind. rw Hd.
  apply wp_scan_eq; [apply entry_name_no_eq|lia|]. apply wp_ret. rw -Hd Hv.
  set (p := pre ++ entry_name e ++ [EQ]).
  assert (length pre + length (entry_name e) + 1 = length p)%nat as Hp
    by (rw /p !length_app /=; lia).
  rw Hp. apply wp_bind. rw scan_nul_string_end. apply wp_string_end; [done|lia|].
  apply wp_bind, wp_get, wp_ret.
  replace (length p + length v - length p)%nat with (length v) by lia.
  rw drop_app_length take_app_length -Hv. by rw Hp in HQ.
Qed.

(** Going to the next string, or to the end. *)
Lemma wp_find_next n pre e suf c (Q : nat → Z → list Z → Prop) :
  entry_ok e → (length e < n)%nat → (suf !! 0%nat) = Some c →
  Q (length (pre ++ e ++ [NUL])) c (pre ++ e ++ NUL :: suf) →
  wp (env_find_next_pos n (length pre)) (λ p, wp (load p) (Q p)) (pre ++ e ++ NUL :: suf).
Proof.
  intros He Hn Hc HQ. rw /env_find_next_pos scan_nul_string_end.
  apply wp_bind, wp_string_end; [apply He|lia|]. apply wp_ret.
  replace (length pre + length e + 1)%nat with (length (pre ++ e ++ [NUL]))
    by (rw !length_app /=; lia).
  eapply wp_load; [|exact HQ].
  replace (pre ++ e ++ NUL :: suf) with ((pre ++ e ++ [NUL]) ++ suf) by (by rw -!app_assoc).
  by rw -(Nat.add_0_r (length _)) lookup_app_add.
Qed.

Lemma wp_env_find_env n hdr name es data (Q : Z * option env_para_def → list Z → Prop) :
  Forall entry_ok es → env_repr es data → es ≠ [] → names_short es → name_ok name → name ≠ [] →
  length hdr = 5%nat → (length name < n)%nat → (length (hdr ++ data) < n)%nat →
  (∀ r, found_para es name r → Q r (hdr ++ data)) →
  wp (env_find_env n (Some name)) Q (hdr ++ data).
Proof.
  intros Hok (rest & Hdata & _) Hne Hshort Hname Hname0 Hh Hn Hn' HQ.
  destruct es as [|e0 es0]; [done|]. set (es := e0 :: es0) in *.
  apply (wp_loop (λ pos d, d = hdr ++ data ∧ ∃ es1 e es2, es = es1 ++ e :: es2 ∧
           pos = length (hdr ++ enc es1) ∧ name ∉ (entry_name <$> es1))
           (λ pos, length (hdr ++ data) - pos)%nat); [| |lia].
  2:{ split; [done|]. exists [], e0, es0. rw enc_nil app_nil_r Hh.
      split_and!; [done..|apply not_elem_of_nil]. }
  intros pos d (-> & es1 & e & es2 & Hes & -> & Hnot).
  rw /names_short Hes in Hshort. rw Hes in Hok.
  apply Forall_app in Hok as [_ [He Hok]%Forall_cons].
  apply Forall_app in Hshort as [_ [Hsh _]%Forall_cons].
  assert (hdr ++ data = (hdr ++ enc es1) ++ e ++ NUL :: enc es2 ++ NUL :: rest) as Hd.
  { by rw Hdata Hes enc_split_data -app_assoc. }
  set (pre := hdr ++ enc es1) in *.
  assert (length pre + length e < length (hdr ++ data))%nat as Hle.
  { rw Hd (length_app pre) (length_app e) /=. lia. }
  rw Hd. apply wp_bind, wp_env_cmp_name; [done..|lia|].
  destruct (decide (entry_name e = name)) as [Heq|Hneq]; cbn [Z.eqb].
  - apply wp_find_value; [done|lia|]. rw -Hd. apply HQ.
    rw /found_para Hes env_lookup_split //. eexists. rw Heq. done.
  - assert (name ∉ entry_name <$> es1 ++ [e]) as Hnot'.
    { rw fmap_app. apply not_elem_of_app. split; [done|].
      by apply not_elem_of_cons; split; [|apply not_elem_of_nil]. }
    apply wp_bind. destruct es2 as [|e2 es2].
    + eapply (wp_mono _ (λ p, wp (load p) _)); [eapply (wp_find_next _ _ _ _ NUL); [done|lia|done|]|].
      2:{ intros p d Hw. apply wp_bind. exact Hw. }
      cbv beta. rw Z.eqb_refl. apply wp_ret. rw -Hd. apply HQ.
      by rw /found_para (proj2 (env_lookup_none _ _)) // Hes.
    + destruct e2 as [|c2 e2]; [by apply Forall_cons in Hok as [?%entry_ok_ne _]|].
      assert (c2 ≠ NUL) as Hc2.
      { intros ->. apply Forall_cons in Hok as [[Hn0 _] _]. apply Hn0. by left. }
      eapply (wp_mono _ (λ p, wp (load p) _)); [eapply (wp_find_next _ _ _ _ c2); [done|lia|done|]|].
      2:{ intros p d Hw. apply wp_bind. exact Hw. }
      cbv beta. rw (proj2 (Z.eqb_neq c2 0)) //. apply wp_ret. rw -Hd.
      assert (length (pre ++ e ++ [NUL]) = length pre + length e + 1)%nat as Hlp
        by (rw !length_app /=; lia).
      split; [|rw Hlp; lia]. split; [done|]. exists (es1 ++ [e]), (c2 :: e2), es2.
      split_and!; [by rw -app_assoc| |done]. by rw /pre enc_snoc -!app_assoc.
Qed.

(** ** The value as a number *)

(** A hexadecimal digit. *)
Definition hex_char (c : Z) : Prop := is_byte c ∧ isxdigit c = true.

Lemma hex_char_value c :
  hex_char c → 0 ≤ char2int c < 16 ∧ strto_value c = char2int c ∧ c ≠ 0 ∧ c ≠ 120.
Proof.
  intros [Hb Hx]. pose proof (all_bytes_spec (λ c, implb (isxdigit c)
    ((0 <=? char2int c) && (char2int c <? 16) && (strto_value c =? char2int c) &&
     negb (c =? 0) && negb (c =? 120))) c ltac:(vm_compute; reflexivity) Hb) as H.
  rw Hx in H. apply andb_true_iff in H as [H H5]. apply andb_true_iff in H as [H H4].
  apply andb_true_iff in H as [H H3]. apply andb_true_iff in H as [H1 H2].
  apply negb_true_iff in H4, H5. lia.
Qed.

(** Digits read with the most, or the least, significant one first. *)
Definition be_value (ds : list Z) (acc : Z) : Z := fold_left (λ acc d, 16 * acc + d) ds acc.
Definition le_value (ds : list Z) : Z := foldr (λ d acc, d + 16 * acc) 0 ds.

Lemma be_value_cons d ds :
  be_value (d :: ds) 0 = d * 16 ^ Z.of_nat (length ds) + be_value ds 0.
Proof.
  assert (∀ ds acc, be_value ds acc = acc * 16 ^ Z.of_nat (length ds) + be_value ds 0) as H.
  { clear. induction ds as [|d ds IH]; intros acc; [rw /be_value /=; lia|].
    cbn [be_value fold_left length] in *. rw Nat2Z.inj_succ Z.pow_succ_r; [lia|].
    rw /be_value /= -/(be_value ds (16 * acc + d)) -/(be_value ds (16 * 0 + d)).
    rw IH (IH (16 * 0 + d)). lia. }
  rw {1}/be_value /= -/(be_value ds d) H. done.
Qed.

Lemma pow16 k : 16 ^ k = 2 ^ (4 * k).
Proof. destruct (decide (0 ≤ k)); [rw Z.pow_mul_r; [lia..|]; done|].
  rw !Z.pow_neg_r //; lia. Qed.

Lemma shift_nibble d k :
  0 ≤ d < 16 → 0 ≤ k ≤ 7 → u32 (Z.shiftl d (k * 4)) = d * 16 ^ k.
Proof.
  intros Hd Hk. rw Z.shiftl_mul_pow2; [lia|]. rw pow16 (Z.mul_comm 4). apply wrap_small.
  split; [nia|]. apply Z.lt_le_trans with (16 * 2 ^ (k * 4)); [nia|].
  change 16 with (2 ^ 4). rw -Z.pow_add_r; [lia..|]. apply Z.pow_le_mono_r; lia.
Qed.

Lemma para_collect_hex s value cnt :
  Forall hex_char s → 0 ≤ cnt → cnt + Z.of_nat (length s) ≤ 8 → 0 ≤ value < 16 ^ cnt →
  para_collect s value cnt =
  (value + 16 ^ cnt * le_value (char2int <$> s), cnt + Z.of_nat (length s)).
Proof.
  intros Hs. revert value cnt. induction Hs as [|c s Hc Hs IH]; intros value cnt Hcnt Hlen Hv.
  { simpl. f_equal; lia. }
  destruct (hex_char_value c Hc) as (Hd & _ & Hc0 & _). cbn [para_collect length] in *.
  rw (proj2 (Z.eqb_neq c 0)) //. rw shift_nibble //; [lia|].
  rw (proj2 (Z.ltb_ge 8 (cnt + 1))); [lia|].
  assert (Z.lor value (char2int c * 16 ^ cnt) = value + char2int c * 16 ^ cnt) as ->.
  { rw Z.lor_comm Z.add_comm pow16. apply lor_add_low; [lia|]. by rw -pow16. }
  rw IH; [lia|lia| |].
  - rw Z.pow_add_r; [lia..|]. nia.
  - rw Z.pow_add_r; [lia..|]. cbn [fmap list_fmap le_value foldr]. f_equal; [|lia].
    rw /le_value. nia.
Qed.

Lemma le_value_cons_split d ds :
  0 ≤ d < 16 → Z.land (le_value (d :: ds)) 0x0f = d ∧ Z.shiftr (le_value (d :: ds)) 4 = le_value ds.
Proof.
  intros Hd. cbn [le_value foldr]. fold (le_value ds). change 0x0f with (Z.ones 4).
  rw Z.land_ones; [lia|]. rw Z.shiftr_div_pow2; [lia|]. change (2 ^ 4) with 16. split.
  - rw Z.mul_comm Z_mod_plus_full. by apply Z.mod_small.
  - rw Z.mul_comm Z.div_add; [lia|]. rw Z.div_small; lia.
Qed.

Lemma para_reverse_hex k ds q :
  Forall (λ d, 0 ≤ d < 16) ds → length ds = S k → (k ≤ 7)%nat →
  let '(v, t) := para_reverse k (q * 16 ^ Z.of_nat (S k)) (le_value ds) in
  Z.lor v t = q * 16 ^ Z.of_nat (S k) + be_value ds 0.
Proof.
  revert ds q. induction k as [|k IH]; intros ds q Hds Hlen Hk.
  - destruct ds as [|d [|]]; [done| |done]. apply Forall_cons in Hds as [Hd _].
    cbn [para_reverse le_value foldr]. change (16 ^ Z.of_nat 1) with (2 ^ 4).
    rw lor_add_low; [lia..|]. rw /be_value /=. lia.
  - destruct ds as [|d ds]; [done|]. apply Forall_cons in Hds as [Hd Hds].
    destruct (le_value_cons_split d ds Hd) as [H1 H2]. injection Hlen as Hlen.
    cbn [para_reverse]. rw H1 H2 shift_nibble //; [lia|].
    assert (Z.lor (q * 16 ^ Z.of_nat (S (S k))) (d * 16 ^ Z.of_nat (S k)) =
            (q * 16 + d) * 16 ^ Z.of_nat (S k)) as ->.
    { rw (Nat2Z.inj_succ (S k)) Z.pow_succ_r; [lia|].
      replace (q * (16 * 16 ^ Z.of_nat (S k))) with (q * 2 ^ (4 * Z.succ (Z.of_nat (S k))))
        by (rw -pow16 Z.pow_succ_r; lia).
      rw lor_add_low; [lia| |rw -pow16 Z.pow_succ_r; lia].
      rw -pow16 Z.pow_succ_r; [lia|]. assert (0 < 16 ^ Z.of_nat (S k)) by lia. nia. }
    specialize (IH ds (q * 16 + d) Hds Hlen ltac:(lia)).
    destruct (para_reverse k _ _) as [v t]. rw IH be_value_cons Hlen.
    rw (Nat2Z.inj_succ (S k)) (Z.pow_succ_r 16 (Z.of_nat (S k))); [lia|]. lia.
Qed.

Lemma le_value_bound ds :
  Forall (λ d, 0 ≤ d < 16) ds → 0 ≤ le_value ds < 16 ^ Z.of_nat (length ds).
Proof.
  induction 1 as [|d ds Hd _ IH]; [by cbn|]. cbn [le_value foldr length]. fold (le_value ds).
  rw Nat2Z.inj_succ Z.pow_succ_r; lia.
Qed.

Lemma hex_digits s : Forall hex_char s → Forall (λ d, 0 ≤ d < 16) (char2int <$> s).
Proof. intros Hs. apply Forall_fmap. eapply Forall_impl; [exact Hs|]. by intros c []%hex_char_value. Qed.

Lemma para_value_be s :
  Forall hex_char s → (1 ≤ length s ≤ 8)%nat →
  env_get_para_value s = be_value (char2int <$> s) 0.
Proof.
  intros Hs Hlen. rw /env_get_para_value para_collect_hex //; [lia..|].
  pose proof (hex_digits s Hs) as Hds. set (ds := char2int <$> s) in *.
  assert (length ds = length s) as Hl by (by rw length_fmap).
  assert (Z.to_nat (u32 (0 + Z.of_nat (length s) - 1)) = (length s - 1)%nat) as ->.
  { rw u32_small; [lia|]. lia. }
  change (0 + 16 ^ 0 * le_value ds) with (1 * le_value ds). rw Z.mul_1_l.
  pose proof (para_reverse_hex (length s - 1) ds 0 Hds ltac:(lia) ltac:(lia)) as H.
  rw Z.mul_0_l in H. by destruct (para_reverse _ 0 (le_value ds)) as [v t].
Qed.

Lemma be_value_app ds d : be_value (ds ++ [d]) 0 = 16 * be_value ds 0 + d.
Proof. by rw /be_value fold_left_app. Qed.

Lemma be_value_bound ds :
  Forall (λ d, 0 ≤ d < 16) ds → 0 ≤ be_value ds 0 < 16 ^ Z.of_nat (length ds).
Proof.
  induction ds as [|d ds IH] using rev_ind; [by cbn|]. intros [H1 [H2 _]%Forall_cons]%Forall_app.
  specialize (IH H1). rw be_value_app length_app Nat2Z.inj_add Z.pow_add_r; [lia..|]. cbn. lia.
Qed.

Lemma strto_loop_hex s :
  Forall hex_char s → (length s ≤ 8)%nat →
  strto_loop 32 16 0 s = (be_value (char2int <$> s) 0, []).
Proof.
  intros Hs Hlen.
  assert (∀ s1 s2, s = s1 ++ s2 → strto_loop 32 16 (be_value (char2int <$> s1) 0) s2 =
            (be_value (char2int <$> s) 0, [])) as H; [|by apply (H [])].
  intros s1 s2. revert s1. induction s2 as [|c s2 IH]; intros s1 Hsplit.
  { rw app_nil_r in Hsplit. by subst. }
  assert (hex_char c ∧ Forall hex_char (s1 ++ [c])) as [Hc Hs1].
  { rw Hsplit in Hs. apply Forall_app in Hs as [? [? ?]%Forall_cons]. split; [done|].
    apply Forall_app. by split; [|constructor]. }
  destruct (hex_char_value c Hc) as (Hd & Hv & _). cbn [strto_loop].
  rw (proj2 Hc) Hv (proj2 (Z.ltb_lt _ _)); [lia|]. cbn [andb].
  replace (wrap 32 (be_value (char2int <$> s1) 0 * 16 + char2int c))
    with (be_value (char2int <$> s1 ++ [c]) 0).
  2:{ rw fmap_app be_value_app. rw wrap_small; [|lia].
      pose proof (be_value_bound _ (hex_digits _ Hs1)) as Hb. rw fmap_app be_value_app in Hb.
      rw length_app length_fmap /= in Hb. rw Hsplit length_app /= in Hlen.
      split; [lia|]. apply Z.lt_le_trans with (16 ^ Z.of_nat (length s1 + 1)); [lia|].
      rw pow16. apply Z.pow_le_mono_r; lia. }
  apply IH. by rw -app_assoc.
Qed.

Lemma strto_prefix_hex s :
  Forall hex_char s →
  strto_prefix s 16 = (match s with c :: s' => if c =? 48 then s' else s | [] => [] end, 16).
Proof.
  intros Hs. rw /strto_prefix. destruct s as [|c s]; [done|]. apply Forall_cons in Hs as [_ Hs].
  cbn [tail]. change (deref (c :: s)) with c. destruct (Z.eqb_spec c 48) as [->|]; [|done].
  assert ((deref s =? 120) = false) as ->; [|done].
  destruct s as [|c2 s]; [done|]. apply Forall_cons in Hs as [Hc2 _].
  apply Z.eqb_neq. by apply hex_char_value in Hc2 as (_ & _ & _ & ?).
Qed.

Lemma strtoul_hex s :
  Forall hex_char s → (length s ≤ 8)%nat → (simple_strtoul s 16).1 = be_value (char2int <$> s) 0.
Proof.
  intros Hs Hlen. rw /simple_strtoul strto_prefix_hex //. destruct s as [|c s]; [done|].
  destruct (Z.eqb_spec c 48) as [->|Hne]; [|by rw strto_loop_hex].
  apply Forall_cons in Hs as [_ Hs]. rw strto_loop_hex //. simpl in Hlen. lia.
Qed.

(** The board's reader converts as [simple_strtoul] does: a value of one to
    eight hexadecimal digits, in either case, gives the same number. *)
Theorem env_get_para_value_strtoul s :
  Forall hex_char s → (1 ≤ length s ≤ 8)%nat →
  env_get_para_value s = (simple_strtoul s 16).1.
Proof. intros Hs Hlen. rw para_value_be // strtoul_hex //. lia. Qed.

#[export] Instance hex_char_dec c : Decision (hex_char c).
Proof. rw /hex_char. apply _. Defined.

Lemma env_get_para_value_strtoul_witness :
  env_get_para_value (bytes "00fA9") = (simple_strtoul (bytes "00fA9") 16).1.
Proof.
  apply (env_get_para_value_strtoul (bytes "00fA9")).
  - by apply (bool_decide_unpack _).
  - vm_compute. lia.
Defined.

(** A hexadecimal digit and its value, and the number that a string of such
    digits spells. *)
Definition digit_of (c d : Z) : Prop :=
  0 ≤ d ∧ (bytes "0123456789abcdef" !! Z.to_nat d = Some c ∨
           bytes "0123456789ABCDEF" !! Z.to_nat d = Some c).

Inductive spells : list Z → Z → Prop :=
| spells_nil : spells [] 0
| spells_digit s v c d : spells s v → digit_of c d → spells (s ++ [c]) (16 * v + d).

Lemma digit_of_char c d : digit_of c d → hex_char c ∧ char2int c = d.
Proof.
  intros [Hd H]. rw -(Z2Nat.id d) //. generalize dependent (Z.to_nat d). intros k H.
  assert (k < 16)%nat by (destruct H as [H|H]; by apply lookup_lt_Some in H).
  do 16 (destruct k as [|k]; [destruct H as [[= <-]|[= <-]]; by vm_compute|]). lia.
Qed.

Lemma spells_value s x :
  spells s x → Forall hex_char s ∧ be_value (char2int <$> s) 0 = x.
Proof.
  induction 1 as [|s x c d _ [IH1 IH2] [Hc Hd]%digit_of_char]; [by split|].
  split; [by apply Forall_app; split; [|constructor]|].
  by rw fmap_app /= be_value_app IH2 Hd.
Qed.

(** The reader over the two sectors of [f] when [sf_env_init] picks the header
    [hdr] and a block with the strings [es]. *)
Lemma env_get_env_value_run n f hdr data es name :
  sf_env_init f = Some (hdr ++ data) → length hdr = 5%nat →
  env_wf es → env_repr es data → es ≠ [] → names_short es →
  name_ok name → name ≠ [] → (length name < n)%nat → (5 + length data < n)%nat →
  env_get_env_value n f name =
  Ok (match env_lookup name es with
      | Some v => if decide (v = []) then 0 else env_get_para_value v
      | None => 0
      end).
Proof.
  intros Hinit Hhdr Hwf Hrepr Hne Hshort Hname Hname0 Hn Hn'.
  assert (wp (env_find_env n (Some name)) (λ r _, found_para es name r) (hdr ++ data)) as Hw.
  { eapply wp_env_find_env; [apply Hwf|done..|rw length_app Hhdr; done|done]. }
  apply wp_ok in Hw as (r & buf & Hrun & Hr).
  rw /env_get_env_value /env_read_para1 Hinit Hrun. rw /found_para in Hr.
  destruct (env_lookup name es) as [v|]; [|by subst r]. destruct Hr as [np ->]. cbn [negb Z.eqb size].
  by destruct v as [|c v].
Qed.



(** ** An erased first sector *)

(** Loads of a blank sector: 0xFF inside it, a fault behind it. *)
Lemma scan_eq_blank m n pos :
  (m < n + pos)%nat → (0 < n)%nat → scan_eq n pos (replicate m 0xFF) = Err OutOfBounds.
Proof.
  rw /scan_eq. revert pos. induction n as [|n IH]; intros pos Hn H0; [lia|]. cbn [loopM].
  destruct (decide (pos < m)%nat) as [Hlt|Hge].
  - assert (load pos (replicate m 0xFF) = Ok (0xFF, replicate m 0xFF)) as Hload.
    { by rw /load lookup_replicate_2. }
    rw (bind_ok _ _ _ (inl (S pos)) (replicate m 0xFF)); [by rw (bind_ok _ _ _ _ _ Hload)|].
    apply IH; lia.
  - apply bind_err, bind_err. rw /load lookup_ge_None_2 //. rw length_replicate. lia.
Qed.

(** An erased first sector takes the board's reader out of bounds.  Power lost
    between the erase and the first programmed byte of a save to sector 1 leaves
    it all 0xFF: its flag byte is not 0, no CRC is checked, and the search for
    the first '=' runs past the copy of the sector, for every name. *)
Theorem sf_env_blank_sector m n f name :
  sec1 f = replicate m 0xFF → (5 ≤ m < n)%nat →
  env_get_env_value n f name = Err OutOfBounds.
Proof.
  intros Hf Hm. rw /env_get_env_value /env_read_para1.
  assert (sf_env_init f = Some (replicate m 0xFF)) as ->.
  { rw /sf_env_init Hf. do 5 (destruct m as [|m]; [lia|]). done. }
  assert (env_find_env n (Some name) (replicate m 0xFF) = Err OutOfBounds) as ->; [|done].
  rw /env_find_env. destruct n as [|n]; [lia|]. cbn [loopM].
  apply bind_err, bind_err, bind_err, scan_eq_blank; lia.
Qed.

Lemma sf_env_blank_sector_witness :
  env_get_env_value 20 (Flash (replicate 10 0xFF) (fl_get (fs_flash demo_state) Sect1))
    (bytes "a") = Err OutOfBounds.
Proof. apply (sf_env_blank_sector 10); [reflexivity|lia]. Defined.
