(* ===== verification/SpiFlash.v ===== *)
(** * Serial flash driver (u-boot/board/wmt/flash/spi_flash.c)

    The driver talks to a memory-mapped controller.  What it writes, to a
    register or into the flash window, is appended to a log; what it reads (a
    register, the timer, the keyboard) is answered by the hardware, any function
    of the number of reads before ([SfHw]).  Theorems about the log therefore
    hold for every behaviour of the chips; those that also say the driver
    returns assume that a poll loop ends at some point ([SfLive]): the chip
    becomes ready, reports an error, or the timer runs out. *)

From Stdlib Require Import ssreflect ZArith Lia ZifyBool.
From stdpp Require Import base tactics numbers list.
From S2P Require Import Prelude.

Set Default Goal Selector "!".
Open Scope general_if_scope.
#[local] Open Scope Z_scope.

(** ** Data *)

Definition CFG_MAX_FLASH_SECT : nat := 512.
Definition CFG_MAX_SPI_FLASH_BANKS : nat := 2.
Definition FLASH_UNKNOWN : Z := 0xFFFFFFFF.
Definition CFG_FLASH_ERASE_TOUT : Z := 3 * 3000000.

Definition ERR_OK : Z := 0.
Definition ERR_TIMOUT : Z := 1.
Definition ERR_PROTECTED : Z := 4.
Definition ERR_INVAL : Z := 8.
Definition ERR_PROG_ERROR : Z := 128.

(** One bank: sizes and addresses are 32-bit, the sector count 16-bit, and the
    arrays have [CFG_MAX_FLASH_SECT] elements. *)
Record flash_info_t := FlashInfo {
  fi_size : Z;
  fi_sector_count : Z;
  fi_flash_id : Z;
  fi_start : list Z;
  fi_protect : list Z
}.

(** The registers of the controller that the driver uses. *)
Inductive sfreg_t :=
| CHIP_SEL_0_CFG | CHIP_SEL_1_CFG | SPI_INTF_CFG | SPI_RD_WR_CTR | SPI_WR_EN_CTR
| SPI_ER_CTR | SPI_ER_START_ADDR | SPI_ERROR_STATUS | SPI_MEM_0_SR_ACC | SPI_MEM_1_SR_ACC
| SPI_PROG_CMD_CTR | SPI_PROG_CMD_WBF (i : nat).

Definition SF_CS0_WR_EN : Z := 1.
Definition SF_CS1_WR_EN : Z := 2.
Definition SF_SEC_ER_EN : Z := 0x8000.
Definition SF_MANUAL_MODE : Z := 0x40.
Definition SF_RUN_CMD : Z := 1.
Definition SF_CMD_WREN : Z := 0x06.
Definition SF_CMD_WRSR : Z := 0x01.
Definition ATMEL_MANUF : Z := 0x1F.
Definition BIT_TIMEOUT : Z := 0x80000000.

(** [{id, size, sector_size}] *)
Record wm_sf_dev_t := SfDev { sd_id : Z; sd_size : Z; sd_sector_size : Z }.
Definition SF_IDALL (x y : Z) : Z := Z.lor (Z.shiftl x 16) y.

Definition sf_ids : list wm_sf_dev_t :=
  [SfDev (SF_IDALL 0x1C 0x2015) 0x200000 0x10000;
   SfDev (SF_IDALL 0x1C 0x2017) 0x800000 0x10000;
   SfDev (SF_IDALL 0x1C 0x3113) 0x80000 0x10000;
   SfDev (SF_IDALL 0x1C 0x3115) 0x200000 0x10000;
   SfDev (SF_IDALL 0x1C 0x3017) 0x800000 0x10000;
   SfDev (SF_IDALL 0x20 0x2015) 0x200000 0x10000;
   SfDev (SF_IDALL 0x20 0x2017) 0x800000 0x10000;
   SfDev (SF_IDALL 0xC2 0x2010) 0x10000 0x10000;
   SfDev (SF_IDALL 0xC2 0x2015) 0x200000 0x10000;
   SfDev (SF_IDALL 0xC2 0x2016) 0x400000 0x10000;
   SfDev (SF_IDALL 0xC2 0x2017) 0x800000 0x10000;
   SfDev (SF_IDALL 0xC2 0x2415) 0x200000 0x10000;
   SfDev (SF_IDALL 0xC2 0x5E16) 0x400000 0x10000;
   SfDev (SF_IDALL 0xC2 0x2018) 0x1000000 0x10000;
   SfDev (SF_IDALL 0x01 0x0214) 0x200000 0x10000;
   SfDev (SF_IDALL 0x01 0x0216) 0x800000 0x10000;
   SfDev (SF_IDALL 0xBF 0x2541) 0x200000 0x10000;
   SfDev (SF_IDALL 0xEF 0x3015) 0x200000 0x10000;
   SfDev (SF_IDALL 0xEF 0x3016) 0x400000 0x10000;
   SfDev (SF_IDALL 0xEF 0x3017) 0x800000 0x10000;
   SfDev (SF_IDALL 0xEF 0x4018) 0x1000000 0x10000;
   SfDev (SF_IDALL 0x1F 0x4401) 0x80000 0x10000;
   SfDev (SF_IDALL 0xC8 0x4013) 0x80000 0x10000;
   SfDev (SF_IDALL 0xC8 0x4018) 0x1000000 0x10000].

(** ** The hardware and the state of the driver *)

Inductive event :=
| WriteReg (reg : sfreg_t) (v : Z)
| WriteByte (addr v : Z).

(** The answers, by the number of reads before. *)
Class SfHw := {
  hw_reg : nat → sfreg_t → Z;
  hw_timer : nat → Z;
  hw_ctrlc : nat → bool
}.

Record sfst := SfSt {
  sf_time : nat;                 (** reads so far *)
  sf_log : list event;           (** writes so far *)
  sf_info : list flash_info_t;   (** [flash_info_spi] *)
  phy_flash_addr_0 : Z;
  phy_flash_addr_1 : Z
}.

Definition sf_tick st := SfSt (S (sf_time st)) (sf_log st) (sf_info st)
  (phy_flash_addr_0 st) (phy_flash_addr_1 st).
Definition sf_emit ev st := SfSt (sf_time st) (sf_log st ++ [ev]) (sf_info st)
  (phy_flash_addr_0 st) (phy_flash_addr_1 st).
Definition sf_set_info v st := SfSt (sf_time st) (sf_log st) v
  (phy_flash_addr_0 st) (phy_flash_addr_1 st).
Definition sf_set_phy a b st := SfSt (sf_time st) (sf_log st) (sf_info st) a b.

Section driver.
Context {hw : SfHw}.

Definition read_reg (r : sfreg_t) : M sfst Z :=
  λ st, Ok (hw_reg (sf_time st) r, sf_tick st).
Definition get_timer_masked : M sfst Z :=
  λ st, Ok (hw_timer (sf_time st), sf_tick st).
Definition ctrlc : M sfst bool :=
  λ st, Ok (hw_ctrlc (sf_time st), sf_tick st).
Definition write_reg (r : sfreg_t) (v : Z) : M sfst unit := modify (sf_emit (WriteReg r v)).
Definition write_byte (a v : Z) : M sfst unit := modify (sf_emit (WriteByte a v)).

(** ** Errors *)

(** The return code of [flash_error]; every error also clears the status
    register. *)
Definition flash_error_code (code : Z) : Z :=
  if negb (Z.land code BIT_TIMEOUT =? 0) then ERR_TIMOUT
  else if negb (Z.land code 0x20 =? 0) then ERR_PROG_ERROR
  else if negb (Z.land code 0x10 =? 0) then ERR_PROG_ERROR
  else if negb (Z.land code 0x8 =? 0) then ERR_PROG_ERROR
  else if negb (Z.land code 0x4 =? 0) then ERR_PROG_ERROR
  else if negb (Z.land code 0x2 =? 0) then ERR_PROG_ERROR
  else if negb (Z.land code 0x1 =? 0) then ERR_PROG_ERROR
  else ERR_OK.

Definition flash_error (code : Z) : M sfst Z :=
  let rc := flash_error_code code in
  (if rc =? ERR_OK then ret tt else write_reg SPI_ERROR_STATUS 0x3F) ;;;
  ret rc.

(** ** Erasing one sector *)

(** The poll loop: [Some rc] when it returns an error from the function. *)
Definition poll_once (sr : sfreg_t) : M sfst (unit + option Z) :=
  let! _ := read_reg sr in
  let! temp := read_reg sr in
  if Z.land temp 1 =? 0 then ret (inr None) else
  let! code := read_reg SPI_ERROR_STATUS in
  let! rc := flash_error code in
  if negb (rc =? ERR_OK) then ret (inr (Some rc)) else
  let! t := get_timer_masked in
  if t <? CFG_FLASH_ERASE_TOUT then ret (inl tt) else ret (inr None).

Definition erase_poll (n : nat) (sr : sfreg_t) : M sfst (option Z) :=
  loopM n (λ _ : unit, poll_once sr) tt.

(** The body that the two chip selects share. *)
Definition sector_erase_cs (n : nat) (wr_en : Z) (sr : sfreg_t) (addr : Z) : M sfst Z :=
  write_reg SPI_WR_EN_CTR wr_en ;;;
  write_reg SPI_ER_START_ADDR (Z.land addr 0xFFFF0000) ;;;
  write_reg SPI_ER_CTR SF_SEC_ER_EN ;;;
  let! r := erase_poll n sr in
  match r with
  | Some rc => ret rc
  | None =>
      let! t := get_timer_masked in
      if CFG_FLASH_ERASE_TOUT <=? t then flash_error BIT_TIMEOUT
      else
        write_reg SPI_WR_EN_CTR 0 ;;;
        ret ERR_OK
  end.

Definition spi_flash_sector_erase (n : nat) (addr : Z) : M sfst Z :=
  let! st := get in
  if phy_flash_addr_0 st <=? addr then sector_erase_cs n SF_CS0_WR_EN SPI_MEM_0_SR_ACC addr
  else sector_erase_cs n SF_CS1_WR_EN SPI_MEM_1_SR_ACC addr.

(** ** Erasing and writing a bank *)

(** [a[i]] of an array in a structure. *)
Definition arr_get {S} (a : list Z) (i : Z) : M S Z :=
  if i <? 0 then fail OutOfBounds else
  match a !! Z.to_nat i with
  | Some v => ret v
  | None => fail OutOfBounds
  end.

(** The element without the bounds check, for specifications. *)
Definition arr_at (a : list Z) (i : Z) : Z := nth (Z.to_nat i) a 0.

(** [for (sect = s_first; sect <= s_last; ++sect) if (info->protect[sect]) prot++;] *)
Definition count_protected (info : flash_info_t) (s_first s_last : Z) : M sfst Z :=
  loopM (Z.to_nat (s_last - s_first + 2)) (λ '(sect, prot),
    if s_last <? sect then ret (inr prot) else
    let! p := arr_get (fi_protect info) sect in
    ret (inl (sect + 1, if p =? 0 then prot else prot + 1))) (s_first, 0).

(** The second loop, with the return code so far. *)
Definition erase_sectors (n : nat) (info : flash_info_t) (s_first s_last : Z) : M sfst Z :=
  loopM (Z.to_nat (s_last - s_first + 2)) (λ '(sect, rc),
    if s_last <? sect then ret (inr rc) else
    let! c := ctrlc in
    if (c : bool) then ret (inr rc) else
    let! p := arr_get (fi_protect info) sect in
    if p =? 0 then
      let! addr := arr_get (fi_start info) sect in
      let! rc := spi_flash_sector_erase n addr in
      if negb (rc =? ERR_OK) then ret (inr rc) else ret (inl (sect + 1, rc))
    else ret (inl (sect + 1, rc))) (s_first, ERR_OK).

Definition spi_flash_erase (n : nat) (info : flash_info_t) (s_first s_last : Z) : M sfst Z :=
  if (s_first <? 0) || (s_last <? s_first) then ret ERR_INVAL else
  let! _ := count_protected info s_first s_last in
  erase_sectors n info s_first s_last.

(** [while (cnt) *data++ = *src++;] *)
Fixpoint write_bytes (src : list Z) (addr : Z) (cnt : nat) {struct cnt} : M sfst unit :=
  match cnt with
  | O => ret tt
  | S cnt =>
      match src with
      | [] => fail OutOfBounds
      | b :: src => write_byte addr b ;;; write_bytes src (u32 (addr + 1)) cnt
      end
  end.

Definition spi_write_buff (src : list Z) (addr cnt : Z) : M sfst Z :=
  write_reg SPI_WR_EN_CTR 3 ;;;
  write_bytes src addr (Z.to_nat cnt) ;;;
  write_reg SPI_WR_EN_CTR 0 ;;;
  ret ERR_OK.

(** ** Initialisation *)

(** Size and sector count of the chip with an id; the 8 MB default for an
    unknown one. *)
Definition sf_identify (id : Z) : Z * Z :=
  let geometry d := (sd_size d, u16 (sd_size d / sd_sector_size d)) in
  match list_find (λ d, id = sd_id d) sf_ids with
  | Some (_, d) => geometry d
  | None => match sf_ids !! 1%nat with Some d => geometry d | None => (0, 0) end
  end.

(** [while (sfreg->SPI_PROG_CMD_CTR & SF_RUN_CMD);] *)
Definition wait_cmd (n : nat) : M sfst unit :=
  loopM n (λ _ : unit,
    let! v := read_reg SPI_PROG_CMD_CTR in
    if Z.land v SF_RUN_CMD =? 0 then ret (inr tt) else ret (inl tt)) tt.

(** One programmable command: its bytes are in the buffer already. *)
Definition run_cmd (n : nat) (bytes i : Z) : M sfst unit :=
  write_reg SPI_PROG_CMD_CTR (Z.lor bytes (Z.shiftl i 1)) ;;;
  let! v := read_reg SPI_PROG_CMD_CTR in
  write_reg SPI_PROG_CMD_CTR (Z.lor v SF_RUN_CMD) ;;;
  wait_cmd n.

Definition global_unprotect (n : nat) (i : Z) : M sfst unit :=
  let! v := read_reg SPI_INTF_CFG in
  write_reg SPI_INTF_CFG (Z.lor v SF_MANUAL_MODE) ;;;
  write_reg (SPI_PROG_CMD_WBF 0) SF_CMD_WREN ;;;
  run_cmd n 0x01000000 i ;;;
  write_reg (SPI_PROG_CMD_WBF 0) SF_CMD_WRSR ;;;
  write_reg (SPI_PROG_CMD_WBF 1) 0 ;;;
  run_cmd n 0x02000000 i ;;;
  let! v := read_reg SPI_INTF_CFG in
  write_reg SPI_INTF_CFG (Z.land v (Z.lnot SF_MANUAL_MODE)).

Definition sf_update (i : nat) (f : flash_info_t → flash_info_t) : M sfst unit :=
  modify (λ st, sf_set_info (alter f i (sf_info st)) st).

Definition set_geometry (id size count : Z) (fi : flash_info_t) : flash_info_t :=
  FlashInfo size count id (fi_start fi) (fi_protect fi).

(** One iteration of the loop over the banks in [init_spi_flash]. *)
Definition init_bank (n i : nat) : M sfst unit :=
  write_reg SPI_RD_WR_CTR 0x11 ;;;
  let! id := read_reg (if decide (i = 0)%nat then SPI_MEM_0_SR_ACC else SPI_MEM_1_SR_ACC) in
  write_reg SPI_RD_WR_CTR 0x1 ;;;
  let '(size, count) := sf_identify id in
  sf_update i (set_geometry id size count) ;;;
  if Z.shiftr id 16 =? ATMEL_MANUF then
    let! sr := read_reg SPI_MEM_0_SR_ACC in
    if negb (Z.land sr 0x04 =? 0) then global_unprotect n (Z.of_nat i) else ret tt
  else ret tt.

(** The code of a chip size in the configuration register: the last [i] below
    32 with [size >> i == 0x8000], or 0. *)
Definition phy_flash_size (size : Z) : Z :=
  fold_left (λ acc i, if Z.shiftr size (Z.of_nat i) =? 0x8000 then Z.of_nat i else acc)
    (seq 0 32) 0.

Definition bank_size (st : sfst) (i : nat) : Z :=
  default 0 (fi_size <$> sf_info st !! i).

Definition init_spi_flash (n : nat) : M sfst Z :=
  write_reg SPI_RD_WR_CTR 0x1 ;;;
  init_bank n 0 ;;;
  init_bank n 1 ;;;
  let! st := get in
  let size_0 := bank_size st 0 in
  let size_1 := bank_size st 1 in
  let phy_0 := u32 (0xFFFFFFFF - size_0 + 1) in
  let phy_1 := u32 (phy_0 - size_1) in
  modify (sf_set_phy phy_0 phy_1) ;;;
  write_reg CHIP_SEL_0_CFG (Z.lor phy_0 (Z.shiftl (phy_flash_size size_0) 8)) ;;;
  let! _ := read_reg CHIP_SEL_0_CFG in
  write_reg CHIP_SEL_1_CFG (Z.lor phy_1 (Z.shiftl (phy_flash_size size_1) 8)) ;;;
  let! _ := read_reg CHIP_SEL_1_CFG in
  write_reg SPI_INTF_CFG 0x00030000 ;;;
  ret 0.

(** The start addresses: [flashbase], [flashbase + step], ... until the sector
    count or the end of the array. *)
Fixpoint fill_starts (starts : list Z) (j count : nat) (flashbase step : Z) : list Z :=
  match count with
  | O => starts
  | S count =>
      if decide (CFG_MAX_FLASH_SECT ≤ j)%nat then starts
      else fill_starts (<[j := flashbase]> starts) (S j) count (u32 (flashbase + step)) step
  end.

(** The loop body of [spi_flash_init] on one bank. *)
Definition layout_bank (flashbase : Z) (fi : flash_info_t) : flash_info_t :=
  FlashInfo (fi_size fi) (fi_sector_count fi) (fi_flash_id fi)
    (fill_starts (fi_start fi) 0 (Z.to_nat (fi_sector_count fi)) flashbase
       (fi_size fi / fi_sector_count fi))
    (replicate CFG_MAX_FLASH_SECT 0).

Definition spi_flash_init (n : nat) : M sfst Z :=
  let! _ := init_spi_flash n in
  let! st := get in
  sf_update 0 (layout_bank (phy_flash_addr_0 st)) ;;;
  sf_update 1 (layout_bank (phy_flash_addr_1 st)) ;;;
  ret (u32 (bank_size st 0 + bank_size st 1)).

(** ** What a run did

    The sector erase commands of a log, with the address each was given, and
    the bytes written into the flash window. *)

Fixpoint erase_cmds (cur : Z) (log : list event) : list Z :=
  match log with
  | [] => []
  | WriteReg SPI_ER_START_ADDR v :: log => erase_cmds v log
  | WriteReg SPI_ER_CTR _ :: log => cur :: erase_cmds cur log
  | _ :: log => erase_cmds cur log
  end.

Definition byte_writes (log : list event) : list (Z * Z) :=
  omap (λ ev, match ev with WriteByte a v => Some (a, v) | _ => None end) log.

(** A log whose erase commands do not depend on what came before. *)
Definition erases (log : list event) (addrs : list Z) : Prop :=
  ∀ cur, erase_cmds cur log = addrs.

(** From [st] to [st'] the driver erased [er], wrote the bytes [wr], and left its
    variables alone. *)
Definition logged (er : list Z) (wr : list (Z * Z)) (st st' : sfst) : Prop :=
  ∃ l, sf_log st' = sf_log st ++ l ∧ erases l er ∧ byte_writes l = wr.
Definition did (er : list Z) (wr : list (Z * Z)) (st st' : sfst) : Prop :=
  sf_info st' = sf_info st ∧
  phy_flash_addr_0 st' = phy_flash_addr_0 st ∧ phy_flash_addr_1 st' = phy_flash_addr_1 st ∧
  (sf_time st ≤ sf_time st')%nat ∧ logged er wr st st'.

(** Between the two states ctrl-C was seen. *)
Definition ctrlc_in {hw : SfHw} (st st' : sfst) : Prop :=
  ∃ t, (sf_time st ≤ t < sf_time st')%nat ∧ hw_ctrlc t = true.

Fixpoint last_start (cur : Z) (log : list event) : Z :=
  match log with
  | [] => cur
  | WriteReg SPI_ER_START_ADDR v :: log => last_start v log
  | _ :: log => last_start cur log
  end.

Lemma erase_cmds_app cur l1 l2 :
  erase_cmds cur (l1 ++ l2) = erase_cmds cur l1 ++ erase_cmds (last_start cur l1) l2.
Proof.
  revert cur. induction l1 as [|[[]|] l1 IH]; intros cur; simpl; [done|..];
    by rw IH.
Qed.

Lemma erases_app l1 l2 e1 e2 : erases l1 e1 → erases l2 e2 → erases (l1 ++ l2) (e1 ++ e2).
Proof. intros H1 H2 cur. by rw erase_cmds_app H1 H2. Qed.

Lemma did_refl st : did [] [] st st.
Proof. split_and!; [done..|]. exists []. by rw app_nil_r. Qed.

Lemma logged_trans e1 w1 e2 w2 st1 st2 st3 :
  logged e1 w1 st1 st2 → logged e2 w2 st2 st3 → logged (e1 ++ e2) (w1 ++ w2) st1 st3.
Proof.
  intros (l1 & Hl1 & He1 & <-) (l2 & Hl2 & He2 & <-). exists (l1 ++ l2).
  rw Hl2 Hl1 -app_assoc /byte_writes omap_app. split_and!; [done| |done]. by apply erases_app.
Qed.

Lemma did_trans e1 w1 e2 w2 st1 st2 st3 :
  did e1 w1 st1 st2 → did e2 w2 st2 st3 → did (e1 ++ e2) (w1 ++ w2) st1 st3.
Proof.
  intros (Hi & Ha & Hb & Ht & Hl) (Hi' & Ha' & Hb' & Ht' & Hl').
  split_and!; [congruence..|lia|]. by eapply logged_trans.
Qed.

Lemma did_tick st : did [] [] st (sf_tick st).
Proof. split_and!; [done..|simpl; lia|]. exists []. by rw app_nil_r. Qed.

(** Writes to the other registers neither erase nor write bytes. *)
Definition plain_reg (r : sfreg_t) : Prop := r ≠ SPI_ER_CTR ∧ r ≠ SPI_ER_START_ADDR.

Lemma did_reg r v st : plain_reg r → did [] [] st (sf_emit (WriteReg r v) st).
Proof. intros [??]. split_and!; [done..|]. exists [WriteReg r v]. by destruct r. Qed.

Lemma did_byte a v st : did [] [(a, v)] st (sf_emit (WriteByte a v) st).
Proof. split_and!; [done..|]. by exists [WriteByte a v]. Qed.

(** ** A calculus of actions

    [acts er wr m R]: from every state [m] returns a result in [R], having erased
    [er] and written [wr]. *)

Definition acts {A} (er : list Z) (wr : list (Z * Z)) (m : M sfst A) (R : A → Prop) : Prop :=
  ∀ st, wp m (λ a st', did er wr st st' ∧ R a) st.

Lemma acts_ret {A} (a : A) (R : A → Prop) : R a → acts [] [] (ret a) R.
Proof. intros HR st. apply wp_ret. by split; [apply did_refl|]. Qed.

Lemma acts_bind {A B} e1 w1 e2 w2 (m : M sfst A) (k : A → M sfst B) R R' :
  acts e1 w1 m R → (∀ a, R a → acts e2 w2 (k a) R') → acts (e1 ++ e2) (w1 ++ w2) (bind m k) R'.
Proof.
  intros Hm Hk st. apply wp_bind. eapply wp_mono; [apply Hm|]. intros a st1 [Hd1 HR].
  eapply wp_mono; [by apply Hk|]. intros b st2 [Hd2 HR']. split; [by eapply did_trans|done].
Qed.

(** The common case: the first part is silent. *)
Lemma acts_seq {A B} er wr (m : M sfst A) (k : A → M sfst B) R R' :
  acts [] [] m R → (∀ a, R a → acts er wr (k a) R') → acts er wr (bind m k) R'.
Proof. apply (acts_bind [] [] er wr). Qed.

Lemma acts_mono {A} er wr (m : M sfst A) (R R' : A → Prop) :
  acts er wr m R → (∀ a, R a → R' a) → acts er wr m R'.
Proof. intros Hm HR st. eapply wp_mono; [apply Hm|]. intros a st' [??]. auto. Qed.

Lemma acts_read_reg r : acts [] [] (read_reg r) (λ _, True).
Proof. intros st. split; [apply did_tick|done]. Qed.
Lemma acts_timer : acts [] [] get_timer_masked (λ _, True).
Proof. intros st. split; [apply did_tick|done]. Qed.
Lemma acts_ctrlc : acts [] [] ctrlc (λ b, ∃ t, b = hw_ctrlc t).
Proof. intros st. split; [apply did_tick|eauto]. Qed.
Lemma acts_write_reg r v : plain_reg r → acts [] [] (write_reg r v) (λ _, True).
Proof. intros Hr st. split; [by apply did_reg|done]. Qed.
Lemma acts_write_byte a v : acts [] [(a, v)] (write_byte a v) (λ _, True).
Proof. intros st. split; [apply did_byte|done]. Qed.
Lemma acts_arr_get a i v : 0 ≤ i → a !! Z.to_nat i = Some v → acts [] [] (arr_get a i) (λ x, x = v).
Proof.
  intros Hi Ha. rw /arr_get (proj2 (Z.ltb_ge i 0)) // Ha. by apply acts_ret.
Qed.

Lemma acts_flash_error code :
  acts [] [] (flash_error code) (λ rc, rc = flash_error_code code).
Proof.
  rw /flash_error. eapply (acts_seq _ _ _ _ (λ _, True)); [|intros [] _; by apply acts_ret].
  destruct (_ =? _); [by apply acts_ret|by apply acts_write_reg].
Qed.

(** ** Liveness of the hardware *)

(** A poll that starts after [t] reads ends the loop. *)
Definition poll_stops (t : nat) (sr : sfreg_t) : Prop :=
  Z.land (hw_reg (t + 1) sr) 1 = 0 ∨
  flash_error_code (hw_reg (t + 2) SPI_ERROR_STATUS) ≠ ERR_OK ∨
  CFG_FLASH_ERASE_TOUT ≤ hw_timer (t + 3).

(** Within [n] polls the chip is ready, reports an error, or the timer has run
    out; and a programmable command ends within [n] reads. *)
Class SfLive (n : nat) : Prop := {
  live_poll t sr : ∃ k, (k < n)%nat ∧ poll_stops (t + 4 * k) sr;
  live_cmd t : ∃ k, (k < n)%nat ∧ Z.land (hw_reg (t + k) SPI_PROG_CMD_CTR) SF_RUN_CMD = 0
}.

Lemma poll_once_spec sr st :
  wp (poll_once sr) (λ r st', did [] [] st st' ∧
    match r with
    | inl _ => sf_time st' = (sf_time st + 4)%nat ∧ ¬ poll_stops (sf_time st) sr
    | inr r => r ≠ Some ERR_OK
    end) st.
Proof.
  rw /wp /poll_once /flash_error /get_timer_masked /read_reg /write_reg /modify /bind /ret /=.
  assert (did [] [] st (sf_tick (sf_tick st))) as H2
    by (eapply (did_trans [] [] [] []); apply did_tick).
  assert (∀ st', did [] [] st st' → did [] [] st (sf_tick st')) as Ht
    by (intros st' H; eapply (did_trans [] [] [] []); [done|apply did_tick]).
  destruct (Z.eqb_spec (Z.land (hw_reg (S (sf_time st)) sr) 1) 0) as [|Hsr]; [done|].
  set (code := hw_reg (S (S (sf_time st))) SPI_ERROR_STATUS).
  destruct (decide (flash_error_code code = ERR_OK)) as [Hc|Hc].
  - rw Hc /=. destruct (Z.ltb_spec (hw_timer (S (S (S (sf_time st))))) CFG_FLASH_ERASE_TOUT); [|auto].
    split_and!; [auto|simpl; lia|]. rw /poll_stops !Nat.add_succ_r Nat.add_0_r. naive_solver lia.
  - rw !(proj2 (Z.eqb_neq (flash_error_code code) ERR_OK)) //=. split; [|by intros [= ?]].
    eapply (did_trans [] [] [] []); [by apply Ht|]. by apply did_reg.
Qed.

Lemma erase_poll_stops sr k n st :
  (k < n)%nat → poll_stops (sf_time st + 4 * k) sr →
  wp (erase_poll n sr) (λ r st', did [] [] st st' ∧ r ≠ Some ERR_OK) st.
Proof.
  rw /erase_poll. revert n st. induction k as [|k IH]; intros n st Hk Hstop;
    (destruct n as [|n]; [lia|]); apply wp_loop_step; (eapply wp_mono; [apply poll_once_spec|]);
    intros [[]|r] st' [Hd Hr]; [| by split| | by split].
  - destruct Hr as [_ Hr]. by rw Nat.mul_0_r Nat.add_0_r in Hstop.
  - destruct Hr as [Htime _]. eapply wp_mono; [apply IH; [lia|]|].
    + rw Htime. by replace (sf_time st + 4 + 4 * k)%nat with (sf_time st + 4 * S k)%nat by lia.
    + intros r st2 [Hd2 Hr]. split; [|done]. by eapply (did_trans [] [] [] []).
Qed.

Section live.
Context (n : nat) {live : SfLive n}.

Lemma acts_erase_poll sr : acts [] [] (erase_poll n sr) (λ r, r ≠ Some ERR_OK).
Proof.
  intros st. destruct (live_poll (sf_time st) sr) as (k & Hk & Hstop). by eapply erase_poll_stops.
Qed.

Definition sector_of (addr : Z) : Z := Z.land addr 0xFFFF0000.

Lemma acts_sector_erase_cs wr_en sr addr :
  acts [sector_of addr] [] (sector_erase_cs n wr_en sr addr) (λ _, True).
Proof.
  intros st. rw /sector_erase_cs. do 3 (apply wp_bind, wp_modify). set (st3 := sf_emit _ _).
  assert (did [sector_of addr] [] st st3) as Hd.
  { split_and!; [done..|]. eexists. rw /= -!app_assoc. by split. }
  apply (wp_mono _ (λ r st', did [] [] st3 st' ∧ True)).
  2:{ intros rc st' [Hd' _]. split; [|done]. apply (did_trans _ _ [] [] _ _ _ Hd Hd'). }
  apply (acts_seq [] [] _ _ _ (λ _, True) (acts_erase_poll sr)). intros [rc|] _; [by apply acts_ret|].
  eapply acts_seq; [apply acts_timer|]. intros t _. destruct (_ <=? _).
  - eapply acts_mono; [apply acts_flash_error|done].
  - eapply acts_seq; [by apply acts_write_reg|]. intros _ _. by apply acts_ret.
Qed.

Lemma acts_sector_erase addr :
  acts [sector_of addr] [] (spi_flash_sector_erase n addr) (λ _, True).
Proof.
  intros st. apply wp_bind, wp_get. destruct (_ <=? _); apply acts_sector_erase_cs.
Qed.

(** ** Erasing a range of sectors *)

(** The sectors [first..last] without protection, as erase addresses. *)
Definition open_sectors (info : flash_info_t) (first last : Z) : list Z :=
  (λ i, sector_of (arr_at (fi_start info) i)) <$>
    filter (λ i, arr_at (fi_protect info) i = 0) (seqZ first (last - first + 1)).

Definition arrays_ok (info : flash_info_t) : Prop :=
  length (fi_start info) = CFG_MAX_FLASH_SECT ∧ length (fi_protect info) = CFG_MAX_FLASH_SECT.

Lemma open_sectors_nil info first : open_sectors info first (first - 1) = [].
Proof. rw /open_sectors. by replace (first - 1 - first + 1) with 0 by lia. Qed.

Lemma open_sectors_snoc info first k :
  first ≤ k →
  open_sectors info first k =
  open_sectors info first (k - 1) ++
    (if decide (arr_at (fi_protect info) k = 0) then [sector_of (arr_at (fi_start info) k)] else []).
Proof.
  intros Hk. rw /open_sectors. replace (k - 1 - first + 1) with (k - first) by lia.
  replace (k - first + 1) with (Z.of_nat (S (Z.to_nat (k - first)))) by lia.
  rw seqZ_S Z2Nat.id; [lia|]. replace (first + (k - first)) with k by lia.
  rw filter_app fmap_app. f_equal. rw filter_cons filter_nil. by destruct (decide _).
Qed.

Lemma arr_at_lookup a i : 0 ≤ i < Z.of_nat (length a) → a !! Z.to_nat i = Some (arr_at a i).
Proof. intros Hi. rw /arr_at. destruct (nth_lookup_or_length a (Z.to_nat i) 0); [done|lia]. Qed.

Lemma acts_arr_at a i :
  0 ≤ i < Z.of_nat (length a) → acts [] [] (arr_get a i) (λ v, v = arr_at a i).
Proof. intros Hi. apply acts_arr_get; [lia|]. by apply arr_at_lookup. Qed.

Section bank.
Context (info : flash_info_t) (s_first s_last : Z).
Hypothesis (Hinfo : arrays_ok info) (Hrange : 0 ≤ s_first ≤ s_last) (Hlast : s_last < 512).

Lemma acts_count_protected : acts [] [] (count_protected info s_first s_last) (λ _, True).
Proof.
  intros st. rw /count_protected.
  apply (wp_loop (λ '(sect, _) st', s_first ≤ sect ≤ s_last + 1 ∧ did [] [] st st')
           (λ '(sect, _), Z.to_nat (s_last + 1 - sect))).
  - intros [sect prot] st1 [Hs Hd]. destruct (Z.ltb_spec s_last sect); [by apply wp_ret|].
    apply wp_bind. eapply wp_mono.
    { apply acts_arr_at. destruct Hinfo as [_ ->]. rw /CFG_MAX_FLASH_SECT. lia. }
    intros p st2 [Hd2 _]. apply wp_ret. split; [|lia]. split; [lia|].
    by eapply (did_trans [] [] [] []).
  - split; [lia|apply did_refl].
  - lia.
Qed.

(** The driver stopped after sector [k - 1]. *)
Definition erased_to (k : Z) (st st' : sfst) : Prop :=
  s_first ≤ k ≤ s_last + 1 ∧ did (open_sectors info s_first (k - 1)) [] st st'.

Lemma erased_to_skip k st st' :
  k ≤ s_last → erased_to k st st' → arr_at (fi_protect info) k ≠ 0 → erased_to (k + 1) st st'.
Proof.
  intros Hk [Hr Hd] Hp. split; [lia|]. replace (k + 1 - 1) with k by lia.
  rw open_sectors_snoc; [lia|]. rw decide_False // app_nil_r. done.
Qed.

Lemma erased_to_erase k st st' st'' :
  k ≤ s_last → erased_to k st st' → arr_at (fi_protect info) k = 0 →
  did [sector_of (arr_at (fi_start info) k)] [] st' st'' → erased_to (k + 1) st st''.
Proof.
  intros Hk [Hr Hd] Hp Hd'. split; [lia|]. replace (k + 1 - 1) with k by lia.
  rw open_sectors_snoc; [lia|]. rw decide_True //. apply (did_trans _ [] _ [] _ _ _ Hd Hd').
Qed.

Lemma erased_to_silent k st st' st'' :
  erased_to k st st' → did [] [] st' st'' → erased_to k st st''.
Proof.
  intros [Hr Hd] Hd'. split; [done|]. pose proof (did_trans _ _ _ _ _ _ _ Hd Hd') as H.
  by rw app_nil_r in H.
Qed.

Lemma erase_sectors_spec st :
  wp (erase_sectors n info s_first s_last) (λ rc st', ∃ k, erased_to k st st' ∧
    (rc = ERR_OK → k = s_last + 1 ∨ ctrlc_in st st') ∧
    (rc ≠ ERR_OK → s_first < k)) st.
Proof.
  rw /erase_sectors.
  apply (wp_loop (λ '(sect, rc) st', rc = ERR_OK ∧ erased_to sect st st')
           (λ '(sect, _), Z.to_nat (s_last + 1 - sect))).
  2:{ split; [done|]. split; [lia|]. rw open_sectors_nil. apply did_refl. }
  2:{ lia. }
  intros [sect rc] st1 [-> He]. destruct (Z.ltb_spec s_last sect).
  { apply wp_ret. exists sect. split; [done|]. destruct He. split; [lia|done]. }
  pose proof He as [Hs _]. destruct Hinfo as [Hl1 Hl2].
  apply wp_bind. apply (wp_of_run _ _ _ (hw_ctrlc (sf_time st1)) (sf_tick st1)); [done|].
  pose proof (did_tick st1) as Hd2. set (st2 := sf_tick st1) in *.
  pose proof (erased_to_silent _ _ _ _ He Hd2) as He2. destruct (hw_ctrlc (sf_time st1)) eqn:Hc.
  { apply wp_ret. exists sect. split; [done|]. split; [|done]. intros _. right. exists (sf_time st1).
    destruct He as (_ & _ & _ & _ & Ht & _). split; [|done]. rw /st2 /=. lia. }
  apply wp_bind. eapply wp_mono.
  { apply acts_arr_at. rw Hl2 /CFG_MAX_FLASH_SECT. lia. }
  intros p st3 [Hd3 ->]. pose proof (erased_to_silent _ _ _ _ He2 Hd3) as He3.
  destruct (Z.eqb_spec (arr_at (fi_protect info) sect) 0) as [Hp|Hp].
  2:{ apply wp_ret. split; [|lia]. split; [done|]. by apply erased_to_skip. }
  apply wp_bind. eapply wp_mono.
  { apply acts_arr_at. rw Hl1 /CFG_MAX_FLASH_SECT. lia. }
  intros addr st4 [Hd4 ->]. pose proof (erased_to_silent _ _ _ _ He3 Hd4) as He4.
  apply wp_bind. eapply wp_mono; [apply acts_sector_erase|]. intros rc st5 [Hd5 _].
  pose proof (erased_to_erase sect _ _ _ ltac:(lia) He4 Hp Hd5) as He5.
  destruct (Z.eqb_spec rc ERR_OK) as [->|Hrc]; apply wp_ret.
  - split; [done|lia].
  - exists (sect + 1). split; [done|]. split; [by intros ->|lia].
Qed.

Lemma wp_spi_flash_erase st :
  wp (spi_flash_erase n info s_first s_last) (λ rc st', ∃ k, erased_to k st st' ∧
    (rc = ERR_OK → k = s_last + 1 ∨ ctrlc_in st st') ∧
    (rc ≠ ERR_OK → s_first < k)) st.
Proof.
  rw /spi_flash_erase. rw (proj2 (Z.ltb_ge s_first 0)); [lia|].
  rw (proj2 (Z.ltb_ge s_last s_first)); [lia|]. simpl.
  apply wp_bind. eapply wp_mono; [apply acts_count_protected|]. intros _ st1 [Hd1 _].
  eapply wp_mono; [apply erase_sectors_spec|]. intros rc st2 (k & [Hk Hd2] & Hrc).
  exists k. split; [split; [done|]; apply (did_trans [] [] _ _ _ _ _ Hd1 Hd2)|].
  destruct Hrc as [Hrc ?]. split; [|done]. intros [?|(t & Ht & ?)]%Hrc; [by left|right].
  destruct Hd1 as (_ & _ & _ & Ht1 & _). exists t. split; [lia|done].
Qed.

(** A pressed ctrl-C stops the erase before its first command, without an
    error. *)
Lemma acts_erase_ctrlc :
  (∀ t, hw_ctrlc t = true) → acts [] [] (spi_flash_erase n info s_first s_last) (λ rc, rc = ERR_OK).
Proof.
  intros Hc. rw /spi_flash_erase. rw (proj2 (Z.ltb_ge s_first 0)); [lia|].
  rw (proj2 (Z.ltb_ge s_last s_first)); [lia|]. simpl.
  eapply acts_seq; [apply acts_count_protected|]. intros _ _ st. rw /erase_sectors.
  destruct (Z.to_nat (s_last - s_first + 2)) as [|m] eqn:Hm; [lia|]. apply wp_loop_step.
  rw (proj2 (Z.ltb_ge s_last s_first)); [lia|]. apply wp_bind.
  eapply wp_mono; [apply acts_ctrlc|]. intros c st' [Hd [t ->]]. rw Hc. by apply wp_ret.
Qed.

End bank.

(** ** Writing *)

(** [src] at [addr], [addr + 1], ..., with 32-bit addresses. *)
Fixpoint placed (addr : Z) (src : list Z) : list (Z * Z) :=
  match src with
  | [] => []
  | b :: src => (addr, b) :: placed (u32 (addr + 1)) src
  end.

Lemma acts_write_bytes src addr cnt :
  (cnt ≤ length src)%nat → acts [] (placed addr (take cnt src)) (write_bytes src addr cnt) (λ _, True).
Proof.
  revert src addr. induction cnt as [|cnt IH]; intros src addr Hc; simpl.
  - by apply (acts_ret tt).
  - destruct src as [|b src]; simpl in *; [lia|].
    apply (acts_bind [] [(addr, b)] [] (placed _ _) _ _ _ _ (acts_write_byte addr b)).
    intros _ _. apply IH. lia.
Qed.

Lemma acts_spi_write_buff src addr cnt :
  cnt ≤ Z.of_nat (length src) →
  acts [] (placed addr (take (Z.to_nat cnt) src)) (spi_write_buff src addr cnt) (λ rc, rc = ERR_OK).
Proof.
  intros Hc. rw /spi_write_buff. eapply acts_seq; [by apply acts_write_reg|]. intros _ _.
  rw -(app_nil_r (placed _ _)). apply (acts_bind [] _ [] [] _ _ (λ _, True)).
  { apply acts_write_bytes. lia. }
  intros _ _. eapply acts_seq; [by apply acts_write_reg|]. intros _ _. by apply acts_ret.
Qed.

(** ** Initialisation *)

Lemma acts_wait_cmd : acts [] [] (wait_cmd n) (λ _, True).
Proof.
  intros st. destruct (live_cmd (sf_time st)) as (k & Hk & Hstop). rw /wait_cmd.
  assert (∀ m st, (k < m)%nat → Z.land (hw_reg (sf_time st + k) SPI_PROG_CMD_CTR) SF_RUN_CMD = 0 →
    wp (loopM m (λ _ : unit, let! v := read_reg SPI_PROG_CMD_CTR in
          if Z.land v SF_RUN_CMD =? 0 then ret (inr tt) else ret (inl tt)) tt)
      (λ _ st', did [] [] st st' ∧ True) st) as H; [|by apply H].
  clear Hk Hstop st. induction k as [|k IH]; intros m st Hk Hstop; (destruct m as [|m]; [lia|]);
    apply wp_loop_step, wp_bind; rw {1}/wp /read_reg.
  - rw Nat.add_0_r in Hstop. rw Hstop /=. apply wp_ret. split; [apply did_tick|done].
  - destruct (_ =? _); apply wp_ret; [split; [apply did_tick|done]|].
    eapply wp_mono; [apply IH; [lia|]|].
    + simpl. by rw Nat.add_succ_r in Hstop.
    + intros _ st' [Hd _]. split; [|done]. apply (did_trans [] [] [] [] _ _ _ (did_tick st) Hd).
Qed.

Ltac acts_steps :=
  repeat first
    [ eapply acts_seq; [first [by apply acts_write_reg | apply acts_read_reg | apply acts_wait_cmd]|];
      intros ? _
    | by apply acts_write_reg | by apply acts_ret | apply acts_wait_cmd ].

Lemma acts_run_cmd bytes i : acts [] [] (run_cmd n bytes i) (λ _, True).
Proof. rw /run_cmd. acts_steps. Qed.

Lemma acts_global_unprotect i : acts [] [] (global_unprotect n i) (λ _, True).
Proof.
  rw /global_unprotect. acts_steps. eapply acts_seq; [apply acts_run_cmd|]. intros _ _.
  acts_steps. eapply acts_seq; [apply acts_run_cmd|]. intros _ _. acts_steps.
Qed.

(** What identifying a bank leaves behind. *)
Definition identified (i : nat) (st st' : sfst) : Prop :=
  (∃ id, sf_info st' =
     alter (set_geometry id (sf_identify id).1 (sf_identify id).2) i (sf_info st)) ∧
  phy_flash_addr_0 st' = phy_flash_addr_0 st ∧ phy_flash_addr_1 st' = phy_flash_addr_1 st ∧
  logged [] [] st st'.

Lemma init_bank_spec i st : wp (init_bank n i) (λ _ st', identified i st st') st.
Proof.
  rw /init_bank. apply wp_bind. eapply wp_mono; [by apply acts_write_reg|]. intros [] st1 [Hd1 _].
  apply wp_bind. eapply wp_mono; [apply acts_read_reg|]. intros id st2 [Hd2 _].
  apply wp_bind. eapply wp_mono; [by apply acts_write_reg|]. intros [] st3 [Hd3 _].
  destruct (sf_identify id) as [size count] eqn:Hid. apply wp_bind, wp_modify.
  set (st4 := sf_set_info _ _).
  pose proof (did_trans _ _ _ _ _ _ _ (did_trans _ _ _ _ _ _ _ Hd1 Hd2) Hd3) as (Hi & Ha & Hb & _ & Hl).
  assert (acts [] [] (if Z.shiftr id 16 =? ATMEL_MANUF then
            let! sr := read_reg SPI_MEM_0_SR_ACC in
            if negb (Z.land sr 0x04 =? 0) then global_unprotect n (Z.of_nat i) else ret tt
          else ret tt) (λ _, True)) as Hrest.
  { destruct (_ =? _); [|by apply acts_ret]. eapply acts_seq; [apply acts_read_reg|]. intros sr _.
    destruct (negb _); [apply acts_global_unprotect|by apply acts_ret]. }
  eapply wp_mono; [apply (Hrest st4)|]. intros _ st5 [(Hi5 & Ha5 & Hb5 & _ & Hl5) _]. split_and!.
  - exists id. rw Hid Hi5 /= Hi. done.
  - by rw Ha5 /= Ha.
  - by rw Hb5 /= Hb.
  - apply (logged_trans [] [] [] [] _ st4 _ Hl Hl5).
Qed.

End live.

(** ** Geometry *)

Definition SECTOR : Z := 0x10000.

(** A bank of [k] sectors of 64 KB from [base] on, inside the 32-bit space. *)
Definition spi_bank (base k : Z) (fi : flash_info_t) : Prop :=
  fi_size fi = k * SECTOR ∧ fi_sector_count fi = k ∧ 1 ≤ k ≤ 256 ∧ arrays_ok fi ∧
  base mod SECTOR = 0 ∧ 0 < base ∧ base + k * SECTOR ≤ 2 ^ 32 ∧
  ∀ i, 0 ≤ i < k → arr_at (fi_start fi) i = base + i * SECTOR.

Lemma sf_identify_geometry id : ∃ k, sf_identify id = (k * SECTOR, k) ∧ 1 ≤ k ≤ 256.
Proof.
  assert (Forall (λ d, sd_sector_size d = SECTOR ∧ sd_size d = sd_size d / SECTOR * SECTOR ∧
                       1 ≤ sd_size d / SECTOR ≤ 256) sf_ids) as Hall.
  { by apply (bool_decide_unpack _). }
  assert (∀ d, d ∈ sf_ids → ∃ k, (sd_size d, u16 (sd_size d / sd_sector_size d)) = (k * SECTOR, k)
                ∧ 1 ≤ k ≤ 256) as Hd.
  { intros d Hin. rw Forall_forall in Hall. destruct (Hall d Hin) as (-> & Hs & Hk).
    exists (sd_size d / SECTOR). split; [|done]. rw -Hs. f_equal. apply wrap_small. lia. }
  rw /sf_identify. destruct (list_find _ sf_ids) as [[i d]|] eqn:Hf.
  - apply list_find_Some in Hf as (Hf & _). apply Hd. by eapply list_elem_of_lookup_2.
  - apply Hd. by eapply (list_elem_of_lookup_2 _ 1).
Qed.

Lemma fill_starts_spec count starts j base step :
  (j + count ≤ 512)%nat → length starts = 512%nat →
  0 ≤ base → 0 < step → base + Z.of_nat count * step ≤ 2 ^ 32 →
  length (fill_starts starts j count base step) = 512%nat ∧
  (∀ i, (i < j)%nat → nth i (fill_starts starts j count base step) 0 = nth i starts 0) ∧
  (∀ i, (i < count)%nat →
     nth (j + i) (fill_starts starts j count base step) 0 = base + Z.of_nat i * step).
Proof.
  revert starts j base. induction count as [|count IH]; intros starts j base Hj Hl H0 Hs Hb; simpl.
  { split_and!; [done..|]. lia. }
  destruct (decide (CFG_MAX_FLASH_SECT ≤ j)%nat) as [H|_]; [rw /CFG_MAX_FLASH_SECT in H; lia|].
  assert (count = 0%nat ∨ u32 (base + step) = base + step) as Hu.
  { destruct count; [by left|right]. apply wrap_small. nia. }
  assert (nth j (<[j:=base]> starts) 0 = base) as Hj0.
  { apply nth_lookup_Some. apply list_lookup_insert_eq. lia. }
  destruct Hu as [->|Hu].
  - simpl. rw length_insert. split_and!; [done| |].
    + intros i Hi. rw !nth_lookup list_lookup_insert_ne //. lia.
    + intros i Hi. assert (i = 0%nat) as -> by lia. rw Nat.add_0_r Hj0. lia.
  - rw Hu. destruct (IH (<[j:=base]> starts) (S j) (base + step)) as (IHl & IHold & IHnew);
      [lia|by rw length_insert|lia..|]. split_and!; [done| |].
    + intros i Hi. rw IHold; [lia|]. rw !nth_lookup list_lookup_insert_ne //. lia.
    + intros [|i] Hi.
      * rw Nat.add_0_r IHold; [lia|]. rw Hj0. lia.
      * replace (j + S i)%nat with (S j + i)%nat by lia. rw IHnew; [lia|]. lia.
Qed.

Lemma layout_bank_spec base k fi :
  fi_size fi = k * SECTOR → fi_sector_count fi = k → 1 ≤ k ≤ 256 →
  length (fi_start fi) = CFG_MAX_FLASH_SECT → base mod SECTOR = 0 → 0 < base →
  base + k * SECTOR ≤ 2 ^ 32 → spi_bank base k (layout_bank base fi).
Proof.
  intros Hs Hc Hk Hl Hm H0 Hb.
  destruct (fill_starts_spec (Z.to_nat k) (fi_start fi) 0 base SECTOR) as (Hl' & _ & Hn);
    [lia|done|lia|done|rw Z2Nat.id; lia|].
  assert (k * SECTOR / k = SECTOR) as Hdiv by (rw Z.mul_comm Z.div_mul; lia).
  rw /spi_bank /layout_bank /arrays_ok; cbn [fi_size fi_sector_count fi_start fi_protect].
  rw Hs Hc Hdiv Hl' length_replicate. split_and!; try done; [lia..|].
  intros i Hi. rw /arr_at. specialize (Hn (Z.to_nat i) ltac:(lia)). rw Nat.add_0_l in Hn.
  rw Hn Z2Nat.id; lia.
Qed.



(** The banks end at the top of the address space, the second below the first,
    and no sector is protected. *)
Definition spi_geometry (k0 k1 : Z) (fi0 fi1 : flash_info_t) (phy_0 phy_1 : Z) : Prop :=
  phy_0 = 2 ^ 32 - k0 * SECTOR ∧ phy_1 = 2 ^ 32 - (k0 + k1) * SECTOR ∧
  spi_bank phy_0 k0 fi0 ∧ spi_bank phy_1 k1 fi1 ∧
  fi_protect fi0 = replicate CFG_MAX_FLASH_SECT 0 ∧ fi_protect fi1 = replicate CFG_MAX_FLASH_SECT 0.

Lemma sector_aligned_top k : (2 ^ 32 - k * SECTOR) mod SECTOR = 0.
Proof. apply Z.mod_divide; [done|]. exists (65536 - k). rw /SECTOR. lia. Qed.

Lemma acts_init_tail v0 v1 :
  acts [] [] (write_reg CHIP_SEL_0_CFG v0 ;;; let! _ := read_reg CHIP_SEL_0_CFG in
              write_reg CHIP_SEL_1_CFG v1 ;;; let! _ := read_reg CHIP_SEL_1_CFG in
              write_reg SPI_INTF_CFG 0x00030000 ;;; ret 0) (λ _, True).
Proof.
  do 5 (eapply acts_seq; [first [by apply acts_write_reg | apply acts_read_reg]|]; intros ? _).
  by apply acts_ret.
Qed.

Lemma wp_spi_flash_init n `{!SfLive n} fi0 fi1 st :
  sf_info st = [fi0; fi1] → arrays_ok fi0 → arrays_ok fi1 →
  wp (spi_flash_init n) (λ size st', ∃ k0 k1 fi0' fi1',
    sf_info st' = [fi0'; fi1'] ∧ size = (k0 + k1) * SECTOR ∧
    spi_geometry k0 k1 fi0' fi1' (phy_flash_addr_0 st') (phy_flash_addr_1 st') ∧
    logged [] [] st st') st.
Proof.
  intros Hinfo [Ha0 _] [Ha1 _]. rw /spi_flash_init /init_spi_flash. apply wp_bind.
  apply wp_bind. eapply wp_mono; [by apply acts_write_reg|]. intros [] st1 [(Hi1 & _ & _ & _ & Hl1) _].
  apply wp_bind. eapply wp_mono; [by apply init_bank_spec|]. intros [] st2 ([id0 Hi2] & _ & _ & Hl2).
  apply wp_bind. eapply wp_mono; [by apply init_bank_spec|]. intros [] st3 ([id1 Hi3] & _ & _ & Hl3).
  destruct (sf_identify_geometry id0) as (k0 & Hk0 & Hr0).
  destruct (sf_identify_geometry id1) as (k1 & Hk1 & Hr1).
  rw Hi2 Hi1 Hinfo Hk0 Hk1 /= in Hi3. apply wp_bind, wp_get.
  rw /bank_size Hi3; cbn [lookup list_lookup fmap option_fmap option_map default from_option
                          set_geometry fi_size id].
  assert (u32 (4294967295 - k0 * SECTOR + 1) = 2 ^ 32 - k0 * SECTOR) as ->.
  { rw /u32 wrap_small; rw /SECTOR; lia. }
  assert (u32 (2 ^ 32 - k0 * SECTOR - k1 * SECTOR) = 2 ^ 32 - (k0 + k1) * SECTOR) as ->.
  { rw /u32 wrap_small; rw /SECTOR; lia. }
  apply wp_bind, wp_modify. set (st4 := sf_set_phy _ _ st3).
  assert (logged [] [] st st4) as Hl4.
  { apply (logged_trans [] [] [] [] _ st2); [|done]. by apply (logged_trans [] [] [] [] _ st1). }
  eapply wp_mono; [apply (acts_init_tail _ _ st4)|]. intros _ st5 [(Hi5 & Hp0 & Hp1 & _ & Hl5) _].
  apply wp_bind, wp_get, wp_bind, wp_modify, wp_bind, wp_modify, wp_ret.
  exists k0, k1. rw /= Hi5 /= Hi3 Hp0 Hp1 /=. do 2 eexists. split_and!; [done| | |].
  - rw /u32 wrap_small; rw /SECTOR; lia.
  - split_and!; [done..| | |done|done]; apply layout_bank_spec; try done;
      first [apply sector_aligned_top | rw /SECTOR; lia].
  - by apply (logged_trans [] [] [] [] _ st4).
Qed.

End driver.

(** A controller that is always ready, with chips that answer the id 0. *)
#[local] Instance quiet_hw : SfHw :=
  {| hw_reg _ _ := 0; hw_timer _ := 0; hw_ctrlc _ := false |}.

#[local] Instance quiet_live : SfLive 1.
Proof. split; [intros t sr|intros t]; exists 0%nat; (split; [lia|]); [by left|done]. Qed.

Definition blank_bank : flash_info_t :=
  FlashInfo 0 0 0 (replicate CFG_MAX_FLASH_SECT 0) (replicate CFG_MAX_FLASH_SECT 0).
Definition blank_sf : sfst := SfSt 0 [] [blank_bank; blank_bank] 0 0.

(** C28: [spi_flash_init] lays the banks out for every pair of chips.  Whatever the
    chips answer, it returns; the first bank ends at the top of the 32-bit
    address space and the second just below the first; both are 64 KB sectors,
    aligned, unprotected, within the arrays; the size returned is their sum; and
    nothing is erased or programmed. *)
Theorem spi_flash_init_geometry {hw : SfHw} n fi0 fi1 st :
  SfLive n → sf_info st = [fi0; fi1] → arrays_ok fi0 → arrays_ok fi1 →
  wp (spi_flash_init n) (λ size st', ∃ k0 k1 fi0' fi1',
    sf_info st' = [fi0'; fi1'] ∧ size = (k0 + k1) * SECTOR ∧
    spi_geometry k0 k1 fi0' fi1' (phy_flash_addr_0 st') (phy_flash_addr_1 st') ∧
    logged [] [] st st') st.
Proof. intros. by eapply wp_spi_flash_init. Qed.

Lemma spi_flash_init_geometry_witness :
  wp (spi_flash_init 1) (λ size st', ∃ k0 k1 fi0' fi1',
    sf_info st' = [fi0'; fi1'] ∧ size = (k0 + k1) * SECTOR ∧
    spi_geometry k0 k1 fi0' fi1' (phy_flash_addr_0 st') (phy_flash_addr_1 st') ∧
    logged [] [] blank_sf st') blank_sf.
Proof.
  apply (spi_flash_init_geometry 1 blank_bank blank_bank blank_sf); [apply _|done..].
Defined.

(** [spi_flash_erase] erases the unprotected sectors, in order, and nothing
    else.  For a range inside the arrays it returns; the erase commands it gave
    are those of the unprotected sectors from [s_first] up to some sector, and it
    programs no byte; when it returns 0 and no ctrl-C came during it they are all
    the unprotected sectors of the range, and when it returns an error it has
    passed the first sector. *)
Theorem spi_flash_erase_exact {hw : SfHw} n info s_first s_last st :
  SfLive n → arrays_ok info → 0 ≤ s_first ≤ s_last → s_last < 512 →
  wp (spi_flash_erase n info s_first s_last) (λ rc st', ∃ k,
    s_first ≤ k ≤ s_last + 1 ∧ did (open_sectors info s_first (k - 1)) [] st st' ∧
    (rc = ERR_OK → k = s_last + 1 ∨ ctrlc_in st st') ∧
    (rc ≠ ERR_OK → s_first < k)) st.
Proof.
  intros Hlive Hinfo Hr Hl. eapply wp_mono; [by apply wp_spi_flash_erase|].
  intros rc st' (k & [Hk Hd] & Hrc). by exists k.
Qed.

Lemma spi_flash_erase_exact_witness :
  wp (spi_flash_erase 1 blank_bank 3 5) (λ rc st', ∃ k,
    3 ≤ k ≤ 5 + 1 ∧ did (open_sectors blank_bank 3 (k - 1)) [] blank_sf st' ∧
    (rc = ERR_OK → k = 5 + 1 ∨ ctrlc_in blank_sf st') ∧ (rc ≠ ERR_OK → 3 < k)) blank_sf.
Proof. apply (spi_flash_erase_exact 1 blank_bank 3 5 blank_sf); [apply _|done|lia..]. Defined.
