(* ===== verification/NorFlash.v ===== *)
(** * NOR and NAND flash drivers (u-boot/board/wmt/flash/nor_flash_8bit.c, nor_flash_16bit.c,
      nand_flash.c)

    The two NOR drivers are one text with different bus widths; here they share
    their loops and differ in a [port] and in the tables of chips.  The flash, the
    timer and the registers of the memory controller answer reads as functions of
    the history of the bus, so a chip may have any state. *)

From Stdlib Require Import ssreflect ZArith Lia ZifyBool.
From stdpp Require Import base tactics numbers list.
From S2P Require Import Prelude SpiFlash.

Set Default Goal Selector "!".
Open Scope general_if_scope.
#[local] Open Scope Z_scope.

(** ** The bus *)

Inductive bus_event :=
| BusR (a v : Z)     (** a read of a word of the bus width *)
| BusR8 (a v : Z)    (** a read of a byte *)
| BusW (a v : Z)     (** a write of a word of the bus width *)
| IoR (a v : Z)      (** a register of the memory controller *)
| IoW (a v : Z)
| TimerR (v : Z).    (** [get_timer_masked] *)

(** The answers, by what happened before. *)
Class NorHw := {
  bus_read : list bus_event → Z → Z;
  bus_read8 : list bus_event → Z → Z;
  io_read : list bus_event → Z → Z;
  nor_timer : list bus_event → Z
}.

Record norst := NorSt {
  n_hist : list bus_event;
  n_info : list flash_info_t   (** [flash_info_nor] *)
}.

Definition n_emit ev st := NorSt (n_hist st ++ [ev]) (n_info st).
Definition n_set_info v st := NorSt (n_hist st) v.

(** The width of [FPW] in bytes and the two unlock offsets, in words. *)
Record port := Port { fpw_size : Z; unlock1 : Z; unlock2 : Z }.
Definition port8 : port := Port 1 0x0AAA 0x0555.
Definition port16 : port := Port 2 0x0555 0x02AA.

Definition FPW (p : port) (v : Z) : Z := v mod 2 ^ (8 * fpw_size p).
(** [&base[i]] *)
Definition at_idx (p : port) (base i : Z) : Z := u32 (base + i * fpw_size p).

(** ** Chips (include/flash.h) *)

Definition FLASH_VENDMASK : Z := 0xFFFF0000.
Definition FLASH_TYPEMASK : Z := 0x0000FFFF.
Definition FLASH_BTYPE : Z := 0x0001.
Definition FLASH_MAN_AMD : Z := 0x00000000.
Definition FLASH_MAN_MX : Z := 0x00030000.
Definition FLASH_MAN_INTEL : Z := 0x00300000.
Definition FLASH_MAN_EON : Z := 0x00700000.
Definition FLASH_MAN_NUM : Z := 0x00800000.

Definition AMD_MANUFACT : Z := 0x00010001.
Definition INTEL_MANUFACT : Z := 0x00890089.
Definition MX_MANUFACT : Z := 0x00C200C2.
Definition EON_MANUFACT : Z := 0x007F007F.
Definition NUM_MANUFACT : Z := 0x00200020.

Definition EON_ID_LV640U : Z := 0x22D722D7.
Definition EON_ID_LV640T : Z := 0x22C922C9.
Definition EON_ID_LV640H : Z := 0x227E227E.
Definition EON_ID_LV640B : Z := 0x22CB22CB.
Definition NOR_IDALL (x y : Z) : Z := Z.lor (Z.shiftl x 16) y.
Definition NX_M29W640GT : Z := 0x22102201.
Definition NX_M29W640GB : Z := 0x22102200.
Definition NX_M29W640GH : Z := 0x220C2201.
Definition NX_M29W640GL : Z := 0x220C2200.
Definition NX_M29W128GH : Z := 0x22212201.
Definition NX_M29W128GL : Z := 0x22212200.

Definition FLASH_INTEL800B : Z := 0x75.
Definition FLASH_INTEL160B : Z := 0x77.
Definition FLASH_INTEL320B : Z := 0x79.
Definition FLASH_INTEL640B : Z := 0x7B.
Definition FLASH_AM640U : Z := 0x90.
Definition FLASH_28F800C3B : Z := 0x9B.
Definition FLASH_28F160C3B : Z := 0x9D.
Definition FLASH_28F320C3B : Z := 0x9F.
Definition FLASH_28F640C3B : Z := 0xA1.
Definition FLASH_EON29LV640U : Z := 0xF1.
Definition FLASH_EON29LV640H : Z := 0xF2.
Definition FLASH_EON29LV640B : Z := 0xF3.
Definition FLASH_MX29LV640B : Z := 0xF4.
Definition FLASH_MX29LV640T : Z := 0xF5.
Definition FLASH_NUM29W640GT : Z := 0xF6.
Definition FLASH_NUM29W640GB : Z := 0xF7.
Definition FLASH_NUM29W640GHL : Z := 0xF8.
Definition FLASH_NUM29W128GHL : Z := 0xF9.
Definition FLASH_MX29GL256E : Z := 0xFA.

Definition vendor (info : flash_info_t) : Z := Z.land (fi_flash_id info) FLASH_VENDMASK.
Definition chip_type (info : flash_info_t) : Z := Z.land (fi_flash_id info) FLASH_TYPEMASK.

(** The Intel chips: id, type, sectors, bytes on a 16-bit bus. *)
Definition intel_ids : list (Z * Z * Z * Z) :=
  [(0x88C188C1, FLASH_28F800C3B, 23, 0x00100000);
   (0x88938893, FLASH_INTEL800B, 23, 0x00100000);
   (0x88C388C3, FLASH_28F160C3B, 39, 0x00200000);
   (0x88918891, FLASH_INTEL160B, 39, 0x00200000);
   (0x88C588C5, FLASH_28F320C3B, 71, 0x00400000);
   (0x88978897, FLASH_INTEL320B, 71, 0x00400000);
   (0x88CD88CD, FLASH_28F640C3B, 135, 0x00800000);
   (0x88998899, FLASH_INTEL640B, 135, 0x00800000)].

(** [info->flash_id += type; info->sector_count = count; info->size = size;] *)
Definition add_type (info : flash_info_t) (type count size : Z) : flash_info_t :=
  FlashInfo size count (u32 (fi_flash_id info + type)) (fi_start info) (fi_protect info).
Definition set_id (info : flash_info_t) (id : Z) : flash_info_t :=
  FlashInfo (fi_size info) (fi_sector_count info) id (fi_start info) (fi_protect info).
(** [info->flash_id = FLASH_UNKNOWN; info->sector_count = 0; info->size = 0;] *)
Definition no_chip (info : flash_info_t) : flash_info_t :=
  FlashInfo 0 0 FLASH_UNKNOWN (fi_start info) (fi_protect info).
Definition set_size (info : flash_info_t) (size : Z) : flash_info_t :=
  FlashInfo size (fi_sector_count info) (fi_flash_id info) (fi_start info) (fi_protect info).

(** The Intel cases of the switch on the device; [None] is [default]. *)
Definition intel_device (p : port) (dev : Z) (info : flash_info_t) : option flash_info_t :=
  match list_find (λ '(id, _, _, _), dev = FPW p id) intel_ids with
  | Some (_, (_, type, count, size)) => Some (add_type info type count (size * (fpw_size p / 2)))
  | None => None
  end.

(** [for (i = lo; i < hi; i++) a[i] = f(i);] *)
Definition fill_from (lo hi : Z) (f : Z → Z) (a : list Z) : list Z :=
  imap (λ i x, if (lo <=? Z.of_nat i) && (Z.of_nat i <? hi) then f (Z.of_nat i) else x) a.

Definition set_starts (info : flash_info_t) (start : list Z) : flash_info_t :=
  FlashInfo (fi_size info) (fi_sector_count info) (fi_flash_id info) start (fi_protect info).
(** The loops that also clear the protection. *)
Definition set_layout (info : flash_info_t) (f : Z → Z) : flash_info_t :=
  FlashInfo (fi_size info) (fi_sector_count info) (fi_flash_id info)
    (fill_from 0 (fi_sector_count info) f (fi_start info))
    (fill_from 0 (fi_sector_count info) (λ _, 0) (fi_protect info)).

Definition bottom_boot (base i : Z) : Z :=
  if i <? 8 then u32 (base + i * 0x2000) else u32 (base + 8 * 0x2000 + (i - 8) * 0x10000).
Definition top_boot (base i : Z) : Z :=
  if i <? 127 then u32 (base + i * 0x10000) else u32 (base + 127 * 0x10000 + (i - 127) * 0x2000).
Definition uniform (base size i : Z) : Z := u32 (base + i * size).

Definition is_chip (info : flash_info_t) (v t : Z) : bool := (vendor info =? v) && (chip_type info =? t).

(** The Intel layout: eight boot sectors and regular ones. *)
Definition intel_offsets (p : port) (base : Z) (info : flash_info_t) : flash_info_t :=
  let bootsect_size := 0x2000 * (fpw_size p / 2) in
  let sect_size := 0x10000 * (fpw_size p / 2) in
  set_starts info
    (fill_from 8 (fi_sector_count info) (λ i, u32 (base + (i - 7) * sect_size))
      (fill_from 0 8 (λ i, u32 (base + i * bootsect_size)) (fi_start info))).

Definition is_intel_boot (info : flash_info_t) : bool :=
  (vendor info =? FLASH_MAN_INTEL) && negb (Z.land (fi_flash_id info) FLASH_BTYPE =? 0).

(** [flash_get_offsets], first match wins. *)
Definition flash_get_offsets_8b (base : Z) (info : flash_info_t) : flash_info_t :=
  if is_intel_boot info then intel_offsets port8 base info
  else if is_chip info FLASH_MAN_AMD FLASH_AM640U then
    set_starts info (fill_from 0 (fi_sector_count info)
      (uniform base (0x10000 * (fpw_size port8 / 2))) (fi_start info))
  else if is_chip info FLASH_MAN_EON FLASH_EON29LV640B then set_layout info (bottom_boot base)
  else if is_chip info FLASH_MAN_MX FLASH_MX29LV640B then set_layout info (bottom_boot base)
  else if is_chip info FLASH_MAN_EON FLASH_EON29LV640U then set_layout info (top_boot base)
  else if is_chip info FLASH_MAN_MX FLASH_MX29LV640T then set_layout info (top_boot base)
  else info.

Definition flash_get_offsets_16b (base : Z) (info : flash_info_t) : flash_info_t :=
  let starts f := set_starts info (fill_from 0 (fi_sector_count info) f (fi_start info)) in
  if is_intel_boot info then intel_offsets port16 base info
  else if is_chip info FLASH_MAN_AMD FLASH_AM640U then
    starts (uniform base (0x10000 * (fpw_size port16 / 2)))
  else if is_chip info FLASH_MAN_EON FLASH_EON29LV640U then set_layout info (top_boot base)
  else if is_chip info FLASH_MAN_MX FLASH_MX29LV640T then set_layout info (top_boot base)
  else if is_chip info FLASH_MAN_EON FLASH_EON29LV640B then set_layout info (bottom_boot base)
  else if is_chip info FLASH_MAN_MX FLASH_MX29LV640B then set_layout info (bottom_boot base)
  else if is_chip info FLASH_MAN_MX FLASH_MX29GL256E then set_layout info (uniform base 0x20000)
  else if is_chip info FLASH_MAN_EON FLASH_EON29LV640H then starts (uniform base 0x10000)
  else if is_chip info FLASH_MAN_NUM FLASH_NUM29W640GT then set_layout info (top_boot base)
  else if is_chip info FLASH_MAN_NUM FLASH_NUM29W640GB then set_layout info (bottom_boot base)
  else if is_chip info FLASH_MAN_NUM FLASH_NUM29W640GHL then starts (uniform base 0x10000)
  else if is_chip info FLASH_MAN_NUM FLASH_NUM29W128GHL then starts (uniform base 0x20000)
  else info.

(** The vendor from the manufacturer code. *)
Definition set_vendor_8b (man : Z) (info : flash_info_t) : flash_info_t :=
  let eqb m := man =? m mod 256 in
  if eqb AMD_MANUFACT then set_id info FLASH_MAN_AMD
  else if eqb INTEL_MANUFACT then set_id info FLASH_MAN_INTEL
  else if eqb EON_MANUFACT then set_id info FLASH_MAN_EON
  else if eqb MX_MANUFACT then set_id info FLASH_MAN_MX
  else no_chip info.

Definition set_vendor_16b (man : Z) (info : flash_info_t) : flash_info_t :=
  if man =? NUM_MANUFACT mod 256 then set_id info FLASH_MAN_NUM else set_vendor_8b man info.

(** The switch on the device code; [None] is [default]. *)
Definition set_device_8b (dev : Z) (info : flash_info_t) : option flash_info_t :=
  let eqb id := dev =? FPW port8 id in
  if eqb EON_ID_LV640U then Some (add_type info FLASH_EON29LV640U 128 0x00800000)
  else if eqb EON_ID_LV640B then
    Some (add_type info (if fi_flash_id info =? FLASH_MAN_MX then FLASH_MX29LV640B
                         else FLASH_EON29LV640B) 135 0x00800000)
  else if eqb EON_ID_LV640T then
    Some (add_type info (if fi_flash_id info =? FLASH_MAN_MX then FLASH_MX29LV640T
                         else FLASH_EON29LV640U) 135 0x00800000)
  else intel_device port8 dev info.

(** The chips that share the device code 0x227E. *)
Definition set_device_640H (DevId1 : Z) (info : flash_info_t) : flash_info_t :=
  if fi_flash_id info =? FLASH_MAN_NUM then
    let eqb id := DevId1 =? id in
    if eqb NX_M29W640GT then add_type info FLASH_NUM29W640GT 135 0x00800000
    else if eqb NX_M29W640GB then add_type info FLASH_NUM29W640GB 135 0x00800000
    else if eqb NX_M29W640GH || eqb NX_M29W640GL then add_type info FLASH_NUM29W640GHL 128 0x00800000
    else if eqb NX_M29W128GH || eqb NX_M29W128GL then add_type info FLASH_NUM29W128GHL 128 0x01000000
    else add_type info FLASH_NUM29W640GHL 128 0x00800000
  else if fi_flash_id info =? FLASH_MAN_EON then add_type info FLASH_EON29LV640H 128 0x00800000
  else if fi_flash_id info =? FLASH_MAN_MX then add_type info FLASH_MX29GL256E 256 0x02000000
  else info.

Definition set_device_16b (dev DevId1 : Z) (info : flash_info_t) : option flash_info_t :=
  let eqb id := dev =? FPW port16 id in
  let size := 0x00800000 * (fpw_size port16 / 2) in
  if eqb EON_ID_LV640U then Some (add_type info FLASH_EON29LV640U 128 size)
  else if eqb EON_ID_LV640B then
    Some (add_type info (if fi_flash_id info =? FLASH_MAN_MX then FLASH_MX29LV640B
                         else FLASH_EON29LV640B) 135 size)
  else if eqb EON_ID_LV640H then Some (set_device_640H DevId1 info)
  else if eqb EON_ID_LV640T then
    Some (add_type info (if fi_flash_id info =? FLASH_MAN_MX then FLASH_MX29LV640T
                         else FLASH_EON29LV640U) 135 size)
  else intel_device port16 dev info.

Section driver.
Context {hw : NorHw}.

Definition rd (a : Z) : M norst Z :=
  λ st, let v := bus_read (n_hist st) a in Ok (v, n_emit (BusR a v) st).
Definition rd8 (a : Z) : M norst Z :=
  λ st, let v := bus_read8 (n_hist st) a in Ok (v, n_emit (BusR8 a v) st).
Definition wr (a v : Z) : M norst unit := modify (n_emit (BusW a v)).
Definition io_rd (a : Z) : M norst Z :=
  λ st, let v := io_read (n_hist st) a in Ok (v, n_emit (IoR a v) st).
Definition io_wr (a v : Z) : M norst unit := modify (n_emit (IoW a v)).
(** [get_timer(base)] (cpu/arm926ejs/interrupts.c) *)
Definition nor_get_timer (base : Z) : M norst Z :=
  λ st, let v := nor_timer (n_hist st) in Ok (u32 (v - base), n_emit (TimerR v) st).

(** ** [flash_reset] *)

Definition flash_reset_8b (info : flash_info_t) : M norst unit :=
  let! base := arr_get (fi_start info) 0 in
  if vendor info =? FLASH_MAN_INTEL then wr base (FPW port8 0x00FF00FF)
  else if vendor info =? FLASH_MAN_AMD then wr base (FPW port8 0x00F000F0)
  else if vendor info =? FLASH_MAN_EON then wr base (FPW port8 0x00F000F0)
  else if vendor info =? FLASH_MAN_MX then wr base (FPW port8 0x00F000F0)
  else ret tt.

Definition flash_reset_16b (info : flash_info_t) : M norst unit :=
  let! base := arr_get (fi_start info) 0 in
  if vendor info =? FLASH_MAN_INTEL then wr base (FPW port16 0x00FF00FF)
  else wr base (FPW port16 0x00F000F0).

(** ** Identification *)

(** The auto select command. *)
Definition auto_select (p : port) (addr : Z) : M norst unit :=
  wr (at_idx p addr (unlock1 p)) (FPW p 0x00AA00AA) ;;;
  wr (at_idx p addr (unlock2 p)) (FPW p 0x00550055) ;;;
  wr (at_idx p addr (unlock1 p)) (FPW p 0x00900090).

(** [nor_flash_get_size]: the size and the new contents of [*info]. *)
Definition nor_flash_get_size_8b (addr : Z) (info : flash_info_t) : M norst (Z * flash_info_t) :=
  auto_select port8 addr ;;;
  let! _ := rd (at_idx port8 addr 0) in
  let! _ := rd (at_idx port8 addr 2) in
  let! man := rd (at_idx port8 addr 0) in
  let info := set_vendor_8b (Z.land man 0xFF) info in
  let! r := (if fi_flash_id info =? FLASH_UNKNOWN then ret (Some info) else
             let! dev := rd (at_idx port8 addr 2) in
             ret (set_device_8b dev info)) in
  match r with
  | None => ret (0, no_chip info)
  | Some info =>
      let info := flash_get_offsets_8b addr info in
      flash_reset_8b info ;;;
      ret (fi_size info, info)
  end.

Definition nor_flash_get_size_16b (addr : Z) (info : flash_info_t) : M norst (Z * flash_info_t) :=
  auto_select port16 addr ;;;
  let! _ := rd (at_idx port16 addr 0) in
  let! _ := rd (at_idx port16 addr 1) in
  let! x := rd (at_idx port16 addr 14) in
  let! y := rd (at_idx port16 addr 15) in
  let DevId1 := NOR_IDALL (Z.land x 0xFFFF) (Z.land y 0xFFFF) in
  let! man := rd (at_idx port16 addr 0) in
  let info := set_vendor_16b (Z.land man 0xFF) info in
  let! r := (if fi_flash_id info =? FLASH_UNKNOWN then ret (Some info) else
             let! dev := rd (at_idx port16 addr 1) in
             ret (set_device_16b dev DevId1 info)) in
  match r with
  | None => ret (0, no_chip info)
  | Some info =>
      let info := flash_get_offsets_16b addr info in
      flash_reset_16b info ;;;
      ret (fi_size info, info)
  end.

(** ** Initialisation *)

Definition CFG_NOR_FLASH_BASE : list Z := [0xFE000000; 0xFE800000; 0xFF000000; 0xFF800000].
Definition NOR_FLASH_8M : Z := 6.

(** One bank: identified, stored, its size added. *)
Definition nor_init_bank (get_size : Z → flash_info_t → M norst (Z * flash_info_t))
    (i : nat) (base size : Z) : M norst Z :=
  let! st := get in
  match n_info st !! i with
  | None => fail OutOfBounds
  | Some info =>
      let! r := get_size base (set_id info FLASH_UNKNOWN) in
      let '(size_b, info) := r in
      modify (λ st, n_set_info (<[i := set_size info size_b]> (n_info st)) st) ;;;
      ret (u32 (size + size_b))
  end.

(** The loop over the banks.  [flash_base] is set only when the straps say NOR
    flash; otherwise the loop reads it uninitialised. *)
Definition nor_init (get_size : Z → flash_info_t → M norst (Z * flash_info_t))
    (setup : M norst unit) (val : Z) : M norst Z :=
  if negb (Z.land (Z.shiftr val 1) 3 =? 2) then fail Uninit else
  setup ;;;
  for_fold (imap pair CFG_NOR_FLASH_BASE) (λ size '(i, base), nor_init_bank get_size i base size) 0.

(** The windows of the four chip selects. *)
Definition nor_windows : M norst unit :=
  io_wr 0xd8009460 (Z.lor 0xFE000000 NOR_FLASH_8M) ;;;
  io_wr 0xd8009464 (Z.lor 0xFE800000 NOR_FLASH_8M) ;;;
  io_wr 0xd8009468 (Z.lor 0xFF000000 NOR_FLASH_8M) ;;;
  io_wr 0xd800946c (Z.lor 0xFF800000 NOR_FLASH_8M).

(** [*reg &= 0xffffff07; *reg |= (0x1F<<3);] *)
Definition nor_timing (reg : Z) : M norst unit :=
  let! v := io_rd reg in
  io_wr reg (Z.land v 0xFFFFFF07) ;;;
  let! v := io_rd reg in
  io_wr reg (Z.lor v (Z.shiftl 0x1F 3)).

Definition nor_flash_8b_init (val : Z) : M norst Z :=
  nor_init nor_flash_get_size_8b nor_windows val.
Definition nor_flash_16b_init (val : Z) : M norst Z :=
  nor_init nor_flash_get_size_16b
    (nor_windows ;;; nor_timing 0xd8009408 ;;; nor_timing 0xd8009418 ;;;
     nor_timing 0xd8009428 ;;; nor_timing 0xd8009438) val.

(** ** Erasing *)

Definition nor_count_protected (info : flash_info_t) (s_first s_last : Z) : M norst Z :=
  loopM (Z.to_nat (s_last - s_first + 2)) (λ '(sect, prot),
    if s_last <? sect then ret (inr prot) else
    let! p := arr_get (fi_protect info) sect in
    ret (inl (sect + 1, if p =? 0 then prot else prot + 1))) (s_first, 0).

(** The wait for the erased sector: 0, or 1 after a timeout. *)
Definition nor_erase_wait (n : nat) (p : port) (reset : flash_info_t → M norst unit)
    (info : flash_info_t) (addr start : Z) : M norst Z :=
  loopM n (λ _ : unit,
    let! v := rd addr in
    if Z.land v (FPW p 0x00800080) =? FPW p 0x00800080 then ret (inr 0) else
    let! now := nor_get_timer start in
    if CFG_FLASH_ERASE_TOUT <? now then
      (if vendor info =? FLASH_MAN_INTEL then wr addr (FPW p 0x00B000B0) else ret tt) ;;;
      reset info ;;;
      ret (inr 1)
    else ret (inl tt)) tt.

(** One sector that is not protected. *)
Definition nor_erase_sector (n : nat) (p : port) (reset : flash_info_t → M norst unit)
    (info : flash_info_t) (sect : Z) : M norst Z :=
  let! start := nor_get_timer 0 in
  let! addr := arr_get (fi_start info) sect in
  (if vendor info =? FLASH_MAN_INTEL then
     wr addr (FPW p 0x00500050) ;;;
     wr addr (FPW p 0x00200020) ;;;
     wr addr (FPW p 0x00D000D0)
   else
     let! base := arr_get (fi_start info) 0 in
     wr (at_idx p base (unlock1 p)) (FPW p 0x00AA00AA) ;;;
     wr (at_idx p base (unlock2 p)) (FPW p 0x00550055) ;;;
     wr (at_idx p base (unlock1 p)) (FPW p 0x00800080) ;;;
     wr (at_idx p base (unlock1 p)) (FPW p 0x00AA00AA) ;;;
     wr (at_idx p base (unlock2 p)) (FPW p 0x00550055) ;;;
     wr addr (FPW p 0x00300030)) ;;;
  let! rcode := nor_erase_wait n p reset info addr start in
  reset info ;;;
  ret rcode.

(** [types] are the cases of the switch that do not abort. *)
Definition nor_erase (n : nat) (p : port) (reset : flash_info_t → M norst unit) (types : list Z)
    (info : flash_info_t) (s_first s_last : Z) : M norst Z :=
  if (s_first <? 0) || (s_last <? s_first) then ret 1 else
  if negb (bool_decide (chip_type info ∈ types)) then ret 1 else
  nor_count_protected info s_first s_last ;;;
  loopM (Z.to_nat (s_last - s_first + 2)) (λ sect,
    if s_last <? sect then ret (inr 0) else
    let! prot := arr_get (fi_protect info) sect in
    if negb (prot =? 0) then ret (inl (sect + 1)) else
    let! rcode := nor_erase_sector n p reset info sect in
    if rcode =? 0 then ret (inl (sect + 1)) else ret (inr rcode)) s_first.

Definition erase_types_8b : list Z :=
  [FLASH_INTEL800B; FLASH_INTEL160B; FLASH_INTEL320B; FLASH_INTEL640B; FLASH_28F800C3B;
   FLASH_28F160C3B; FLASH_28F320C3B; FLASH_28F640C3B; FLASH_AM640U; FLASH_EON29LV640U;
   FLASH_EON29LV640B; FLASH_MX29LV640B; FLASH_MX29LV640T].
Definition erase_types_16b : list Z :=
  erase_types_8b ++
  [FLASH_EON29LV640H; FLASH_MX29GL256E; FLASH_NUM29W640GT; FLASH_NUM29W640GB;
   FLASH_NUM29W640GHL; FLASH_NUM29W128GHL].

Definition nor_flash_8b_erase (n : nat) : flash_info_t → Z → Z → M norst Z :=
  nor_erase n port8 flash_reset_8b erase_types_8b.
Definition nor_flash_16b_erase (n : nat) : flash_info_t → Z → Z → M norst Z :=
  nor_erase n port16 flash_reset_16b erase_types_16b.

(** ** Writing *)

Definition CFG_FLASH_WRITE_TOUT : Z := 3 * 3000000.

(** Data polling for D7: 0, or 1 after a timeout. *)
Definition poll_d7 (n : nat) (p : port) (dest data start : Z) : M norst Z :=
  loopM n (λ _ : unit,
    let! v := rd dest in
    if Z.land v (FPW p 0x00800080) =? Z.land data (FPW p 0x00800080) then ret (inr 0) else
    let! t := nor_get_timer start in
    if CFG_FLASH_WRITE_TOUT <? t then wr dest (FPW p 0x00F000F0) ;;; ret (inr 1)
    else ret (inl tt)) tt.

(** The text of [write_word_amd], [write_word_eon] and [write_word_mx]. *)
Definition write_word_eon (n : nat) (p : port) (info : flash_info_t) (dest data : Z) : M norst Z :=
  let! v := rd dest in
  if negb (Z.land v data =? data) then ret 2 else
  let! base := arr_get (fi_start info) 0 in
  wr (at_idx p base (unlock1 p)) (FPW p 0x00AA00AA) ;;;
  wr (at_idx p base (unlock2 p)) (FPW p 0x00550055) ;;;
  wr (at_idx p base (unlock1 p)) (FPW p 0x00A000A0) ;;;
  wr dest data ;;;
  let! start := nor_get_timer 0 in
  poll_d7 n p dest data start.
Definition write_word_amd := write_word_eon.
Definition write_word_mx := write_word_eon.

Definition write_word_intel (n : nat) (p : port) (info : flash_info_t) (dest data : Z) : M norst Z :=
  let! v := rd dest in
  if negb (Z.land v data =? data) then ret 2 else
  wr dest (FPW p 0x00500050) ;;;
  wr dest (FPW p 0x00FF00FF) ;;;
  wr dest (FPW p 0x00400040) ;;;
  wr dest data ;;;
  let! start := nor_get_timer 0 in
  let! res := loopM n (λ _ : unit,
    let! v := rd dest in
    if Z.land v (FPW p 0x00800080) =? FPW p 0x00800080 then ret (inr 0) else
    let! t := nor_get_timer start in
    if CFG_FLASH_WRITE_TOUT <? t then wr dest (FPW p 0x00B000B0) ;;; ret (inr 1)
    else ret (inl tt)) tt in
  let! res := (if res =? 0 then
                 let! v := rd dest in
                 ret (if negb (Z.land v (FPW p 0x00100010) =? 0) then 1 else res)
               else ret res) in
  wr dest (FPW p 0x00500050) ;;;
  wr dest (FPW p 0x00FF00FF) ;;;
  ret res.

Definition swab16 (x : Z) : Z := Z.lor (Z.shiftl (Z.land x 0xFF) 8) (Z.land (Z.shiftr x 8) 0xFF).

(** One word by the vendor of the chip. *)
Definition write_word_8b (n : nat) (info : flash_info_t) (dest data : Z) : M norst Z :=
  if vendor info =? FLASH_MAN_AMD then
    write_word_amd n port8 info dest data ;;;
    write_word_eon n port8 info dest data
  else if vendor info =? FLASH_MAN_EON then write_word_eon n port8 info dest data
  else if vendor info =? FLASH_MAN_MX then write_word_mx n port8 info dest data
  else if vendor info =? FLASH_MAN_INTEL then write_word_intel n port8 info dest data
  else ret 1.

Definition write_word_16b (n : nat) (info : flash_info_t) (dest data : Z) : M norst Z :=
  if vendor info =? FLASH_MAN_AMD then
    write_word_amd n port16 info dest data ;;;
    write_word_eon n port16 info dest (swab16 data)
  else if (vendor info =? FLASH_MAN_EON) || (vendor info =? FLASH_MAN_NUM) then
    write_word_eon n port16 info dest (swab16 data)
  else if vendor info =? FLASH_MAN_MX then write_word_mx n port16 info dest (swab16 data)
  else if vendor info =? FLASH_MAN_INTEL then write_word_intel n port16 info dest data
  else ret 1.

(** The loop that combines source and destination bytes: [k] bytes from [i] on. *)
Fixpoint combine (p : port) (addr bytes lft : Z) (k : nat) (i data : Z) (src : list Z)
    : M norst (Z * list Z) :=
  match k with
  | O => ret (data, src)
  | S k =>
      let data := FPW p (data * 256) in
      if (i <? bytes) || (lft <=? i - bytes) then
        let! b := rd8 (u32 (addr + i)) in
        combine p addr bytes lft k (i + 1) (FPW p (data + b)) src
      else
        match src with
        | [] => fail OutOfBounds
        | b :: src => combine p addr bytes lft k (i + 1) (FPW p (data + b)) src
        end
  end.

Definition nor_write_buff (p : port) (write_word : Z → Z → M norst Z)
    (src : list Z) (addr cnt : Z) : M norst Z :=
  let w := fpw_size p in
  loopM (S (Z.to_nat (s32 cnt))) (λ '(addr, lft, data, src),
    if lft <=? 0 then ret (inr 0) else
    let bytes := Z.land addr (w - 1) in
    let addr := Z.land addr (u32 (Z.lnot (w - 1))) in
    let! r := combine p addr bytes lft (Z.to_nat w) 0 data src in
    let '(data, src) := r in
    let! res := write_word addr data in
    if res =? 0 then ret (inl (u32 (addr + w), lft - (w - bytes), data, src))
    else ret (inr res)) (addr, s32 cnt, 0, src).

Definition nor_flash_8b_write_buff (n : nat) (info : flash_info_t) (src : list Z) (addr cnt : Z)
    : M norst Z :=
  nor_write_buff port8 (write_word_8b n info) src addr cnt.
Definition nor_flash_16b_write_buff (n : nat) (info : flash_info_t) (src : list Z) (addr cnt : Z)
    : M norst Z :=
  nor_write_buff port16 (write_word_16b n info) src addr cnt.

(** ** The NAND driver *)

Definition nand_flash_init : Z := 0.
Definition nand_flash_erase (info : flash_info_t) (s_first s_last : Z) : Z := 0.
Definition nand_write_buff (info : flash_info_t) (src : list Z) (addr cnt : Z) : Z := 0.

End driver.
