(* ===== verification/FlashCmd.v ===== *)
(** * Flash commands (u-boot/common/flash.c, common/cmd_flash.c, board/wmt/flash.c)

    The layer between the commands [erase], [protect] and [cp], the environment,
    and the chip drivers: the table [flash_info] of banks and sectors, the
    choice of sectors for an address range, protection, and the dispatch to the
    driver of the boot medium: SpiFlash for serial flash, NorFlash for NOR flash and
    the stubs for NAND flash. *)

From Stdlib Require Import ssreflect ZArith Lia ZifyBool String.
From stdpp Require Import base tactics numbers list.
From S2P Require Import Prelude Ctype Vsprintf SpiFlash NorFlash.

Set Default Goal Selector "!".
Open Scope general_if_scope.
#[local] Open Scope Z_scope.

(** ** State *)

Definition CFG_MAX_FLASH_BANKS : nat := 4.

Inductive BOOT_FLASH_TYPE := NOR_FLASH_TYPE | NAND_FLASH_TYPE | SPI_FLASH_TYPE | MMC_FLASH_TYPE.
Inductive BOOT_BIT_TYPE := BOOT_TYPE_8BIT | BOOT_TYPE_16BIT.
#[export] Instance BOOT_FLASH_TYPE_eq_dec : EqDecision BOOT_FLASH_TYPE.
Proof. solve_decision. Defined.

Record board := Board {
  b_sf : sfst;                     (** the serial flash driver *)
  b_info : list flash_info_t;      (** [flash_info] *)
  b_nor : norst;                   (** the NOR driver, with [flash_info_nor] *)
  b_nand : list flash_info_t;      (** [flash_info_nand] *)
  b_type : BOOT_FLASH_TYPE;        (** [flash_type] *)
  b_nor_bit : BOOT_BIT_TYPE;       (** [nor_flash_bit] *)
  b_nand_bit : BOOT_BIT_TYPE       (** [nand_flash_bit] *)
}.

Definition set_sf b v := Board v (b_info b) (b_nor b) (b_nand b) (b_type b) (b_nor_bit b)
  (b_nand_bit b).
Definition set_info v b := Board (b_sf b) v (b_nor b) (b_nand b) (b_type b) (b_nor_bit b)
  (b_nand_bit b).
Definition set_types t nb db b := Board (b_sf b) (b_info b) (b_nor b) (b_nand b) t nb db.
Definition set_nor b v := Board (b_sf b) (b_info b) v (b_nand b) (b_type b) (b_nor_bit b)
  (b_nand_bit b).
Definition on_sf {A} (m : M sfst A) : M board A := zoom b_sf set_sf m.
Definition on_nor {A} (m : M norst A) : M board A := zoom b_nor set_nor m.

(** ** board/wmt/flash.c *)

Definition get_boot_flash_type (chip_id val : Z) : BOOT_FLASH_TYPE :=
  let strap mask := Z.land (Z.shiftr val 1) mask in
  if chip_id =? 0x3426 then
    if strap 3 =? 0 then NOR_FLASH_TYPE
    else if strap 3 =? 1 then NAND_FLASH_TYPE
    else SPI_FLASH_TYPE
  else if (chip_id =? 0x3437) || (chip_id =? 0x3451) then
    if strap 1 =? 0 then SPI_FLASH_TYPE
    else if (Z.land (Z.shiftr val 19) 1 =? 0) && (chip_id =? 0x3451) then NOR_FLASH_TYPE
    else NAND_FLASH_TYPE
  else if chip_id =? 0x3445 then
    if strap 3 =? 0 then SPI_FLASH_TYPE
    else if strap 3 =? 1 then NAND_FLASH_TYPE
    else if strap 3 =? 2 then NOR_FLASH_TYPE
    else MMC_FLASH_TYPE
  else SPI_FLASH_TYPE.

Definition get_boot_nor_flash_bit_type (val : Z) : BOOT_BIT_TYPE :=
  if Z.land (Z.shiftr val 1) 3 =? 2 then
    if Z.land (Z.shiftr val 3) 1 =? 0 then BOOT_TYPE_8BIT else BOOT_TYPE_16BIT
  else BOOT_TYPE_16BIT.

Definition get_boot_nand_flash_bit_type (chip_id val : Z) : BOOT_BIT_TYPE :=
  let v := if (chip_id =? 0x3426) || (chip_id =? 0x3445) then Z.land (Z.shiftr val 3) 1
           else Z.land (Z.shiftr val 2) 1 in
  if v =? 0 then BOOT_TYPE_8BIT else BOOT_TYPE_16BIT.

(** A bank after [memset(flash_info, 0xff, ...)]. *)
Definition ff_bank : flash_info_t :=
  FlashInfo 0xFFFFFFFF 0xFFFF 0xFFFFFFFF (replicate CFG_MAX_FLASH_SECT 0xFFFFFFFF)
    (replicate CFG_MAX_FLASH_SECT 0xFF).

Section flash.
Context {hw : SfHw} {nhw : NorHw}.

(** Copying the first banks of a driver's table to [flash_info]. *)
Definition copy_banks (src : list flash_info_t) : M board unit :=
  modify (λ b, set_info (take CFG_MAX_FLASH_BANKS
                           (src ++ drop (length src) (b_info b))) b).

Definition flash_init (n : nat) (chip_id val : Z) : M board Z :=
  let t := get_boot_flash_type chip_id val in
  let nb := get_boot_nor_flash_bit_type val in
  modify (set_types t nb (get_boot_nand_flash_bit_type chip_id val)) ;;;
  modify (set_info (replicate CFG_MAX_FLASH_BANKS ff_bank)) ;;;
  match t with
  | NOR_FLASH_TYPE =>
      let! rc := match nb with
                 | BOOT_TYPE_8BIT => on_nor (nor_flash_8b_init val)
                 | BOOT_TYPE_16BIT => on_nor (nor_flash_16b_init val)
                 end in
      let! b := get in
      copy_banks (n_info (b_nor b)) ;;;
      ret rc
  | NAND_FLASH_TYPE =>
      let! b := get in
      copy_banks (b_nand b) ;;;
      ret nand_flash_init
  | SPI_FLASH_TYPE =>
      let! rc := on_sf (spi_flash_init n) in
      let! b := get in
      copy_banks (sf_info (b_sf b)) ;;;
      ret rc
  | MMC_FLASH_TYPE => ret 0
  end.

Definition flash_erase (n : nat) (info : flash_info_t) (s_first s_last : Z) : M board Z :=
  let! b := get in
  match b_type b with
  | NOR_FLASH_TYPE =>
      match b_nor_bit b with
      | BOOT_TYPE_8BIT => on_nor (nor_flash_8b_erase n info s_first s_last)
      | BOOT_TYPE_16BIT => on_nor (nor_flash_16b_erase n info s_first s_last)
      end
  | NAND_FLASH_TYPE => ret (nand_flash_erase info s_first s_last)
  | SPI_FLASH_TYPE => on_sf (spi_flash_erase n info s_first s_last)
  | MMC_FLASH_TYPE => ret 0
  end.

Definition write_buff (n : nat) (info : flash_info_t) (src : list Z) (addr cnt : Z) : M board Z :=
  let! b := get in
  match b_type b with
  | NOR_FLASH_TYPE =>
      match b_nor_bit b with
      | BOOT_TYPE_8BIT => on_nor (nor_flash_8b_write_buff n info src addr cnt)
      | BOOT_TYPE_16BIT => on_nor (nor_flash_16b_write_buff n info src addr cnt)
      end
  | NAND_FLASH_TYPE => ret (nand_write_buff info src addr cnt)
  | SPI_FLASH_TYPE => on_sf (spi_write_buff src addr cnt)
  | MMC_FLASH_TYPE => ret 0
  end.

(** ** common/flash.c *)

Definition FLAG_PROTECT_SET : Z := 1.
Definition FLAG_PROTECT_CLEAR : Z := 2.

(** The last address of a bank. *)
Definition bank_end (info : flash_info_t) (start0 : Z) : Z := u32 (start0 + fi_size info - 1).

(** [info->protect[i] = v] *)
Definition set_protect (i v : Z) : M flash_info_t unit := λ info,
  if decide (0 ≤ i < Z.of_nat (length (fi_protect info))) then
    Ok (tt, FlashInfo (fi_size info) (fi_sector_count info) (fi_flash_id info) (fi_start info)
              (<[Z.to_nat i := v]> (fi_protect info)))
  else Err OutOfBounds.

(** The last address of sector [i]: [(i == s_end) ? b_end : info->start[i + 1] - 1]. *)
Definition sector_end {S} (info : flash_info_t) (s_end b_end i : Z) : M S Z :=
  if i =? s_end then ret b_end else
  let! next := arr_get (fi_start info) (i + 1) in
  ret (u32 (next - 1)).

Definition flash_protect (flag from to : Z) : M flash_info_t unit :=
  let! info := get in
  let! start0 := arr_get (fi_start info) 0 in
  let b_end := bank_end info start0 in
  let s_end := s16 (fi_sector_count info - 1) in
  if (fi_sector_count info =? 0) || (fi_size info =? 0) || (to <? from) then ret tt else
  if (fi_flash_id info =? FLASH_UNKNOWN) || (to <? start0) || (b_end <? from) then ret tt else
  for_fold (seqZ 0 (fi_sector_count info)) (λ _ i,
    let! e := sector_end info s_end b_end i in
    let! s := arr_get (fi_start info) i in
    if (from <=? e) && (s <=? to) then
      if negb (Z.land flag FLAG_PROTECT_CLEAR =? 0) then set_protect i 0
      else if negb (Z.land flag FLAG_PROTECT_SET =? 0) then set_protect i 1
      else ret tt
    else ret tt) tt.

(** A pointer into [flash_info] or [flash_info_nor]. *)
Inductive bank_ptr := PInfo (i : nat) | PNor (i : nat).

Definition deref_bank (p : bank_ptr) : M board flash_info_t :=
  let! b := get in
  match p with
  | PInfo i => match b_info b !! i with Some f => ret f | None => fail OutOfBounds end
  | PNor i => match n_info (b_nor b) !! i with Some f => ret f | None => fail OutOfBounds end
  end.

Definition addr2info (addr : Z) : M board (option bank_ptr) :=
  let ptr := if (addr <? 0xF0000000) && (0xE0000000 <=? addr) then PNor else PInfo in
  for_until (seq 0 CFG_MAX_FLASH_BANKS) (λ i,
    let! info := deref_bank (ptr i) in
    let! start0 := arr_get (fi_start info) 0 in
    if negb (fi_flash_id info =? FLASH_UNKNOWN) && (start0 <=? addr) &&
       (addr <=? bank_end info start0) then ret (Some (ptr i)) else ret None).

(** The banks of [for (info = info_first; info <= info_last; ++info)]. *)
Definition bank_range (p q : bank_ptr) : M board (list bank_ptr) :=
  match p, q with
  | PInfo i, PInfo j => ret (PInfo <$> seq i (S j - i))
  | PNor i, PNor j => ret (PNor <$> seq i (S j - i))
  | _, _ => fail PtrCompare
  end.

(** The protection check of one bank: [true] when a protected sector is hit. *)
Definition bank_protected (info : flash_info_t) (addr e : Z) : M board bool :=
  let! start0 := arr_get (fi_start info) 0 in
  let b_end := u32 (start0 + fi_size info) in
  let s_end := s16 (fi_sector_count info - 1) in
  let! r := for_until (seqZ 0 (fi_sector_count info)) (λ i,
    let! e_addr := if i =? s_end then ret b_end else arr_get (fi_start info) (i + 1) in
    let! s := arr_get (fi_start info) i in
    if (s <=? e) && (addr <? e_addr) then
      let! p := arr_get (fi_protect info) i in
      if p =? 0 then ret None else ret (Some tt)
    else ret None) in
  ret (bool_decide (is_Some r)).

(** The write loop over the banks; [inr rc] when a driver fails. *)
Definition write_banks (n : nat) (banks : list bank_ptr) (src : list Z) (addr cnt : Z) : M board Z :=
  let! r := for_fold banks (λ st p,
    match st with
    | inr rc => ret (inr rc)
    | inl (src, addr, cnt) =>
        if cnt <=? 0 then ret st else
        let! info := deref_bank p in
        let! start0 := arr_get (fi_start info) 0 in
        let len := u32 (start0 + fi_size info - addr) in
        let len := if cnt <? len then cnt else len in
        let! rc := write_buff n info src addr len in
        if negb (rc =? 0) then ret (inr rc)
        else ret (inl (drop (Z.to_nat len) src, u32 (addr + len), u32 (cnt - len)))
    end) (inl (src, addr, cnt)) in
  ret (match r with inr rc => rc | inl _ => ERR_OK end).

Definition flash_write (n : nat) (src : list Z) (addr cnt : Z) : M board Z :=
  let e := u32 (addr + cnt - 1) in
  let! info_first := addr2info addr in
  let! info_last := addr2info e in
  if cnt =? 0 then ret ERR_OK else
  match info_first, info_last with
  | Some p, Some q =>
      let! banks := bank_range p q in
      let! hit := for_until banks (λ p,
        let! info := deref_bank p in
        let! prot := bank_protected info addr e in
        ret (if (prot : bool) then Some tt else None)) in
      match hit with
      | Some _ => ret ERR_PROTECTED
      | None => write_banks n banks src addr cnt
      end
  | _, _ => ret ERR_INVAL
  end.

(** ** common/cmd_flash.c *)

(** [strchr]: the text before and after the first [c]. *)
Fixpoint split_at (c : Z) (s : list Z) : option (list Z * list Z) :=
  match s with
  | [] => None
  | x :: s => if x =? c then Some ([], s)
              else match split_at c s with
                   | Some (a, b) => Some (x :: a, b)
                   | None => None
                   end
  end.

(** A number that fills its argument: [ep == str || *ep != '\0'] is false. *)
Definition parse_all (str : list Z) (base : Z) : option Z :=
  let '(v, ep) := simple_strtoul str base in
  if decide (ep = str) then None else if deref ep =? 0 then Some v else None.

Inductive abbrev := AbNone | AbBad | AbOk (bank : nat) (sf sl : Z).

Definition abbrev_spec (str : list Z) : M board abbrev :=
  match split_at 58 str with
  | None => ret AbNone
  | Some (str, p) =>
      match parse_all str 10 with
      | None => ret AbBad
      | Some v =>
          let bank := s32 v in
          if (bank <? 1) || (Z.of_nat CFG_MAX_FLASH_BANKS <? bank) then ret AbBad else
          let idx := Z.to_nat (bank - 1) in
          let! fp := deref_bank (PInfo idx) in
          if fi_flash_id fp =? FLASH_UNKNOWN then ret AbBad else
          let '(str, p) := match split_at 45 p with
                           | Some (a, b) => (a, Some b)
                           | None => (p, None)
                           end in
          match parse_all str 10 with
          | None => ret AbBad
          | Some v =>
              let first := s32 v in
              if fi_sector_count fp <=? first then ret AbBad else
              match p with
              | None => ret (AbOk idx first first)
              | Some p =>
                  match parse_all p 10 with
                  | None => ret AbBad
                  | Some v =>
                      let last := s32 v in
                      if (last <? first) || (fi_sector_count fp <=? last) then ret AbBad
                      else ret (AbOk idx first last)
                  end
              end
          end
      end
  end.

(** The end of the sector that holds [addr_last], in a bank. *)
Definition round_in_bank (info : flash_info_t) (addr_last : Z) : M board (option Z) :=
  for_until (seqZ 0 (fi_sector_count info)) (λ i,
    let! sector_end_addr :=
      if i =? fi_sector_count info - 1 then
        let! start0 := arr_get (fi_start info) 0 in ret (u32 (start0 + fi_size info - 1))
      else
        let! next := arr_get (fi_start info) (i + 1) in ret (u32 (next - 1)) in
    if addr_last <=? sector_end_addr then
      let! s := arr_get (fi_start info) i in
      if s <=? addr_last then
        ret (Some (if addr_last <? sector_end_addr then sector_end_addr else addr_last))
      else ret None
    else ret None).

(** [None] for the return code -1. *)
Definition addr_spec (arg1 arg2 : list Z) : M board (option (Z * Z)) :=
  match parse_all arg1 16 with
  | None => ret None
  | Some addr_first =>
      let len_used := deref arg2 =? 43 in
      let arg2 := if len_used then tail arg2 else arg2 in
      match parse_all arg2 16 with
      | None => ret None
      | Some addr_last =>
          if negb len_used then ret (Some (addr_first, addr_last)) else
          let addr_last := u32 (addr_first + addr_last - 1) in
          let! found := for_until (seq 0 CFG_MAX_FLASH_BANKS) (λ bank,
            let! info := deref_bank (PInfo bank) in round_in_bank info addr_last) in
          ret (match found with
               | Some addr_last => Some (addr_first, addr_last)
               | None => None
               end)
      end
  end.

(** The sector loop of [flash_fill_sect_ranges]: [s_first] and [s_last]. *)
Definition fill_sects (info : flash_info_t) (s_end b_end addr_first addr_last : Z)
    : M board (Z * Z) :=
  for_fold (seqZ 0 (fi_sector_count info)) (λ '(s_first, s_last) sect,
    let! e := sector_end info s_end b_end sect in
    if e <? addr_first then ret (s_first, s_last) else
    let! s := arr_get (fi_start info) sect in
    if addr_last <? s then ret (s_first, s_last) else
    ret (if addr_first =? s then sect else s_first,
         if addr_last =? e then sect else s_last)) (-1, -1).

(** One bank: its range and, unless it is an error, the next [addr_first]. *)
Definition fill_bank (info : flash_info_t) (addr_first addr_last : Z)
    : M board ((Z * Z) * option Z) :=
  let! start0 := arr_get (fi_start info) 0 in
  let b_end := bank_end info start0 in
  let s_end := s16 (fi_sector_count info - 1) in
  let! (s_first, s_last) := fill_sects info s_end b_end addr_first addr_last in
  if 0 <=? s_first then
    let! s_last :=
      if s_last <? 0 then ret (if b_end <? addr_last then Some s_end else None)
      else ret (Some s_last) in
    match s_last with
    | None => ret ((s_first, -1), None)
    | Some s_last =>
        if s_last <? s_first then ret ((s_first, s_last), None) else
        let! next := if s_last =? s_end then ret (u32 (b_end + 1))
                     else arr_get (fi_start info) (s_last + 1) in
        ret ((s_first, s_last), Some next)
    end
  else if (start0 <=? addr_first) && (addr_first <? b_end) then ret ((s_first, s_last), None)
  else if 0 <=? s_last then ret ((s_first, s_last), None)
  else ret ((s_first, s_last), Some addr_first).

(** The loop over the banks: the return code, the ranges and their number of
    sectors.  Banks that are not reached keep -1. *)
Fixpoint fill_banks (banks : list flash_info_t) (addr_first addr_last : Z)
    : M board (Z * list (Z * Z) * Z) :=
  match banks with
  | [] => ret (0, [], 0)
  | info :: banks =>
      if addr_last <? addr_first then
        ret (0, replicate (S (length banks)) (-1, -1), 0)
      else if fi_flash_id info =? FLASH_UNKNOWN then
        let! (rc, ranges, count) := fill_banks banks addr_first addr_last in
        ret (rc, (-1, -1) :: ranges, count)
      else
        let! (range, next) := fill_bank info addr_first addr_last in
        match next with
        | None => ret (1, range :: replicate (length banks) (-1, -1), 0)
        | Some next =>
            let! (rc, ranges, count) := fill_banks banks next addr_last in
            ret (rc, range :: ranges,
                 (if 0 <=? range.1 then range.2 - range.1 + 1 else 0) + count)
        end
  end.

Definition flash_fill_sect_ranges (addr_first addr_last : Z) : M board (Z * list (Z * Z) * Z) :=
  let! b := get in
  fill_banks (b_info b) addr_first addr_last.

Definition flash_sect_erase (n : nat) (addr_first addr_last : Z) : M board Z :=
  let! (rcode, ranges, planned) := flash_fill_sect_ranges addr_first addr_last in
  if negb (planned =? 0) && (rcode =? 0) then
    for_fold (imap pair ranges) (λ rcode '(bank, (s_first, s_last)),
      if negb (rcode =? 0) then ret rcode else
      if 0 <=? s_first then
        let! info := deref_bank (PInfo bank) in
        flash_erase n info s_first s_last
      else ret rcode) rcode
  else if rcode =? 0 then ret 1
  else ret rcode.

(** [info->protect[i] = p] for the sectors of a list, in [flash_info[bank]]. *)
Definition protect_sectors (bank : nat) (sects : list Z) (p : Z) : M board unit :=
  for_fold sects (λ _ i,
    let! info := deref_bank (PInfo bank) in
    match set_protect i p info with
    | Ok (_, info') => modify (λ b, set_info (<[bank := info']> (b_info b)) b)
    | Err f => fail f
    end) tt.

Definition flash_sect_protect (p addr_first addr_last : Z) : M board Z :=
  let! (rcode, ranges, planned) := flash_fill_sect_ranges addr_first addr_last in
  if negb (planned =? 0) && (rcode =? 0) then
    for_fold (imap pair ranges) (λ _ '(bank, (s_first, s_last)),
      let! info := deref_bank (PInfo bank) in
      if fi_flash_id info =? FLASH_UNKNOWN then ret tt else
      if (0 <=? s_first) && (s_first <=? s_last) then
        protect_sectors bank (seqZ s_first (s_last - s_first + 1)) p
      else ret tt) tt ;;;
    ret rcode
  else if rcode =? 0 then ret 1
  else ret rcode.

(** [argv[i]]; the commands check [argc] first. *)
Definition argv_get {S} (argv : list (list Z)) (i : nat) : M S (list Z) :=
  match argv !! i with
  | Some a => ret a
  | None => fail NullDeref
  end.

Definition do_flerase (n : nat) (argv : list (list Z)) : M board Z :=
  if decide (length argv < 2)%nat then ret 1 else
  let! a1 := argv_get argv 1 in
  if decide (a1 = bytes "all") then
    for_fold (seq 0 CFG_MAX_FLASH_BANKS) (λ _ bank,
      let! info := deref_bank (PInfo bank) in
      flash_erase n info 0 (fi_sector_count info - 1)) 0
  else
  let! ab := abbrev_spec a1 in
  match ab with
  | AbBad => ret 1
  | AbOk bank sect_first sect_last =>
      let! info := deref_bank (PInfo bank) in
      flash_erase n info sect_first sect_last
  | AbNone =>
      if decide (length argv ≠ 3)%nat then ret 1 else
      let! a2 := argv_get argv 2 in
      if decide (a1 = bytes "bank") then
        let bank := (simple_strtoul a2 16).1 in
        if (bank <? 1) || (Z.of_nat CFG_MAX_FLASH_BANKS <? bank) then ret 1 else
        let! info := deref_bank (PInfo (Z.to_nat (bank - 1))) in
        flash_erase n info 0 (fi_sector_count info - 1)
      else
        let! r := addr_spec a1 a2 in
        match r with
        | None => ret 1
        | Some (addr_first, addr_last) =>
            if addr_last <=? addr_first then ret 1
            else flash_sect_erase n addr_first addr_last
        end
  end.

Definition do_protect (argv : list (list Z)) : M board Z :=
  if decide (length argv < 3)%nat then ret 1 else
  let! a1 := argv_get argv 1 in
  if negb (bool_decide (a1 = bytes "off")) && negb (bool_decide (a1 = bytes "on")) then ret 1 else
  let p := if bool_decide (a1 = bytes "off") then 0 else 1 in
  let! a2 := argv_get argv 2 in
  if decide (a2 = bytes "all") then
    for_fold (seq 0 CFG_MAX_FLASH_BANKS) (λ _ bank,
      let! info := deref_bank (PInfo bank) in
      if fi_flash_id info =? FLASH_UNKNOWN then ret tt
      else protect_sectors bank (seqZ 0 (fi_sector_count info)) p) tt ;;;
    ret 0
  else
  let! ab := abbrev_spec a2 in
  match ab with
  | AbBad => ret 1
  | AbOk bank sect_first sect_last =>
      protect_sectors bank (seqZ sect_first (sect_last - sect_first + 1)) p ;;;
      ret 0
  | AbNone =>
      if decide (length argv ≠ 4)%nat then ret 1 else
      let! a3 := argv_get argv 3 in
      if decide (a2 = bytes "bank") then
        let bank := (simple_strtoul a3 16).1 in
        if (bank <? 1) || (Z.of_nat CFG_MAX_FLASH_BANKS <? bank) then ret 1 else
        let idx := Z.to_nat (bank - 1) in
        let! info := deref_bank (PInfo idx) in
        if fi_flash_id info =? FLASH_UNKNOWN then ret 1 else
        protect_sectors idx (seqZ 0 (fi_sector_count info)) p ;;;
        ret 0
      else
        let! r := addr_spec a2 a3 in
        match r with
        | None => ret 1
        | Some (addr_first, addr_last) =>
            if addr_last <=? addr_first then ret 1
            else flash_sect_protect p addr_first addr_last
        end
  end.

End flash.
