(* ===== verification/FlashRange.v ===== *)
(** * Sector ranges (u-boot/common/cmd_flash.c)

    What [flash_fill_sect_ranges] chooses: on well-formed banks it never selects
    a sector that is not inside the range, and for a range that is a run of
    sectors of one bank it selects exactly that run. *)

From Stdlib Require Import ssreflect ZArith Lia ZifyBool.
From stdpp Require Import base tactics numbers list.
From S2P Require Import Prelude SpiFlash NorFlash FlashCmd.

Set Default Goal Selector "!".
Open Scope general_if_scope.
#[local] Open Scope Z_scope.

(** ** Code that only reads

    [reads m r]: from every state [m] returns [r] and changes nothing. *)

Definition reads {S A} (m : M S A) (r : A) : Prop := ∀ s, m s = Ok (r, s).

Lemma reads_ret {S A} (a : A) : reads (S := S) (ret a) a.
Proof. done. Qed.

Lemma reads_bind {S A B} (m : M S A) (k : A → M S B) a b :
  reads m a → reads (k a) b → reads (bind m k) b.
Proof. intros Hm Hk s. by rw (bind_ok _ _ _ _ _ (Hm s)). Qed.

Lemma reads_if {S A} (c : bool) (m1 m2 : M S A) r :
  (c = true → reads m1 r) → (c = false → reads m2 r) → reads (if c then m1 else m2) r.
Proof. destruct c; auto. Qed.

Lemma reads_for_fold {S A B} (l : list A) (f : B → A → M S B) (g : B → A → B) b :
  (∀ b a, a ∈ l → reads (f b a) (g b a)) → reads (for_fold l f b) (fold_left g l b).
Proof.
  revert b. induction l as [|a l IH]; intros b Hf; simpl; [done|].
  eapply reads_bind; [apply Hf; by left|]. apply IH. intros b' a' Ha'. apply Hf. by right.
Qed.

Lemma reads_arr_get {S} a i : 0 ≤ i < Z.of_nat (length a) → reads (S := S) (arr_get a i) (arr_at a i).
Proof.
  intros Hi s. rw /arr_get (proj2 (Z.ltb_ge i 0)); [lia|]. by rw arr_at_lookup.
Qed.

Lemma wp_reads {S A} (m : M S A) r (Q : A → S → Prop) s : reads m r → Q r s → wp m Q s.
Proof. intros Hm HQ. by rw /wp Hm. Qed.

(** ** Well-formed banks *)

Abbreviation starts info := (arr_at (fi_start info)).
Definition bank_top (info : flash_info_t) : Z := starts info 0 + fi_size info.

(** The last address of sector [i], as the integer it stands for. *)
Definition send (info : flash_info_t) (i : Z) : Z :=
  if i =? fi_sector_count info - 1 then bank_top info - 1 else starts info (i + 1) - 1.

Record bank_ok (info : flash_info_t) : Prop := {
  bo_arrays : arrays_ok info;
  bo_count : 1 ≤ fi_sector_count info ≤ 512;
  bo_start : 0 < starts info 0;
  bo_next i : 0 ≤ i < fi_sector_count info - 1 → starts info i < starts info (i + 1);
  bo_last : starts info (fi_sector_count info - 1) < bank_top info;
  bo_top : bank_top info ≤ 2 ^ 32
}.

Lemma spi_bank_ok base k fi : spi_bank base k fi → bank_ok fi.
Proof.
  intros (Hs & Hc & Hk & Ha & Hm & H0 & Ht & Hst). rw /SECTOR in Hs Ht Hst.
  assert (starts fi 0 = base) as H00 by (rw Hst; lia).
  split; rw /bank_top ?H00 ?Hs ?Hc; try done; try lia.
  - intros i Hi. rw !Hst; lia.
  - rw Hst; lia.
Qed.

Section bank.
Context {info : flash_info_t} (Hok : bank_ok info).
Abbreviation cnt := (fi_sector_count info).

Lemma starts_mono i j : 0 ≤ i ≤ j → j < cnt → starts info i ≤ starts info j.
Proof.
  intros Hi Hj. replace j with (i + Z.of_nat (Z.to_nat (j - i))) in * by lia.
  remember (Z.to_nat (j - i)) as d eqn:Hd. clear Hd. induction d as [|d IH].
  { by rw Z.add_0_r. }
  pose proof (bo_next _ Hok (i + Z.of_nat d)) as Hn.
  replace (i + Z.of_nat (S d)) with (i + Z.of_nat d + 1) in * by lia. lia.
Qed.

Lemma starts_lt i j : 0 ≤ i < j → j < cnt → starts info i < starts info j.
Proof.
  intros Hi Hj. pose proof (bo_next _ Hok i ltac:(lia)).
  pose proof (starts_mono (i + 1) j ltac:(lia) Hj). lia.
Qed.

(** A sector is not empty, lies in its bank, and ends before the next begins. *)
Lemma sector_bounds i :
  0 ≤ i < cnt → 0 < starts info 0 ≤ starts info i ∧ starts info i ≤ send info i < bank_top info.
Proof.
  intros Hi. pose proof (bo_start _ Hok). pose proof (bo_last _ Hok).
  pose proof (starts_mono 0 i ltac:(lia) ltac:(lia)).
  rw /send. destruct (Z.eqb_spec i (cnt - 1)) as [->|Hne]; [lia|].
  pose proof (bo_next _ Hok i ltac:(lia)).
  pose proof (starts_mono (i + 1) (cnt - 1) ltac:(lia) ltac:(lia)). lia.
Qed.

Lemma send_lt i j : 0 ≤ i < j → j < cnt → send info i < starts info j.
Proof.
  intros Hi Hj. rw /send. destruct (Z.eqb_spec i (cnt - 1)) as [->|Hne]; [lia|].
  pose proof (starts_mono (i + 1) j ltac:(lia) Hj). lia.
Qed.

(** Sectors are told apart by their bounds. *)
Lemma starts_inj i j : 0 ≤ i < cnt → 0 ≤ j < cnt → starts info i = starts info j → i = j.
Proof.
  intros Hi Hj He. destruct (Z.lt_trichotomy i j) as [H|[H|H]]; [|done|].
  - pose proof (starts_lt i j ltac:(lia) ltac:(lia)). lia.
  - pose proof (starts_lt j i ltac:(lia) ltac:(lia)). lia.
Qed.

Lemma send_inj i j : 0 ≤ i < cnt → 0 ≤ j < cnt → send info i = send info j → i = j.
Proof.
  intros Hi Hj He. destruct (Z.lt_trichotomy i j) as [H|[H|H]]; [|done|].
  - pose proof (send_lt i j ltac:(lia) ltac:(lia)). pose proof (sector_bounds j ltac:(lia)). lia.
  - pose proof (send_lt j i ltac:(lia) ltac:(lia)). pose proof (sector_bounds i ltac:(lia)). lia.
Qed.

(** ** The machine's sector ends are the integers *)

Lemma s_end_eq : s16 (cnt - 1) = cnt - 1.
Proof. pose proof (bo_count _ Hok). by rw /s16 swrap_small; [lia..|]. Qed.

Lemma b_end_eq : bank_end info (starts info 0) = bank_top info - 1.
Proof.
  pose proof (bo_top _ Hok). pose proof (bo_start _ Hok). pose proof (bo_last _ Hok).
  pose proof (bo_count _ Hok). pose proof (starts_mono 0 (cnt - 1) ltac:(lia) ltac:(lia)).
  rw /bank_end /u32 wrap_small /bank_top; rw /bank_top in H H1; lia.
Qed.

Lemma reads_start {S} i : 0 ≤ i < cnt → reads (S := S) (arr_get (fi_start info) i) (starts info i).
Proof.
  intros Hi. apply reads_arr_get. destruct (bo_arrays _ Hok) as [-> _].
  pose proof (bo_count _ Hok). rw /CFG_MAX_FLASH_SECT. lia.
Qed.

Lemma reads_sector_end {S} i :
  0 ≤ i < cnt →
  reads (S := S) (sector_end info (s16 (cnt - 1)) (bank_end info (starts info 0)) i) (send info i).
Proof.
  intros Hi. rw /sector_end s_end_eq b_end_eq /send. destruct (Z.eqb_spec i (cnt - 1)); [done|].
  eapply reads_bind; [apply reads_start; lia|]. pose proof (sector_bounds (i + 1) ltac:(lia)).
  pose proof (bo_top _ Hok). rw /u32 wrap_small; [lia|]. apply reads_ret.
Qed.

(** ** The sector loop *)

Definition fill_step (af al : Z) (fl : Z * Z) (i : Z) : Z * Z :=
  if send info i <? af then fl else
  if al <? starts info i then fl else
  (if af =? starts info i then i else fl.1, if al =? send info i then i else fl.2).

(** The first sector is the one that starts at [af], the last one that ends at
    [al], -1 when there is none, among the first [k]. *)
Definition first_at (af k f : Z) : Prop :=
  (f = -1 ∧ ∀ i, 0 ≤ i < k → starts info i ≠ af) ∨ (0 ≤ f < k ∧ starts info f = af).
Definition last_at (al k l : Z) : Prop :=
  (l = -1 ∧ ∀ i, 0 ≤ i < k → send info i ≠ al) ∨ (0 ≤ l < k ∧ send info l = al).

Lemma fill_step_spec af al k f l :
  af ≤ al → 0 ≤ k < cnt → first_at af k f → last_at al k l →
  first_at af (k + 1) (fill_step af al (f, l) k).1 ∧ last_at al (k + 1) (fill_step af al (f, l) k).2.
Proof.
  intros Hr Hk Hf Hl. pose proof (sector_bounds k Hk).
  assert (∀ P : Z → Prop, (∀ i, 0 ≤ i < k → P i) → P k → ∀ i, 0 ≤ i < k + 1 → P i) as Hsn.
  { intros P H1 H2 i Hi. destruct (decide (i = k)) as [->|]; [done|]. apply H1. lia. }
  assert (starts info k ≠ af → first_at af (k + 1) f) as Hf1.
  { intros Hne. destruct Hf as [[-> Hall]|[Hb He]]; [left|right; split; [lia|done]].
    split; [done|]. by apply Hsn. }
  assert (send info k ≠ al → last_at al (k + 1) l) as Hl1.
  { intros Hne. destruct Hl as [[-> Hall]|[Hb He]]; [left|right; split; [lia|done]].
    split; [done|]. by apply Hsn. }
  rw /fill_step. destruct (Z.ltb_spec (send info k) af); [split; [apply Hf1|apply Hl1]; lia|].
  destruct (Z.ltb_spec al (starts info k)); [split; [apply Hf1|apply Hl1]; lia|]. simpl. split.
  - destruct (Z.eqb_spec af (starts info k)); [right; lia|]. apply Hf1. lia.
  - destruct (Z.eqb_spec al (send info k)); [right; lia|]. apply Hl1. lia.
Qed.

Lemma fill_steps_spec af al k :
  af ≤ al → (Z.of_nat k ≤ cnt) →
  let '(f, l) := fold_left (fill_step af al) (seqZ 0 (Z.of_nat k)) (-1, -1) in
  first_at af (Z.of_nat k) f ∧ last_at al (Z.of_nat k) l.
Proof.
  intros Hr. induction k as [|k IH]; intros Hk.
  { split; left; split; [done|lia|done|lia]. }
  rw seqZ_S fold_left_app Z.add_0_l /=. specialize (IH ltac:(lia)).
  destruct (fold_left _ _ _) as [f l]. destruct IH as [Hf Hl].
  destruct (fill_step_spec af al (Z.of_nat k) f l Hr ltac:(lia) Hf Hl) as [Hf' Hl'].
  destruct (fill_step af al (f, l) (Z.of_nat k)). by replace (Z.of_nat (S k)) with (Z.of_nat k + 1) by lia.
Qed.

Lemma reads_fill_sects af al :
  af ≤ al →
  ∃ f l, reads (fill_sects info (s16 (cnt - 1)) (bank_end info (starts info 0)) af al) (f, l) ∧
         first_at af cnt f ∧ last_at al cnt l.
Proof.
  intros Hr. pose proof (bo_count _ Hok) as Hc.
  pose proof (fill_steps_spec af al (Z.to_nat cnt) Hr) as H. rw Z2Nat.id in H; [lia|].
  destruct (fold_left _ _ _) as [f l] eqn:Hfold. exists f, l. split; [|by apply H].
  rw -Hfold. apply reads_for_fold. intros [f' l'] i Hi%elem_of_seqZ.
  eapply reads_bind; [apply reads_sector_end; lia|]. rw /fill_step.
  destruct (_ <? _); [done|]. eapply reads_bind; [apply reads_start; lia|].
  by destruct (_ <? _).
Qed.

(** ** One bank *)

(** The address after sector [l], in 32 bits. *)
Definition after (l : Z) : Z := u32 (send info l + 1).

Lemma after_spec l :
  0 ≤ l < cnt → after l = send info l + 1 ∨ after l = 0 ∧ send info l = 2 ^ 32 - 1.
Proof.
  intros Hl. pose proof (sector_bounds l Hl). pose proof (bo_top _ Hok). rw /after.
  destruct (decide (send info l + 1 = 2 ^ 32)) as [He|]; [right; rw He; split; [done|lia]|left].
  apply wrap_small. lia.
Qed.

(** The decisions of [fill_bank] from the two sectors found. *)
Definition bank_choice (af al f l : Z) : (Z * Z) * option Z :=
  if 0 <=? f then
    match (if l <? 0 then if bank_top info - 1 <? al then Some (cnt - 1) else None else Some l) with
    | None => ((f, -1), None)
    | Some l => if l <? f then ((f, l), None) else ((f, l), Some (after l))
    end
  else if (starts info 0 <=? af) && (af <? bank_top info - 1) then ((f, l), None)
  else if 0 <=? l then ((f, l), None)
  else ((f, l), Some af).

Lemma reads_next l :
  0 ≤ l < cnt →
  reads (S := board) (if l =? s16 (cnt - 1) then ret (u32 (bank_end info (starts info 0) + 1))
                      else arr_get (fi_start info) (l + 1)) (after l).
Proof.
  intros Hl. rw s_end_eq b_end_eq /after /send. destruct (Z.eqb_spec l (cnt - 1)); [done|].
  replace (starts info (l + 1) - 1 + 1) with (starts info (l + 1)) by lia.
  pose proof (sector_bounds (l + 1) ltac:(lia)). pose proof (bo_top _ Hok).
  rw /u32 wrap_small; [lia|]. apply reads_start. lia.
Qed.

Lemma reads_fill_bank af al :
  af ≤ al →
  ∃ f l, reads (fill_bank info af al) (bank_choice af al f l) ∧
         first_at af cnt f ∧ last_at al cnt l.
Proof.
  intros Hr. destruct (reads_fill_sects af al Hr) as (f & l & Hread & Hf & Hl).
  pose proof (bo_count _ Hok) as Hc. exists f, l. split; [|done].
  assert (f < cnt ∧ l < cnt) as [Hf' Hl'] by (destruct Hf, Hl; lia).
  eapply reads_bind; [apply reads_start; lia|]. eapply reads_bind; [exact Hread|]. cbn beta iota.
  rw /bank_choice. destruct (Z.leb_spec 0 f).
  - eapply reads_bind.
    { apply (reads_if _ _ _ (if l <? 0 then if bank_top info - 1 <? al then Some (cnt - 1)
                              else None else Some l)); intros ->; [|done].
      by rw s_end_eq b_end_eq. }
    assert (∀ l', l' < cnt → reads (S := board) (if l' <? f then ret (f, l', None) else
       let! next := if l' =? s16 (cnt - 1) then ret (u32 (bank_end info (starts info 0) + 1))
                    else arr_get (fi_start info) (l' + 1) in ret (f, l', Some next))
       (if l' <? f then (f, l', None) else (f, l', Some (after l')))) as Hlast.
    { intros l' Hlt. destruct (Z.ltb_spec l' f); [done|].
      eapply reads_bind; [apply reads_next; lia|done]. }
    destruct (l <? 0); [destruct (_ <? _)|]; [apply Hlast; lia|done|by apply Hlast].
  - rw b_end_eq. destruct (_ && _); [done|]. by destruct (0 <=? l).
Qed.

(** What is chosen lies in the range, and the next address follows it. *)
Definition chosen (af al : Z) (r : (Z * Z) * option Z) : Prop :=
  match r with
  | (_, None) => True
  | ((f, l), Some next) =>
      (f = -1 ∧ l = -1 ∧ next = af) ∨
      (0 ≤ f ≤ l ∧ l < cnt ∧ starts info f = af ∧ send info l ≤ al ∧ next = after l)
  end.

Lemma bank_choice_safe af al f l :
  first_at af cnt f → last_at al cnt l → chosen af al (bank_choice af al f l).
Proof.
  intros Hf Hl. pose proof (bo_count _ Hok) as Hc. rw /bank_choice.
  assert (send info (cnt - 1) = bank_top info - 1) as Hlast by (rw /send Z.eqb_refl; done).
  destruct (Z.leb_spec 0 f).
  - destruct Hf as [|[Hf Haf]]; [lia|].
    destruct (Z.ltb_spec l 0).
    + destruct (Z.ltb_spec (bank_top info - 1) al); [|done].
      destruct (Z.ltb_spec (cnt - 1) f); [done|]. right. split_and!; try lia; done.
    + destruct Hl as [|[Hl Hal]]; [lia|]. destruct (Z.ltb_spec l f); [done|].
      right. split_and!; try lia; done.
  - destruct (_ && _); [done|]. destruct (Z.leb_spec 0 l); [done|]. left.
    destruct Hf, Hl; lia.
Qed.

End bank.

(** ** The loop over the banks *)

Definition known (info : flash_info_t) : Prop := fi_flash_id info ≠ FLASH_UNKNOWN.
Definition banks_ok (banks : list flash_info_t) : Prop :=
  Forall (λ info, known info → bank_ok info) banks.

(** No sector, or sectors of a known bank inside the range. *)
Definition range_safe (af al : Z) (info : flash_info_t) (r : Z * Z) : Prop :=
  r.1 = -1 ∨
  (known info ∧ 0 ≤ r.1 ≤ r.2 ∧ r.2 < fi_sector_count info ∧
   af ≤ starts info r.1 ∧ send info r.2 ≤ al).

Lemma range_safe_none af al banks :
  Forall2 (range_safe af al) banks (replicate (length banks) (-1, -1)).
Proof. induction banks as [|info banks IH]; constructor; [by left|done]. Qed.

(** [af0] is where the command began; the address that follows a bank at the top
    of the address space is 0. *)
Lemma fill_banks_safe banks af0 af al :
  banks_ok banks → al < 2 ^ 32 → af0 ≤ af ∨ af = 0 →
  ∃ rc ranges count, reads (fill_banks banks af al) (rc, ranges, count) ∧
    (rc = 0 → Forall2 (range_safe af0 al) banks ranges).
Proof.
  intros Hbanks Hal. revert af. induction Hbanks as [|info banks Hinfo Hbanks IH]; intros af Haf.
  { exists 0, [], 0. by split. }
  simpl. destruct (Z.ltb_spec al af).
  { do 3 eexists. split; [done|]. intros _. apply (range_safe_none _ _ (info :: banks)). }
  destruct (Z.eqb_spec (fi_flash_id info) FLASH_UNKNOWN) as [Hu|Hk].
  { destruct (IH af Haf) as (rc & ranges & count & Hread & Hsafe). do 3 eexists. split.
    - by eapply reads_bind.
    - intros Hrc. constructor; [by left|auto]. }
  specialize (Hinfo Hk).
  destruct (reads_fill_bank Hinfo af al) as (f & l & Hread & Hf & Hl); [lia|].
  pose proof (bank_choice_safe Hinfo af al f l Hf Hl) as Hch.
  destruct (bank_choice af al f l) as [[f' l'] [next|]]; simpl in Hch.
  2:{ do 3 eexists. split; [by eapply reads_bind|]. by intros [=]. }
  assert ((af0 ≤ next ∨ next = 0) ∧ range_safe af0 al info (f', l')) as [Hnext Hr].
  { destruct Hch as [(-> & -> & ->)|(Hfl & Hl' & Hst & Hse & ->)]; [split; [done|by left]|].
    pose proof (sector_bounds Hinfo f' ltac:(lia)). pose proof (sector_bounds Hinfo l' ltac:(lia)).
    pose proof (starts_mono Hinfo f' l' ltac:(lia) ltac:(lia)).
    pose proof (after_spec Hinfo l' ltac:(lia)). split; [lia|]. right. simpl. split_and!; try done; lia. }
  destruct (IH next Hnext) as (rc & ranges & count & Hread' & Hsafe).
  do 3 eexists. split.
  - eapply reads_bind; [exact Hread|]. cbn beta iota. by eapply reads_bind.
  - intros Hrc. constructor; [done|auto].
Qed.


(** ** Exactness *)

Definition outside (x : Z) (info : flash_info_t) : Prop :=
  known info → x < starts info 0 ∨ bank_top info ≤ x.

Lemma fill_bank_skip info af al :
  bank_ok info → known info → af ≤ al → outside af info → outside al info →
  reads (fill_bank info af al) ((-1, -1), Some af).
Proof.
  intros Hok Hk Hr Haf Hal. specialize (Haf Hk). specialize (Hal Hk).
  destruct (reads_fill_bank Hok af al Hr) as (f & l & Hread & Hf & Hl).
  assert (f = -1) as ->.
  { destruct Hf as [[]|[Hf He]]; [done|]. pose proof (sector_bounds Hok f Hf). lia. }
  assert (l = -1) as ->.
  { destruct Hl as [[]|[Hl He]]; [done|]. pose proof (sector_bounds Hok l Hl). lia. }
  assert (bank_choice (info := info) af al (-1) (-1) = ((-1, -1), Some af)) as Hc; [|by rw Hc in Hread].
  rw /bank_choice /=. destruct (Z.leb_spec (starts info 0) af); [|done].
  by rw (proj2 (Z.ltb_ge af (bank_top info - 1))); [lia|].
Qed.

Lemma fill_bank_run info i j :
  bank_ok info → 0 ≤ i ≤ j → j < fi_sector_count info →
  reads (fill_bank info (starts info i) (send info j)) ((i, j), Some (after (info := info) j)).
Proof.
  intros Hok Hij Hj. pose proof (sector_bounds Hok j ltac:(lia)).
  pose proof (starts_mono Hok i j ltac:(lia) ltac:(lia)).
  destruct (reads_fill_bank Hok (starts info i) (send info j)) as (f & l & Hread & Hf & Hl); [lia|].
  assert (f = i) as ->.
  { destruct Hf as [[_ Hf]|[Hf He]]; [by destruct (Hf i ltac:(lia))|]. apply (starts_inj Hok); [lia..|done]. }
  assert (l = j) as ->.
  { destruct Hl as [[_ Hl]|[Hl He]]; [by destruct (Hl j ltac:(lia))|]. apply (send_inj Hok); [lia..|done]. }
  rw /bank_choice (proj2 (Z.leb_le 0 i)) in Hread; [lia|].
  rw (proj2 (Z.ltb_ge j 0)) in Hread; [lia|].
  by rw (proj2 (Z.ltb_ge j i)) in Hread; [lia|].
Qed.

Lemma fill_banks_skip banks af al :
  banks_ok banks → af ≤ al → Forall (outside af) banks → Forall (outside al) banks →
  reads (fill_banks banks af al) (0, replicate (length banks) (-1, -1), 0).
Proof.
  intros Hok Hr. induction Hok as [|info banks Hinfo Hbanks IH]; [done|].
  intros [Haf Hafs]%Forall_cons [Hal Hals]%Forall_cons. simpl.
  rw (proj2 (Z.ltb_ge al af) Hr). specialize (IH Hafs Hals).
  destruct (Z.eqb_spec (fi_flash_id info) FLASH_UNKNOWN) as [Hu|Hk]; [by eapply reads_bind|].
  eapply reads_bind; [by apply fill_bank_skip; [apply Hinfo|..]|]. cbn beta iota.
  by eapply reads_bind.
Qed.

(** The bank of the range, and the others, which it does not touch. *)
Record run_of (banks : list flash_info_t) (bank : nat) (info : flash_info_t) (i j : Z) : Prop := {
  ro_bank : banks !! bank = Some info;
  ro_known : known info;
  ro_banks : banks_ok banks;
  ro_range : 0 ≤ i ≤ j ∧ j < fi_sector_count info;
  ro_others k info' : banks !! k = Some info' → k ≠ bank →
    outside (starts info i) info' ∧ outside (send info j) info'
}.

(** The ranges that [flash_fill_sect_ranges] returns for it. *)
Definition one_range (len bank : nat) (i j : Z) : list (Z * Z) :=
  replicate bank (-1, -1) ++ (i, j) :: replicate (len - bank - 1) (-1, -1).

Lemma fill_banks_run banks bank info i j :
  run_of banks bank info i j →
  reads (fill_banks banks (starts info i) (send info j))
    (0, one_range (length banks) bank i j, j - i + 1).
Proof.
  intros [Hbank Hk Hbanks [Hij Hj] Hothers]. pose proof Hbank as Hlt%lookup_lt_Some.
  revert bank Hbank Hothers Hlt.
  induction Hbanks as [|b banks Hb Hbanks IH]; intros [|bank] Hbank Hothers Hlt; simplify_eq/=.
  - specialize (Hb Hk). pose proof (sector_bounds Hb j ltac:(lia)).
    pose proof (starts_mono Hb i j ltac:(lia) ltac:(lia)).
    rw (proj2 (Z.ltb_ge (send info j) (starts info i))); [lia|].
    rw (proj2 (Z.eqb_neq _ _) Hk).
    eapply reads_bind; [by apply fill_bank_run|]. cbn beta iota.
    eapply (reads_bind _ _ (0, replicate (length banks) (-1, -1), 0)).
    2:{ cbn beta iota. rw /one_range /= Nat.sub_0_r (proj2 (Z.leb_le 0 i)); [lia|]. by rw Z.add_0_r. }
    assert (Forall (outside (send info j)) banks) as Hal.
    { apply Forall_lookup_2. intros k info' Hk'. by apply (Hothers (S k) info'). }
    destruct (after_spec Hb j) as [Ha|[Ha _]]; [lia|..]; rw Ha.
    + destruct banks; [done|]. simpl. by rw (proj2 (Z.ltb_lt _ _)); [lia|].
    + apply fill_banks_skip; [done|lia| |done]. apply (Forall_impl _ _ _ Hbanks).
      intros info' Hok' Hk'. left. apply (bo_start _ (Hok' Hk')).
  - destruct (Hothers 0%nat b) as [Hof Hol]; [done..|].
    assert (bank_ok info) as Hok.
    { eapply Forall_lookup_1 in Hbanks; [|done]. by apply Hbanks. }
    pose proof (sector_bounds Hok j ltac:(lia)).
    pose proof (starts_mono Hok i j ltac:(lia) ltac:(lia)).
    rw (proj2 (Z.ltb_ge (send info j) (starts info i))); [lia|].
    specialize (IH bank Hbank ltac:(intros k info' Hk' Hne; apply (Hothers (S k)); [done|lia])
                  ltac:(lia)).
    destruct (Z.eqb_spec (fi_flash_id b) FLASH_UNKNOWN) as [Hu|Hkb]; [by eapply reads_bind|].
    eapply reads_bind; [apply fill_bank_skip; [by apply Hb|done|lia|done|done]|]. cbn beta iota.
    by eapply reads_bind.
Qed.
