(* ===== verification/FlashSafety.v ===== *)
(** * Safety of the flash commands (u-boot/common/flash.c, common/cmd_flash.c)

    Theorems about the definitions of FlashCmd on a board that boots from serial
    flash: which sectors an address range erases and protects, which bytes a
    write programs, and the cases in which the code leaves its arrays or ignores
    the protection. *)

From Stdlib Require Import ssreflect ZArith Lia ZifyBool String.
From stdpp Require Import base tactics numbers list.
From S2P Require Import Prelude Ctype Vsprintf SpiFlash NorFlash FlashCmd FlashRange.

Set Default Goal Selector "!".
Open Scope general_if_scope.
#[local] Open Scope Z_scope.

(** ** Geometry of 64 KB sectors *)

Lemma sector_of_aligned a : 0 ≤ a < 2 ^ 32 → a mod SECTOR = 0 → sector_of a = a.
Proof.
  intros Ha Hm. rw /sector_of.
  replace (Z.land a 0xFFFF0000) with (Z.ldiff (Z.land a (Z.ones 32)) (Z.ones 16)).
  2:{ rw !Z.ldiff_land -Z.land_assoc. done. }
  rw Z.land_ones; [done|]. rw Z.mod_small // Z.ldiff_ones_r; [done|].
  rw Z.shiftl_mul_pow2; [done|]. rw Z.shiftr_div_pow2; [done|].
  rw /SECTOR in Hm. change (2 ^ 16) with 65536. pose proof (Z.div_mod a 65536). lia.
Qed.

Lemma spi_sector base k info s :
  spi_bank base k info → 0 ≤ s < fi_sector_count info →
  sector_of (starts info s) = starts info s ∧ send info s = starts info s + 0xFFFF.
Proof.
  intros Hb Hs. pose proof (sector_bounds (spi_bank_ok _ _ _ Hb) s Hs) as Hbd.
  destruct Hb as (Hsz & Hc & Hk & _ & Hm & H0 & Ht & Hst). rw Hc in Hs. split.
  - rw Hst //. apply sector_of_aligned; [rw /SECTOR in Ht |- *; nia|].
    rw Z.add_mod; [done|]. rw Hm Z.mod_mul; done.
  - rw /send Hc /bank_top Hsz. rw /SECTOR in Hst |- *.
    destruct (Z.eqb_spec s (k - 1)) as [->|]; rw !Hst; lia.
Qed.

(** ** Erasing *)

(** The serial flash driver erased [er] and wrote [wr]; nothing else changed. *)
Definition sf_did (er : list Z) (wr : list (Z * Z)) (b b' : board) : Prop :=
  ∃ sf', did er wr (b_sf b) sf' ∧ b' = set_sf b sf'.

Lemma sf_did_refl b : sf_did [] [] b b.
Proof. exists (b_sf b). split; [apply did_refl|by destruct b]. Qed.

Lemma sf_did_trans e1 w1 e2 w2 b1 b2 b3 :
  sf_did e1 w1 b1 b2 → sf_did e2 w2 b2 b3 → sf_did (e1 ++ e2) (w1 ++ w2) b1 b3.
Proof.
  intros (s2 & H2 & ->) (s3 & H3 & ->). exists s3. split; [|done]. by eapply did_trans.
Qed.

Lemma sf_did_info er wr b b' : sf_did er wr b b' → b_info b' = b_info b ∧ b_type b' = b_type b.
Proof. by intros (? & ? & ->). Qed.

Lemma deref_info b bank info :
  b_info b !! bank = Some info → deref_bank (PInfo bank) b = Ok (info, b).
Proof. intros H. rw /deref_bank /bind /=. by rw H. Qed.

Section spi.
Context {hw : SfHw} {nhw : NorHw} (n : nat) {live : SfLive n}.

Lemma wp_flash_erase info s_first s_last b :
  b_type b = SPI_FLASH_TYPE → arrays_ok info → 0 ≤ s_first ≤ s_last → s_last < 512 →
  wp (flash_erase n info s_first s_last) (λ rc b', ∃ k,
    s_first ≤ k ≤ s_last + 1 ∧ sf_did (open_sectors info s_first (k - 1)) [] b b' ∧
    (rc = ERR_OK → k = s_last + 1 ∨ ctrlc_in (b_sf b) (b_sf b')) ∧
    (rc ≠ ERR_OK → s_first < k)) b.
Proof.
  intros Ht Hinfo Hr Hl. apply wp_bind, wp_get. rw Ht. apply wp_zoom.
  eapply wp_mono; [by apply wp_spi_flash_erase|]. intros rc sf (k & [Hk Hd] & Hrc).
  exists k. split; [lia|]. split; [by exists sf|done].
Qed.

(** An erase of a sector inside [af..al] that is not protected. *)
Definition erase_ok (banks : list flash_info_t) (af al e : Z) : Prop :=
  ∃ bank info s, banks !! bank = Some info ∧ 0 ≤ s < fi_sector_count info ∧
    e = starts info s ∧ arr_at (fi_protect info) s = 0 ∧ af ≤ e ∧ e + 0xFFFF ≤ al.

Definition spi_banks (banks : list flash_info_t) : Prop :=
  Forall (λ info, known info → ∃ base k, spi_bank base k info) banks.

Lemma spi_banks_ok banks : spi_banks banks → banks_ok banks.
Proof.
  intros Hspi. eapply Forall_impl; [exact Hspi|]. intros info H Hk. destruct (H Hk) as (base & k & Hb). by eapply spi_bank_ok.
Qed.

Lemma open_sectors_ok banks bank info base k af al f l m :
  banks !! bank = Some info → spi_bank base k info → 0 ≤ f → m ≤ l → l < fi_sector_count info →
  af ≤ starts info f → send info l ≤ al → Forall (erase_ok banks af al) (open_sectors info f m).
Proof.
  intros Hbank Hb Hf Hm Hl Haf Hal. pose proof (spi_bank_ok _ _ _ Hb) as Hok.
  rw /open_sectors. apply Forall_fmap, Forall_forall. intros s [Hp Hs]%list_elem_of_filter.
  apply elem_of_seqZ in Hs. destruct (spi_sector base k info s Hb) as [He Hse]; [lia|].
  exists bank, info, s. rw /= He. split_and!; [done|lia|lia|done|done| |].
  - pose proof (starts_mono Hok f s ltac:(lia) ltac:(lia)). lia.
  - destruct (spi_sector base k info l Hb) as [_ Hsl]; [lia|].
    pose proof (starts_mono Hok s l ltac:(lia) ltac:(lia)). lia.
Qed.

Lemma imap_pair_lookup {A} (l : list A) i x pre suf :
  imap pair l = pre ++ (i, x) :: suf → l !! i = Some x.
Proof.
  intros H. assert (imap pair l !! length pre = Some (i, x)) as Hl by (rw H; by apply list_lookup_middle).
  rw list_lookup_imap in Hl. apply fmap_Some in Hl as (y & Hy & [= -> ->]). done.
Qed.

(** The erase loop keeps to sectors inside the range. *)
Lemma wp_erase_loop b af al ranges :
  b_type b = SPI_FLASH_TYPE → spi_banks (b_info b) →
  Forall2 (range_safe af al) (b_info b) ranges →
  wp (for_fold (imap pair ranges) (λ rcode '(bank, (s_first, s_last)),
        if negb (rcode =? 0) then ret rcode else
        if 0 <=? s_first then
          let! info := deref_bank (PInfo bank) in
          flash_erase n info s_first s_last
        else ret rcode) 0)
    (λ _ b', ∃ er, sf_did er [] b b' ∧ Forall (erase_ok (b_info b) af al) er) b.
Proof.
  intros Ht Hspi Hranges.
  apply (wp_for_fold _ [] _ (λ _ _ b', ∃ er, sf_did er [] b b' ∧ Forall (erase_ok (b_info b) af al) er)).
  2:{ exists []. split; [apply sf_did_refl|done]. }
  2:{ done. }
  intros [bank [f l]] pre rc b1 (er & Hd & Her) [suf Hl%imap_pair_lookup].
  destruct (negb (rc =? 0)); [apply wp_ret; eauto|].
  destruct (Z.leb_spec 0 f); [|apply wp_ret; eauto].
  destruct (Forall2_lookup_r _ _ _ _ _ Hranges Hl) as (info & Hinfo & [Hr|Hr]); simpl in Hr; [lia|].
  destruct Hr as (Hk & Hfl & Hlc & Haf & Hal).
  eapply Forall_lookup_1 in Hspi as Hb; [|done]. destruct (Hb Hk) as (base & k & Hbank).
  pose proof (spi_bank_ok _ _ _ Hbank) as Hok. destruct (sf_did_info _ _ _ _ Hd) as [Hi Htt].
  apply wp_bind. eapply wp_of_run; [apply deref_info; by rw Hi|].
  eapply wp_mono; [apply wp_flash_erase; [by rw Htt|apply Hok|lia|]|].
  { pose proof (bo_count _ Hok). lia. }
  intros rc' b2 (m & Hm & Hd2 & _). exists (er ++ open_sectors info f (m - 1)). split.
  - apply (sf_did_trans _ [] _ [] _ _ _ Hd Hd2).
  - apply Forall_app. split; [done|]. apply (open_sectors_ok _ bank info base k af al f l); try done; lia.
Qed.

Lemma wp_flash_sect_erase_safe b af al :
  b_type b = SPI_FLASH_TYPE → spi_banks (b_info b) → al < 2 ^ 32 →
  wp (flash_sect_erase n af al)
    (λ _ b', ∃ er, sf_did er [] b b' ∧ Forall (erase_ok (b_info b) af al) er) b.
Proof.
  intros Ht Hspi Hal.
  assert (∃ er, sf_did er [] b b ∧ Forall (erase_ok (b_info b) af al) er) as Hnone.
  { exists []. split; [apply sf_did_refl|done]. }
  destruct (fill_banks_safe (b_info b) af af al) as (rc & ranges & count & Hread & Hsafe);
    [by apply spi_banks_ok|done|by left|].
  apply wp_bind, wp_bind, wp_get. eapply wp_reads; [exact Hread|]. cbn beta iota.
  destruct (Z.eqb_spec rc 0) as [->|Hrc].
  - destruct (negb _); [|by apply wp_ret]. apply wp_erase_loop; [done..|]. by apply Hsafe.
  - rw andb_false_r. by apply wp_ret.
Qed.

(** ** A loop over one range *)

Lemma skip_entries {B} (f : B → nat * (Z * Z) → M board B) l v b :
  (∀ e, e ∈ l → f v e b = Ok (v, b)) → for_fold l f v b = Ok (v, b).
Proof.
  induction l as [|e l IH]; intros Hf; simpl; [done|].
  rw (bind_ok _ _ _ v b); [apply Hf; by left|]. apply IH. intros e' He'. apply Hf. by right.
Qed.

Lemma wp_one_range {B} (f : B → nat * (Z * Z) → M board B) len bank i j v (Q : B → board → Prop) b :
  (∀ k v b, length (b_info b) = len → (k < len)%nat → f v (k, (-1, -1)) b = Ok (v, b)) →
  length (b_info b) = len → (bank < len)%nat →
  wp (f v (bank, (i, j))) (λ v' b', length (b_info b') = len ∧ Q v' b') b →
  wp (for_fold (imap pair (one_range len bank i j)) f v) Q b.
Proof.
  intros Hskip Hlen Hbank Hf. rw /wp /one_range imap_app for_fold_app.
  assert (∀ (g : nat → nat) m v b, length (b_info b) = len →
    (∀ k, (k < m)%nat → (g k < len)%nat) →
    for_fold (imap (λ k x, (g k, x)) (replicate m (-1, -1))) f v b = Ok (v, b)) as Hs.
  { intros g m v' b' Hl Hg. apply skip_entries. intros e [k He]%list_elem_of_lookup.
    rw list_lookup_imap in He. apply fmap_Some in He as (x & [-> Hk]%lookup_replicate & ->).
    apply Hskip; [done|]. by apply Hg. }
  rw (bind_ok _ _ _ v b); [apply (Hs id); [done|]; cbn; lia|]. cbn [imap for_fold]. rw length_replicate /=.
  rw Nat.add_0_r. change (wp (let! b' := f v (bank, (i, j)) in for_fold
    (imap (λ k x, (bank + S k, x))%nat (replicate (len - bank - 1) (-1, -1))) f b') Q b).
  apply wp_bind. eapply wp_mono; [exact Hf|]. intros v' b' [Hl HQ].
  eapply wp_of_run; [|exact HQ]. apply (Hs (λ k, bank + S k)%nat); [done|]. lia.
Qed.

(** An erase of such a range is one call of the driver. *)
Lemma wp_flash_sect_erase_one b bank info i j (Q : Z → board → Prop) :
  run_of (b_info b) bank info i j →
  wp (flash_erase n info i j) (λ rc b', b_info b' = b_info b ∧ Q rc b') b →
  wp (flash_sect_erase n (starts info i) (send info j)) Q b.
Proof using.
  intros Hrun Hw. pose proof (fill_banks_run _ _ _ _ _ Hrun) as Hread.
  destruct Hrun as [Hbank Hk Hbanks [Hij Hj] _].
  apply wp_bind, wp_bind, wp_get. eapply wp_reads; [exact Hread|]. cbn beta iota.
  rw (proj2 (Z.eqb_neq (j - i + 1) 0)); [lia|]. cbn [negb andb Z.eqb].
  apply wp_one_range; [intros ? v b' _ _; by destruct (negb (v =? 0))|done|by eapply lookup_lt_Some|].
  cbn [negb Z.eqb]. rw (proj2 (Z.leb_le 0 i)); [lia|].
  apply wp_bind. eapply wp_of_run; [by apply deref_info|].
  eapply wp_mono; [exact Hw|]. intros rc b' [-> HQ]. done.
Qed.

Lemma wp_flash_sect_erase_run b bank info i j :
  b_type b = SPI_FLASH_TYPE → run_of (b_info b) bank info i j →
  wp (flash_sect_erase n (starts info i) (send info j)) (λ rc b', ∃ k,
    i ≤ k ≤ j + 1 ∧ sf_did (open_sectors info i (k - 1)) [] b b' ∧
    (rc = ERR_OK → k = j + 1 ∨ ctrlc_in (b_sf b) (b_sf b')) ∧ (rc ≠ ERR_OK → i < k)) b.
Proof.
  intros Ht Hrun. apply (wp_flash_sect_erase_one _ bank); [done|].
  destruct Hrun as [Hbank Hk Hbanks [Hij Hj] _].
  assert (bank_ok info) as Hok by (eapply Forall_lookup_1 in Hbanks; [|done]; by apply Hbanks).
  eapply wp_mono; [apply wp_flash_erase; [done|apply Hok|lia|]|].
  { pose proof (bo_count _ Hok). lia. }
  intros rc b' (k & Hk' & Hd & Hrc). split; [by rw (proj1 (sf_did_info _ _ _ _ Hd))|].
  by exists k.
Qed.

End spi.

(** ** Protecting *)

Definition with_protect (info : flash_info_t) (l : list Z) : flash_info_t :=
  FlashInfo (fi_size info) (fi_sector_count info) (fi_flash_id info) (fi_start info) l.

(** The array after [protect[i] = p] for the sectors of a list. *)
Definition protect_all (sects : list Z) (p : Z) (l : list Z) : list Z :=
  fold_left (λ l i, <[Z.to_nat i := p]> l) sects l.

Lemma length_protect_all sects p l : length (protect_all sects p l) = length l.
Proof. revert l. induction sects as [|s sects IH]; intros l; [done|]. by rw /= IH length_insert. Qed.

Lemma protect_all_at sects p l s :
  Forall (λ i, 0 ≤ i < Z.of_nat (length l)) sects → 0 ≤ s →
  arr_at (protect_all sects p l) s = if decide (s ∈ sects) then p else arr_at l s.
Proof.
  revert l. induction sects as [|i sects IH]; intros l Hall Hs; [done|].
  apply Forall_cons in Hall as [Hi Hall]. simpl. rw IH //.
  { by rw length_insert. }
  destruct (decide (s ∈ sects)) as [Hin|Hin].
  { rw decide_True //. by right. }
  destruct (decide (s = i)) as [->|Hne].
  - rw decide_True; [by left|]. rw /arr_at. apply nth_lookup_Some, list_lookup_insert_eq. lia.
  - rw decide_False; [by intros [|]%elem_of_cons|].
    rw /arr_at !nth_lookup list_lookup_insert_ne //. lia.
Qed.

Lemma protect_sectors_run b bank info sects p :
  b_info b !! bank = Some info →
  Forall (λ i, 0 ≤ i < Z.of_nat (length (fi_protect info))) sects →
  protect_sectors bank sects p b =
  Ok (tt, set_info (<[bank := with_protect info (protect_all sects p (fi_protect info))]>
                      (b_info b)) b).
Proof.
  rw /protect_sectors. revert b info. induction sects as [|i sects IH]; intros b info Hb Hall; simpl.
  { rw list_insert_id; [by destruct info|]. by destruct b. }
  apply Forall_cons in Hall as [Hi Hall].
  set (info1 := with_protect info (<[Z.to_nat i := p]> (fi_protect info))).
  rw (bind_ok _ _ _ tt (set_info (<[bank := info1]> (b_info b)) b)).
  { rw (bind_ok _ _ _ _ _ (deref_info _ _ _ Hb)). rw /set_protect decide_True //. }
  rw (IH _ info1).
  - simpl. apply list_lookup_insert_eq. by eapply lookup_lt_Some.
  - by rw /= length_insert.
  - by rw /= list_insert_insert_eq.
Qed.

Lemma wp_flash_sect_protect_run {hw : SfHw} {nhw : NorHw} b bank info i j p :
  run_of (b_info b) bank info i j →
  wp (flash_sect_protect p (starts info i) (send info j)) (λ rc b', rc = 0 ∧
    b' = set_info (<[bank := with_protect info (protect_all (seqZ i (j - i + 1)) p
                                                   (fi_protect info))]> (b_info b)) b) b.
Proof.
  intros Hrun. pose proof (fill_banks_run _ _ _ _ _ Hrun) as Hread.
  destruct Hrun as [Hbank Hk Hbanks [Hij Hj] _].
  assert (bank_ok info) as Hok by (eapply Forall_lookup_1 in Hbanks; [|done]; by apply Hbanks).
  apply wp_bind, wp_bind, wp_get. eapply wp_reads; [exact Hread|]. cbn beta iota.
  rw (proj2 (Z.eqb_neq (j - i + 1) 0)); [lia|]. cbn [negb andb Z.eqb].
  apply wp_bind, wp_one_range; [|done|by eapply lookup_lt_Some|].
  - intros k [] b' Hl Hlt. destruct (b_info b' !! k) as [info'|] eqn:Hk'.
    + rw (bind_ok _ _ _ _ _ (deref_info _ _ _ Hk')). by destruct (_ =? _).
    + apply lookup_ge_None_1 in Hk'. lia.
  - apply wp_bind. eapply wp_of_run; [by apply deref_info|]. rw (proj2 (Z.eqb_neq _ _) Hk).
    rw (proj2 (Z.leb_le 0 i)); [lia|]. rw (proj2 (Z.leb_le i j)); [lia|]. cbn [andb].
    eapply wp_of_run; [apply protect_sectors_run; [done|]|].
    + apply Forall_forall. intros s Hs%elem_of_seqZ. destruct (bo_arrays _ Hok) as [_ ->].
      pose proof (bo_count _ Hok). rw /CFG_MAX_FLASH_SECT. lia.
    + rw /= length_insert. split; [done|]. by apply wp_ret.
Qed.

(** ** Writing *)

Lemma for_until_first {S A B} (pre suf : list A) (f : A → M S (option B)) a r s :
  (∀ x, x ∈ pre → f x s = Ok (None, s)) → f a s = Ok (Some r, s) →
  for_until (pre ++ a :: suf) f s = Ok (Some r, s).
Proof.
  intros Hpre Ha. induction pre as [|x pre IH]; simpl.
  - by rw (bind_ok _ _ _ _ _ Ha).
  - rw (bind_ok _ _ _ None s); [apply Hpre; by left|]. apply IH. intros y Hy. apply Hpre. by right.
Qed.

Lemma for_until_err {S A B} (pre suf : list A) (f : A → M S (option B)) a e s :
  (∀ x, x ∈ pre → f x s = Ok (None, s)) → f a s = Err e →
  for_until (pre ++ a :: suf) f s = Err e.
Proof.
  intros Hpre Ha. induction pre as [|x pre IH]; simpl.
  - by apply bind_err.
  - rw (bind_ok _ _ _ None s); [apply Hpre; by left|]. apply IH. intros y Hy. apply Hpre. by right.
Qed.

(** The first [Some] of a function on a list. *)
Fixpoint first_some {A B} (g : A → option B) (l : list A) : option B :=
  match l with
  | [] => None
  | a :: l => match g a with Some b => Some b | None => first_some g l end
  end.

Lemma reads_for_until {S A B} (l : list A) (f : A → M S (option B)) g :
  (∀ a, a ∈ l → reads (f a) (g a)) → reads (for_until l f) (first_some g l).
Proof.
  induction l as [|a l IH]; intros Hf; simpl; [done|].
  eapply reads_bind; [apply Hf; by left|]. destruct (g a); [done|]. apply IH. intros x Hx.
  apply Hf. by right.
Qed.

Lemma first_some_is_Some {A B} (g : A → option B) l :
  is_Some (first_some g l) ↔ Exists (λ a, is_Some (g a)) l.
Proof.
  induction l as [|a l IH]; simpl; [rw Exists_nil; by split; [intros [? [=]]|]|].
  rw Exists_cons. destruct (g a) as [b|] eqn:Hg; [naive_solver|]. rw IH.
  split; [by right|]. by intros [[? [=]]|].
Qed.

(** The table of a board: four banks with arrays, well formed when known. *)
Record board_ok (b : board) : Prop := {
  bd_len : length (b_info b) = CFG_MAX_FLASH_BANKS;
  bd_arrays : Forall arrays_ok (b_info b);
  bd_banks : banks_ok (b_info b)
}.

Definition in_bank (x : Z) (info : flash_info_t) : Prop :=
  known info ∧ starts info 0 ≤ x < bank_top info.

Lemma addr2info_run b addr k info :
  board_ok b → 0xF0000000 ≤ addr → b_info b !! k = Some info → in_bank addr info →
  (∀ m info', (m < k)%nat → b_info b !! m = Some info' → outside addr info') →
  addr2info addr b = Ok (Some (PInfo k), b).
Proof.
  intros [Hlen Harr Hbanks] Haddr Hk [Hkn Hin] Hpre. rw /addr2info.
  rw (proj2 (Z.ltb_ge addr 0xF0000000)) //. cbn [andb].
  pose proof Hk as Hlt%lookup_lt_Some. rw Hlen in Hlt.
  assert (∀ m info', b_info b !! m = Some info' →
    (let! info := deref_bank (PInfo m) in
     let! start0 := arr_get (fi_start info) 0 in
     if negb (fi_flash_id info =? FLASH_UNKNOWN) && (start0 <=? addr) &&
       (addr <=? bank_end info start0) then ret (Some (PInfo m)) else ret None) b =
    Ok (if decide (in_bank addr info') then Some (PInfo m) else None, b)) as Hone.
  { intros m info' Hm. rw (bind_ok _ _ _ _ _ (deref_info _ _ _ Hm)).
    eapply Forall_lookup_1 in Harr as Ha; [|exact Hm]. eapply Forall_lookup_1 in Hbanks as Hb; [|exact Hm].
    rw (bind_ok _ _ _ (starts info' 0) b).
    { apply reads_arr_get. destruct Ha as [-> _]. rw /CFG_MAX_FLASH_SECT. lia. }
    destruct (Z.eqb_spec (fi_flash_id info') FLASH_UNKNOWN) as [Hu|Hu]; cbn [negb andb].
    { by rw decide_False; [intros [? _]|]. }
    rw (b_end_eq (Hb Hu)). destruct (decide _) as [[_ Hr]|Hn].
    - rw (proj2 (Z.leb_le _ _)); [lia|]. by rw (proj2 (Z.leb_le _ _)); [lia|].
    - destruct (Z.leb_spec (starts info' 0) addr); [|done]. cbn [andb].
      destruct (Z.leb_spec addr (bank_top info' - 1)); [|done]. destruct Hn. split; [done|lia]. }
  replace (seq 0 CFG_MAX_FLASH_BANKS) with (seq 0 k ++ k :: seq (S k) (CFG_MAX_FLASH_BANKS - k - 1)).
  2:{ rw /CFG_MAX_FLASH_BANKS in Hlt |- *. do 4 (destruct k as [|k]; [done|]). lia. }
  apply for_until_first.
  - intros m Hm%elem_of_seq. destruct (b_info b !! m) as [info'|] eqn:Hm'.
    2:{ apply lookup_ge_None_1 in Hm'. lia. }
    rw (Hone _ _ Hm') decide_False //. intros [Hu Hr].
    destruct (Hpre m info' ltac:(lia) Hm' Hu); lia.
  - rw (Hone _ _ Hk) decide_True //.
Qed.

(** A protected sector that the check of [flash_write] sees: it meets
    [addr..e], and it is not the last sector of a bank that ends at the top of
    the address space, whose end [info->start[0] + info->size] is 0. *)
Definition hits (info : flash_info_t) (addr e s : Z) : Prop :=
  arr_at (fi_protect info) s ≠ 0 ∧ starts info s ≤ e ∧ addr ≤ send info s ∧
  ¬ (s = fi_sector_count info - 1 ∧ bank_top info = 2 ^ 32).

#[export] Instance hits_dec info addr e s : Decision (hits info addr e s).
Proof. rw /hits. apply _. Defined.

Definition hit_by (info : flash_info_t) (addr e : Z) : Prop :=
  Exists (hits info addr e) (seqZ 0 (fi_sector_count info)).

#[export] Instance hit_by_dec info addr e : Decision (hit_by info addr e).
Proof. rw /hit_by. apply _. Defined.

(** Sector [s] is protected and holds one of the [cnt] bytes from [addr] on. *)
Definition protected_in (info : flash_info_t) (addr cnt s : Z) : Prop :=
  0 ≤ s < fi_sector_count info ∧ arr_at (fi_protect info) s ≠ 0 ∧
  ∃ x, addr ≤ x < addr + cnt ∧ starts info s ≤ x ≤ send info s.

(** The last sector of a bank that ends at the top of the address space. *)
Definition top_sector (info : flash_info_t) (s : Z) : Prop :=
  s = fi_sector_count info - 1 ∧ bank_top info = 2 ^ 32.
#[export] Instance top_sector_dec info s : Decision (top_sector info s).
Proof. rw /top_sector. apply _. Defined.

Lemma hit_by_protected info addr cnt :
  bank_ok info → 0 < cnt →
  hit_by info addr (addr + cnt - 1) ↔ ∃ s, protected_in info addr cnt s ∧ ¬ top_sector info s.
Proof.
  intros Hok Hc. rw /hit_by Exists_exists. f_equiv. intros s. rw elem_of_seqZ /hits /protected_in.
  split.
  - intros (Hs & Hp & H1 & H2 & Ht). split; [|done]. split; [lia|]. split; [done|].
    pose proof (sector_bounds Hok s ltac:(lia)). exists (Z.max addr (starts info s)). lia.
  - intros ((Hs & Hp & x & Hx & Hxs) & Ht). split; [lia|]. split; [done|]. split_and!; [lia|lia|done].
Qed.

(** The overlap test of one sector, with its 32-bit end. *)
Lemma overlap_test info addr e s :
  bank_ok info → 0 ≤ addr → 0 ≤ s < fi_sector_count info →
  (starts info s <=? e) && (addr <? after (info := info) s) = true ↔
  starts info s ≤ e ∧ addr ≤ send info s ∧
  ¬ (s = fi_sector_count info - 1 ∧ bank_top info = 2 ^ 32).
Proof.
  intros Hok Ha0 Hs. rw andb_true_iff Z.leb_le Z.ltb_lt.
  destruct (after_spec Hok s Hs) as [Ha|[Ha Hs']].
  - assert (send info s + 1 ≠ 2 ^ 32) as Hne.
    { intros He. rw /after He in Ha. by vm_compute in Ha. }
    assert (¬ (s = fi_sector_count info - 1 ∧ bank_top info = 2 ^ 32)) as Hn.
    { intros [-> Htop]. rw /send Z.eqb_refl in Hne. lia. }
    rw Ha. naive_solver lia.
  - rw Ha. split; [lia|]. intros (_ & _ & []). split.
    + destruct (decide (s = fi_sector_count info - 1)) as [|Hne]; [done|].
      pose proof (send_lt Hok s (fi_sector_count info - 1) ltac:(lia) ltac:(lia)).
      pose proof (bo_last _ Hok). pose proof (bo_top _ Hok). lia.
    + pose proof (sector_bounds Hok s Hs). pose proof (bo_top _ Hok). lia.
Qed.

Lemma reads_bank_protected info addr e :
  bank_ok info → 0 ≤ addr → reads (bank_protected info addr e) (bool_decide (hit_by info addr e)).
Proof.
  intros Hok Ha0. pose proof (bo_count _ Hok) as Hc. destruct (bo_arrays _ Hok) as [Hl1 Hl2].
  rw /CFG_MAX_FLASH_SECT in Hl1 Hl2.
  eapply reads_bind; [apply (reads_start Hok); lia|]. eapply reads_bind.
  { apply (reads_for_until _ _ (λ s, if decide (hits info addr e s) then Some tt else None)).
    intros s Hs%elem_of_seqZ.
    eapply (reads_bind _ _ (after (info := info) s)).
    { pose proof (reads_next Hok s ltac:(lia)) as Hn. rw (b_end_eq Hok) in Hn.
      by replace (bank_top info - 1 + 1) with (bank_top info) in Hn by lia. }
    eapply reads_bind; [apply (reads_start Hok); lia|].
    pose proof (overlap_test info addr e s Hok Ha0 ltac:(lia)) as Hiff.
    destruct (_ && _) eqn:Hcond.
    - eapply reads_bind; [apply reads_arr_get; lia|].
      destruct (Z.eqb_spec (arr_at (fi_protect info) s) 0) as [Hp|Hp].
      + rw decide_False; [by intros [? _]|]. apply reads_ret.
      + rw decide_True; [|apply reads_ret]. split; [done|]. by apply Hiff.
    - rw decide_False; [|apply reads_ret]. intros [_ Hh]. by apply Hiff in Hh. }
  replace (bool_decide (is_Some _)) with (bool_decide (hit_by info addr e)); [apply reads_ret|].
  apply bool_decide_ext. rw first_some_is_Some /hit_by !Exists_exists.
  f_equiv. intros s. destruct (decide (hits info addr e s)); [naive_solver|].
  split; [naive_solver|]. by intros [_ [? [=]]].
Qed.

(** ** [flash_write] inside one bank *)

Section write.
Context {hw : SfHw} {nhw : NorHw}.

(** A write of [cnt] bytes from [addr] inside bank [k]. *)
Record write_in (b : board) (k : nat) (info : flash_info_t) (addr cnt : Z) : Prop := {
  wi_board : board_ok b;
  wi_bank : b_info b !! k = Some info;
  wi_known : known info;
  wi_window : 0xF0000000 ≤ starts info 0;
  wi_cnt : 0 < cnt;
  wi_first : starts info 0 ≤ addr;
  wi_last : addr + cnt ≤ bank_top info;
  wi_others m info' x : (m < k)%nat → b_info b !! m = Some info' →
    addr ≤ x < addr + cnt → outside x info'
}.

Lemma wi_bank_ok b k info addr cnt : write_in b k info addr cnt → bank_ok info.
Proof.
  intros [Hbd Hk Hkn _ _ _ _ _]. pose proof (bd_banks _ Hbd) as Hb.
  eapply Forall_lookup_1 in Hb; [|done]. by apply Hb.
Qed.

(** A write inside a bank is one call of the driver. *)
Lemma write_banks_one n b k info addr cnt src (Q : Z → board → Prop) :
  write_in b k info addr cnt → wp (write_buff n info src addr cnt) Q b →
  wp (write_banks n [PInfo k] src addr cnt) Q b.
Proof.
  intros Hin Hw. pose proof (wi_bank_ok _ _ _ _ _ Hin) as Hok. destruct Hin as [Hbd Hk Hkn Hwin Hc Hf Hl _].
  rw /write_banks. apply wp_bind. cbn [for_fold].
  pose proof (bo_top _ Hok). pose proof (bo_count _ Hok).
  apply wp_bind. rw (proj2 (Z.leb_gt cnt 0)) //.
  apply wp_bind. eapply wp_of_run; [by apply deref_info|].
  apply wp_bind. eapply wp_reads; [apply (reads_start Hok); lia|].
  assert ((if cnt <? u32 (starts info 0 + fi_size info - addr) then cnt
           else u32 (starts info 0 + fi_size info - addr)) = cnt) as ->.
  { rw /u32 wrap_small; rw /bank_top in H Hl; [lia|]. destruct (Z.ltb_spec cnt (starts info 0 + fi_size info - addr)); lia. }
  apply wp_bind. eapply wp_mono; [exact Hw|]. intros rc b' HQ.
  destruct (Z.eqb_spec rc 0) as [->|]; cbn [negb]; by apply wp_ret, wp_ret, wp_ret.
Qed.

Lemma wp_flash_write_one n b k info addr cnt src (Q : Z → board → Prop) :
  write_in b k info addr cnt → wp (write_buff n info src addr cnt) Q b →
  wp (flash_write n src addr cnt) (λ rc b',
    if decide (hit_by info addr (addr + cnt - 1)) then rc = ERR_PROTECTED ∧ b' = b else Q rc b') b.
Proof.
  intros Hin Hw. pose proof (wi_bank_ok _ _ _ _ _ Hin) as Hok.
  pose proof Hin as [Hbd Hk Hkn Hwin Hc Hf Hl Ho].
  pose proof (bo_top _ Hok). rw /flash_write.
  assert (u32 (addr + cnt - 1) = addr + cnt - 1) as -> by (apply wrap_small; lia).
  assert (∀ x, addr ≤ x < addr + cnt → addr2info x b = Ok (Some (PInfo k), b)) as Ha2i.
  { intros x Hx. apply (addr2info_run b x k info); [done|lia|done|split; [done|lia]|].
    intros m info' Hm Hi. by eapply Ho. }
  apply wp_bind. eapply wp_of_run; [apply Ha2i; lia|].
  apply wp_bind. eapply wp_of_run; [apply Ha2i; lia|].
  rw (proj2 (Z.eqb_neq cnt 0)); [lia|]. apply wp_bind.
  replace (bank_range (PInfo k) (PInfo k)) with (ret (S := board) [PInfo k]).
  2:{ rw /bank_range. by replace (S k - k)%nat with 1%nat by lia. }
  apply wp_ret, wp_bind. cbn [for_until]. apply wp_bind, wp_bind.
  eapply wp_of_run; [by apply deref_info|].
  apply wp_bind. eapply wp_reads; [apply reads_bank_protected; [done|lia]|]. apply wp_ret.
  destruct (decide _) as [Hh|Hh].
  - rw bool_decide_true //.
  - rw bool_decide_false //. apply wp_ret. by eapply write_banks_one.
Qed.

Lemma wp_flash_write n b k info addr cnt src :
  b_type b = SPI_FLASH_TYPE → write_in b k info addr cnt → cnt ≤ Z.of_nat (length src) →
  wp (flash_write n src addr cnt) (λ rc b',
    if decide (hit_by info addr (addr + cnt - 1)) then rc = ERR_PROTECTED ∧ b' = b
    else rc = ERR_OK ∧ sf_did [] (placed addr (take (Z.to_nat cnt) src)) b b') b.
Proof.
  intros Ht Hw Hsrc. eapply wp_flash_write_one; [done|].
  apply wp_bind, wp_get. rw Ht. apply wp_zoom.
  eapply wp_mono; [by apply acts_spi_write_buff|].
  intros rc sf [Hd ->]. split; [done|]. by exists sf.
Qed.

End write.

(** ** The board after [flash_init] *)

(** Two serial flash banks at the top of the address space, and two entries
    that no driver filled. *)
Definition spi_table (k0 k1 : Z) (fi0 fi1 : flash_info_t) (banks : list flash_info_t) : Prop :=
  banks = [fi0; fi1; ff_bank; ff_bank] ∧
  spi_bank (2 ^ 32 - k0 * SECTOR) k0 fi0 ∧ spi_bank (2 ^ 32 - (k0 + k1) * SECTOR) k1 fi1.

Lemma ff_bank_unknown : ¬ known ff_bank.
Proof. by intros []. Qed.

Lemma spi_table_spi k0 k1 fi0 fi1 banks : spi_table k0 k1 fi0 fi1 banks → spi_banks banks.
Proof.
  intros (-> & H0 & H1). repeat apply Forall_cons_2; [eauto..| | |done]; by intros ?%ff_bank_unknown.
Qed.

Lemma spi_table_board k0 k1 fi0 fi1 b : spi_table k0 k1 fi0 fi1 (b_info b) → board_ok b.
Proof.
  intros Ht. split; [by destruct Ht as [-> _]| |by eapply spi_banks_ok, spi_table_spi].
  destruct Ht as (-> & H0 & H1). repeat apply Forall_cons_2; [apply H0|apply H1|done..].
Qed.

Lemma spi_bank_span base k info : spi_bank base k info → starts info 0 = base ∧ bank_top info = base + k * SECTOR.
Proof. intros (Hs & Hc & Hk & _ & _ & _ & _ & Hst). rw /bank_top Hs Hst; lia. Qed.

(** Every run of sectors of a known bank can be erased by its addresses. *)
Lemma spi_table_run k0 k1 fi0 fi1 banks bank info i j :
  spi_table k0 k1 fi0 fi1 banks → banks !! bank = Some info → known info →
  0 ≤ i ≤ j → j < fi_sector_count info → run_of banks bank info i j.
Proof.
  intros Ht Hbank Hk Hij Hj. pose proof (spi_table_spi _ _ _ _ _ Ht) as Hspi.
  pose proof (spi_banks_ok _ Hspi) as Hbanks.
  assert (bank_ok info) as Hok by (eapply Forall_lookup_1 in Hbanks; [|done]; by apply Hbanks).
  pose proof (sector_bounds Hok i ltac:(lia)) as Hbi. pose proof (sector_bounds Hok j ltac:(lia)) as Hbj.
  split; [done..|]. intros m info' Hm Hne. destruct Ht as (-> & H0 & H1).
  destruct (spi_bank_span _ _ _ H0) as [Hs0 Ht0]. destruct (spi_bank_span _ _ _ H1) as [Hs1 Ht1].
  rw /SECTOR in Hs0 Ht0 Hs1 Ht1. pose proof (starts_mono Hok i j ltac:(lia) ltac:(lia)).
  assert (∀ x, starts info i ≤ x < bank_top info → outside x info') as Hout; [|split; apply Hout; lia].
  { intros x Hx Hk'. destruct m as [|[|[|[|m]]]]; destruct bank as [|[|[|[|bank]]]]; simplify_eq/=;
      try (by destruct (ff_bank_unknown Hk)); try (by destruct (ff_bank_unknown Hk')); lia. }
Qed.

(** Every range of the first bank can be written. *)
Lemma spi_table_write k0 k1 fi0 fi1 b addr cnt :
  spi_table k0 k1 fi0 fi1 (b_info b) → known fi0 → 0 < cnt →
  2 ^ 32 - k0 * 65536 ≤ addr → addr + cnt ≤ 2 ^ 32 → write_in b 0 fi0 addr cnt.
Proof.
  intros Ht Hk Hc Ha He. pose proof (spi_table_board _ _ _ _ _ Ht) as Hbd.
  destruct Ht as (Hi & H0 & H1). destruct (spi_bank_span _ _ _ H0) as [Hs Htop].
  pose proof H0 as (_ & _ & Hk0 & _). rw /SECTOR in Hs Htop.
  split; [done|by rw Hi|done|lia..].
Qed.

(** ** Claims *)

Section claims.
Context {hw : SfHw} {nhw : NorHw}.

(** [flash_init] establishes what the commands rely on.  On a board whose
    straps say serial flash it returns, for any chips; [flash_info] then holds
    two well-formed banks at the top of the address space and two entries
    marked unknown, every run of sectors of a known bank is addressed by its
    start and end, and nothing was erased or programmed. *)
Theorem flash_init_ready n chip_id val fi0 fi1 b :
  SfLive n → get_boot_flash_type chip_id val = SPI_FLASH_TYPE →
  sf_info (b_sf b) = [fi0; fi1] → arrays_ok fi0 → arrays_ok fi1 →
  wp (flash_init n chip_id val) (λ size b', ∃ k0 k1 fi0' fi1',
    b_type b' = SPI_FLASH_TYPE ∧ size = (k0 + k1) * SECTOR ∧
    spi_table k0 k1 fi0' fi1' (b_info b') ∧ logged [] [] (b_sf b) (b_sf b') ∧
    ∀ bank info i j, b_info b' !! bank = Some info → known info → 0 ≤ i ≤ j →
      j < fi_sector_count info → run_of (b_info b') bank info i j) b.
Proof.
  intros Hlive Ht Hinfo Ha0 Ha1. rw /flash_init Ht. do 2 apply wp_bind, wp_modify.
  apply wp_bind, wp_zoom. eapply wp_mono; [by eapply wp_spi_flash_init|].
  intros size sf (k0 & k1 & fi0' & fi1' & Hi & -> & (Hp0 & Hp1 & Hb0 & Hb1 & _) & Hl).
  apply wp_bind, wp_get, wp_bind, wp_modify, wp_ret.
  rw Hp0 in Hb0. rw Hp1 in Hb1. exists k0, k1, fi0', fi1'.
  assert (spi_table k0 k1 fi0' fi1' [fi0'; fi1'; ff_bank; ff_bank]) as Htab by done.
  rw /= Hi. split_and!; try done. intros bank info i j. by apply (spi_table_run k0 k1 fi0' fi1').
Qed.

(** C19: an erase by address stays in its range.  Whatever addresses the command is
    given, every sector that [flash_sect_erase] erases lies inside
    [addr_first..addr_last], belongs to a bank of the table and is not
    protected; no byte is programmed and the table is left alone. *)
Theorem flash_sect_erase_safe n b addr_first addr_last :
  SfLive n → b_type b = SPI_FLASH_TYPE → spi_banks (b_info b) → addr_last < 2 ^ 32 →
  wp (flash_sect_erase n addr_first addr_last) (λ _ b', ∃ er,
    sf_did er [] b b' ∧ Forall (erase_ok (b_info b) addr_first addr_last) er) b.
Proof. intros. by apply wp_flash_sect_erase_safe. Qed.

(** C26: an erase by address on serial flash.  Given the first address of sector [i]
    and the last of sector [j] of a known bank, [flash_sect_erase] erases the
    unprotected ones of the sectors [i..k-1] in order, and nothing else, for some [k]
    up to [j + 1].  When it returns 0 it has erased all of them up to [j], or a
    ctrl-C came during the call and it stopped before sector [k], with the result 0
    all the same.  When it returns an error it has passed sector [i]. *)
Theorem flash_sect_erase_exact n b bank info i j :
  SfLive n → b_type b = SPI_FLASH_TYPE → run_of (b_info b) bank info i j →
  wp (flash_sect_erase n (starts info i) (send info j)) (λ rc b', ∃ k,
    i ≤ k ≤ j + 1 ∧ sf_did (open_sectors info i (k - 1)) [] b b' ∧
    (rc = ERR_OK → k = j + 1 ∨ ctrlc_in (b_sf b) (b_sf b')) ∧ (rc ≠ ERR_OK → i < k)) b.
Proof. intros. by eapply wp_flash_sect_erase_run. Qed.

(** Protection by address is exact.  Given the first address of sector [i] and
    the last of sector [j] of a known bank, [flash_sect_protect] returns 0, the
    sectors [i..j] have protection [p], and every other sector, bank and field
    is as before. *)
Theorem flash_sect_protect_exact b bank info i j p :
  run_of (b_info b) bank info i j →
  wp (flash_sect_protect p (starts info i) (send info j)) (λ rc b', rc = 0 ∧ ∃ l,
    b' = set_info (<[bank := with_protect info l]> (b_info b)) b ∧
    length l = length (fi_protect info) ∧
    ∀ s, 0 ≤ s → arr_at l s = if decide (i ≤ s ≤ j) then p else arr_at (fi_protect info) s) b.
Proof.
  intros Hrun. eapply wp_mono; [by apply wp_flash_sect_protect_run|]. intros rc b' [-> ->].
  split; [done|]. eexists. split; [done|]. rw length_protect_all. split; [done|]. intros s Hs.
  destruct Hrun as [Hbank Hk Hbanks [Hij Hj] _].
  eapply Forall_lookup_1 in Hbanks as Hok; [|done]. specialize (Hok Hk).
  destruct (bo_arrays _ Hok) as [_ Hl]. pose proof (bo_count _ Hok).
  rw protect_all_at //.
  - apply Forall_forall. intros x Hx%elem_of_seqZ. rw Hl /CFG_MAX_FLASH_SECT. lia.
  - destruct (decide (i ≤ s ≤ j)); [rw decide_True //|rw decide_False //]; rw elem_of_seqZ; lia.
Qed.

(** C27: [flash_write] inside a bank of serial flash either refuses the whole write
    with ERR_PROTECTED and nothing programmed, and then a protected sector holds some
    of the bytes; or it returns 0, has programmed exactly the bytes of the source at
    their addresses, and no protected sector holds any of them.  The last sector of a
    bank that ends at the top of the address space is the exception: its protection
    alone does not stop a write, because its end wraps to 0. *)
Theorem flash_write_exact n b k info addr cnt src :
  b_type b = SPI_FLASH_TYPE → write_in b k info addr cnt → cnt ≤ Z.of_nat (length src) →
  wp (flash_write n src addr cnt) (λ rc b',
    (rc = ERR_PROTECTED ∧ b' = b ∧
     ∃ s, protected_in info addr cnt s ∧ ¬ top_sector info s) ∨
    (rc = ERR_OK ∧ sf_did [] (placed addr (take (Z.to_nat cnt) src)) b b' ∧
     ∀ s, protected_in info addr cnt s → top_sector info s)) b.
Proof.
  intros Ht Hw Hsrc. eapply wp_mono; [by eapply wp_flash_write|]. intros rc b' H.
  destruct (decide _) as [Hh|Hh]; [left|right]; destruct H as [-> H]; (split; [done|]);
    (split; [done|]); (rw hit_by_protected in Hh; [by eapply wi_bank_ok|by eapply wi_cnt|]); [done|].
  intros s Hs. destruct (decide (top_sector info s)); [done|]. by destruct Hh; exists s.
Qed.

(** The protection of the last sector is ignored.  A write inside the last
    sector of a bank that ends at the top of the address space (as the first
    serial flash bank does) is done and returns 0 even when that sector is
    protected: the end address of the sector wraps to 0 in the check. *)
Theorem flash_write_last_sector n b k info addr cnt src :
  b_type b = SPI_FLASH_TYPE → write_in b k info addr cnt → cnt ≤ Z.of_nat (length src) →
  bank_top info = 2 ^ 32 → starts info (fi_sector_count info - 1) ≤ addr →
  arr_at (fi_protect info) (fi_sector_count info - 1) ≠ 0 →
  wp (flash_write n src addr cnt) (λ rc b',
    rc = ERR_OK ∧ sf_did [] (placed addr (take (Z.to_nat cnt) src)) b b') b.
Proof.
  intros Ht Hw Hsrc Htop Hlast _. eapply wp_mono; [by eapply wp_flash_write|].
  intros rc b'. destruct (decide _) as [Hh|]; [|done].
  assert (bank_ok info) as Hok.
  { pose proof (bd_banks _ (wi_board _ _ _ _ _ Hw)) as Hb.
    eapply Forall_lookup_1 in Hb; [|apply Hw]. by apply Hb, Hw. }
  apply Exists_exists in Hh as (s & Hs%elem_of_seqZ & _ & _ & Hse & Hn). exfalso. apply Hn.
  split; [|done]. destruct (decide (s = fi_sector_count info - 1)); [done|].
  pose proof (send_lt Hok s (fi_sector_count info - 1) ltac:(lia) ltac:(lia)). lia.
Qed.

(** A write across the two banks is dropped.  The second bank lies below the
    first, so a write that starts in the second and ends in the first has its
    first bank after its last in the table: [flash_write] returns 0 and programs
    nothing. *)
Theorem flash_write_across_banks n b k0 k1 fi0 fi1 addr cnt src :
  spi_table k0 k1 fi0 fi1 (b_info b) → known fi0 → known fi1 → 0 < cnt →
  starts fi1 0 ≤ addr < starts fi0 0 → starts fi0 0 < addr + cnt ≤ 2 ^ 32 →
  flash_write n src addr cnt b = Ok (ERR_OK, b).
Proof.
  intros Ht Hn0 Hn1 Hc Ha He. pose proof (spi_table_board _ _ _ _ _ Ht) as Hbd.
  destruct Ht as (Hi & H0 & H1). destruct (spi_bank_span _ _ _ H0) as [Hs0 Ht0].
  destruct (spi_bank_span _ _ _ H1) as [Hs1 Ht1].
  pose proof H0 as (_ & _ & Hk0 & _). pose proof H1 as (_ & _ & Hk1 & _).
  rw /SECTOR in Hs0 Hs1 Ht0 Ht1. rw /flash_write.
  assert (u32 (addr + cnt - 1) = addr + cnt - 1) as -> by (apply wrap_small; lia).
  rw (bind_ok _ _ _ (Some (PInfo 1)) b).
  { apply (addr2info_run b addr 1 fi1); [done|lia|by rw Hi|split; [done|lia]|].
    intros [|m] info' Hm Hl; [|lia]. rw Hi in Hl. simplify_eq/=. intros _. lia. }
  rw (bind_ok _ _ _ (Some (PInfo 0)) b).
  { apply (addr2info_run b _ 0 fi0); [done|lia|by rw Hi|split; [done|lia]|]. lia. }
  by rw (proj2 (Z.eqb_neq cnt 0)); [lia|].
Qed.

End claims.

(** ** A board with two 8 MB chips *)

#[local] Existing Instance quiet_hw.
#[local] Existing Instance quiet_live.
#[local] Instance quiet_nor : NorHw :=
  {| bus_read _ _ := 0; bus_read8 _ _ := 0; io_read _ _ := 0; nor_timer _ := 0 |}.

Definition demo_chip (base : Z) : flash_info_t :=
  layout_bank base (FlashInfo 0x800000 128 0x1C2017 (fi_start blank_bank) (fi_protect blank_bank)).
Definition demo_bank0 : flash_info_t := demo_chip 0xFF800000.
Definition demo_bank1 : flash_info_t := demo_chip 0xFF000000.
Definition demo_board : board :=
  Board (SfSt 0 [] [demo_bank0; demo_bank1] 0xFF800000 0xFF000000)
    [demo_bank0; demo_bank1; ff_bank; ff_bank] (NorSt [] []) [] SPI_FLASH_TYPE BOOT_TYPE_16BIT BOOT_TYPE_8BIT.

Lemma demo_chip_bank base :
  base mod SECTOR = 0 → 0 < base → base + 128 * SECTOR ≤ 2 ^ 32 → spi_bank base 128 (demo_chip base).
Proof. intros. by apply layout_bank_spec. Qed.

Lemma demo_table : spi_table 128 128 demo_bank0 demo_bank1 (b_info demo_board).
Proof. split_and!; [done|..]; by apply demo_chip_bank. Qed.

Lemma demo_run i j : 0 ≤ i ≤ j → j < 128 → run_of (b_info demo_board) 0 demo_bank0 i j.
Proof. intros. by apply (spi_table_run _ _ _ _ _ _ _ _ _ demo_table). Qed.

Lemma flash_init_ready_witness :
  wp (flash_init 1 0x3445 0) (λ size b', ∃ k0 k1 fi0' fi1',
    b_type b' = SPI_FLASH_TYPE ∧ size = (k0 + k1) * SECTOR ∧
    spi_table k0 k1 fi0' fi1' (b_info b') ∧ logged [] [] (b_sf demo_board) (b_sf b') ∧
    ∀ bank info i j, b_info b' !! bank = Some info → known info → 0 ≤ i ≤ j →
      j < fi_sector_count info → run_of (b_info b') bank info i j) demo_board.
Proof.
  apply (flash_init_ready 1 0x3445 0 demo_bank0 demo_bank1 demo_board).
  - apply _.
  - reflexivity.
  - reflexivity.
  - by apply demo_chip_bank.
  - by apply demo_chip_bank.
Defined.

Lemma flash_sect_erase_safe_witness :
  wp (flash_sect_erase 1 0xFFFD0000 0xFFFEFFFF) (λ _ b', ∃ er,
    sf_did er [] demo_board b' ∧
    Forall (erase_ok (b_info demo_board) 0xFFFD0000 0xFFFEFFFF) er) demo_board.
Proof.
  apply (flash_sect_erase_safe 1 demo_board 0xFFFD0000 0xFFFEFFFF).
  - apply _.
  - reflexivity.
  - eapply spi_table_spi, demo_table.
  - lia.
Defined.

(** The two environment sectors. *)
Lemma flash_sect_erase_exact_witness :
  wp (flash_sect_erase 1 0xFFFD0000 0xFFFEFFFF) (λ rc b', ∃ k,
    125 ≤ k ≤ 126 + 1 ∧ sf_did (open_sectors demo_bank0 125 (k - 1)) [] demo_board b' ∧
    (rc = ERR_OK → k = 126 + 1 ∨ ctrlc_in (b_sf demo_board) (b_sf b')) ∧ (rc ≠ ERR_OK → 125 < k)) demo_board.
Proof.
  apply (flash_sect_erase_exact 1 demo_board 0 demo_bank0 125 126).
  - apply _.
  - reflexivity.
  - apply demo_run; lia.
Defined.

Lemma flash_sect_protect_exact_witness :
  wp (flash_sect_protect 1 0xFFFD0000 0xFFFEFFFF) (λ rc b', rc = 0 ∧ ∃ l,
    b' = set_info (<[0%nat := with_protect demo_bank0 l]> (b_info demo_board)) demo_board ∧
    length l = length (fi_protect demo_bank0) ∧
    ∀ s, 0 ≤ s → arr_at l s = if decide (125 ≤ s ≤ 126) then 1
                              else arr_at (fi_protect demo_bank0) s) demo_board.
Proof. apply (flash_sect_protect_exact demo_board 0 demo_bank0 125 126 1). apply demo_run; lia. Defined.

Lemma demo_unprotected s : protected_in demo_bank0 0xFFFD0000 3 s → top_sector demo_bank0 s.
Proof.
  intros Hs. destruct (decide (top_sector demo_bank0 s)); [done|]. exfalso.
  assert (hit_by demo_bank0 0xFFFD0000 (0xFFFD0000 + 3 - 1)) as Hh.
  - apply hit_by_protected; [|lia|by exists s].
    eapply spi_bank_ok. apply demo_table.
  - revert Hh. by apply (bool_decide_unpack _).
Qed.

Lemma flash_write_exact_witness :
  wp (flash_write 1 [1; 2; 3] 0xFFFD0000 3) (λ rc b',
    rc = ERR_OK ∧ sf_did [] [(0xFFFD0000, 1); (0xFFFD0001, 2); (0xFFFD0002, 3)] demo_board b') demo_board.
Proof.
  eapply wp_mono.
  - apply (flash_write_exact 1 demo_board 0 demo_bank0 0xFFFD0000 3 [1; 2; 3]).
    + reflexivity.
    + apply (spi_table_write 128 128 demo_bank0 demo_bank1); [apply demo_table|done|lia..].
    + vm_compute. discriminate.
  - intros rc b' [(_ & _ & s & Hs & Ht)|(Hrc & Hd & _)]; [|by split].
    exfalso. by apply Ht, demo_unprotected.
Defined.

Lemma with_protect_bank base k fi l :
  spi_bank base k fi → length l = CFG_MAX_FLASH_SECT → spi_bank base k (with_protect fi l).
Proof. by intros (H1 & H2 & H3 & [H4 _] & H6 & H7 & H8 & H9) Hl. Qed.

(** The same board with the last sector protected. *)
Definition locked_bank0 : flash_info_t :=
  with_protect demo_bank0 (<[127%nat := 1]> (fi_protect demo_bank0)).
Definition locked_board : board :=
  set_info [locked_bank0; demo_bank1; ff_bank; ff_bank] demo_board.

Lemma locked_table : spi_table 128 128 locked_bank0 demo_bank1 (b_info locked_board).
Proof.
  split; [done|]. split; [|by apply demo_chip_bank].
  apply with_protect_bank; [by apply demo_chip_bank|]. rw length_insert.
  by apply (demo_chip_bank 0xFF800000).
Qed.

Lemma flash_write_last_sector_witness :
  wp (flash_write 1 [7] 0xFFFF0000 1) (λ rc b',
    rc = ERR_OK ∧ sf_did [] [(0xFFFF0000, 7)] locked_board b') locked_board.
Proof.
  apply (flash_write_last_sector 1 locked_board 0 locked_bank0 0xFFFF0000 1 [7]).
  - reflexivity.
  - apply (spi_table_write 128 128 locked_bank0 demo_bank1); [apply locked_table|done|lia..].
  - vm_compute. discriminate.
  - vm_compute. reflexivity.
  - vm_compute. discriminate.
  - vm_compute. discriminate.
Defined.

Lemma flash_write_across_banks_witness :
  flash_write 1 [1; 2; 3; 4] 0xFF7FFFFE 4 demo_board = Ok (ERR_OK, demo_board).
Proof.
  apply (flash_write_across_banks 1 demo_board 128 128 demo_bank0 demo_bank1).
  - apply demo_table.
  - done.
  - done.
  - lia.
  - vm_compute. split; [discriminate|reflexivity].
  - vm_compute. split; [reflexivity|discriminate].
Defined.
