(* ===== verification/FlashEdge.v ===== *)
(** * Edge cases of the flash commands (u-boot/common/flash.c, common/cmd_flash.c)

    Theorems about the arguments of [erase] and [protect] and about
    [flash_protect]: what an abbreviated range and a length stand for, and the
    arguments that take the code out of its tables. *)

From Stdlib Require Import ssreflect ZArith Lia ZifyBool String.
From stdpp Require Import base tactics numbers list.
From S2P Require Import Prelude Ctype Vsprintf SpiFlash NorFlash FlashCmd FlashRange FlashSafety.

Set Default Goal Selector "!".
Open Scope general_if_scope.
#[local] Open Scope Z_scope.

(** ** [flash_protect] *)

Section protect.
Context {info : flash_info_t} (Hok : bank_ok info) (flag from to : Z).

Definition meets (s : Z) : Prop := from ≤ send info s ∧ starts info s ≤ to.
#[local] Instance meets_dec s : Decision (meets s).
Proof. rw /meets. apply _. Defined.

Definition flag_value : Z := if Z.land flag FLAG_PROTECT_CLEAR =? 0 then 1 else 0.

(** The array with the sectors of [done] that meet the range set. *)
Definition protected_in (done l : list Z) : Prop :=
  length l = length (fi_protect info) ∧
  ∀ s, 0 ≤ s → arr_at l s = if decide (s ∈ done ∧ meets s) then flag_value
                            else arr_at (fi_protect info) s.

Lemma protected_in_step done l i :
  0 ≤ i < Z.of_nat (length (fi_protect info)) → protected_in done l →
  protected_in (done ++ [i]) (if decide (meets i) then <[Z.to_nat i := flag_value]> l else l).
Proof.
  intros Hi [Hl Hat]. split; [destruct (decide _); by rw ?length_insert|]. intros s Hs.
  destruct (decide (s = i)) as [->|Hne].
  - destruct (decide (meets i)) as [Hm|Hm].
    + rw decide_True; [by split; [apply elem_of_app; right; by left|]|].
      rw /arr_at. apply nth_lookup_Some, list_lookup_insert_eq. lia.
    + rw decide_False; [by intros []|]. rw Hat // decide_False //. by intros [].
  - assert (arr_at (if decide (meets i) then <[Z.to_nat i := flag_value]> l else l) s = arr_at l s) as ->.
    { destruct (decide (meets i)); [|done]. rw /arr_at !nth_lookup list_lookup_insert_ne //. lia. }
    rw Hat //. apply decide_ext. rw elem_of_app elem_of_cons elem_of_nil. naive_solver.
Qed.

Lemma wp_flash_protect_loop :
  flag = FLAG_PROTECT_SET ∨ flag = FLAG_PROTECT_CLEAR →
  wp (for_fold (seqZ 0 (fi_sector_count info)) (λ _ i,
        let! e := sector_end info (s16 (fi_sector_count info - 1)) (bank_end info (starts info 0)) i in
        let! s := arr_get (fi_start info) i in
        if (from <=? e) && (s <=? to) then
          if negb (Z.land flag FLAG_PROTECT_CLEAR =? 0) then set_protect i 0
          else if negb (Z.land flag FLAG_PROTECT_SET =? 0) then set_protect i 1
          else ret tt
        else ret tt) tt)
    (λ _ info', ∃ l, info' = with_protect info l ∧ protected_in (seqZ 0 (fi_sector_count info)) l) info.
Proof.
  intros Hflag.
  apply (wp_for_fold _ [] _ (λ done _ info', ∃ l, info' = with_protect info l ∧ protected_in done l)).
  3:{ done. }
  2:{ exists (fi_protect info). split; [by destruct info|]. split; [done|]. intros s Hs.
      destruct (decide _) as [[Hin _]|]; [|done]. by apply elem_of_nil in Hin. }
  intros i pre [] info1 (l & -> & Hp) [suf Hsplit].
  assert (0 ≤ i < fi_sector_count info) as Hi.
  { apply (elem_of_seqZ 0 (fi_sector_count info) i). rw -(app_nil_l (seqZ _ _)) Hsplit.
    apply elem_of_app. right. by left. }
  assert (0 ≤ i < Z.of_nat (length (fi_protect info))) as Hil.
  { destruct (bo_arrays _ Hok) as [_ ->]. pose proof (bo_count _ Hok). rw /CFG_MAX_FLASH_SECT. lia. }
  apply wp_bind. eapply wp_reads; [by apply (reads_sector_end Hok)|].
  apply wp_bind. eapply wp_reads; [by apply (reads_start Hok)|].
  pose proof (protected_in_step _ _ _ Hil Hp) as Hstep.
  assert (∀ v, flag_value = v → meets i → wp (set_protect i v) (λ _ info', ∃ l', info' = with_protect info l' ∧
    protected_in (pre ++ [i]) l') (with_protect info l)) as Hset.
  { intros v Hv Hm. rw decide_True // Hv in Hstep. rw /wp /set_protect. destruct Hp as [Hl _].
    rw decide_True; [by rw /= Hl|]. eauto. }
  destruct (Z.leb_spec from (send info i)), (Z.leb_spec (starts info i) to); cbn [andb].
  2-4: apply wp_ret; exists l; (split; [done|]); rw decide_False // in Hstep; rw /meets; lia.
  destruct Hflag as [Hf | Hf]; rw Hf; apply Hset; by rw /flag_value ?Hf.
Qed.

Lemma wp_flash_protect :
  flag = FLAG_PROTECT_SET ∨ flag = FLAG_PROTECT_CLEAR → known info → from ≤ to →
  wp (flash_protect flag from to) (λ _ info', ∃ l, info' = with_protect info l ∧
    protected_in (seqZ 0 (fi_sector_count info)) l) info.
Proof.
  intros Hflag Hk Hft. pose proof (bo_count _ Hok) as Hc. pose proof (bo_last _ Hok) as Hla.
  pose proof (starts_mono Hok 0 (fi_sector_count info - 1) ltac:(lia) ltac:(lia)).
  apply wp_bind, wp_get, wp_bind. eapply wp_reads; [apply (reads_start Hok); lia|].
  rw (proj2 (Z.eqb_neq (fi_sector_count info) 0)); [lia|].
  rw (proj2 (Z.eqb_neq (fi_size info) 0)); [rw /bank_top in Hla; lia|].
  rw (proj2 (Z.ltb_ge to from)) //. rw (proj2 (Z.eqb_neq _ _) Hk). cbn [orb].
  destruct (_ || _) eqn:Hout; [|by apply wp_flash_protect_loop].
  apply wp_ret. exists (fi_protect info). split; [by destruct info|]. split; [done|].
  intros s Hs. destruct (decide _) as [[Hin%elem_of_seqZ [Hm1 Hm2]]|]; [|done].
  pose proof (sector_bounds Hok s ltac:(lia)). rw (b_end_eq Hok) in Hout. lia.
Qed.

End protect.

(** ** Parsing numbers in arguments *)

(** A character that no number contains stays in what a parse leaves. *)
Lemma strto_loop_keeps bits base acc c s :
  isxdigit c = false → c ∈ s → c ∈ (strto_loop bits base acc s).2.
Proof.
  intros Hc. revert acc. induction s as [|x s IH]; intros acc Hin; [done|]. cbn [strto_loop].
  destruct (isxdigit x && (strto_value x <? base)) eqn:Hx; [|done].
  apply IH. apply elem_of_cons in Hin as [->|]; [|done]. by rw Hc in Hx.
Qed.

Lemma strtoul_keeps c s base :
  isxdigit c = false → c ≠ 120 → c ∈ s → c ∈ (simple_strtoul s base).2.
Proof.
  intros Hc Hx Hin. rw /simple_strtoul.
  assert (c ∈ (strto_prefix s base).1) as Hp.
  2:{ destruct (strto_prefix s base) as [cp b]. by apply strto_loop_keeps. }
  rw /strto_prefix. destruct s as [|x s]; [done|]. change (deref (x :: s)) with x.
  destruct (Z.eqb_spec x 48) as [->|]; [|done]. cbn [tail].
  apply elem_of_cons in Hin as [->|Hin]; [done|].
  destruct s as [|y s]; [done|]. change (deref (y :: s)) with y.
  destruct (Z.eqb_spec y 120) as [->|]; [|done]. cbn [tail andb].
  apply elem_of_cons in Hin as [|Hin]; [done|]. destruct (isxdigit (deref s)); simpl; [done|by right].
Qed.

(** [sprintf] with [%u]: a number the parser takes back whole. *)
Lemma printed_number n out len :
  0 ≤ n < 2 ^ 31 → sprintf (bytes "%u") [VWord n] = Ok (out, len) →
  parse_all out 10 = Some n ∧ ∀ c, isxdigit c = false → c ≠ 120 → c ∉ out.
Proof.
  intros Hn Hs. destruct (strtoul_number 0 n 10 []) as (o & Hnum & Hparse); [by left|lia..|done|].
  assert (u32 n = n) as Hu by (apply wrap_small; lia).
  rw (sprintf_number 117 10 0 n o) in Hs; [by do 1 right; left|by rw Hu|].
  injection Hs as <- <-. rw app_nil_r in Hparse. split.
  - rw /parse_all Hparse. destruct (decide ([] = o)) as [<-|]; [|done].
    vm_compute in Hparse. injection Hparse as <-. by vm_compute in Hnum.
  - intros c Hc Hx Hin. apply (strtoul_keeps c o 10) in Hin; [|done..]. rw Hparse in Hin.
    by apply elem_of_nil in Hin.
Qed.

Lemma split_at_app c s t : c ∉ s → split_at c (s ++ c :: t) = Some (s, t).
Proof.
  induction s as [|x s IH]; intros Hc; simpl; [by rw Z.eqb_refl|].
  rw (proj2 (Z.eqb_neq x c)); [intros ->; apply Hc; by left|].
  rw IH //. intros Hin. apply Hc. by right.
Qed.

(** ** Rounding to the end of a sector *)

Lemma reads_round_end info i :
  bank_ok info → 0 ≤ i < fi_sector_count info →
  reads (S := board)
    (if i =? fi_sector_count info - 1 then
       let! start0 := arr_get (fi_start info) 0 in ret (u32 (start0 + fi_size info - 1))
     else let! next := arr_get (fi_start info) (i + 1) in ret (u32 (next - 1))) (send info i).
Proof.
  intros Hok Hi. pose proof (reads_sector_end (S := board) Hok i Hi) as Hr.
  rw /sector_end (s_end_eq Hok) in Hr. destruct (_ =? _); [|done].
  eapply reads_bind; [apply (reads_start Hok); lia|exact Hr].
Qed.

Lemma round_in_bank_run info x :
  bank_ok info →
  reads (round_in_bank info x)
    (first_some (λ i, if decide (starts info i ≤ x ≤ send info i) then Some (send info i) else None)
       (seqZ 0 (fi_sector_count info))).
Proof.
  intros Hok. apply reads_for_until. intros i Hi%elem_of_seqZ.
  eapply reads_bind; [apply reads_round_end; [done|lia]|].
  destruct (Z.leb_spec x (send info i)).
  - eapply reads_bind; [apply (reads_start Hok); lia|].
    destruct (Z.leb_spec (starts info i) x).
    + rw decide_True; [lia|]. destruct (Z.ltb_spec x (send info i)); [done|].
      by replace x with (send info i) by lia.
    + rw decide_False; [lia|]. apply reads_ret.
  - rw decide_False; [lia|]. apply reads_ret.
Qed.

Lemma first_some_none {A B} (g : A → option B) l : (∀ a, a ∈ l → g a = None) → first_some g l = None.
Proof.
  induction l as [|a l IH]; intros Hg; [done|]. simpl. rw Hg; [by left|]. apply IH. intros b Hb.
  apply Hg. by right.
Qed.

Lemma round_outside info x :
  bank_ok info → x < starts info 0 ∨ bank_top info ≤ x → reads (round_in_bank info x) None.
Proof.
  intros Hok Hx. rw -(first_some_none (λ i, if decide (starts info i ≤ x ≤ send info i)
                       then Some (send info i) else None) (seqZ 0 (fi_sector_count info))).
  - intros i Hi%elem_of_seqZ. pose proof (sector_bounds Hok i ltac:(lia)). rw decide_False //. lia.
  - by apply round_in_bank_run.
Qed.

Lemma round_inside info x s :
  bank_ok info → 0 ≤ s < fi_sector_count info → starts info s ≤ x ≤ send info s →
  reads (round_in_bank info x) (Some (send info s)).
Proof.
  intros Hok Hs Hx.
  replace (Some (send info s)) with (first_some (λ i, if decide (starts info i ≤ x ≤ send info i)
                       then Some (send info i) else None) (seqZ 0 (fi_sector_count info))).
  { by apply round_in_bank_run. }
  assert (∀ i, 0 ≤ i < fi_sector_count info → starts info i ≤ x ≤ send info i → i = s) as Huniq.
  { intros i Hi Hxi. destruct (Z.lt_trichotomy i s) as [H|[H|H]]; [|done|].
    - pose proof (send_lt Hok i s ltac:(lia) ltac:(lia)). lia.
    - pose proof (send_lt Hok s i ltac:(lia) ltac:(lia)). lia. }
  assert (s ∈ seqZ 0 (fi_sector_count info)) as Hin by (apply elem_of_seqZ; lia).
  assert (∀ i, i ∈ seqZ 0 (fi_sector_count info) → 0 ≤ i < fi_sector_count info) as Hall.
  { intros i Hi%elem_of_seqZ. lia. }
  induction (seqZ 0 (fi_sector_count info)) as [|i l IH]; [by apply elem_of_nil in Hin|]. simpl.
  destruct (decide _) as [Hxi|Hn].
  - rw (Huniq i) //. apply Hall. by left.
  - apply elem_of_cons in Hin as [->|Hin]; [done|]. apply IH; [done|]. intros j Hj. apply Hall. by right.
Qed.

(** An entry that no driver filled: the search leaves the array. *)
Lemma reads_ff_start {S} i : 0 ≤ i < 512 → reads (S := S) (arr_get (fi_start ff_bank) i) 0xFFFFFFFF.
Proof.
  intros Hi s. rw /arr_get (proj2 (Z.ltb_ge i 0)); [lia|].
  assert (fi_start ff_bank !! Z.to_nat i = Some 0xFFFFFFFF) as ->; [|reflexivity].
  apply lookup_replicate_2. rw /CFG_MAX_FLASH_SECT. lia.
Qed.

Lemma ff_start_end {S} (s : S) : arr_get (fi_start ff_bank) 512 s = Err OutOfBounds.
Proof. by vm_compute. Qed.

Lemma seqZ_split a m k : 0 ≤ m < k → seqZ a k = seqZ a m ++ (a + m) :: seqZ (a + m + 1) (k - m - 1).
Proof.
  intros Hm. replace k with (m + (k - m)) at 1 by lia. rw seqZ_app; [lia..|]. f_equal.
  rw (seqZ_cons (a + m)); [lia|]. f_equal.
Qed.

Lemma round_unknown x b : 0 ≤ x < 2 ^ 32 - 1 → round_in_bank ff_bank x b = Err OutOfBounds.
Proof.
  intros Hx. rw /round_in_bank. change (fi_sector_count ff_bank) with 0xFFFF.
  rw (seqZ_split 0 511); [lia|]. apply for_until_err.
  - intros i Hi%elem_of_seqZ. rw (proj2 (Z.eqb_neq i (0xFFFF - 1))); [lia|].
    rw (bind_ok _ _ _ (u32 (0xFFFFFFFF - 1)) b).
    { by rw (bind_ok _ _ _ 0xFFFFFFFF b); [apply reads_ff_start; lia|]. }
    change (u32 (0xFFFFFFFF - 1)) with 0xFFFFFFFE. rw (proj2 (Z.leb_le x 0xFFFFFFFE)); [lia|].
    rw (bind_ok _ _ _ 0xFFFFFFFF b); [apply reads_ff_start; lia|].
    by rw (proj2 (Z.leb_gt 0xFFFFFFFF x)); [lia|].
  - change (0 + 511 =? 0xFFFF - 1) with false. apply bind_err, bind_err, ff_start_end.
Qed.

(** ** Leaving the tables *)

Lemma count_protected_overrun info s_last st :
  Z.of_nat (length (fi_protect info)) ≤ s_last →
  count_protected info 0 s_last st = Err OutOfBounds.
Proof.
  intros Hl. rw /count_protected.
  assert (∀ d fuel sect prot st, sect + Z.of_nat d = Z.of_nat (length (fi_protect info)) → 0 ≤ sect →
    (d < fuel)%nat → loopM (S := sfst) (A := Z * Z) (B := Z) fuel (λ '(sect, prot),
      if s_last <? sect then ret (inr prot) else
      let! p := arr_get (fi_protect info) sect in
      ret (inl (sect + 1, if p =? 0 then prot else prot + 1))) (sect, prot) st = Err OutOfBounds) as H.
  2:{ apply (H (length (fi_protect info))); lia. }
  intros d. induction d as [|d IH]; intros [|fuel] sect prot st1 Hs H0 Hf; try lia; cbn [loopM];
    (rw (proj2 (Z.ltb_ge s_last sect)); [lia|]).
  - do 2 apply bind_err. rw /arr_get (proj2 (Z.ltb_ge sect 0)) //. by rw lookup_ge_None_2; [lia|].
  - rw (bind_ok _ _ _ (inl (sect + 1, if arr_at (fi_protect info) sect =? 0 then prot else prot + 1)) st1).
    { by rw (bind_ok _ _ _ (arr_at (fi_protect info) sect) st1); [apply reads_arr_get; lia|]. }
    apply IH; lia.
Qed.

Section claims.
Context {hw : SfHw} {nhw : NorHw}.

(** [erase all] leaves the table.  On a board that boots from serial flash the
    command goes on, after the two banks, to the entries no driver filled; their
    sector count of 65535 takes it past the end of [protect]. *)
Theorem erase_all_overrun n b k0 k1 fi0 fi1 :
  SfLive n → b_type b = SPI_FLASH_TYPE → spi_table k0 k1 fi0 fi1 (b_info b) →
  do_flerase n [bytes "erase"; bytes "all"] b = Err OutOfBounds.
Proof.
  intros Hlive Ht (Hi & H0 & H1). change (do_flerase n [bytes "erase"; bytes "all"]) with
    (for_fold (seq 0 CFG_MAX_FLASH_BANKS) (λ _ bank,
      let! info := deref_bank (PInfo bank) in
      flash_erase n info 0 (fi_sector_count info - 1)) 0).
  assert (∀ bank info base k b1, b_type b1 = SPI_FLASH_TYPE → b_info b1 = b_info b →
    b_info b !! bank = Some info → spi_bank base k info → ∃ rc b2, b_type b2 = SPI_FLASH_TYPE ∧
    b_info b2 = b_info b ∧ (let! info := deref_bank (PInfo bank) in
      flash_erase n info 0 (fi_sector_count info - 1)) b1 = Ok (rc, b2)) as Hgood.
  { intros bank info base k b1 Ht1 Hi1 Hb Hbank. rw (bind_ok _ _ _ info b1).
    { apply deref_info. by rw Hi1. }
    pose proof (spi_bank_ok _ _ _ Hbank) as Hok. pose proof (bo_count _ Hok).
    pose proof (wp_flash_erase n info 0 (fi_sector_count info - 1) b1 Ht1 (bo_arrays _ Hok)
                  ltac:(lia) ltac:(lia)) as (rc & b2 & Hrun & k' & _ & Hd & _)%wp_ok.
    destruct (sf_did_info _ _ _ _ Hd) as [Hi2 Ht2]. exists rc, b2. by rw Hi2 Ht2. }
  destruct (Hgood 0%nat fi0 _ _ b Ht eq_refl ltac:(by rw Hi) H0) as (rc0 & b0 & Ht0 & Hi0 & Hr0).
  destruct (Hgood 1%nat fi1 _ _ b0 Ht0 Hi0 ltac:(by rw Hi) H1) as (rc1 & b1 & Ht1 & Hi1 & Hr1).
  cbn [for_fold seq CFG_MAX_FLASH_BANKS]. rw (bind_ok _ _ _ _ _ Hr0) (bind_ok _ _ _ _ _ Hr1).
  apply bind_err. rw (bind_ok _ _ _ ff_bank b1); [apply deref_info; by rw Hi1 Hi|].
  rw /flash_erase {1}/bind /= Ht1 /on_sf /zoom.
  assert (spi_flash_erase n ff_bank 0 (0xFFFF - 1) (b_sf b1) = Err OutOfBounds) as ->; [|done].
  apply bind_err, count_protected_overrun. rw length_replicate. done.
Qed.

(** A length is rounded up to the end of its sector.  With [start +len], when
    the last address lies in a sector of a bank of the table, [addr_spec] gives
    [start] and the last address of that sector. *)
Theorem addr_spec_rounds b bank info s arg1 arg2 addr_first len :
  board_ok b → b_info b !! bank = Some info → known info → 0 ≤ s < fi_sector_count info →
  (∀ m info', (m < bank)%nat → b_info b !! m = Some info' →
     bank_ok info' ∧ ∀ x, starts info s ≤ x ≤ send info s → x < starts info' 0 ∨ bank_top info' ≤ x) →
  parse_all arg1 16 = Some addr_first → parse_all arg2 16 = Some len →
  starts info s ≤ u32 (addr_first + len - 1) ≤ send info s →
  addr_spec arg1 (43 :: arg2) b = Ok (Some (addr_first, send info s), b).
Proof.
  intros [Hlen Harr Hbanks] Hbank Hk Hs Hpre H1 H2 Hx. rw /addr_spec H1.
  change (deref (43 :: arg2) =? 43) with true. cbn [tail negb]. rw H2.
  rw (bind_ok _ _ _ (Some (send info s)) b) //.
  pose proof Hbank as Hlt%lookup_lt_Some. rw Hlen in Hlt.
  replace (seq 0 CFG_MAX_FLASH_BANKS) with (seq 0 bank ++ bank :: seq (S bank) (CFG_MAX_FLASH_BANKS - bank - 1)).
  2:{ rw /CFG_MAX_FLASH_BANKS in Hlt |- *. do 4 (destruct bank as [|bank]; [done|]). lia. }
  apply for_until_first.
  - intros m Hm%elem_of_seq. destruct (b_info b !! m) as [info'|] eqn:Hm'.
    2:{ apply lookup_ge_None_1 in Hm'. lia. }
    destruct (Hpre m info' ltac:(lia) Hm') as [Hok' Hout]. rw (bind_ok _ _ _ _ _ (deref_info _ _ _ Hm')).
    by apply round_outside; [|apply Hout].
  - rw (bind_ok _ _ _ _ _ (deref_info _ _ _ Hbank)). apply round_inside; [|done..].
    eapply Forall_lookup_1 in Hbanks as Hok; [|done]. by apply Hok.
Qed.

(** A length that ends below the flash leaves the table.  With [start +len],
    when the last address is below both serial flash banks, the search goes on
    in an entry no driver filled and reads [start] past its end. *)
Theorem addr_spec_overrun b k0 k1 fi0 fi1 arg1 arg2 addr_first len :
  spi_table k0 k1 fi0 fi1 (b_info b) →
  parse_all arg1 16 = Some addr_first → parse_all arg2 16 = Some len →
  u32 (addr_first + len - 1) < starts fi1 0 →
  addr_spec arg1 (43 :: arg2) b = Err OutOfBounds.
Proof.
  intros (Hi & H0 & H1) Hp1 Hp2 Hx. rw /addr_spec Hp1.
  change (deref (43 :: arg2) =? 43) with true. cbn [tail negb]. rw Hp2. apply bind_err.
  destruct (spi_bank_span _ _ _ H0) as [Hs0 Ht0]. destruct (spi_bank_span _ _ _ H1) as [Hs1 Ht1].
  pose proof H0 as (_ & _ & Hk0 & _). pose proof H1 as (_ & _ & Hk1 & _). rw /SECTOR in Hs0 Hs1.
  change (seq 0 CFG_MAX_FLASH_BANKS) with ([0; 1] ++ 2 :: [3])%nat. apply for_until_err.
  - intros m Hm. apply elem_of_cons in Hm as [->|[->|Hm%elem_of_nil]%elem_of_cons]; [..|done].
    + rw (bind_ok _ _ _ fi0 b); [apply deref_info; by rw Hi|].
      apply round_outside; [by eapply spi_bank_ok|]. lia.
    + rw (bind_ok _ _ _ fi1 b); [apply deref_info; by rw Hi|].
      apply round_outside; [by eapply spi_bank_ok|]. lia.
  - rw (bind_ok _ _ _ ff_bank b); [apply deref_info; by rw Hi|].
    apply round_unknown. pose proof (wrap_range 32 (addr_first + len - 1)). rw /u32 in Hx |- *. lia.
Qed.

(** An abbreviated range is read back.  The text [B:F-L] with the decimal
    numbers of a known bank and of sectors [F <= L] of it stands for that bank
    and those sectors. *)
Theorem abbrev_spec_roundtrip b bank info sf sl tb tf tl nb nf nl :
  b_info b !! bank = Some info → known info → (bank < CFG_MAX_FLASH_BANKS)%nat →
  0 ≤ sf ≤ sl → sl < fi_sector_count info → fi_sector_count info < 2 ^ 16 →
  sprintf (bytes "%u") [VWord (Z.of_nat bank + 1)] = Ok (tb, nb) →
  sprintf (bytes "%u") [VWord sf] = Ok (tf, nf) → sprintf (bytes "%u") [VWord sl] = Ok (tl, nl) →
  abbrev_spec (tb ++ bytes ":" ++ tf ++ bytes "-" ++ tl) b = Ok (AbOk bank sf sl, b).
Proof.
  rw /CFG_MAX_FLASH_BANKS. intros Hbank Hk Hlt Hs Hsl Hc Hb Hf Hl.
  apply printed_number in Hb as [Hb Hbc]; [|lia]. apply printed_number in Hf as [Hf Hfc]; [|lia].
  apply printed_number in Hl as [Hl Hlc]; [|lia]. rw /abbrev_spec.
  assert (∀ x, 0 ≤ x < 2 ^ 16 → s32 x = x) as Hs32.
  { intros x Hx. apply swrap_small; [done|]. lia. }
  rw (split_at_app 58 tb (tf ++ bytes "-" ++ tl)); [by apply Hbc|]. rw Hb Hs32; [lia|].
  rw (proj2 (Z.ltb_ge (Z.of_nat bank + 1) 1)); [lia|].
  rw (proj2 (Z.ltb_ge _ (Z.of_nat bank + 1))); [rw /CFG_MAX_FLASH_BANKS; lia|]. cbn [orb].
  replace (Z.to_nat (Z.of_nat bank + 1 - 1)) with bank by lia.
  rw (bind_ok _ _ _ _ _ (deref_info _ _ _ Hbank)) (proj2 (Z.eqb_neq _ _) Hk).
  rw (split_at_app 45 tf tl); [by apply Hfc|]. rw Hf Hl !Hs32; [lia..|].
  rw (proj2 (Z.leb_gt (fi_sector_count info) sf)); [lia|].
  rw (proj2 (Z.ltb_ge sl sf)); [lia|]. by rw (proj2 (Z.leb_gt (fi_sector_count info) sl)); [lia|].
Qed.

(** A sector number above the signed range leaves the table.  The text
    [1:4294967295] gives the sector -1, which is below the sector count, and
    [protect on] writes [protect[-1]]. *)
Theorem protect_negative_sector b info :
  b_info b !! 0%nat = Some info → known info → 0 ≤ fi_sector_count info →
  do_protect [bytes "protect"; bytes "on"; bytes "1:4294967295"] b = Err OutOfBounds.
Proof.
  intros Hb Hk Hc.
  assert (abbrev_spec (bytes "1:4294967295") b = Ok (AbOk 0 (-1) (-1), b)) as Hab.
  { rw /abbrev_spec. change (split_at 58 (bytes "1:4294967295")) with (Some (bytes "1", bytes "4294967295")).
    cbv beta iota. change (parse_all (bytes "1") 10) with (Some 1). cbv beta iota zeta.
    change ((s32 1 <? 1) || (Z.of_nat CFG_MAX_FLASH_BANKS <? s32 1)) with false.
    change (Z.to_nat (s32 1 - 1)) with 0%nat. cbv beta iota.
    rw (bind_ok _ _ _ _ _ (deref_info b 0 info Hb)) (proj2 (Z.eqb_neq _ _) Hk).
    change (split_at 45 (bytes "4294967295")) with (@None (list Z * list Z)). cbv beta iota.
    replace (parse_all (bytes "4294967295") 10) with (Some 4294967295) by by vm_compute.
    change (s32 4294967295) with (-1). by rw (proj2 (Z.leb_gt _ (-1))); [lia|]. }
  assert (protect_sectors 0 (seqZ (-1) (-1 - -1 + 1)) 1 b = Err OutOfBounds) as Hp.
  { apply bind_err. by rw (bind_ok _ _ _ _ _ (deref_info b 0 info Hb)). }
  rw /do_protect. destruct (decide _) as [H|_]; [simpl in H; lia|].
  rw (bind_ok _ _ _ (bytes "on") b) //.
  change (negb _ && negb _) with false. change (if bool_decide _ then 0 else 1) with 1. cbv iota zeta.
  rw (bind_ok _ _ _ (bytes "1:4294967295") b) //. destruct (decide _) as [H|_]; [done|].
  rw (bind_ok _ _ _ _ _ Hab). by apply bind_err.
Qed.

End claims.

(** [flash_protect] is exact.  On a known bank, for a range [from..to] and one
    of the two flags, the sectors that have an address in the range get the
    protection of the flag and all others, and every other field of the bank,
    stay as they were; ranges outside the bank change nothing. *)
Theorem flash_protect_exact info flag from to :
  bank_ok info → known info → from ≤ to → flag = FLAG_PROTECT_SET ∨ flag = FLAG_PROTECT_CLEAR →
  wp (flash_protect flag from to) (λ _ info', ∃ l, info' = with_protect info l ∧
    length l = length (fi_protect info) ∧
    ∀ s, 0 ≤ s < fi_sector_count info →
      arr_at l s = if decide (from ≤ send info s ∧ starts info s ≤ to)
                   then if decide (flag = FLAG_PROTECT_SET) then 1 else 0
                   else arr_at (fi_protect info) s) info.
Proof.
  intros Hok Hk Hft Hflag. eapply wp_mono; [by apply (wp_flash_protect Hok)|].
  intros _ info' (l & -> & Hl & Hat). exists l. split; [done|]. split; [done|]. intros s Hs.
  rw Hat; [lia|]. assert (flag_value flag = if decide (flag = FLAG_PROTECT_SET) then 1 else 0) as <-.
  { by destruct Hflag as [-> | ->]. }
  apply decide_ext. rw elem_of_seqZ /meets. split; [by intros [_ ?]|]. split; [lia|done].
Qed.

Lemma flash_protect_exact_witness :
  wp (flash_protect FLAG_PROTECT_SET 0xFFFD8000 0xFFFE0000) (λ _ info', ∃ l,
    info' = with_protect demo_bank0 l ∧ length l = length (fi_protect demo_bank0) ∧
    ∀ s, 0 ≤ s < fi_sector_count demo_bank0 →
      arr_at l s = if decide (0xFFFD8000 ≤ send demo_bank0 s ∧ starts demo_bank0 s ≤ 0xFFFE0000)
                   then if decide (FLAG_PROTECT_SET = FLAG_PROTECT_SET) then 1 else 0
                   else arr_at (fi_protect demo_bank0) s) demo_bank0.
Proof.
  apply (flash_protect_exact demo_bank0 FLAG_PROTECT_SET 0xFFFD8000 0xFFFE0000).
  - eapply spi_bank_ok. by apply demo_chip_bank.
  - done.
  - lia.
  - by left.
Defined.

#[local] Existing Instance quiet_hw.
#[local] Existing Instance quiet_live.
#[local] Existing Instance quiet_nor.

Lemma erase_all_overrun_witness :
  do_flerase 1 [bytes "erase"; bytes "all"] demo_board = Err OutOfBounds.
Proof.
  apply (erase_all_overrun 1 demo_board 128 128 demo_bank0 demo_bank1).
  - apply _.
  - reflexivity.
  - apply demo_table.
Defined.

Lemma addr_spec_rounds_witness :
  addr_spec (bytes "FFFD0000") (43 :: bytes "8000") demo_board =
  Ok (Some (0xFFFD0000, send demo_bank0 125), demo_board).
Proof.
  apply (addr_spec_rounds demo_board 0 demo_bank0 125 (bytes "FFFD0000") (bytes "8000") 0xFFFD0000 0x8000).
  - apply (spi_table_board _ _ _ _ _ demo_table).
  - reflexivity.
  - done.
  - vm_compute. split; [discriminate|reflexivity].
  - lia.
  - vm_compute. reflexivity.
  - vm_compute. reflexivity.
  - vm_compute. split; discriminate.
Defined.

Lemma addr_spec_overrun_witness :
  addr_spec (bytes "1000") (43 :: bytes "20") demo_board = Err OutOfBounds.
Proof.
  apply (addr_spec_overrun demo_board 128 128 demo_bank0 demo_bank1 (bytes "1000") (bytes "20") 0x1000 0x20).
  - apply demo_table.
  - vm_compute. reflexivity.
  - vm_compute. reflexivity.
  - vm_compute. reflexivity.
Defined.

Lemma abbrev_spec_roundtrip_witness :
  abbrev_spec (bytes "1" ++ bytes ":" ++ bytes "125" ++ bytes "-" ++ bytes "126") demo_board =
  Ok (AbOk 0 125 126, demo_board).
Proof.
  apply (abbrev_spec_roundtrip demo_board 0 demo_bank0 125 126 _ _ _ 1 3 3).
  - reflexivity.
  - done.
  - vm_compute. lia.
  - lia.
  - vm_compute. reflexivity.
  - vm_compute. reflexivity.
  - vm_compute. reflexivity.
  - vm_compute. reflexivity.
  - vm_compute. reflexivity.
Defined.

Lemma protect_negative_sector_witness :
  do_protect [bytes "protect"; bytes "on"; bytes "1:4294967295"] demo_board = Err OutOfBounds.
Proof.
  apply (protect_negative_sector demo_board demo_bank0).
  - reflexivity.
  - done.
  - vm_compute. discriminate.
Defined.
