(* ===== verification/NorChip.v ===== *)
(** * NOR chips under the drivers of NorFlash

    The specification of a flash chip with the AMD (JEDEC) command set, as a machine
    over the history of the bus, and what the NOR drivers do to it: a write
    stores the bytes, an erase clears the unprotected sectors. *)

From Stdlib Require Import ssreflect ZArith Lia ZifyBool.
From stdpp Require Import base tactics numbers list.
From S2P Require Import Prelude Crc32 SpiFlash NorFlash FlashCmd FlashRange FlashSafety.

Set Default Goal Selector "!".
Open Scope general_if_scope.
#[local] Open Scope Z_scope.

(** ** The chip *)

Inductive cstate :=
| Ready                     (** reads the array *)
| Cycle1 | Cycle2           (** unlock cycles *)
| ProgramSetup | EraseSetup | EraseCycle1 | EraseCycle2
| Programming (a d : Z)     (** busy; a read of [a] shows the state in D7 *)
| Erasing (a : Z)
| AutoSelect.

Inductive chip_op := Program (a d : Z) | SectorErase (a : Z).

Section chip.
Context (p : port) (base size : Z).

Definition in_chip (a : Z) : bool := (base <=? a) && (a <? base + size).

Definition chip_write (s : cstate) (a v : Z) : cstate * list chip_op :=
  let cmd := Z.land v 0xFF in
  let at1 c := (a =? at_idx p base (unlock1 p)) && (cmd =? c) in
  let at2 c := (a =? at_idx p base (unlock2 p)) && (cmd =? c) in
  match s with
  | Ready => (if at1 0xAA then Cycle1 else Ready, [])
  | Cycle1 => (if at2 0x55 then Cycle2 else Ready, [])
  | Cycle2 =>
      (if at1 0xA0 then ProgramSetup else if at1 0x80 then EraseSetup
       else if at1 0x90 then AutoSelect else Ready, [])
  | ProgramSetup => (Programming a v, [Program a v])
  | EraseSetup => (if at1 0xAA then EraseCycle1 else Ready, [])
  | EraseCycle1 => (if at2 0x55 then EraseCycle2 else Ready, [])
  | EraseCycle2 => if cmd =? 0x30 then (Erasing a, [SectorErase a]) else (Ready, [])
  | Programming _ _ | Erasing _ | AutoSelect => (if cmd =? 0xF0 then Ready else s, [])
  end.

(** Data polling: D7 shows the written bit, or 1 after an erase, when the chip
    has finished. *)
Definition chip_read (s : cstate) (a v : Z) : cstate :=
  match s with
  | Programming a' d => if (a =? a') && (Z.land v 0x80 =? Z.land d 0x80) then Ready else s
  | Erasing a' => if (a =? a') && (Z.land v 0x80 =? 0x80) then Ready else s
  | _ => s
  end.

Definition chip_event (c : cstate * list chip_op) (ev : bus_event) : cstate * list chip_op :=
  match ev with
  | BusW a v => if in_chip a then let '(s, o) := chip_write c.1 a v in (s, c.2 ++ o) else c
  | BusR a v => if in_chip a then (chip_read c.1 a v, c.2) else c
  | _ => c
  end.

Definition chip_run (h : list bus_event) : cstate * list chip_op := fold_left chip_event h (Ready, []).

(** The contents: programming clears bits, an erase sets the sector. *)
Definition byte_of (d i : Z) : Z := Z.land (Z.shiftr d (8 * i)) 0xFF.
Definition word_at (mem : Z → Z) (a : Z) : Z :=
  if fpw_size p =? 1 then mem a else mem a + mem (a + 1) * 256.

Definition apply_op (same : Z → Z → bool) (mem : Z → Z) (op : chip_op) : Z → Z :=
  match op with
  | Program a d => λ x, if (a <=? x) && (x <? a + fpw_size p) then Z.land (mem x) (byte_of d (x - a))
                        else mem x
  | SectorErase a => λ x, if same a x then 0xFF else mem x
  end.

Definition contents (same : Z → Z → bool) (mem0 : Z → Z) (h : list bus_event) : Z → Z :=
  fold_left (apply_op same) (chip_run h).2 mem0.

(** The bus answers as such a chip does, when it is ready. *)
Class NorChip {hw : NorHw} (same : Z → Z → bool) (mem0 : Z → Z) : Prop := {
  nc_byte a : is_byte (mem0 a);
  nc_read h a : (chip_run h).1 = Ready → base ≤ a → a + fpw_size p ≤ base + size →
    bus_read h a = word_at (contents same mem0 h) a;
  nc_read8 h a : (chip_run h).1 = Ready → in_chip a = true → bus_read8 h a = contents same mem0 h a
}.

End chip.

(** The bus after [k] rounds of a poll of [a] that reads the timer. *)
Definition poll_round `{NorHw} (h : list bus_event) (a : Z) : list bus_event :=
  let h1 := h ++ [BusR a (bus_read h a)] in h1 ++ [TimerR (nor_timer h1)].
Fixpoint polled `{NorHw} (h : list bus_event) (a : Z) (k : nat) : list bus_event :=
  match k with O => h | S k => polled (poll_round h a) a k end.

(** The timer passes the timeout within [n] rounds of a poll. *)
Definition late `{NorHw} (h : list bus_event) (a start : Z) (k : nat) : Prop :=
  let h := polled h a k in
  CFG_FLASH_WRITE_TOUT < u32 (nor_timer (h ++ [BusR a (bus_read h a)]) - start).
Class NorTimer `{NorHw} (n : nat) : Prop :=
  nt_late h a start : ∃ k, (k < n)%nat ∧ late h a start k.

(** A chip that the driver gives up on: busy after at most six commands since the
    driver looked at the timer, it shows no end in the polls up to the timeout. *)
Definition busy_at (s : cstate) (a : Z) (finished : Z → bool) : Prop :=
  ∀ v, chip_read s a v = if finished v then Ready else s.
Definition shows_end (s : cstate) (v : Z) : bool :=
  match s with
  | Programming _ d => Z.land v 0x80 =? Z.land d 0x80
  | _ => Z.land v 0x80 =? 0x80
  end.
Definition gave_up `{NorHw} (h : list bus_event) (a start : Z) (finished : Z → bool) : Prop :=
  ∃ k, (∀ k', (k' ≤ k)%nat → finished (bus_read (polled h a k') a) = false) ∧ late h a start k.
Definition slow `{NorHw} (p : port) (base size : Z) : Prop := ∃ h cmds s a,
  (length cmds ≤ 6)%nat ∧ in_chip base size a = true ∧ (s = Erasing a ∨ ∃ d, s = Programming a d) ∧
  let h' := h ++ TimerR (nor_timer h) :: map (λ '(a, v), BusW a v) cmds in
  (chip_run p base size h').1 = s ∧ gave_up h' a (u32 (nor_timer h - 0)) (shows_end s).

(** ** The driver's commands on the chip *)

Section commands.
Context {hw : NorHw} (p : port) (base size : Z).
Context (Hp : p = port8 ∨ p = port16).
Context (Hwin : 0 < base ∧ 0x1000 ≤ size ∧ base + size ≤ 2 ^ 32).

Abbreviation run := (chip_run p base size).

(** State [s] after the operations [ops], with the table unchanged. *)
Definition chip_is (s : cstate) (ops : list chip_op) (i0 : list flash_info_t) (st : norst) : Prop :=
  run (n_hist st) = (s, ops) ∧ n_info st = i0.

Lemma run_snoc h ev : run (h ++ [ev]) = chip_event p base size (run h) ev.
Proof. by rw /chip_run fold_left_app. Qed.

Lemma unlock1_in : in_chip base size (at_idx p base (unlock1 p)) = true.
Proof. destruct Hp as [-> | ->]; rw /in_chip /at_idx u32_small /=; lia. Qed.
Lemma unlock2_in : in_chip base size (at_idx p base (unlock2 p)) = true.
Proof. destruct Hp as [-> | ->]; rw /in_chip /at_idx u32_small /=; lia. Qed.
Lemma base_in : in_chip base size base = true.
Proof. rw /in_chip. lia. Qed.

(** The commands on a bus of either width. *)
Lemma fpw_cmds :
  FPW p 0x00AA00AA = 0xAA ∧ FPW p 0x00550055 = 0x55 ∧ FPW p 0x00A000A0 = 0xA0 ∧
  FPW p 0x00800080 = 0x80 ∧ FPW p 0x00900090 = 0x90 ∧ FPW p 0x00300030 = 0x30 ∧
  FPW p 0x00F000F0 = 0xF0.
Proof. by destruct Hp as [-> | ->]. Qed.

Lemma wp_cmd a v s s' ops o i0 (Q : unit → norst → Prop) st :
  chip_is s ops i0 st → in_chip base size a = true → chip_write p base s a v = (s', o) →
  (∀ st', n_hist st' = n_hist st ++ [BusW a v] → chip_is s' (ops ++ o) i0 st' → Q tt st') →
  wp (wr a v) Q st.
Proof.
  intros [Hr Hi] Ha Hw HQ. apply wp_modify, HQ; [done|]. split; [|done].
  by rw /= run_snoc Hr /chip_event Ha /= Hw.
Qed.

Lemma wp_rd a s ops i0 (Q : Z → norst → Prop) st :
  chip_is s ops i0 st → in_chip base size a = true →
  (∀ v st', v = bus_read (n_hist st) a → n_hist st' = n_hist st ++ [BusR a v] →
     chip_is (chip_read s a v) ops i0 st' → Q v st') →
  wp (rd a) Q st.
Proof.
  intros [Hr Hi] Ha HQ. apply HQ; [done|done|]. split; [|done]. by rw /= run_snoc Hr /chip_event Ha.
Qed.

Lemma wp_timer b s ops i0 (Q : Z → norst → Prop) st :
  chip_is s ops i0 st →
  (∀ t st', t = u32 (nor_timer (n_hist st) - b) →
     n_hist st' = n_hist st ++ [TimerR (nor_timer (n_hist st))] → chip_is s ops i0 st' → Q t st') →
  wp (nor_get_timer b) Q st.
Proof. intros [Hr Hi] HQ. apply HQ; [done|done|]. split; [|done]. by rw /= run_snoc Hr. Qed.

(** A wait ends: the chip is ready, or the timer has passed the timeout. *)
Lemma wp_poll fuel dest start (cond : Z → bool) (timeout : M norst (unit + Z)) busy ops i0
    (Q : Z → norst → Prop) st :
  in_chip base size dest = true → busy_at busy dest cond →
  chip_is busy ops i0 st → (∃ k, (k < fuel)%nat ∧ late (n_hist st) dest start k) →
  (∀ st', chip_is Ready ops i0 st' → Q 0 st') →
  (∀ st', gave_up (n_hist st) dest start cond → chip_is busy ops i0 st' →
     wp timeout (λ r st', match r with inl _ => False | inr z => Q z st' end) st') →
  wp (loopM fuel (λ _ : unit,
    let! v := rd dest in
    if cond v then ret (inr 0) else
    let! t := nor_get_timer start in
    if CFG_FLASH_WRITE_TOUT <? t then timeout else ret (inl tt)) tt) Q st.
Proof.
  intros Hd Hc Hst Hk H0. revert st Hst Hk.
  induction fuel as [|fuel IH]; intros st Hst (k & Hk & Hl) H1; [lia|].
  apply wp_loop_step. wp_step. eapply wp_rd; [done|done|]. intros v st1 Hv Hh1 Hst1. rw Hc in Hst1.
  destruct (cond v) eqn:Hcv; [by apply wp_ret, H0|].
  wp_step. eapply wp_timer; [done|]. intros t st2 Ht Hh2 Hst2.
  destruct (Z.ltb_spec CFG_FLASH_WRITE_TOUT t) as [Hlt|Hge].
  { eapply wp_mono; [apply H1; [|done]|by intros [|z] st']. exists 0%nat. split.
    - intros k' Hk'. assert (k' = 0%nat) as -> by lia. by rw /= -Hv.
    - by rw /late /= -Hv -Hh1 -Ht. }
  assert (n_hist st2 = poll_round (n_hist st) dest) as Hround by by rw Hh2 Hh1 /poll_round -Hv.
  apply wp_ret. apply IH; [done| |].
  - destruct k as [|k].
    { rw /late /= -Hv -Hh1 in Hl. subst t. lia. }
    exists k. split; [lia|]. by rw Hround.
  - intros st3 (k0 & Hk0 & Hl0). apply H1. exists (S k0). rw Hround in Hk0 Hl0. split; [|done].
    intros [|k'] Hk'; [by rw /= -Hv|]. apply Hk0. lia.
Qed.

End commands.

(** The next command to the chip, and the values of the commands. *)
Ltac chip_cmd :=
  wp_step; eapply wp_cmd;
    [eassumption
    |first [by apply unlock1_in | by apply unlock2_in | by apply base_in | eassumption]
    |rw /chip_write ?Z.eqb_refl; reflexivity
    |intros ? ? ?; cbn beta].
Ltac fpw_values Hp :=
  let E1 := fresh in let E2 := fresh in let E3 := fresh in let E4 := fresh in
  let E5 := fresh in let E6 := fresh in let E7 := fresh in
  destruct (fpw_cmds _ Hp) as (E1 & E2 & E3 & E4 & E5 & E6 & E7);
  rw ?E1 ?E2 ?E3 ?E4 ?E5 ?E6 ?E7; clear E1 E2 E3 E4 E5 E6 E7.

(** ** Bytes of words *)

Lemma byte_of_range d i : is_byte (byte_of d i).
Proof.
  rw /is_byte /byte_of. change 0xFF with (Z.ones 8). rw Z.land_ones //.
  pose proof (Z.mod_pos_bound (Z.shiftr d (8 * i)) (2 ^ 8)). lia.
Qed.

Lemma byte_of_land x y i : byte_of (Z.land x y) i = Z.land (byte_of x i) (byte_of y i).
Proof.
  rw /byte_of Z.shiftr_land -!Z.land_assoc. f_equal.
  rw (Z.land_comm 0xFF) -Z.land_assoc. by rw Z.land_diag.
Qed.

Lemma byte_of_word b0 b1 : is_byte b0 → is_byte b1 → byte_of (b0 + b1 * 256) 0 = b0 ∧ byte_of (b0 + b1 * 256) 1 = b1.
Proof.
  rw /is_byte /byte_of. change 0xFF with (Z.ones 8). intros H0 H1. rw !Z.land_ones // !Z.shiftr_div_pow2 //.
  simpl Z.mul. change (2 ^ 0) with 1. change (2 ^ 8) with 256. split; Z.div_mod_to_equations; lia.
Qed.

Lemma word_bytes d : 0 ≤ d < 65536 → d = byte_of d 0 + byte_of d 1 * 256.
Proof.
  rw /byte_of. change 0xFF with (Z.ones 8). intros H. rw !Z.land_ones // !Z.shiftr_div_pow2 //.
  simpl Z.mul. change (2 ^ 0) with 1. change (2 ^ 8) with 256. Z.div_mod_to_equations. lia.
Qed.

Lemma land_word x y : 0 ≤ y < 65536 → 0 ≤ Z.land x y < 65536.
Proof.
  intros Hy. replace y with (Z.land y (Z.ones 16)) by (rw Z.land_ones // Z.mod_small //).
  rw Z.land_assoc Z.land_ones //. by apply Z.mod_pos_bound.
Qed.

Lemma byte_land_ff b : is_byte b → Z.land b 0xFF = b.
Proof. rw /is_byte. change 0xFF with (Z.ones 8). intros H. rw Z.land_ones // Z.mod_small //. Qed.

Lemma byte_of_byte b : is_byte b → byte_of b 0 = b.
Proof. rw /byte_of Z.shiftr_0_r. apply byte_land_ff. Qed.

Lemma swab16_word b0 b1 : is_byte b0 → is_byte b1 → swab16 (b0 * 256 + b1) = b0 + b1 * 256.
Proof.
  rw /is_byte /swab16. intros H0 H1. change 0xFF with (Z.ones 8). rw !Z.land_ones // Z.shiftr_div_pow2 //.
  change (2 ^ 8) with 256.
  assert ((b0 * 256 + b1) mod 256 = b1 ∧ (b0 * 256 + b1) / 256 mod 256 = b0) as [-> ->].
  { split; Z.div_mod_to_equations; lia. }
  rw Z.shiftl_mul_pow2 // lor_add_low //; lia.
Qed.

(** [data <<= 8; data += b] in the width of the bus. *)
Lemma fpw8_byte p d b : fpw_size p = 1 → is_byte b → FPW p (FPW p (d * 256) + b) = b.
Proof. rw /is_byte /FPW => -> /=. intros H. Z.div_mod_to_equations. lia. Qed.

Lemma fpw16_word p d b0 b1 :
  fpw_size p = 2 → is_byte b0 → is_byte b1 →
  FPW p (FPW p (FPW p (FPW p (d * 256) + b0) * 256) + b1) = b0 * 256 + b1.
Proof. rw /is_byte /FPW => -> /=. intros H0 H1. Z.div_mod_to_equations. lia. Qed.

(** ** Writing *)

(** The memory with [k] bytes of [src] from [A] on. *)
Definition stored (A : Z) (src : list Z) (k : Z) (mem : Z → Z) (x : Z) : Z :=
  if decide (A ≤ x < A + k) then nth (Z.to_nat (x - A)) src 0 else mem x.

Section write.
Context {hw : NorHw} (p : port) (base size : Z) (same : Z → Z → bool) (mem0 : Z → Z).
Context {chip : NorChip p base size same mem0} (n : nat) {timer : NorTimer n}.
Context (Hp : p = port8 ∨ p = port16).
Context (Hwin : 0 < base ∧ 0x1000 ≤ size ∧ base + size ≤ 2 ^ 32).
Context (info : flash_info_t) (Harr : arrays_ok info) (Hbase : arr_at (fi_start info) 0 = base).

Abbreviation isc := (chip_is p base size).
Abbreviation mem st := (contents p base size same mem0 (n_hist st)).
Abbreviation w := (fpw_size p).

Lemma w_cases : w = 1 ∨ w = 2.
Proof. destruct Hp as [-> | ->]; [by left|by right]. Qed.

Lemma mem_ops s ops i0 st x : isc s ops i0 st → mem st x = fold_left (apply_op p same) ops mem0 x.
Proof. intros [Hr _]. by rw /contents Hr. Qed.

Lemma ops_byte ops x : is_byte (fold_left (apply_op p same) ops mem0 x).
Proof.
  assert (∀ m, (∀ x, is_byte (m x)) → ∀ x, is_byte (fold_left (apply_op p same) ops m x)) as H.
  { induction ops as [|[a d|a] ops IH]; intros m Hm y; simpl; [done|..]; apply IH; intros z; simpl.
    - destruct (_ && _); [|done]. by rw /byte_of Z.land_assoc; apply is_byte_land.
    - destruct (same a z); [rw /is_byte; lia|done]. }
  destruct chip as [Hb _ _]. by apply H.
Qed.

Lemma read_ready ops i0 st a :
  isc Ready ops i0 st → base ≤ a → a + w ≤ base + size → bus_read (n_hist st) a = word_at p (mem st) a.
Proof. intros [Hr _]. destruct chip as [_ Hread _]. apply Hread. by rw Hr. Qed.

Lemma read8_ready ops i0 st a :
  isc Ready ops i0 st → in_chip base size a = true → bus_read8 (n_hist st) a = mem st a.
Proof. intros [Hr _]. destruct chip as [_ _ Hread]. apply Hread. by rw Hr. Qed.

Lemma arr_get_base (Q : Z → norst → Prop) st : Q base st → wp (arr_get (fi_start info) 0) Q st.
Proof.
  intros HQ. eapply wp_reads; [apply reads_arr_get|by rw Hbase].
  destruct Harr as [-> _]. rw /CFG_MAX_FLASH_SECT. lia.
Qed.

Lemma wp_write_word dest data ops i0 st (Q : Z → norst → Prop) :
  isc Ready ops i0 st → base ≤ dest → dest + w ≤ base + size →
  (Z.land (word_at p (mem st) dest) data ≠ data → ∀ st', isc Ready ops i0 st' → Q 2 st') →
  (∀ st', isc Ready (ops ++ [Program dest data]) i0 st' →
     Z.land (word_at p (mem st) dest) data = data → Q 0 st') →
  (slow p base size → ∀ st', isc Ready (ops ++ [Program dest data]) i0 st' →
     Z.land (word_at p (mem st) dest) data = data → Q 1 st') →
  wp (write_word_eon n p info dest data) Q st.
Proof.
  intros Hst Hlo Hhi H2 H0 H1. pose proof w_cases.
  assert (in_chip base size dest = true) as Hin by (rw /in_chip; lia).
  rw /write_word_eon. wp_step. eapply wp_rd; [done|done|]. intros v st1 -> _ Hst1.
  rw (read_ready _ _ _ _ Hst Hlo Hhi).
  destruct (Z.eqb_spec (Z.land (word_at p (mem st) dest) data) data) as [Heq|Hne]; cbn [negb].
  2:{ apply wp_ret. by apply H2. }
  wp_step. apply arr_get_base. fpw_values Hp. do 4 chip_cmd.
  wp_step. eapply wp_timer; [eassumption|]. intros start st5 Hstart Hh5 Hst5. rw /poll_d7. fpw_values Hp.
  rw app_nil_r !app_nil_r in Hst5.
  assert (busy_at (Programming dest data) dest (λ v, Z.land v 0x80 =? Z.land data 0x80)) as Hbusy.
  { intros v. by rw /chip_read Z.eqb_refl. }
  eapply (wp_poll p base size _ _ _ (λ v, Z.land v 0x80 =? Z.land data 0x80)); [done|done|exact Hst5|apply nt_late|..].
  - intros st'' Hst''. by apply H0.
  - intros st'' Hup Hst''. wp_step. eapply wp_cmd; [exact Hst''|done|done|].
    intros st6 _ Hst6. rw app_nil_r in Hst6. apply wp_ret. apply H1; [|done|done].
    match type of Hh5 with _ = ?h ++ _ => exists h end. exists [], (Programming dest data), dest.
    split; [simpl; lia|]. split; [done|]. split; [by right; exists data|]. cbn [map]. rw -Hh5 -Hstart. split; [by rw (proj1 Hst5)|done].
Qed.

(** The word that [data] programs, when its bits are free. *)
Lemma program_stores ops dest data x :
  Z.land (word_at p (fold_left (apply_op p same) ops mem0) dest) data = data →
  fold_left (apply_op p same) (ops ++ [Program dest data]) mem0 x =
  if decide (dest ≤ x < dest + w) then byte_of data (x - dest) else fold_left (apply_op p same) ops mem0 x.
Proof.
  rw fold_left_app /=. set (m := fold_left _ ops mem0). intros Hd.
  destruct (decide _) as [Hx|Hx]; [rw (proj2 (andb_true_iff _ _)); [lia|]|rw (proj2 (andb_false_iff _ _)) //; lia].
  pose proof (ops_byte ops dest) as Hb0. pose proof (ops_byte ops (dest + 1)) as Hb1. fold m in Hb0, Hb1.
  rw -{2}Hd byte_of_land. f_equal. rw /word_at. destruct w_cases as [Hw|Hw]; rw Hw in Hx |- *.
  - assert (x = dest) as -> by lia. by rw Z.sub_diag /= byte_of_byte.
  - destruct (byte_of_word _ _ Hb0 Hb1) as [H0 H1]. simpl.
    destruct (decide (x = dest)) as [->|Hne]; [by rw Z.sub_diag H0|].
    assert (x = dest + 1) as -> by lia. by replace (dest + 1 - dest) with 1 by lia; rw H1.
Qed.

Lemma wp_bus_rd8 a ops i0 st (Q : Z → norst → Prop) :
  isc Ready ops i0 st → in_chip base size a = true →
  (∀ st', isc Ready ops i0 st' → Q (mem st a) st') → wp (rd8 a) Q st.
Proof.
  intros Hst Ha HQ. rw /rd8 /wp (read8_ready _ _ _ _ Hst Ha). apply HQ. destruct Hst as [Hr Hi].
  split; [|done]. by rw /= run_snoc Hr.
Qed.

(** The bytes of the word at [a]: source bytes, and the present ones around them. *)
Definition new_byte (m : Z → Z) (a bytes lft : Z) (src : list Z) (i : Z) : Z :=
  if (i <? bytes) || (lft <=? i - bytes) then m (a + i) else nth (Z.to_nat (i - bytes)) src 0.
Definition be_word (f : Z → Z) : Z := if w =? 1 then f 0 else f 0 * 256 + f 1.

Lemma wp_combine a bytes lft data src ops i0 st (Q : Z * list Z → norst → Prop) :
  isc Ready ops i0 st → base ≤ a → a + w ≤ base + size → 0 ≤ bytes < w → 0 < lft →
  Forall is_byte src → Z.min (w - bytes) lft ≤ Z.of_nat (length src) →
  (∀ st', isc Ready ops i0 st' →
     Q (be_word (new_byte (mem st) a bytes lft src), drop (Z.to_nat (Z.min (w - bytes) lft)) src) st') →
  wp (combine p a bytes lft (Z.to_nat w) 0 data src) Q st.
Proof.
  intros Hst Hlo Hhi Hb Hl Hsrc Hlen HQ. rw /be_word /new_byte in HQ.
  destruct src as [|b src]; [simpl in Hlen; lia|]. apply Forall_cons in Hsrc as [Hb0 Hsrc].
  assert (∀ i, 0 ≤ i < w → in_chip base size (a + i) = true ∧ u32 (a + i) = a + i) as Hrd.
  { intros i Hi. rw /in_chip u32_small; lia. }
  pose proof (ops_byte ops a) as Hm0. pose proof (ops_byte ops (a + 1)) as Hm1.
  rw -(mem_ops _ _ _ _ _ Hst) in Hm0. rw -(mem_ops _ _ _ _ _ Hst) in Hm1.
  destruct w_cases as [Hw|Hw]; rw Hw in Hb Hrd Hlen HQ |- *; cbn [Z.eqb Pos.eqb] in HQ.
  - assert (bytes = 0) as -> by lia. change (Z.to_nat 1) with 1%nat. cbn [combine].
    rw (proj2 (Z.leb_gt lft (0 - 0))) /=; [lia|]. apply wp_ret.
    rw (fpw8_byte _ _ _ Hw) //. specialize (HQ st Hst). rw (proj2 (Z.leb_gt lft (0 - 0))) in HQ; [lia|].
    by rw Z.min_l in HQ; [lia|].
  - change (Z.to_nat 2) with 2%nat. cbn [combine]. change (0 + 1) with 1.
    assert (bytes = 0 ∨ bytes = 1) as [-> | ->] by lia;
      change (0 - 0) with 0 in *; change (1 - 0) with 1 in *; change (1 - 1) with 0 in *;
      cbn [Z.ltb Z.compare orb] in HQ |- *.
    + rw (proj2 (Z.leb_gt lft 0)); [lia|]. cbn [combine].
      destruct (Z.leb_spec lft 1) as [H1|H1].
      * assert (lft = 1) as -> by lia. wp_step. destruct (Hrd 1) as [Hin ->]; [lia|].
        eapply wp_bus_rd8; [done|done|]. intros st' Hst'. apply wp_ret. rw (fpw16_word _ _ _ _ Hw) //. by apply HQ.
      * destruct src as [|b1 src]; [simpl in Hlen; lia|]. apply Forall_cons in Hsrc as [Hb1 Hsrc].
        apply wp_ret. rw (fpw16_word _ _ _ _ Hw) //. specialize (HQ st Hst).
        rw (proj2 (Z.leb_gt lft 0)) in HQ; [lia|].
        by rw Z.min_l in HQ; [lia|].
    + wp_step. destruct (Hrd 0) as [Hin ->]; [lia|]. eapply wp_bus_rd8; [done|done|]. intros st' Hst'.
      rw (proj2 (Z.leb_gt lft 0)); [lia|]. apply wp_ret. rw Z.add_0_r (fpw16_word _ _ _ _ Hw) //. specialize (HQ st' Hst').
      rw (proj2 (Z.leb_gt lft 0)) in HQ; [lia|]. rw Z.add_0_r in HQ. by rw Z.min_l in HQ; [lia|].
Qed.

(** The word with the bytes [f] in the order of the memory. *)
Definition le_word (f : Z → Z) : Z := if w =? 1 then f 0 else f 0 + f 1 * 256.

Lemma le_word_byte f i : is_byte (f 0) → is_byte (f 1) → 0 ≤ i < w → byte_of (le_word f) i = f i.
Proof.
  intros H0 H1 Hi. rw /le_word. destruct w_cases as [Hw|Hw]; rw Hw in Hi |- *; cbn [Z.eqb Pos.eqb].
  - assert (i = 0) as -> by lia. by apply byte_of_byte.
  - destruct (byte_of_word _ _ H0 H1) as [E0 E1]. assert (i = 0 ∨ i = 1) as [-> | ->] by lia; done.
Qed.

(** A word whose bits are not free has a byte whose bits are not free. *)
Lemma word_blocked (m f : Z → Z) a :
  (∀ x, is_byte (m x)) → is_byte (f 0) → is_byte (f 1) →
  Z.land (word_at p m a) (le_word f) ≠ le_word f → ∃ i, 0 ≤ i < w ∧ Z.land (m (a + i)) (f i) ≠ f i.
Proof.
  intros Hm H0 H1 Hne. destruct (decide (Z.land (m (a + 0)) (f 0) = f 0)) as [E0|E0].
  2:{ exists 0. destruct w_cases; split; (done || lia). }
  rw /word_at /le_word in Hne. destruct w_cases as [Hw|Hw]; rw Hw in Hne |- *; cbn [Z.eqb Pos.eqb] in Hne.
  { rw Z.add_0_r in E0. done. }
  exists 1. split; [lia|]. intros E1. apply Hne. rw Z.add_0_r in E0.
  destruct (byte_of_word _ _ H0 H1) as [F0 F1]. destruct (byte_of_word _ _ (Hm a) (Hm (a + 1))) as [M0 M1].
  rw [LHS]word_bytes.
  { rw /is_byte in H0 H1. apply land_word. lia. }
  by rw !byte_of_land F0 F1 M0 M1 E0 E1.
Qed.

Lemma align_addr addr :
  0 ≤ addr < 2 ^ 32 →
  Z.land addr (w - 1) = addr mod w ∧ Z.land addr (u32 (Z.lnot (w - 1))) = addr - addr mod w.
Proof.
  intros Ha. destruct w_cases as [-> | ->].
  - change (u32 (Z.lnot (1 - 1))) with (Z.ones 32). change (1 - 1) with 0.
    rw Z.mod_1_r Z.land_0_r Z.land_ones // Z.mod_small //. lia.
  - change (2 - 1) with (Z.ones 1). rw Z.land_ones //. split; [done|].
    change (u32 (Z.lnot (Z.ones 1))) with (Z.land (Z.ones 32) (Z.lnot (Z.ones 1))).
    rw Z.land_assoc Z.land_ones // Z.mod_small // -Z.ldiff_land Z.ldiff_ones_r //.
    rw Z.shiftl_mul_pow2 // Z.shiftr_div_pow2 //. change (2 ^ 1) with 2. Z.div_mod_to_equations. lia.
Qed.

(** What a write of [cnt] bytes of [src] at [A] returns and leaves, with [k] bytes
    written: everything stored (0), a word whose programming timed out, with no
    other byte touched (1), or a word with a bit that is not free (2). *)
Definition write_result (A : Z) (src : list Z) (cnt : Z) (m : Z → Z) (i0 : list flash_info_t)
    (rc : Z) (st : norst) : Prop :=
  ∃ ops k, isc Ready ops i0 st ∧
    (∀ x, rc ≠ 1 ∨ x < A + k ∨ Z.min (A + k + w) (A + cnt) ≤ x → mem st x = stored A src k m x) ∧
    (rc = 0 ∧ k = cnt ∨
     rc = 1 ∧ 0 ≤ k < cnt ∧ slow p base size ∨
     rc = 2 ∧ 0 ≤ k < cnt ∧ ∃ x, A + k ≤ x < Z.min (A + k + w) (A + cnt) ∧
       Z.land (m x) (nth (Z.to_nat (x - A)) src 0) ≠ nth (Z.to_nat (x - A)) src 0).

Context (Heven : base mod w = 0 ∧ size mod w = 0).
Context (write_word : Z → Z → M norst Z).
Context (Hword : ∀ dest f, is_byte (f 0) → is_byte (f 1) →
  write_word dest (be_word f) = write_word_eon n p info dest (le_word f)).
Context (A cnt : Z) (src : list Z) (m : Z → Z) (i0 : list flash_info_t).
Context (Hin : base ≤ A ∧ A + cnt ≤ base + size) (Hsrc : Forall is_byte src).
Context (Hlen : cnt ≤ Z.of_nat (length src)).

Lemma src_byte i : is_byte (nth i src 0).
Proof.
  destruct (nth_in_or_default i src 0) as [Hi| ->]; [|rw /is_byte; lia].
  pose proof Hsrc as Hb. rw Forall_forall in Hb. by apply Hb, list_elem_of_In.
Qed.

(** The bytes of the word at [A + k], rounded down, and what they make of the
    memory. *)
Lemma word_stored k :
  0 ≤ k < cnt →
  let addr := A + k in
  let bytes := addr mod w in
  let a := addr - bytes in
  let f := new_byte (stored A src k m) a bytes (cnt - k) (drop (Z.to_nat k) src) in
  let c := Z.min (w - bytes) (cnt - k) in
  (∀ x, (if decide (a ≤ x < a + w) then f (x - a) else stored A src k m x) = stored A src (k + c) m x) ∧
  (∀ i, 0 ≤ i < w → Z.land (stored A src k m (a + i)) (f i) ≠ f i →
     A + k ≤ a + i < Z.min (A + k + w) (A + cnt) ∧
     f i = nth (Z.to_nat (a + i - A)) src 0 ∧ stored A src k m (a + i) = m (a + i)).
Proof.
  intros Hk addr bytes a f c.
  assert (0 ≤ bytes < w) as Hbytes by (apply Z.mod_pos_bound; destruct w_cases; lia).
  assert (∀ i, 0 ≤ i < w → f i = if decide (A + k ≤ a + i < A + cnt) then nth (Z.to_nat (a + i - A)) src 0
                                 else stored A src k m (a + i)) as Hf.
  { intros i Hi. rw /f /new_byte. destruct (decide _) as [Hx|Hx].
    - rw (proj2 (orb_false_iff _ _)); [lia|]. rw nth_skipn. f_equal. lia.
    - rw (proj2 (orb_true_iff _ _)) //. lia. }
  split.
  - intros x. destruct (decide (a ≤ x < a + w)) as [Hx|Hx].
    + rw Hf; [lia|]. replace (a + (x - a)) with x by lia. rw /stored.
      destruct (decide (A + k ≤ x < A + cnt)), (decide (A ≤ x < A + (k + c))), (decide (A ≤ x < A + k)); done || lia.
    + rw /stored. destruct (decide (A ≤ x < A + (k + c))), (decide (A ≤ x < A + k)); done || lia.
  - intros i Hi. rw (Hf i Hi). destruct (decide _) as [Hx|Hx]; [|by rw Z.land_diag].
    intros _. split_and!; [lia|lia|done|]. rw /stored decide_False //. lia.
Qed.

Lemma word_in k :
  0 ≤ k < cnt → let a := A + k - (A + k) mod w in base ≤ a ∧ a + w ≤ base + size.
Proof. destruct Heven, w_cases as [Hw|Hw]; rw Hw in H H0 |- *; Z.div_mod_to_equations; lia. Qed.

Lemma wp_nor_write_buff ops st :
  isc Ready ops i0 st → (∀ x, mem st x = m x) → 0 ≤ cnt < 2 ^ 31 →
  wp (nor_write_buff p write_word src A cnt) (write_result A src cnt m i0) st.
Proof.
  intros Hst Hm Hcnt. rw /nor_write_buff s32_small //.
  apply (wp_loop (λ '(addr, lft, _, s) st, ∃ ops k, isc Ready ops i0 st ∧ 0 ≤ k ≤ cnt ∧
           s = drop (Z.to_nat k) src ∧ (∀ x, mem st x = stored A src k m x) ∧
           (lft ≤ 0 ∧ k = cnt ∨ 0 < lft ∧ lft = cnt - k ∧ addr = A + k))
         (λ '(_, lft, _, _), Z.to_nat lft)).
  2:{ exists ops, 0. split_and!; [done|lia|lia|done| |lia].
      intros x. rw Hm /stored decide_False //. lia. }
  2:{ lia. }
  clear ops st Hst Hm. intros [[[addr lft] data] s] st (ops & k & Hst & Hk & -> & Hm & Hl).
  destruct (Z.leb_spec lft 0) as [Hle|Hgt].
  { apply wp_ret. exists ops, k. split_and!; [done|done|]. left. lia. }
  destruct Hl as [[? _]|(_ & -> & ->)]; [lia|].
  destruct (align_addr (A + k)) as [-> ->]; [lia|].
  destruct (word_stored k ltac:(lia)) as [Hnew Hblock].
  pose proof (word_in k ltac:(lia)) as [Hlo Hhi].
  assert (0 ≤ (A + k) mod w < w) as Hbytes by (apply Z.mod_pos_bound; destruct w_cases; lia).
  set (bytes := (A + k) mod w) in *. set (a := A + k - bytes) in *.
  assert (∀ st', isc Ready ops i0 st' → ∀ x, mem st' x = stored A src k m x) as Hsame.
  { intros st' Hst' x. by rw (mem_ops _ _ _ _ _ Hst') -(mem_ops _ _ _ _ _ Hst). }
  wp_step. eapply wp_combine; [done|done|done|done|lia|by apply Forall_drop|rw length_drop; lia|].
  intros st1 Hst1. cbn beta iota. set (g := new_byte (mem st) _ _ _ _).
  assert (∀ i, g i = new_byte (stored A src k m) a bytes (cnt - k) (drop (Z.to_nat k) src) i ∧ is_byte (g i)) as Hg.
  { intros i. rw /g /new_byte Hm. split; [done|]. destruct (_ || _); [|rw nth_skipn; apply src_byte].
    rw -Hm (mem_ops _ _ _ _ _ Hst). apply ops_byte. }
  assert (∀ st2, isc Ready (ops ++ [Program a (le_word g)]) i0 st2 →
    Z.land (word_at p (mem st1) a) (le_word g) = le_word g →
    ∀ x, mem st2 x = stored A src (k + Z.min (w - bytes) (cnt - k)) m x) as Hprog.
  { intros st2 Hst2 Hfree x. rw -Hnew (mem_ops _ _ _ _ _ Hst2) program_stores.
    { by rw /word_at !(mem_ops _ _ _ _ _ Hst1) in Hfree. }
    destruct (decide _) as [Hx|Hx].
    - rw le_word_byte; [apply Hg|apply Hg|lia|]. apply Hg.
    - by rw -(mem_ops _ _ _ _ _ Hst) Hm. }
  wp_step. rw Hword; [apply Hg..|]. eapply wp_write_word; [done|done|done|..].
  - intros Hne st2 Hst2. apply wp_ret. exists ops, k.
    split_and!; [done|intros x _; by apply Hsame|]. right. right. split; [done|]. split; [lia|].
    destruct (word_blocked (mem st1) g a) as (i & Hi & Hbad); [|apply Hg..|done|].
    { intros x. rw (mem_ops _ _ _ _ _ Hst1). apply ops_byte. }
    rw (Hsame _ Hst1) (proj1 (Hg i)) in Hbad. destruct (Hblock i Hi Hbad) as (Hr & Hf & Hx).
    exists (a + i). split; [done|]. by rw -Hf -Hx.
  - intros st2 Hst2 Hfree. apply wp_ret. split; [|lia]. eexists _, (k + Z.min (w - bytes) (cnt - k)).
    split; [exact Hst2|]. split; [lia|]. split; [rw drop_drop; f_equal; lia|].
    split; [by apply Hprog|].
    destruct (decide (cnt - k - (w - bytes) ≤ 0)); [left; lia|right]. rw u32_small; lia.
  - intros Hslow st2 Hst2 Hfree. apply wp_ret. eexists _, k. split; [exact Hst2|]. split.
    { intros x [?|Hx]; [done|]. rw Hprog // /stored.
      destruct (decide (A ≤ x < A + k)), (decide (A ≤ x < A + (k + _))); done || lia. }
    right. left. split; [done|]. split; [lia|done].
Qed.

End write.

(** ** Erasing *)

(** The first addresses of the unprotected sectors from [f] to before [k]. *)
Definition nor_sectors (info : flash_info_t) (f k : Z) : list Z :=
  arr_at (fi_start info) <$> filter (λ s, arr_at (fi_protect info) s = 0) (seqZ f (k - f)).

Lemma nor_sectors_snoc info f k :
  f ≤ k → nor_sectors info f (k + 1) =
    nor_sectors info f k ++ (if decide (arr_at (fi_protect info) k = 0) then [arr_at (fi_start info) k] else []).
Proof.
  intros Hk. rw /nor_sectors. replace (k + 1 - f) with ((k - f) + 1) by lia.
  rw seqZ_app; [lia|lia|]. rw filter_app fmap_app. replace (f + (k - f)) with k by lia.
  rw /= filter_cons. by destruct (decide _).
Qed.

Section erase.
Context {hw : NorHw} (p : port) (base size : Z) (n : nat) {timer : NorTimer n}.
Context (Hp : p = port8 ∨ p = port16).
Context (Hwin : 0 < base ∧ 0x1000 ≤ size ∧ base + size ≤ 2 ^ 32).
Context (info : flash_info_t) (Harr : arrays_ok info) (Hbase : arr_at (fi_start info) 0 = base).
Context (reset : flash_info_t → M norst unit) (types : list Z).
Context (Hvend : vendor info ≠ FLASH_MAN_INTEL) (Htype : chip_type info ∈ types).

Abbreviation isc := (chip_is p base size).

Context (Hreset : ∀ s ops i0 st (Q : unit → norst → Prop),
  isc s ops i0 st → (chip_write p base s base 0xF0 = (Ready, [])) →
  (∀ st', isc Ready ops i0 st' → Q tt st') → wp (reset info) Q st).

Lemma reads_field l i (Q : Z → norst → Prop) st :
  length l = CFG_MAX_FLASH_SECT → 0 ≤ i < 512 → Q (arr_at l i) st → wp (arr_get l i) Q st.
Proof.
  intros Hl Hi HQ. eapply wp_reads; [apply reads_arr_get|done]. rw Hl /CFG_MAX_FLASH_SECT. lia.
Qed.

Lemma wp_erase_sector sect ops i0 st (Q : Z → norst → Prop) :
  isc Ready ops i0 st → 0 ≤ sect < 512 → in_chip base size (arr_at (fi_start info) sect) = true →
  (∀ rc st', rc = 0 ∨ rc = 1 ∧ slow p base size → isc Ready (ops ++ [SectorErase (arr_at (fi_start info) sect)]) i0 st' → Q rc st') →
  wp (nor_erase_sector n p reset info sect) Q st.
Proof.
  intros Hst Hs Hin HQ. destruct Harr as [Hl1 Hl2]. rw /nor_erase_sector.
  wp_step. eapply wp_timer; [done|]. intros start st1 Hstart Hh1 Hst1.
  wp_step. apply reads_field; [done|done|]. rw (proj2 (Z.eqb_neq _ _) Hvend).
  wp_step. wp_step. apply reads_field; [done|lia|]. rw Hbase. fpw_values Hp. do 5 chip_cmd.
  eapply wp_cmd; [eassumption|done|reflexivity|]. intros st2 Hh2 Hst2. rw !app_nil_r in Hst2.
  assert (busy_at (Erasing (arr_at (fi_start info) sect)) (arr_at (fi_start info) sect)
    (λ v, Z.land v 0x80 =? 0x80)) as Hbusy.
  { intros v. by rw /chip_read Z.eqb_refl. }
  assert (∃ cmds, length cmds = 6%nat ∧
    n_hist st2 = n_hist st ++ TimerR (nor_timer (n_hist st)) :: map (λ '(a, v), BusW a v) cmds) as (cmds & Hlen & Hcmds).
  { eexists [(_, _); (_, _); (_, _); (_, _); (_, _); (_, _)]. split; [done|]. rw Hh2.
    repeat match goal with H : n_hist ?s = _ ++ _ |- context [n_hist ?s ++ _] => rw H; clear H end.
    rw -!app_assoc. reflexivity. }
  wp_step. rw /nor_erase_wait. fpw_values Hp. rw (proj2 (Z.eqb_neq _ _) Hvend).
  change CFG_FLASH_ERASE_TOUT with CFG_FLASH_WRITE_TOUT.
  eapply (wp_poll p base size _ _ _ (λ v, Z.land v 0x80 =? 0x80)); [done|done|exact Hst2|apply nt_late|..].
  - intros st3 Hst3. wp_step. eapply Hreset; [done| |].
    { rw /chip_write. by rw andb_false_r. }
    intros st4 Hst4. apply wp_ret, HQ; [by left|done].
  - intros st3 Hup Hst3. wp_step. apply wp_ret. wp_step. eapply Hreset; [done|done|].
    intros st4 Hst4. apply wp_ret. wp_step. eapply Hreset; [done| |].
    { rw /chip_write. by rw andb_false_r. }
    intros st5 Hst5. apply wp_ret, HQ; [right; split; [done|]|done].
    eexists (n_hist st), cmds, _, _. split; [lia|]. split; [exact Hin|]. split; [by left|].
    cbv zeta. rw -Hcmds -Hstart. split; [by rw (proj1 Hst2)|done].
Qed.

(** What an erase of the sectors [f..l] returns and leaves. *)
Definition erase_result (f l : Z) (ops : list chip_op) (i0 : list flash_info_t) (rc : Z) (st : norst) : Prop :=
  ∃ k, f ≤ k ≤ l + 1 ∧ isc Ready (ops ++ (SectorErase <$> nor_sectors info f k)) i0 st ∧
    (rc = 0 ∧ k = l + 1 ∨ rc = 1 ∧ f < k ∧ slow p base size).

Lemma wp_nor_count f l (Q : Z → norst → Prop) st :
  0 ≤ f ≤ l → l < 512 → (∀ c, Q c st) → wp (nor_count_protected info f l) Q st.
Proof.
  intros Hf Hl HQ. rw /nor_count_protected.
  apply (wp_loop (λ '(sect, _) st', f ≤ sect ≤ l + 1 ∧ st' = st) (λ '(sect, _), Z.to_nat (l + 1 - sect))).
  2:{ split; [lia|done]. }
  2:{ lia. }
  intros [sect c] st' [Hs ->]. destruct (Z.ltb_spec l sect); [by apply wp_ret|].
  wp_step. apply reads_field; [apply Harr|lia|]. apply wp_ret. split; [split; [lia|done]|lia].
Qed.

Lemma wp_nor_erase f l ops i0 st :
  isc Ready ops i0 st → 0 ≤ f ≤ l → l < 512 →
  (∀ s, f ≤ s ≤ l → in_chip base size (arr_at (fi_start info) s) = true) →
  wp (nor_erase n p reset types info f l) (erase_result f l ops i0) st.
Proof.
  intros Hst Hf Hl Hin. rw /nor_erase. rw (proj2 (Z.ltb_ge f 0)); [lia|]. rw (proj2 (Z.ltb_ge l f)); [lia|].
  rw bool_decide_true //. cbn [orb negb]. wp_step. apply wp_nor_count; [lia|lia|]. intros _.
  apply (wp_loop (λ sect st', f ≤ sect ≤ l + 1 ∧
           isc Ready (ops ++ (SectorErase <$> nor_sectors info f sect)) i0 st')
         (λ sect, Z.to_nat (l + 1 - sect))).
  2:{ split; [lia|]. by rw /nor_sectors Z.sub_diag app_nil_r. }
  2:{ lia. }
  intros sect st1 [Hs Hst1]. destruct (Z.ltb_spec l sect).
  { apply wp_ret. exists sect. split; [lia|]. split; [done|]. left. lia. }
  wp_step. apply reads_field; [apply Harr|lia|].
  pose proof (nor_sectors_snoc info f sect ltac:(lia)) as Hsnoc.
  destruct (Z.eqb_spec (arr_at (fi_protect info) sect) 0) as [Hpr|Hpr]; cbn [negb].
  2:{ apply wp_ret. split; [|lia]. split; [lia|]. by rw Hsnoc decide_False // app_nil_r. }
  rw decide_True // in Hsnoc. wp_step. eapply wp_erase_sector; [done|lia|apply Hin; lia|].
  intros rc st2 Hrc Hst2.
  assert (isc Ready (ops ++ (SectorErase <$> nor_sectors info f (sect + 1))) i0 st2) as Hst2'.
  { by rw Hsnoc fmap_app /= app_assoc. }
  destruct Hrc as [-> |[-> Hslow]]; cbn [Z.eqb]; apply wp_ret.
  - split; [|lia]. split; [lia|done].
  - exists (sect + 1). split; [lia|]. split; [done|]. right. split; [done|]. split; [lia|done].
Qed.

End erase.

(** [flash_reset] on a chip with the AMD command set. *)
Definition jedec_vendors_8b : list Z := [FLASH_MAN_EON; FLASH_MAN_MX].
Definition jedec_vendors_16b : list Z := [FLASH_MAN_EON; FLASH_MAN_MX; FLASH_MAN_NUM].

Section reset.
Context {hw : NorHw} (base size : Z).
Context (Hwin : 0 < base ∧ 0x1000 ≤ size ∧ base + size ≤ 2 ^ 32).
Context (info : flash_info_t) (Harr : arrays_ok info) (Hbase : arr_at (fi_start info) 0 = base).

Lemma wp_reset_8b s ops i0 st (Q : unit → norst → Prop) :
  vendor info ∈ jedec_vendors_8b → chip_is port8 base size s ops i0 st →
  chip_write port8 base s base 0xF0 = (Ready, []) →
  (∀ st', chip_is port8 base size Ready ops i0 st' → Q tt st') → wp (flash_reset_8b info) Q st.
Proof.
  intros Hv Hst Hw HQ. rw /flash_reset_8b. wp_step. apply reads_field; [apply Harr|lia|]. rw Hbase.
  rw /jedec_vendors_8b !elem_of_cons in Hv.
  destruct Hv as [Hv|[Hv|Hv%elem_of_nil]]; [..|done]; rw Hv;
    (eapply wp_cmd; [done|by apply base_in|done|]; intros st' _; rw app_nil_r; apply HQ).
Qed.

Lemma wp_reset_16b s ops i0 st (Q : unit → norst → Prop) :
  vendor info ∈ jedec_vendors_16b → chip_is port16 base size s ops i0 st →
  chip_write port16 base s base 0xF0 = (Ready, []) →
  (∀ st', chip_is port16 base size Ready ops i0 st' → Q tt st') → wp (flash_reset_16b info) Q st.
Proof.
  intros Hv Hst Hw HQ. rw /flash_reset_16b. wp_step. apply reads_field; [apply Harr|lia|]. rw Hbase.
  rw /jedec_vendors_16b !elem_of_cons in Hv.
  destruct Hv as [Hv|[Hv|[Hv|Hv%elem_of_nil]]]; [..|done]; rw Hv;
    (eapply wp_cmd; [done|by apply base_in|done|]; intros st' _; rw app_nil_r; apply HQ).
Qed.

End reset.
