(* ===== verification/NorBoard.v ===== *)
(** * The board with NOR flash

    What [nor_flash_8b_init] and [nor_flash_16b_init] find, and the flash commands on
    a board that boots from NOR flash, down to the contents of the chips. *)

From Stdlib Require Import ssreflect ZArith Lia ZifyBool.
From stdpp Require Import base tactics numbers list.
From S2P Require Import Prelude Crc32 SpiFlash NorFlash FlashCmd FlashRange FlashSafety NorChip.

Set Default Goal Selector "!".
Open Scope general_if_scope.
#[local] Open Scope Z_scope.

(** ** Layouts *)

Lemma length_fill_from lo hi f a : length (fill_from lo hi f a) = length a.
Proof. apply length_imap. Qed.

Lemma arr_at_fill lo hi f a i :
  0 ≤ i < Z.of_nat (length a) →
  arr_at (fill_from lo hi f a) i = if decide (lo ≤ i < hi) then f i else arr_at a i.
Proof.
  intros Hi. rw /arr_at /fill_from.
  destruct (lookup_lt_is_Some_2 a (Z.to_nat i)) as [x Hx]; [lia|].
  rw (nth_lookup_Some (imap _ a) _ 0 (if (lo <=? i) && (i <? hi) then f i else x)).
  { rw list_lookup_imap Hx /= Z2Nat.id //. lia. }
  rw (nth_lookup_Some a _ 0 x) //.
  destruct (decide _); [rw (proj2 (andb_true_iff _ _)) //; lia|rw (proj2 (andb_false_iff _ _)) //; lia].
Qed.

(** A bank whose sectors start at [f 0 = base], [f 1], ... *)
Lemma layout_ok base f info :
  arrays_ok info → 1 ≤ fi_sector_count info ≤ 512 → 0 < base → base + fi_size info ≤ 2 ^ 32 →
  (∀ i, 0 ≤ i < fi_sector_count info → starts info i = f i) → f 0 = base →
  (∀ i, 0 ≤ i < fi_sector_count info - 1 → f i < f (i + 1)) →
  f (fi_sector_count info - 1) < base + fi_size info →
  bank_ok info ∧ starts info 0 = base.
Proof.
  intros Ha Hc Hb Ht Hf H0 Hlt Hl. assert (starts info 0 = base) as Hs by (rw Hf; lia).
  split; [|done]. split; rw /bank_top ?Hs; [done|done|done| | |done].
  - intros i Hi. rw !Hf; [lia|lia|]. by apply Hlt.
  - rw Hf; lia.
Qed.

(** *** Sector maps

    The sectors of a chip as regions of equal sectors, number and size, from the
    lowest address on. *)
Fixpoint total (rs : list (Z * Z)) : Z :=
  match rs with [] => 0 | (n, _) :: rs' => n + total rs' end.
Fixpoint area (rs : list (Z * Z)) : Z :=
  match rs with [] => 0 | (n, s) :: rs' => n * s + area rs' end.

(** Where sector [i] starts. *)
Fixpoint offset (rs : list (Z * Z)) (i : Z) : Z :=
  match rs with
  | [] => 0
  | (n, s) :: rs' => if i <? n then i * s else n * s + offset rs' (i - n)
  end.

Definition regions_ok (rs : list (Z * Z)) : Prop := Forall (λ '(n, s), 0 < n ∧ 0 < s) rs.

Lemma offset_0 rs : regions_ok rs → offset rs 0 = 0.
Proof. destruct 1 as [|[n s] rs [Hn Hs] _]; simpl; [done|]. by rw (proj2 (Z.ltb_lt 0 n)). Qed.

Lemma total_nonneg rs : regions_ok rs → 0 ≤ total rs.
Proof. induction 1 as [|[n s] rs [Hn Hs] _ IH]; simpl; lia. Qed.

Lemma offset_step rs i : regions_ok rs → 0 ≤ i < total rs → offset rs i < offset rs (i + 1).
Proof.
  intros Hrs. revert i. induction Hrs as [|[n s] rs [Hn Hs] Hrs IH]; simpl; intros i Hi; [lia|].
  destruct (Z.ltb_spec i n), (Z.ltb_spec (i + 1) n); [nia| |lia|].
  - replace (i + 1 - n) with 0 by lia. rw offset_0 //. nia.
  - replace (i + 1 - n) with (i - n + 1) by lia. specialize (IH (i - n) ltac:(lia)). lia.
Qed.

Lemma offset_total rs : regions_ok rs → offset rs (total rs) = area rs.
Proof.
  induction 1 as [|[n s] rs [Hn Hs] Hrs IH]; simpl; [done|]. pose proof (total_nonneg rs Hrs).
  rw (proj2 (Z.ltb_ge _ _)); [lia|]. by replace (n + total rs - n) with (total rs) by lia; rw IH.
Qed.

Definition uniform_map (n s : Z) : list (Z * Z) := [(n, s)].
(** Eight boot sectors of 8 KB below, or above, sectors of 64 KB. *)
Definition bottom_map (n : Z) : list (Z * Z) := [(8, 0x2000); (n, 0x10000)].
Definition top_map (n : Z) : list (Z * Z) := [(n, 0x10000); (8, 0x2000)].

(** The chips by identification (id, sectors, size), with their sector maps. *)
Definition known_8b : list (Z * Z * Z * list (Z * Z)) :=
  [(FLASH_MAN_EON + FLASH_EON29LV640U, 128, 0x00800000, uniform_map 128 0x10000);
   (FLASH_MAN_EON + FLASH_EON29LV640U, 135, 0x00800000, top_map 127);
   (FLASH_MAN_EON + FLASH_EON29LV640B, 135, 0x00800000, bottom_map 127);
   (FLASH_MAN_MX + FLASH_MX29LV640B, 135, 0x00800000, bottom_map 127);
   (FLASH_MAN_MX + FLASH_MX29LV640T, 135, 0x00800000, top_map 127)].
Definition known_16b : list (Z * Z * Z * list (Z * Z)) :=
  known_8b ++
  [(FLASH_MAN_EON + FLASH_EON29LV640H, 128, 0x00800000, uniform_map 128 0x10000);
   (FLASH_MAN_MX + FLASH_MX29GL256E, 256, 0x02000000, uniform_map 256 0x20000);
   (FLASH_MAN_NUM + FLASH_NUM29W640GT, 135, 0x00800000, top_map 127);
   (FLASH_MAN_NUM + FLASH_NUM29W640GB, 135, 0x00800000, bottom_map 127);
   (FLASH_MAN_NUM + FLASH_NUM29W640GHL, 128, 0x00800000, uniform_map 128 0x10000);
   (FLASH_MAN_NUM + FLASH_NUM29W128GHL, 128, 0x01000000, uniform_map 128 0x20000);
   (FLASH_MAN_INTEL + FLASH_28F800C3B, 23, 0x00100000, bottom_map 15);
   (FLASH_MAN_INTEL + FLASH_INTEL800B, 23, 0x00100000, bottom_map 15);
   (FLASH_MAN_INTEL + FLASH_28F160C3B, 39, 0x00200000, bottom_map 31);
   (FLASH_MAN_INTEL + FLASH_INTEL160B, 39, 0x00200000, bottom_map 31);
   (FLASH_MAN_INTEL + FLASH_28F320C3B, 71, 0x00400000, bottom_map 63);
   (FLASH_MAN_INTEL + FLASH_INTEL320B, 71, 0x00400000, bottom_map 63);
   (FLASH_MAN_INTEL + FLASH_28F640C3B, 135, 0x00800000, bottom_map 127);
   (FLASH_MAN_INTEL + FLASH_INTEL640B, 135, 0x00800000, bottom_map 127)].

Ltac in_table := apply (bool_decide_unpack _); vm_compute; exact I.

(** The maps have the sectors and the size of the identification. *)
Lemma known_shape id count size rs :
  (id, count, size, rs) ∈ known_16b →
  regions_ok rs ∧ total rs = count ∧ area rs = size ∧ 1 ≤ count ≤ 512.
Proof.
  intros Hin. assert (Forall (λ '(id, count, size, rs), regions_ok rs ∧ total rs = count ∧
    area rs = size ∧ 1 ≤ count ≤ 512) known_16b) as Hall.
  { rw /regions_ok. by apply (bool_decide_unpack _). }
  by apply (proj1 (Forall_forall _ _) Hall _ Hin).
Qed.

Definition ident (info : flash_info_t) : Z * Z * Z :=
  (fi_flash_id info, fi_sector_count info, fi_size info).

(** A bank at [base] with the sector map of its chip. *)
Definition laid (base : Z) (info : flash_info_t) : Prop :=
  arrays_ok info ∧ bank_ok info ∧ starts info 0 = base ∧
  ∃ rs, (ident info, rs) ∈ known_16b ∧
    ∀ i, 0 ≤ i < fi_sector_count info → starts info i = base + offset rs i.

(** The layouts of the code. *)
Lemma layout_bottom base n i :
  0 < base → 0 < n → 0 ≤ i < 8 + n → base + area (bottom_map n) ≤ 2 ^ 32 →
  u32 (base + (if i <? 8 then i * 0x2000 else (i - 7) * 0x10000)) = base + offset (bottom_map n) i.
Proof.
  intros Hb Hn Hi Ht. rw /bottom_map /= in Ht |- *. destruct (Z.ltb_spec i 8) as [Hlt|Hge].
  - apply u32_small. lia.
  - rw (proj2 (Z.ltb_lt (i - 8) n)); [lia|]. rw u32_small; lia.
Qed.

Lemma layout_top base i :
  0 < base → 0 ≤ i < 135 → base + 0x800000 ≤ 2 ^ 32 → top_boot base i = base + offset (top_map 127) i.
Proof.
  intros Hb Hi Ht. rw /top_boot /top_map /=. destruct (Z.ltb_spec i 127) as [Hlt|Hge].
  - apply u32_small. lia.
  - rw (proj2 (Z.ltb_lt (i - 127) 8)); [lia|]. rw u32_small; lia.
Qed.

Lemma layout_uniform base n size i :
  0 < base → 0 < size → 0 ≤ i < n → base + n * size ≤ 2 ^ 32 →
  uniform base size i = base + offset (uniform_map n size) i.
Proof.
  intros Hb Hs Hi Ht. rw /uniform /= (proj2 (Z.ltb_lt i n)); [lia|]. rw u32_small; [nia|done].
Qed.

Section layouts.
Context (base size count id : Z) (start protect : list Z).
Abbreviation chip := (FlashInfo size count id start protect).
Context (Harr : arrays_ok chip) (Hb : 0 < base) (Ht : base + size ≤ 2 ^ 32).

Lemma starts_fill f i : count ≤ 512 → 0 ≤ i < count → arr_at (fill_from 0 count f start) i = f i.
Proof.
  intros Hc Hi. rw arr_at_fill; [|rw decide_True //].
  destruct Harr as [Hl _]. simpl in Hl. rw Hl /CFG_MAX_FLASH_SECT. lia.
Qed.

(** Start addresses by the map of the chip. *)
Lemma laid_starts start' protect' rs :
  arrays_ok (FlashInfo size count id start' protect') → (id, count, size, rs) ∈ known_16b →
  (∀ i, 0 ≤ i < count → arr_at start' i = base + offset rs i) →
  laid base (FlashInfo size count id start' protect').
Proof.
  intros Ha Hin Hst. destruct (known_shape _ _ _ _ Hin) as (Hrs & Htot & Harea & Hc).
  pose proof (offset_0 rs Hrs) as H0.
  destruct (layout_ok base (λ i, base + offset rs i) (FlashInfo size count id start' protect'))
    as [Hok Hs0]; simpl; try done; try lia.
  - intros i Hi. pose proof (offset_step rs i Hrs ltac:(lia)). lia.
  - pose proof (offset_step rs (count - 1) Hrs ltac:(lia)) as Hl.
    replace (count - 1 + 1) with (total rs) in Hl by lia. rw (offset_total rs Hrs) in Hl. lia.
  - split_and!; [done|done|done|]. by exists rs.
Qed.

(** Both loops write the same start addresses. *)
Lemma laid_fill f rs :
  (id, count, size, rs) ∈ known_16b → (∀ i, 0 ≤ i < count → f i = base + offset rs i) →
  laid base (set_layout chip f) ∧ laid base (set_starts chip (fill_from 0 count f start)).
Proof.
  intros Hin Hf. destruct (known_shape _ _ _ _ Hin) as (_ & _ & _ & Hc). destruct Harr as [Hl1 Hl2].
  split; (apply (laid_starts _ _ rs); [by split; rw /= ?length_fill_from|done|]);
    intros i Hi; rw starts_fill ?Hf //; lia.
Qed.

Lemma laid_bottom :
  (id, count, size, bottom_map 127) ∈ known_16b → laid base (set_layout chip (bottom_boot base)).
Proof.
  intros Hin. destruct (known_shape _ _ _ _ Hin) as (_ & Htot & Harea & _). simpl in Htot.
  refine (proj1 (laid_fill _ _ Hin _)). intros i Hi. rw -layout_bottom; [lia..|].
  rw /bottom_boot. destruct (i <? 8); f_equal; lia.
Qed.

Lemma laid_top :
  (id, count, size, top_map 127) ∈ known_16b → laid base (set_layout chip (top_boot base)).
Proof.
  intros Hin. destruct (known_shape _ _ _ _ Hin) as (_ & Htot & Harea & _). simpl in Htot, Harea.
  refine (proj1 (laid_fill _ _ Hin _)). intros i Hi. apply layout_top; lia.
Qed.

(** The loop for boot sectors at the top, on a chip without them. *)
Lemma laid_top_uniform :
  (id, count, size, uniform_map 128 0x10000) ∈ known_16b → laid base (set_layout chip (top_boot base)).
Proof.
  intros Hin. destruct (known_shape _ _ _ _ Hin) as (_ & Htot & Harea & _). simpl in Htot, Harea.
  refine (proj1 (laid_fill _ _ Hin _)). intros i Hi. rw layout_top; [lia..|]. simpl.
  rw (proj2 (Z.ltb_lt i 128)); [lia|]. destruct (Z.ltb_spec i 127); [done|].
  rw (proj2 (Z.ltb_lt (i - 127) 8)); lia.
Qed.

Lemma laid_uniform s :
  0 < s → (id, count, size, uniform_map count s) ∈ known_16b →
  laid base (set_layout chip (uniform base s)) ∧
  laid base (set_starts chip (fill_from 0 count (uniform base s) start)).
Proof.
  intros Hs Hin. destruct (known_shape _ _ _ _ Hin) as (_ & _ & Harea & _). simpl in Harea.
  apply (laid_fill _ _ Hin). intros i Hi. apply layout_uniform; lia.
Qed.

Lemma laid_intel n :
  8 + n = count → (id, count, size, bottom_map n) ∈ known_16b → laid base (intel_offsets port16 base chip).
Proof.
  intros Hn Hin. destruct (known_shape _ _ _ _ Hin) as (Hrs & _ & Harea & Hc).
  apply Forall_cons in Hrs as [_ [[Hn0 _] _]%Forall_cons]. destruct Harr as [Hl1 Hl2].
  rw /intel_offsets /set_starts. cbn [fpw_size port16 fi_size fi_sector_count fi_flash_id fi_start fi_protect] in *.
  change (2 / 2) with 1. rw !Z.mul_1_r.
  apply (laid_starts _ _ (bottom_map n)); [by split; rw /= ?length_fill_from|done|].
  intros i Hi. rw -layout_bottom; [lia..|].
  rw arr_at_fill; [rw length_fill_from Hl1 /CFG_MAX_FLASH_SECT; lia|]. destruct (Z.ltb_spec i 8).
  - rw decide_False; [lia|]. rw arr_at_fill; [rw Hl1 /CFG_MAX_FLASH_SECT; lia|]. by rw decide_True; [lia|].
  - by rw decide_True; [lia|].
Qed.

End layouts.

(** Every known chip gets its layout. *)
Lemma offsets_16b_laid base info :
  arrays_ok info → ident info ∈ known_16b.*1 → 0 < base → base + fi_size info ≤ 2 ^ 32 →
  laid base (flash_get_offsets_16b base info).
Proof.
  intros Ha Hk Hb Ht. destruct info as [size count id start protect]. rw /ident /= in Hk Ht.
  rw /known_16b /known_8b /= in Hk.
  repeat (apply elem_of_cons in Hk as [[= -> -> ->]|Hk];
    [first [apply (laid_top _ _ _ _ _ _ Ha Hb Ht); in_table
           |apply (laid_top_uniform _ _ _ _ _ _ Ha Hb Ht); in_table
           |apply (laid_bottom _ _ _ _ _ _ Ha Hb Ht); in_table
           |apply (laid_uniform _ _ _ _ _ _ Ha Hb Ht 0x10000 eq_refl); in_table
           |apply (laid_uniform _ _ _ _ _ _ Ha Hb Ht 0x20000 eq_refl); in_table
           |apply (laid_intel _ _ _ _ _ _ Ha Hb Ht 15 eq_refl); in_table
           |apply (laid_intel _ _ _ _ _ _ Ha Hb Ht 31 eq_refl); in_table
           |apply (laid_intel _ _ _ _ _ _ Ha Hb Ht 63 eq_refl); in_table
           |apply (laid_intel _ _ _ _ _ _ Ha Hb Ht 127 eq_refl); in_table]|]).
  by apply elem_of_nil in Hk.
Qed.

Lemma offsets_8b_laid base info :
  arrays_ok info → ident info ∈ known_8b.*1 → 0 < base → base + fi_size info ≤ 2 ^ 32 →
  laid base (flash_get_offsets_8b base info).
Proof.
  intros Ha Hk Hb Ht. destruct info as [size count id start protect]. rw /ident /= in Hk Ht.
  rw /known_8b /= in Hk.
  repeat (apply elem_of_cons in Hk as [[= -> -> ->]|Hk];
    [first [apply (laid_top _ _ _ _ _ _ Ha Hb Ht); in_table
           |apply (laid_top_uniform _ _ _ _ _ _ Ha Hb Ht); in_table
           |apply (laid_bottom _ _ _ _ _ _ Ha Hb Ht); in_table]|]).
  by apply elem_of_nil in Hk.
Qed.

(** ** Identification *)

(** What [nor_flash_get_size] makes of the codes, before the layout. *)
Definition identify (bit : BOOT_BIT_TYPE) (man dev DevId1 : Z) (info : flash_info_t) : option flash_info_t :=
  let info := match bit with
              | BOOT_TYPE_8BIT => set_vendor_8b (Z.land man 0xFF) info
              | BOOT_TYPE_16BIT => set_vendor_16b (Z.land man 0xFF) info
              end in
  if fi_flash_id info =? FLASH_UNKNOWN then Some info else
  match bit with
  | BOOT_TYPE_8BIT => set_device_8b dev info
  | BOOT_TYPE_16BIT => set_device_16b dev DevId1 info
  end.

(** The chips: manufacturer, device and (where it matters) third code, with the
    identification. *)
Definition chips_8b : list (Z * Z * option Z * (Z * Z * Z)) :=
  [(0x7F, 0xD7, None, (FLASH_MAN_EON + FLASH_EON29LV640U, 128, 0x00800000));
   (0x7F, 0xCB, None, (FLASH_MAN_EON + FLASH_EON29LV640B, 135, 0x00800000));
   (0x7F, 0xC9, None, (FLASH_MAN_EON + FLASH_EON29LV640U, 135, 0x00800000));
   (0xC2, 0xCB, None, (FLASH_MAN_MX + FLASH_MX29LV640B, 135, 0x00800000));
   (0xC2, 0xC9, None, (FLASH_MAN_MX + FLASH_MX29LV640T, 135, 0x00800000))].
Definition chips_16b : list (Z * Z * option Z * (Z * Z * Z)) :=
  [(0x7F, 0x22D7, None, (FLASH_MAN_EON + FLASH_EON29LV640U, 128, 0x00800000));
   (0x7F, 0x22CB, None, (FLASH_MAN_EON + FLASH_EON29LV640B, 135, 0x00800000));
   (0x7F, 0x22C9, None, (FLASH_MAN_EON + FLASH_EON29LV640U, 135, 0x00800000));
   (0x7F, 0x227E, None, (FLASH_MAN_EON + FLASH_EON29LV640H, 128, 0x00800000));
   (0xC2, 0x22CB, None, (FLASH_MAN_MX + FLASH_MX29LV640B, 135, 0x00800000));
   (0xC2, 0x22C9, None, (FLASH_MAN_MX + FLASH_MX29LV640T, 135, 0x00800000));
   (0xC2, 0x227E, None, (FLASH_MAN_MX + FLASH_MX29GL256E, 256, 0x02000000));
   (0x20, 0x227E, Some 0x22102201, (FLASH_MAN_NUM + FLASH_NUM29W640GT, 135, 0x00800000));
   (0x20, 0x227E, Some 0x22102200, (FLASH_MAN_NUM + FLASH_NUM29W640GB, 135, 0x00800000));
   (0x20, 0x227E, Some 0x220C2201, (FLASH_MAN_NUM + FLASH_NUM29W640GHL, 128, 0x00800000));
   (0x20, 0x227E, Some 0x220C2200, (FLASH_MAN_NUM + FLASH_NUM29W640GHL, 128, 0x00800000));
   (0x20, 0x227E, Some 0x22212201, (FLASH_MAN_NUM + FLASH_NUM29W128GHL, 128, 0x01000000));
   (0x20, 0x227E, Some 0x22212200, (FLASH_MAN_NUM + FLASH_NUM29W128GHL, 128, 0x01000000));
   (0x89, 0x88C1, None, (FLASH_MAN_INTEL + FLASH_28F800C3B, 23, 0x00100000));
   (0x89, 0x8893, None, (FLASH_MAN_INTEL + FLASH_INTEL800B, 23, 0x00100000));
   (0x89, 0x88C3, None, (FLASH_MAN_INTEL + FLASH_28F160C3B, 39, 0x00200000));
   (0x89, 0x8891, None, (FLASH_MAN_INTEL + FLASH_INTEL160B, 39, 0x00200000));
   (0x89, 0x88C5, None, (FLASH_MAN_INTEL + FLASH_28F320C3B, 71, 0x00400000));
   (0x89, 0x8897, None, (FLASH_MAN_INTEL + FLASH_INTEL320B, 71, 0x00400000));
   (0x89, 0x88CD, None, (FLASH_MAN_INTEL + FLASH_28F640C3B, 135, 0x00800000));
   (0x89, 0x8899, None, (FLASH_MAN_INTEL + FLASH_INTEL640B, 135, 0x00800000))].
Definition chips (bit : BOOT_BIT_TYPE) : list (Z * Z * option Z * (Z * Z * Z)) :=
  match bit with BOOT_TYPE_8BIT => chips_8b | BOOT_TYPE_16BIT => chips_16b end.

(** A chip that answers [man], [dev] and [DevId1] is the one of the table. *)
Definition is_model (bit : BOOT_BIT_TYPE) (man dev DevId1 : Z) (idt : Z * Z * Z) : Prop :=
  ∃ o, (Z.land man 0xFF, dev, o, idt) ∈ chips bit ∧ (o = None ∨ o = Some DevId1).

Definition flash_get_offsets (bit : BOOT_BIT_TYPE) : Z → flash_info_t → flash_info_t :=
  match bit with BOOT_TYPE_8BIT => flash_get_offsets_8b | BOOT_TYPE_16BIT => flash_get_offsets_16b end.

Lemma identify_model bit man dev DevId1 idt info :
  is_model bit man dev DevId1 idt → arrays_ok info →
  ∃ info', identify bit man dev DevId1 info = Some info' ∧ arrays_ok info' ∧ ident info' = idt ∧
    fi_flash_id info' ≠ FLASH_UNKNOWN ∧
    ∀ base, 0 < base → base + idt.2 ≤ 2 ^ 32 → laid base (flash_get_offsets bit base info').
Proof.
  intros (o & Hin & Ho) Ha. rw /identify. set (m := Z.land man 0xFF) in *. clearbody m.
  assert (∀ info', arrays_ok info' → ident info' ∈ (match bit with BOOT_TYPE_8BIT => known_8b | BOOT_TYPE_16BIT => known_16b end).*1 →
    ∀ base, 0 < base → base + fi_size info' ≤ 2 ^ 32 → laid base (flash_get_offsets bit base info')) as Hlaid.
  { intros info' Ha' Hk base Hb Hf. destruct bit; [by apply offsets_8b_laid|by apply offsets_16b_laid]. }
  destruct bit; rw /chips /chips_8b /chips_16b in Hin.
  all: repeat (apply elem_of_cons in Hin as [[= -> -> -> ->]|Hin];
    [destruct Ho as [[=]|Ho]; try (injection Ho as <-);
     (eexists; split; [reflexivity|]; split; [exact Ha|]; split; [reflexivity|]; split; [done|];
      intros base Hb Hf; apply Hlaid;
      [exact Ha|apply (bool_decide_unpack _); vm_compute; exact I|exact Hb|exact Hf])|]).
  all: by apply elem_of_nil in Hin.
Qed.

Lemma ident_offsets bit base info : ident (flash_get_offsets bit base info) = ident info.
Proof.
  destruct bit; cbn [flash_get_offsets]; unfold flash_get_offsets_8b, flash_get_offsets_16b;
    repeat match goal with |- context [if ?b then _ else _] => destruct b end; reflexivity.
Qed.

(** ** Initialisation *)

Definition port_of (bit : BOOT_BIT_TYPE) : port :=
  match bit with BOOT_TYPE_8BIT => port8 | BOOT_TYPE_16BIT => port16 end.
Definition jedec_vendors (bit : BOOT_BIT_TYPE) : list Z :=
  match bit with BOOT_TYPE_8BIT => jedec_vendors_8b | BOOT_TYPE_16BIT => jedec_vendors_16b end.

(** The window of a chip select. *)
Definition WINDOW : Z := 0x800000.

Definition ev_in (base : Z) (ev : bus_event) : Prop :=
  match ev with BusR a _ | BusW a _ => in_chip base WINDOW a = true | _ => True end.

(** What happens in one window does not reach the chip in another. *)
Lemma run_frame p base base' h evs :
  Forall (ev_in base) evs → base + WINDOW ≤ base' ∨ base' + WINDOW ≤ base →
  chip_run p base' WINDOW (h ++ evs) = chip_run p base' WINDOW h.
Proof.
  intros Hev Hd. rw /chip_run fold_left_app. generalize (fold_left (chip_event p base' WINDOW) h (Ready, [])).
  induction Hev as [|ev evs Hin Hev IH]; intros c; simpl; [done|].
  rw -[RHS]IH. f_equal. destruct ev as [a v|a v|a v|a v|a v|v]; try done; rw /= in Hin |- *;
    rw (_ : in_chip base' WINDOW a = false) //; rw /in_chip in Hin |- *; lia.
Qed.

Section init.
Context {hw : NorHw} (bit : BOOT_BIT_TYPE).
Abbreviation p := (port_of bit).

Lemma port_cases : p = port8 ∨ p = port16.
Proof. destruct bit; [by left|by right]. Qed.

(** The chip at [base], with everything since [h0] in its window. *)
Definition chip_at (base : Z) (s : cstate) (ops : list chip_op) (i0 : list flash_info_t)
    (h0 : list bus_event) (st : norst) : Prop :=
  chip_is p base WINDOW s ops i0 st ∧ ∃ evs, n_hist st = h0 ++ evs ∧ Forall (ev_in base) evs.

Lemma wp_wr_at base a v s s' ops i0 h0 (Q : unit → norst → Prop) st :
  chip_at base s ops i0 h0 st → in_chip base WINDOW a = true → chip_write p base s a v = (s', []) →
  (∀ st', chip_at base s' ops i0 h0 st' → Q tt st') → wp (wr a v) Q st.
Proof.
  intros [Hst (evs & He & Hf)] Ha Hw HQ. apply wp_modify, HQ. split.
  - destruct Hst as [Hr Hi]. split; [|done]. by rw /= run_snoc Hr /chip_event Ha /= Hw app_nil_r.
  - exists (evs ++ [BusW a v]). rw /= He app_assoc. split; [done|]. apply Forall_app. by split; [|constructor].
Qed.

Lemma wp_rd_at base a ops i0 h0 (Q : Z → norst → Prop) st :
  chip_at base AutoSelect ops i0 h0 st → in_chip base WINDOW a = true →
  (∀ st', chip_at base AutoSelect ops i0 h0 st' → Q (bus_read (n_hist st) a) st') → wp (rd a) Q st.
Proof.
  intros [Hst (evs & He & Hf)] Ha HQ. apply HQ. split.
  - destruct Hst as [Hr Hi]. split; [|done]. by rw /= run_snoc Hr /chip_event Ha.
  - eexists (evs ++ [BusR a _]). rw /= He app_assoc. split; [done|]. apply Forall_app. by split; [|constructor].
Qed.

Lemma wp_auto_select base ops i0 h0 (Q : unit → norst → Prop) st :
  0 < base → base + WINDOW ≤ 2 ^ 32 → chip_at base Ready ops i0 h0 st →
  (∀ st', chip_at base AutoSelect ops i0 h0 st' → Q tt st') → wp (auto_select p base) Q st.
Proof.
  intros Hb Ht Hst HQ. assert (0 < base ∧ 0x1000 ≤ WINDOW ∧ base + WINDOW ≤ 2 ^ 32) as Hwin by done.
  rw /auto_select. destruct (fpw_cmds p port_cases) as (-> & -> & _ & _ & -> & _).
  wp_step. eapply wp_wr_at; [done|apply unlock1_in; [apply port_cases|done]|by rw /chip_write Z.eqb_refl|].
  intros st1 Hst1.
  wp_step. eapply wp_wr_at; [done|apply unlock2_in; [apply port_cases|done]|by rw /chip_write Z.eqb_refl|].
  intros st2 Hst2.
  eapply wp_wr_at; [done|apply unlock1_in; [apply port_cases|done]|by rw /chip_write Z.eqb_refl|].
  exact HQ.
Qed.

Definition nor_get_size : Z → flash_info_t → M norst (Z * flash_info_t) :=
  match bit with BOOT_TYPE_8BIT => nor_flash_get_size_8b | BOOT_TYPE_16BIT => nor_flash_get_size_16b end.

(** The codes that the chip at [base] answers after the auto select command. *)
Definition answers (base man dev x y : Z) : Prop :=
  ∀ h, (chip_run p base WINDOW h).1 = AutoSelect →
    bus_read h (at_idx p base 0) = man ∧
    bus_read h (at_idx p base (match bit with BOOT_TYPE_8BIT => 2 | BOOT_TYPE_16BIT => 1 end)) = dev ∧
    (bit = BOOT_TYPE_16BIT → bus_read h (at_idx p base 14) = x ∧ bus_read h (at_idx p base 15) = y).
Definition third_code (x y : Z) : Z := NOR_IDALL (Z.land x 0xFFFF) (Z.land y 0xFFFF).

Lemma wp_flash_reset base info ops i0 h0 st (Q : unit → norst → Prop) :
  0 < base → base + WINDOW ≤ 2 ^ 32 → laid base info → chip_at base AutoSelect ops i0 h0 st →
  (∀ s st', chip_at base s ops i0 h0 st' → (vendor info ∈ jedec_vendors bit → s = Ready) → Q tt st') →
  wp (match bit with BOOT_TYPE_8BIT => flash_reset_8b info | BOOT_TYPE_16BIT => flash_reset_16b info end) Q st.
Proof.
  intros Hb Ht (Ha & Hok & H0 & _) Hst HQ.
  assert (in_chip base WINDOW base = true) as Hin by (rw /in_chip /WINDOW; lia).
  assert (∀ v s, chip_write p base AutoSelect base v = (s, []) → (vendor info ∈ jedec_vendors bit → s = Ready) →
    wp (wr base v) Q st) as Hwr.
  { intros v s Hw Hs. eapply wp_wr_at; [done|done|done|]. intros st' Hst'. by eapply HQ. }
  destruct bit; rw /flash_reset_8b /flash_reset_16b;
    (wp_step; apply reads_field; [apply Ha|lia|]; rw H0).
  - destruct (Z.eqb_spec (vendor info) FLASH_MAN_INTEL) as [Hi|_].
    { by eapply Hwr; [|rw Hi; intros H%(bool_decide_pack _)]. }
    destruct (vendor info =? FLASH_MAN_AMD); [by eapply Hwr|].
    destruct (Z.eqb_spec (vendor info) FLASH_MAN_EON) as [|He]; [by eapply Hwr|].
    destruct (Z.eqb_spec (vendor info) FLASH_MAN_MX) as [|Hm]; [by eapply Hwr|].
    apply wp_ret. eapply HQ; [done|]. rw /jedec_vendors /jedec_vendors_8b !elem_of_cons elem_of_nil. naive_solver.
  - destruct (Z.eqb_spec (vendor info) FLASH_MAN_INTEL) as [Hi|_]; [|by eapply Hwr].
    by eapply Hwr; [|rw Hi; intros H%(bool_decide_pack _)].
Qed.

Lemma wp_get_size base info man dev x y idt ops i0 h0 st (Q : Z * flash_info_t → norst → Prop) :
  0 < base → base + WINDOW ≤ 2 ^ 32 → arrays_ok info → chip_at base Ready ops i0 h0 st →
  answers base man dev x y → is_model bit man dev (third_code x y) idt → base + idt.2 ≤ 2 ^ 32 →
  (∀ info' s st', ident info' = idt → laid base info' → chip_at base s ops i0 h0 st' →
     (vendor info' ∈ jedec_vendors bit → s = Ready) → Q (idt.2, info') st') →
  wp (nor_get_size base info) Q st.
Proof.
  intros Hb Ht Ha Hst Hans Hmod Hfit HQ.
  destruct (identify_model _ _ _ _ _ info Hmod Ha) as (info1 & Hid & Ha1 & Hident & Hkn & Hlaid).
  specialize (Hlaid base Hb Hfit). set (info2 := flash_get_offsets bit base info1) in *.
  assert (ident info2 = idt) as Hid2 by by rw ident_offsets.
  assert (fi_size info2 = idt.2) as Hsz by by rw -Hid2.
  assert (∀ k, 0 ≤ k < 16 → in_chip base WINDOW (at_idx p base k) = true) as Hin.
  { intros k Hk. rw /at_idx /in_chip /WINDOW in Ht |- *. destruct port_cases as [-> | ->]; rw u32_small /=; lia. }
  assert (∀ Q' st1, chip_at base AutoSelect ops i0 h0 st1 →
    (∀ s st', chip_at base s ops i0 h0 st' → (vendor info2 ∈ jedec_vendors bit → s = Ready) → Q' tt st') →
    wp (match bit with BOOT_TYPE_8BIT => flash_reset_8b info2 | BOOT_TYPE_16BIT => flash_reset_16b info2 end) Q' st1) as Hres.
  { intros Q' st1 Hst1 HQ'. by eapply wp_flash_reset. }
  assert (∀ st1, chip_at base AutoSelect ops i0 h0 st1 → (chip_run p base WINDOW (n_hist st1)).1 = AutoSelect) as Hauto.
  { by intros st1 [[-> _] _]. }
  pose proof (λ Q, wp_auto_select base ops i0 h0 Q st Hb Ht Hst) as Hsel.
  pose proof (λ a Q st1, wp_rd_at base a ops i0 h0 Q st1) as Hrd.
  rw /nor_get_size. rw /answers in Hans. destruct bit; rw /identify in Hid; cbn [port_of] in Hans.
  - rw /nor_flash_get_size_8b. wp_step. apply Hsel. intros st1 Hst1.
    wp_step. eapply Hrd; [done|by apply Hin|]. intros st2 Hst2.
    wp_step. eapply Hrd; [done|by apply Hin|]. intros st3 Hst3.
    wp_step. eapply Hrd; [done|by apply Hin|].
    destruct (Hans _ (Hauto _ Hst3)) as (-> & _ & _). intros st4 Hst4.
    destruct (fi_flash_id (set_vendor_8b (Z.land man 255) info) =? FLASH_UNKNOWN) eqn:Hu.
    { injection Hid as <-. lia. }
    do 2 wp_step. eapply Hrd; [done|by apply Hin|].
    destruct (Hans _ (Hauto _ Hst4)) as (_ & -> & _). intros st5 Hst5. apply wp_ret. rw Hid.
    wp_step. apply Hres; [done|]. intros s st6 Hst6 Hs. apply wp_ret. rw -[flash_get_offsets_8b _ _]/info2 Hsz. by eapply HQ.
  - rw /nor_flash_get_size_16b. wp_step. apply Hsel. intros st1 Hst1.
    wp_step. eapply Hrd; [done|by apply Hin|]. intros st2 Hst2.
    wp_step. eapply Hrd; [done|by apply Hin|]. intros st3 Hst3.
    wp_step. eapply Hrd; [done|by apply Hin|].
    destruct (Hans _ (Hauto _ Hst3)) as (_ & _ & Hxy). destruct (Hxy eq_refl) as [-> _]. clear Hxy. intros st4 Hst4.
    wp_step. eapply Hrd; [done|by apply Hin|].
    destruct (Hans _ (Hauto _ Hst4)) as (_ & _ & Hxy). destruct (Hxy eq_refl) as [_ ->]. clear Hxy. intros st5 Hst5.
    wp_step. eapply Hrd; [done|by apply Hin|].
    destruct (Hans _ (Hauto _ Hst5)) as (-> & _ & _). intros st6 Hst6.
    destruct (fi_flash_id (set_vendor_16b (Z.land man 255) info) =? FLASH_UNKNOWN) eqn:Hu.
    { injection Hid as <-. lia. }
    do 2 wp_step. eapply Hrd; [done|by apply Hin|].
    destruct (Hans _ (Hauto _ Hst6)) as (_ & -> & _). intros st7 Hst7. apply wp_ret. rw -/(third_code x y) Hid.
    wp_step. apply Hres; [done|]. intros s st8 Hst8 Hs. apply wp_ret. rw -[flash_get_offsets_16b _ _]/info2 Hsz. by eapply HQ.
Qed.

(** *** The four banks *)

Context (man dev x y : nat → Z) (idt : nat → Z * Z * Z) (ops : nat → list chip_op).

(** The chip in bank [i] is of a known model that fits its window. *)
Definition chips_known : Prop := ∀ i base, CFG_NOR_FLASH_BASE !! i = Some base →
  answers base (man i) (dev i) (x i) (y i) ∧
  is_model bit (man i) (dev i) (third_code (x i) (y i)) (idt i) ∧ (idt i).2 ≤ WINDOW.
Context (Hchips : chips_known).

Definition bank_found (i : nat) (base : Z) (st : norst) : Prop := ∃ info,
  n_info st !! i = Some info ∧ ident info = idt i ∧ laid base info ∧
  (vendor info ∈ jedec_vendors bit → chip_run p base WINDOW (n_hist st) = (Ready, ops i)).

(** After the first [m] banks. *)
Record banks_upto (m : nat) (st : norst) : Prop := {
  bu_length : length (n_info st) = 4%nat;
  bu_arrays : Forall arrays_ok (n_info st);
  bu_done i base : CFG_NOR_FLASH_BASE !! i = Some base → (i < m)%nat → bank_found i base st;
  bu_todo i base : CFG_NOR_FLASH_BASE !! i = Some base → (m ≤ i)%nat →
    chip_run p base WINDOW (n_hist st) = (Ready, ops i)
}.

Lemma bank_base i base :
  CFG_NOR_FLASH_BASE !! i = Some base → base = 0xFE000000 + Z.of_nat i * WINDOW ∧ (i < 4)%nat.
Proof. intros H. do 4 (destruct i as [|i]; [injection H as <-; split; [reflexivity|lia]|]). done. Qed.

Lemma bases_apart i j base base' :
  CFG_NOR_FLASH_BASE !! i = Some base → CFG_NOR_FLASH_BASE !! j = Some base' → i ≠ j →
  base + WINDOW ≤ base' ∨ base' + WINDOW ≤ base.
Proof. intros [-> _]%bank_base [-> _]%bank_base Hne. rw /WINDOW. lia. Qed.

Lemma init_step m base size st :
  CFG_NOR_FLASH_BASE !! m = Some base → banks_upto m st →
  wp (nor_init_bank nor_get_size m base size)
    (λ size' st', size' = u32 (size + (idt m).2) ∧ banks_upto (S m) st') st.
Proof.
  intros Hm [Hlen Harr Hdone Htodo]. destruct (bank_base _ _ Hm) as [Hbase Hlt].
  destruct (Hchips _ _ Hm) as (Hans & Hmod & Hfit). rw /WINDOW in Hbase Hfit.
  destruct (lookup_lt_is_Some_2 (n_info st) m) as [info Hi]; [lia|].
  assert (arrays_ok info) as Ha by by (eapply Forall_lookup_1 in Harr; [|done]).
  rw /nor_init_bank. wp_step. apply wp_get. rw Hi. wp_step.
  eapply (wp_get_size _ _ _ _ _ _ _ (ops m) (n_info st) (n_hist st));
    [lia|rw /WINDOW; lia|done| |done|done|lia|].
  { split; [split; [by apply Htodo|done]|]. exists []. by rw app_nil_r. }
  intros info' s st1 Hid Hlaid [[Hrun Hinfo] (evs & Hh & Hev)] Hready. cbn beta iota.
  wp_step. apply wp_modify, wp_ret. split; [done|].
  assert (set_size info' (idt m).2 = info') as ->.
  { rw -Hid. by destruct info'. }
  assert (∀ i base', CFG_NOR_FLASH_BASE !! i = Some base' → i ≠ m →
    chip_run p base' WINDOW (n_hist st1) = chip_run p base' WINDOW (n_hist st)) as Hframe.
  { intros i base' Hi' Hne. rw Hh. eapply run_frame; [done|]. by eapply bases_apart; [| |apply not_eq_sym]. }
  split; simpl; rw ?Hinfo.
  - by rw length_insert.
  - apply Forall_insert; [done|apply Hlaid].
  - intros i base' Hi' Hlt'. destruct (decide (i = m)) as [->|Hne].
    + rw Hm in Hi'. injection Hi' as <-. exists info'. simpl. rw ?Hinfo list_lookup_insert_eq; [lia|].
      split_and!; [done|done|done|]. intros Hv. by rw Hrun (Hready Hv).
    + destruct (Hdone i base' Hi' ltac:(lia)) as (info2 & H1 & H2 & H3 & H4). exists info2. simpl.
      rw ?Hinfo list_lookup_insert_ne //. split_and!; [done|done|done|]. intros Hv. by rw (Hframe i) // H4.
  - intros i base' Hi' Hge. rw (Hframe i) //; [lia|]. apply Htodo; [done|lia].
Qed.

Lemma wp_nor_init setup val st :
  Z.land (Z.shiftr val 1) 3 = 2 → banks_upto 0 st →
  (∀ st' (Q : unit → norst → Prop), banks_upto 0 st' → (∀ st'', banks_upto 0 st'' → Q tt st'') → wp setup Q st') →
  wp (nor_init nor_get_size setup val) (λ size st',
    size = u32 (u32 (u32 (u32 (0 + (idt 0).2) + (idt 1).2) + (idt 2).2) + (idt 3).2) ∧ banks_upto 4 st') st.
Proof.
  intros Hval Hst Hset. rw /nor_init Hval. cbn [Z.eqb Pos.eqb negb]. wp_step. apply Hset; [done|].
  intros st0 Hst0. change (imap pair CFG_NOR_FLASH_BASE) with
    [(0%nat, 0xFE000000); (1%nat, 0xFE800000); (2%nat, 0xFF000000); (3%nat, 0xFF800000)].
  cbn [for_fold].
  wp_step. eapply wp_mono; [by apply init_step|]. intros s1 st1 [-> H1].
  wp_step. eapply wp_mono; [by apply init_step|]. intros s2 st2 [-> H2].
  wp_step. eapply wp_mono; [by apply init_step|]. intros s3 st3 [-> H3].
  wp_step. eapply wp_mono; [by apply init_step|]. intros s4 st4 [-> H4]. by apply wp_ret.
Qed.

End init.

(** ** The drivers on a bank with the AMD command set *)

Definition erase_types (bit : BOOT_BIT_TYPE) : list Z :=
  match bit with BOOT_TYPE_8BIT => erase_types_8b | BOOT_TYPE_16BIT => erase_types_16b end.

Record jedec_bank (bit : BOOT_BIT_TYPE) (info : flash_info_t) : Prop := {
  jb_ok : bank_ok info;
  jb_vendor : vendor info ∈ jedec_vendors bit;
  jb_type : chip_type info ∈ erase_types bit;
  jb_size : 0x1000 ≤ fi_size info;
  jb_even : starts info 0 mod 2 = 0 ∧ fi_size info mod 2 = 0
}.

Abbreviation bank_run bit info := (chip_run (port_of bit) (starts info 0) (fi_size info)).
Abbreviation bank_mem bit info := (contents (port_of bit) (starts info 0) (fi_size info)).

Section bank.
Context {shw : SfHw} {hw : NorHw} (bit : BOOT_BIT_TYPE) (info : flash_info_t) (Hbank : jedec_bank bit info).
Context (n : nat) {timer : NorTimer n}.
Abbreviation p := (port_of bit).

Lemma jb_window : 0 < starts info 0 ∧ 0x1000 ≤ fi_size info ∧ starts info 0 + fi_size info ≤ 2 ^ 32.
Proof.
  destruct Hbank as [Hok _ _ Hs _]. pose proof (bo_start _ Hok). pose proof (bo_top _ Hok). done.
Qed.

Lemma jb_aligned : starts info 0 mod fpw_size p = 0 ∧ fi_size info mod fpw_size p = 0.
Proof. destruct bit; [by rw !Z.mod_1_r|apply Hbank]. Qed.

Lemma jb_not_intel : vendor info ≠ FLASH_MAN_INTEL.
Proof. intros He. pose proof (jb_vendor _ _ Hbank) as Hv. rw He in Hv. destruct bit; by apply (bool_decide_pack _) in Hv. Qed.

Lemma jb_write_word dest f :
  is_byte (f 0) → is_byte (f 1) →
  (match bit with BOOT_TYPE_8BIT => write_word_8b n info | BOOT_TYPE_16BIT => write_word_16b n info end)
    dest (be_word p f) = write_word_eon n p info dest (le_word p f).
Proof.
  intros H0 H1. pose proof (jb_vendor _ _ Hbank) as Hv.
  destruct bit; rw /jedec_vendors /jedec_vendors_8b /jedec_vendors_16b !elem_of_cons elem_of_nil in Hv.
  - rw /write_word_8b. destruct Hv as [-> |[-> |[]]]; reflexivity.
  - rw /write_word_16b /be_word /le_word. cbn [fpw_size port_of port16 Z.eqb Pos.eqb]. rw swab16_word //.
    destruct Hv as [-> |[-> |[-> |[]]]]; reflexivity.
Qed.

Lemma jb_ports : p = port8 ∨ p = port16.
Proof. destruct bit; [by left|by right]. Qed.

Lemma wp_write_buff_nor b src addr cnt same mem0 ops :
  NorChip p (starts info 0) (fi_size info) same mem0 →
  b_type b = NOR_FLASH_TYPE → b_nor_bit b = bit → bank_run bit info (n_hist (b_nor b)) = (Ready, ops) →
  starts info 0 ≤ addr → addr + cnt ≤ bank_top info → 0 ≤ cnt < 2 ^ 31 →
  Forall is_byte src → cnt ≤ Z.of_nat (length src) →
  wp (write_buff n info src addr cnt) (λ rc b', ∃ st', b' = set_nor b st' ∧
    write_result p (starts info 0) (fi_size info) same mem0 addr src cnt
      (bank_mem bit info same mem0 (n_hist (b_nor b))) (n_info (b_nor b)) rc st') b.
Proof.
  intros Hchip Ht Hbit Hrun Hlo Hhi Hcnt Hsrc Hlen. rw /write_buff. wp_step. apply wp_get. rw Ht Hbit.
  pose proof (wp_nor_write_buff p (starts info 0) (fi_size info) same mem0 n jb_ports jb_window info
    (bo_arrays _ (jb_ok _ _ Hbank)) eq_refl jb_aligned _ jb_write_word addr cnt src
    (bank_mem bit info same mem0 (n_hist (b_nor b))) (n_info (b_nor b)) (conj Hlo Hhi) Hsrc Hlen
    ops (b_nor b) (conj Hrun eq_refl) (λ _, eq_refl) Hcnt) as Hw.
  destruct bit; apply wp_zoom; (eapply wp_mono; [exact Hw|]); intros rc st' Hres; by exists st'.
Qed.

Lemma jb_in_chip s : 0 ≤ s < fi_sector_count info → in_chip (starts info 0) (fi_size info) (starts info s) = true.
Proof.
  intros Hs. pose proof (sector_bounds (jb_ok _ _ Hbank) s Hs). rw /in_chip. rw /bank_top in H. lia.
Qed.

Lemma wp_flash_erase_nor b f l ops :
  b_type b = NOR_FLASH_TYPE → b_nor_bit b = bit → bank_run bit info (n_hist (b_nor b)) = (Ready, ops) →
  0 ≤ f ≤ l → l < fi_sector_count info →
  wp (flash_erase n info f l) (λ rc b', ∃ st', b' = set_nor b st' ∧
    erase_result p (starts info 0) (fi_size info) info f l ops (n_info (b_nor b)) rc st') b.
Proof.
  intros Ht Hbit Hrun Hf Hl. rw /flash_erase. wp_step. apply wp_get. rw Ht Hbit.
  pose proof (jb_ok _ _ Hbank) as Hok. pose proof (bo_arrays _ Hok) as Harr. pose proof (bo_count _ Hok).
  pose proof (λ reset Hreset, wp_nor_erase p (starts info 0) (fi_size info) n jb_ports jb_window info Harr eq_refl
    reset (erase_types bit) jb_not_intel (jb_type _ _ Hbank) Hreset f l ops (n_info (b_nor b)) (b_nor b)
    (conj Hrun eq_refl) Hf ltac:(lia) (λ s Hs, jb_in_chip s ltac:(lia))) as Hw.
  pose proof jb_window as Hwin. pose proof (jb_vendor _ _ Hbank) as Hv.
  destruct bit; apply wp_zoom; (eapply wp_mono; [eapply Hw|intros rc st' Hres; by exists st']).
  - intros s ops' i0 st Q Hst Hwr HQ. by eapply wp_reset_8b.
  - intros s ops' i0 st Q Hst Hwr HQ. by eapply wp_reset_16b.
Qed.

End bank.

(** ** [flash_init] on NOR flash *)

Section flash_init.
Context {shw : SfHw} {hw : NorHw}.

(** Registers outside the chips. *)
Definition same_chips (st st' : norst) : Prop :=
  n_info st' = n_info st ∧ ∀ p base size, chip_run p base size (n_hist st') = chip_run p base size (n_hist st).
Definition no_chip_access {A} (m : M norst A) : Prop := ∀ st, wp m (λ _ st', same_chips st st') st.

Lemma no_chip_bind {A B} (m : M norst A) (k : A → M norst B) :
  no_chip_access m → (∀ a, no_chip_access (k a)) → no_chip_access (bind m k).
Proof.
  intros Hm Hk st. wp_step. eapply wp_mono; [apply Hm|]. intros a st1 [Hi1 Hr1].
  eapply wp_mono; [apply Hk|]. intros c st2 [Hi2 Hr2]. split; [congruence|]. intros p base size. by rw Hr2.
Qed.

Lemma no_chip_io_wr a v : no_chip_access (io_wr a v).
Proof. intros st. apply wp_modify. split; [done|]. intros p base size. by rw /= run_snoc. Qed.

Lemma no_chip_io_rd a : no_chip_access (io_rd a).
Proof. intros st. split; [done|]. intros p base size. by rw /= run_snoc. Qed.

Lemma no_chip_windows : no_chip_access nor_windows.
Proof. repeat (apply no_chip_bind; [|intros _]); apply no_chip_io_wr. Qed.

Lemma no_chip_timing reg : no_chip_access (nor_timing reg).
Proof.
  repeat (apply no_chip_bind; [apply no_chip_io_rd || apply no_chip_io_wr|intros ?]). apply no_chip_io_wr.
Qed.

Context (bit : BOOT_BIT_TYPE) (man dev x y : nat → Z) (idt : nat → Z * Z * Z) (ops : nat → list chip_op).
Context (Hchips : chips_known bit man dev x y idt).

Lemma upto0_same st st' : same_chips st st' → banks_upto bit idt ops 0 st → banks_upto bit idt ops 0 st'.
Proof.
  intros [Hi Hr] [H1 H2 H3 H4]. split; rw ?Hi //; [intros; lia|]. intros i base Hb Hm. rw Hr. by apply H4.
Qed.

Definition nor_flash_init (val : Z) : M norst Z :=
  match bit with BOOT_TYPE_8BIT => nor_flash_8b_init val | BOOT_TYPE_16BIT => nor_flash_16b_init val end.

Lemma wp_nor_flash_init val st :
  Z.land (Z.shiftr val 1) 3 = 2 → banks_upto bit idt ops 0 st →
  wp (nor_flash_init val) (λ _ st', banks_upto bit idt ops 4 st') st.
Proof.
  intros Hval Hst.
  assert (∀ setup, no_chip_access setup →
    wp (nor_init (nor_get_size bit) setup val) (λ _ st', banks_upto bit idt ops 4 st') st) as Hinit.
  { intros setup Hs. eapply wp_mono; [eapply wp_nor_init; [done|done|done|]|by intros ? ? [_ ?]].
    intros st1 Q Hst1 HQ. eapply wp_mono; [apply Hs|]. intros [] st2 Hsame. by eapply HQ, upto0_same. }
  rw /nor_flash_init. destruct bit; apply Hinit; [apply no_chip_windows|].
  apply no_chip_bind; [apply no_chip_windows|intros _].
  repeat (apply no_chip_bind; [apply no_chip_timing|intros _]). apply no_chip_timing.
Qed.

End flash_init.

(** ** The board after [flash_init] *)

(** What the models of the table are like, when they fit the window. *)
Lemma model_bank bit man dev d idt info base :
  is_model bit man dev d idt → idt.2 ≤ WINDOW → ident info = idt → laid base info → base mod 2 = 0 →
  known info ∧ fi_size info ≤ WINDOW ∧
  (vendor info ≠ FLASH_MAN_INTEL → jedec_bank bit info ∧ fi_size info = WINDOW).
Proof.
  intros (o & Hin & _) Hfit Hid (Ha & Hok & H0 & _) Hev. destruct info as [size count id start protect].
  rw /ident /= in Hid. subst idt. rw /known /vendor /WINDOW /= in Hfit |- *.
  assert (id ≠ FLASH_UNKNOWN ∧ (Z.land id FLASH_VENDMASK ≠ FLASH_MAN_INTEL →
    Z.land id FLASH_VENDMASK ∈ jedec_vendors bit ∧ Z.land id FLASH_TYPEMASK ∈ erase_types bit ∧ size = 0x800000))
    as [Hk Hj].
  { destruct bit; rw /chips /chips_8b /chips_16b in Hin.
    all: repeat (apply elem_of_cons in Hin as [[= ? ? ? -> ? ->]|Hin];
      [lia || (split; [done|]; intros Hv; (by destruct Hv) ||
         (split; [|split; [|done]]; apply (bool_decide_unpack _); vm_compute; exact I))|]).
    all: by apply elem_of_nil in Hin. }
  split; [done|]. split; [done|]. intros Hv. destruct (Hj Hv) as (H1 & H2 & ->).
  split; [|done]. split; [done|done|done|done|by rw H0].
Qed.

(** Bank [i] of the table after [flash_init]: the chip that was found, laid out from its
    base on; a chip with the AMD command set fills its window and is ready. *)
Definition nor_bank (bit : BOOT_BIT_TYPE) (idt : Z * Z * Z) (ops : list chip_op) (base : Z)
    (h : list bus_event) (info : flash_info_t) : Prop :=
  ident info = idt ∧ laid base info ∧ known info ∧ fi_size info ≤ WINDOW ∧
  (vendor info ≠ FLASH_MAN_INTEL →
     jedec_bank bit info ∧ fi_size info = WINDOW ∧ bank_run bit info h = (Ready, ops)).

Record nor_booted (bit : BOOT_BIT_TYPE) (idt : nat → Z * Z * Z) (ops : nat → list chip_op) (b : board) : Prop := {
  nb_type : b_type b = NOR_FLASH_TYPE;
  nb_bit : b_nor_bit b = bit;
  nb_board : board_ok b;
  nb_bank i base : CFG_NOR_FLASH_BASE !! i = Some base →
    ∃ info, b_info b !! i = Some info ∧ nor_bank bit (idt i) (ops i) base (n_hist (b_nor b)) info
}.

(** The chips before [flash_init]: ready, with the table of the NOR driver in place. *)
Definition nor_idle (bit : BOOT_BIT_TYPE) (ops : nat → list chip_op) (b : board) : Prop :=
  length (n_info (b_nor b)) = CFG_MAX_FLASH_BANKS ∧ Forall arrays_ok (n_info (b_nor b)) ∧
  ∀ i base, CFG_NOR_FLASH_BASE !! i = Some base →
    chip_run (port_of bit) base WINDOW (n_hist (b_nor b)) = (Ready, ops i).

Section booted.
Context {shw : SfHw} {hw : NorHw} (bit : BOOT_BIT_TYPE) (idt : nat → Z * Z * Z) (ops : nat → list chip_op).

Lemma bank_exists i : (i < 4)%nat → ∃ base, CFG_NOR_FLASH_BASE !! i = Some base ∧ base mod 2 = 0.
Proof. intros Hi. do 4 (destruct i as [|i]; [by eexists|]). lia. Qed.

Lemma upto4_booted man dev x y b st :
  chips_known bit man dev x y idt → banks_upto bit idt ops 4 st →
  b_type b = NOR_FLASH_TYPE → b_nor_bit b = bit → b_nor b = st → b_info b = n_info st → nor_booted bit idt ops b.
Proof.
  intros Hch [Hlen Harr Hfound _] Ht Hb Hst Hinfo.
  assert (∀ i base, CFG_NOR_FLASH_BASE !! i = Some base →
    ∃ info, b_info b !! i = Some info ∧ nor_bank bit (idt i) (ops i) base (n_hist (b_nor b)) info) as Hbank.
  { intros i base Hi. destruct (bank_base _ _ Hi) as [Hbase Hlt].
    destruct (Hfound i base Hi Hlt) as (info & Hl & Hid & Hlaid & Hrun).
    destruct (Hch i base Hi) as (_ & Hmod & Hfit).
    assert (base mod 2 = 0) as Hev by (rw Hbase /WINDOW; Z.div_mod_to_equations; lia).
    destruct (model_bank _ _ _ _ _ _ _ Hmod Hfit Hid Hlaid Hev) as (Hk & Hsz & Hj).
    exists info. rw Hinfo Hst. split; [done|]. split_and!; [done|done|done|done|].
    intros Hv. destruct (Hj Hv) as [Hjb Hw]. split_and!; [done|done|].
    rw Hw (proj1 (proj2 (proj2 Hlaid))). apply Hrun. by apply Hjb. }
  split; [done|done| |done]. split; rw ?Hinfo //.
  apply Forall_lookup_2. intros i info Hi Hk. pose proof (lookup_lt_Some _ _ _ Hi) as Hlt.
  destruct (bank_exists i) as (base & Hb' & _); [lia|]. destruct (Hbank i base Hb') as (info' & Hi' & _ & Hl & _).
  rw Hinfo Hi in Hi'. injection Hi' as <-. apply Hl.
Qed.

End booted.

Lemma wp_flash_init_nor {shw : SfHw} {hw : NorHw} n val man dev x y idt ops b :
  Z.land (Z.shiftr val 1) 3 = 2 →
  chips_known (get_boot_nor_flash_bit_type val) man dev x y idt → nor_idle (get_boot_nor_flash_bit_type val) ops b →
  wp (flash_init n 0x3445 val) (λ _ b', nor_booted (get_boot_nor_flash_bit_type val) idt ops b') b.
Proof.
  set (bit := get_boot_nor_flash_bit_type val). intros Hval Hch (Hlen & Harr & Hready). rw /flash_init.
  assert (get_boot_flash_type 0x3445 val = NOR_FLASH_TYPE) as -> by by rw /get_boot_flash_type Hval.
  wp_step. apply wp_modify. wp_step. apply wp_modify. cbn [b_nor set_types set_info].
  wp_step. eapply (wp_mono _ (λ _ b', ∃ st', banks_upto bit idt ops 4 st' ∧
    b_nor b' = st' ∧ b_type b' = NOR_FLASH_TYPE ∧ b_nor_bit b' = bit)).
  { pose proof (wp_nor_flash_init bit man dev x y idt ops Hch val (b_nor b) Hval) as Hw.
    fold bit. rw /nor_flash_init in Hw.
    destruct bit eqn:Hbit; apply wp_zoom; (eapply wp_mono; [apply Hw; by split; [..|intros; lia|intros; by apply Hready]|]);
      intros rc st' Hst'; by exists st'. }
  intros rc b' (st' & Hst' & Hn & Ht & Hb). wp_step. apply wp_get. wp_step. apply wp_modify, wp_ret.
  eapply upto4_booted; [done|exact Hst'|done|done|done|]. destruct Hst' as [Hlen' _ _ _]. simpl. rw Hn.
  rw take_app_length' //.
Qed.

(** ** Updating a booted board *)

(** The chip's sectors are those of the table. *)
Definition geometry (same : Z → Z → bool) (info : flash_info_t) : Prop :=
  ∀ s x, 0 ≤ s < fi_sector_count info →
    same (starts info s) x = bool_decide (starts info s ≤ x ≤ send info s).
Definition unprotected (info : flash_info_t) (i j : Z) : Prop :=
  ∀ s, i ≤ s ≤ j → arr_at (fi_protect info) s = 0.

Section update.
Context {shw : SfHw} {hw : NorHw} (bit : BOOT_BIT_TYPE) (idt : nat → Z * Z * Z) (ops : nat → list chip_op).

Lemma booted_bank b k info :
  nor_booted bit idt ops b → b_info b !! k = Some info →
  ∃ base, CFG_NOR_FLASH_BASE !! k = Some base ∧ nor_bank bit (idt k) (ops k) base (n_hist (b_nor b)) info.
Proof.
  intros Hb Hk. pose proof (bd_len _ (nb_board _ _ _ _ Hb)) as Hlen. rw /CFG_MAX_FLASH_BANKS in Hlen.
  pose proof (lookup_lt_Some _ _ _ Hk) as Hlt.
  destruct (bank_exists k) as (base & Hbase & _); [lia|]. exists base. split; [done|].
  destruct (nb_bank _ _ _ _ Hb k base Hbase) as (info' & Hk' & Hn). rw Hk in Hk'. by injection Hk' as <-.
Qed.

Lemma booted_apart b k info k' info' z :
  nor_booted bit idt ops b → b_info b !! k = Some info → b_info b !! k' = Some info' → k' ≠ k →
  starts info 0 ≤ z < bank_top info → outside z info'.
Proof.
  intros Hb Hk Hk' Hne Hz _.
  destruct (booted_bank _ _ _ Hb Hk) as (base & Hbase & _ & (_ & _ & H0 & _) & _ & Hsz & _).
  destruct (booted_bank _ _ _ Hb Hk') as (base' & Hbase' & _ & (_ & _ & H0' & _) & _ & Hsz' & _).
  pose proof (bases_apart _ _ _ _ Hbase' Hbase Hne). rw /bank_top H0 H0' in Hz |- *. lia.
Qed.

Lemma booted_run_of b k info i j :
  nor_booted bit idt ops b → b_info b !! k = Some info → 0 ≤ i ≤ j → j < fi_sector_count info →
  run_of (b_info b) k info i j.
Proof.
  intros Hb Hk Hij Hj. destruct (booted_bank _ _ _ Hb Hk) as (base & _ & _ & (_ & Hok & _) & Hkn & _).
  split; [done|done|apply Hb|done|]. intros k' info' Hk' Hne.
  pose proof (sector_bounds Hok i ltac:(lia)). pose proof (sector_bounds Hok j ltac:(lia)).
  split; (eapply booted_apart; [exact Hb|exact Hk|exact Hk'|done|lia]).
Qed.

Lemma booted_write_in b k info addr cnt :
  nor_booted bit idt ops b → b_info b !! k = Some info → 0 < cnt →
  starts info 0 ≤ addr → addr + cnt ≤ bank_top info → write_in b k info addr cnt.
Proof.
  intros Hb Hk Hc Hlo Hhi. destruct (booted_bank _ _ _ Hb Hk) as (base & Hbase & _ & (_ & _ & H0 & _) & Hkn & _).
  destruct (bank_base _ _ Hbase) as [Hbe _].
  split; [apply Hb|done|done|rw H0 Hbe /WINDOW; lia|done|done|done|].
  intros m info' z Hm Hi Hz. eapply booted_apart; [done|exact Hk|done|lia|lia].
Qed.

Lemma contents_ops p base size same mem0 h s ops' :
  chip_run p base size h = (s, ops') → contents p base size same mem0 h = fold_left (apply_op p same) ops' mem0.
Proof. by rw /contents => ->. Qed.

(** The contents after the erase of the sectors from [i] to before [k]. *)
Lemma erased_contents p same mem0 info ops' i k z :
  bank_ok info → geometry same info → unprotected info i (k - 1) → 0 ≤ i ≤ k → k ≤ fi_sector_count info →
  fold_left (apply_op p same) (ops' ++ (SectorErase <$> nor_sectors info i k)) mem0 z =
  if decide (i < k ∧ starts info i ≤ z ≤ send info (k - 1)) then 0xFF
  else fold_left (apply_op p same) ops' mem0 z.
Proof.
  intros Hok Hgeo Hun Hik Hk.
  assert (∃ m : nat, k = i + Z.of_nat m) as [m ->] by (exists (Z.to_nat (k - i)); lia).
  induction m as [|m IH].
  { rw /nor_sectors Z.add_0_r Z.sub_diag app_nil_r decide_False //. lia. }
  replace (i + Z.of_nat (S m)) with (i + Z.of_nat m + 1) in * by lia. set (q := i + Z.of_nat m) in *.
  replace (q + 1 - 1) with q in * by lia.
  rw nor_sectors_snoc; [lia|]. rw decide_True; [apply Hun; lia|].
  specialize (IH ltac:(lia) ltac:(lia) ltac:(intros s Hs; apply Hun; lia)).
  rw fmap_app app_assoc fold_left_app /= IH.
  rw Hgeo; [lia|]. pose proof (sector_bounds Hok q ltac:(lia)).
  pose proof (starts_mono Hok i q ltac:(lia) ltac:(lia)).
  destruct (bool_decide_reflect (starts info q ≤ z ≤ send info q)) as [Hz|Hz].
  { rw decide_True //. lia. }
  assert (i < q → send info (q - 1) = starts info q - 1) as Hs.
  { intros Hlt. rw /send (proj2 (Z.eqb_neq _ _)); [lia|]. f_equal. f_equal. lia. }
  destruct (decide (i < q ∧ _)) as [[H1 H2]|H1]; destruct (decide (i < q + 1 ∧ _)) as [[H3 H4]|H3]; try done; exfalso.
  - apply H3. specialize (Hs H1). lia.
  - destruct (decide (i = q)) as [Heq|Hne]; [rw Heq in H4; lia|]. apply H1. specialize (Hs ltac:(lia)). lia.
Qed.

Context (n : nat) {timer : NorTimer n} (b : board) (k : nat) (info : flash_info_t).
Context (Hboot : nor_booted bit idt ops b) (Hk : b_info b !! k = Some info).
Context (Hjedec : vendor info ≠ FLASH_MAN_INTEL) (same : Z → Z → bool) (mem0 : Z → Z).
Context {chip : NorChip (port_of bit) (starts info 0) (fi_size info) same mem0}.

Lemma booted_jedec :
  jedec_bank bit info ∧ fi_size info = WINDOW ∧ bank_run bit info (n_hist (b_nor b)) = (Ready, ops k).
Proof. destruct (booted_bank _ _ _ Hboot Hk) as (base & _ & _ & _ & _ & _ & H). by apply H. Qed.

(** A write to a board that differs from [b] in what was done to its chips. *)
Lemma wp_flash_write_nor st ops' src addr cnt :
  bank_run bit info (n_hist st) = (Ready, ops') → n_info st = n_info (b_nor b) →
  0 < cnt → starts info 0 ≤ addr → addr + cnt ≤ bank_top info → Forall is_byte src → cnt ≤ Z.of_nat (length src) →
  wp (flash_write n src addr cnt) (λ rc b',
    if decide (hit_by info addr (addr + cnt - 1)) then rc = ERR_PROTECTED ∧ b' = set_nor b st
    else ∃ st', b' = set_nor b st' ∧
      write_result (port_of bit) (starts info 0) (fi_size info) same mem0 addr src cnt
        (bank_mem bit info same mem0 (n_hist st)) (n_info (b_nor b)) rc st') (set_nor b st).
Proof.
  intros Hrun Hi Hc Hlo Hhi Hsrc Hlen. destruct booted_jedec as (Hjb & Hsz & _).
  eapply wp_flash_write_one.
  { pose proof (booted_write_in _ _ _ addr cnt Hboot Hk Hc Hlo Hhi) as [[H1 H2 H3] H4 H5 H6 H7 H8 H9 H10].
    by split. }
  rw -Hi. eapply wp_mono; [eapply (wp_write_buff_nor bit info Hjb n (set_nor b st)); try done|].
  - apply Hboot.
  - apply Hboot.
  - rw /bank_top Hsz /WINDOW in Hhi. lia.
  - by intros rc b' (st' & -> & Hres); exists st'.
Qed.

Lemma wp_flash_sect_erase_nor i j :
  0 ≤ i ≤ j → j < fi_sector_count info →
  wp (flash_sect_erase n (starts info i) (send info j)) (λ rc b', ∃ st', b' = set_nor b st' ∧
    erase_result (port_of bit) (starts info 0) (fi_size info) info i j (ops k) (n_info (b_nor b)) rc st') b.
Proof.
  intros Hij Hj. destruct booted_jedec as (Hjb & Hsz & Hrun).
  eapply wp_flash_sect_erase_one; [by eapply booted_run_of|].
  eapply wp_mono; [by eapply (wp_flash_erase_nor bit info Hjb n b); [apply Hboot..|done| |]|].
  intros rc b' (st' & -> & Hres). split; [done|]. by exists st'.
Qed.

Lemma wp_nor_erased i j :
  geometry same info → 0 ≤ i ≤ j → j < fi_sector_count info → unprotected info i j →
  wp (flash_sect_erase n (starts info i) (send info j)) (λ rc b', ∃ st' ops', b' = set_nor b st' ∧
    bank_run bit info (n_hist st') = (Ready, ops') ∧ n_info st' = n_info (b_nor b) ∧
    (rc = 0 ∨ rc = 1 ∧ slow (port_of bit) (starts info 0) (fi_size info)) ∧
    ∀ z, if decide (starts info i ≤ z ≤ send info j) then rc = 0 → bank_mem bit info same mem0 (n_hist st') z = 0xFF
         else bank_mem bit info same mem0 (n_hist st') z = bank_mem bit info same mem0 (n_hist (b_nor b)) z) b.
Proof.
  intros Hgeo Hij Hj Hun. destruct booted_jedec as (Hjb & Hsz & Hrun). pose proof (jb_ok _ _ Hjb) as Hok.
  eapply wp_mono; [by eapply wp_flash_sect_erase_nor|].
  intros rc b1 (st1 & -> & q & Hq & [Hrun1 Hi1] & Hrc). eexists st1, _. split_and!; [done|exact Hrun1|done|tauto|].
  intros z. rw (contents_ops _ _ _ same mem0 _ _ _ Hrun) (contents_ops _ _ _ same mem0 _ _ _ Hrun1).
  rw erased_contents; [done|done|intros s Hs; apply Hun; lia|lia|lia|].
  destruct (decide (starts info i ≤ z ≤ send info j)) as [Hz|Hz].
  - intros ->. destruct Hrc as [[_ ->]|[? _]]; [|done]. rw decide_True //.
    replace (j + 1 - 1) with j by lia. lia.
  - rw decide_False //. intros [Hlt Hz']. apply Hz. split; [lia|].
    destruct (decide (q - 1 = j)) as [<- |Hne]; [lia|].
    pose proof (send_lt Hok (q - 1) j ltac:(lia) ltac:(lia)). pose proof (sector_bounds Hok j ltac:(lia)). lia.
Qed.

Lemma not_hit i j addr cnt :
  unprotected info i j → 0 ≤ i ≤ j → j < fi_sector_count info → starts info i ≤ addr →
  addr + cnt - 1 ≤ send info j → ¬ hit_by info addr (addr + cnt - 1).
Proof.
  intros Hun Hij Hj Hlo Hhi (s & Hs & Hp & H1 & H2 & _)%Exists_exists. apply elem_of_seqZ in Hs.
  destruct booted_jedec as ([Hok _ _ _ _] & _).
  destruct (decide (s < i)).
  { pose proof (send_lt Hok s i ltac:(lia) ltac:(lia)). lia. }
  destruct (decide (j < s)); [|by apply Hp, Hun; lia].
  pose proof (send_lt Hok j s ltac:(lia) ltac:(lia)). lia.
Qed.

End update.

(** C22: with the straps of a board that boots from NOR flash and four chips of
    known models, [flash_init] leaves in [flash_info] the four chips: each bank has
    the identification of its chip and starts at its window, and each of its sectors
    starts where the sector map of that model puts it (boot sectors at the bottom, at
    the top, or uniform sectors).  A chip with the AMD command set reads the array
    again; for the Intel chips this is not stated. *)
Theorem flash_init_nor {shw : SfHw} {hw : NorHw} n val man dev x y idt ops b :
  Z.land (Z.shiftr val 1) 3 = 2 →
  let bit := get_boot_nor_flash_bit_type val in
  chips_known bit man dev x y idt → nor_idle bit ops b →
  wp (flash_init n 0x3445 val) (λ _ b', nor_booted bit idt ops b') b.
Proof. intros Hval bit. by apply wp_flash_init_nor. Qed.

(** C23: on a board that [flash_init] found to boot from NOR flash, a [flash_write]
    inside a bank whose chip has the AMD command set is refused, with nothing
    changed, when it meets a protected sector that the check sees.  Otherwise it
    ends with the chip reading its array and returns: 0, with exactly the bytes of
    the range replaced by the source; 1, when the chip stayed busy with a word up to
    the timeout, with the bytes before the word stored and none behind it touched; or 2, with the bytes before a
    word stored, when a byte of that word needs a bit that is not erased. *)
Theorem flash_write_nor {shw : SfHw} {hw : NorHw} bit idt ops n b k info same mem0 src addr cnt :
  NorTimer n → nor_booted bit idt ops b → b_info b !! k = Some info → vendor info ≠ FLASH_MAN_INTEL →
  NorChip (port_of bit) (starts info 0) (fi_size info) same mem0 →
  0 < cnt → starts info 0 ≤ addr → addr + cnt ≤ bank_top info → Forall is_byte src → cnt ≤ Z.of_nat (length src) →
  wp (flash_write n src addr cnt) (λ rc b',
    if decide (hit_by info addr (addr + cnt - 1)) then rc = ERR_PROTECTED ∧ b' = b
    else ∃ st', b' = set_nor b st' ∧
      write_result (port_of bit) (starts info 0) (fi_size info) same mem0 addr src cnt
        (bank_mem bit info same mem0 (n_hist (b_nor b))) (n_info (b_nor b)) rc st') b.
Proof.
  intros Ht Hboot Hk Hj Hchip Hc Hlo Hhi Hsrc Hlen.
  destruct (booted_jedec _ _ _ _ _ _ Hboot Hk Hj) as (_ & _ & Hrun).
  pose proof (wp_flash_write_nor bit idt ops n b k info Hboot Hk Hj same mem0 (b_nor b) (ops k) src addr cnt
    Hrun eq_refl Hc Hlo Hhi Hsrc Hlen) as Hw.
  assert (set_nor b (b_nor b) = b) as Hb by by destruct b. by rw Hb in Hw.
Qed.

Lemma wp_nor_update {shw : SfHw} {hw : NorHw} bit idt ops n b k info same mem0 i j src addr cnt :
  NorTimer n → nor_booted bit idt ops b → b_info b !! k = Some info → vendor info ≠ FLASH_MAN_INTEL →
  NorChip (port_of bit) (starts info 0) (fi_size info) same mem0 → geometry same info →
  0 ≤ i ≤ j → j < fi_sector_count info → unprotected info i j →
  0 < cnt → starts info i ≤ addr → addr + cnt - 1 ≤ send info j →
  Forall is_byte src → cnt ≤ Z.of_nat (length src) →
  wp (let! rc := flash_sect_erase n (starts info i) (send info j) in
      if rc =? 0 then flash_write n src addr cnt else ret rc)
    (λ rc b', ∃ st', b' = set_nor b st' ∧ 
      (rc = 0 ∨ rc = 1 ∧ slow (port_of bit) (starts info 0) (fi_size info)) ∧ ∀ z,
      if decide (starts info i ≤ z ≤ send info j)
      then rc = 0 → bank_mem bit info same mem0 (n_hist st') z = stored addr src cnt (λ _, 0xFF) z
      else bank_mem bit info same mem0 (n_hist st') z = bank_mem bit info same mem0 (n_hist (b_nor b)) z) b.
Proof.
  intros Ht Hboot Hk Hjd Hchip Hgeo Hij Hj Hun Hc Hlo Hhi Hsrc Hlen.
  destruct (booted_jedec _ _ _ _ _ _ Hboot Hk Hjd) as (Hjb & _ & _). pose proof (jb_ok _ _ Hjb) as Hok.
  pose proof (sector_bounds Hok i ltac:(lia)). pose proof (sector_bounds Hok j ltac:(lia)).
  wp_step. eapply wp_mono; [by eapply (wp_nor_erased bit idt ops n b k info)|].
  intros rc b1 (st1 & ops1 & -> & Hrun1 & Hi1 & [-> |[-> Hslow]] & Herased); cbn [Z.eqb].
  2:{ apply wp_ret. exists st1. split; [done|]. split; [by right|]. intros z. specialize (Herased z).
      by destruct (decide _). }
  eapply wp_mono; [eapply (wp_flash_write_nor bit idt ops n b k info Hboot Hk Hjd same mem0 st1); try done; lia|].
  intros rc b2. cbn beta. rw decide_False; [by eapply not_hit|].
  intros (st2 & -> & ops2 & w & _ & Hmem & Hrc). exists st2. split; [done|].
  assert (rc ≠ 2) as H2.
  { intros ->. destruct Hrc as [[? _]|[[? _]|(_ & Hw & z & Hz & Hbad)]]; [done|done|]. apply Hbad.
    specialize (Herased z). rw decide_True in Herased; [lia|]. rw Herased // Z.land_comm. apply byte_land_ff, src_byte, Hsrc. }
  split; [tauto|]. intros z. specialize (Herased z). destruct (decide _) as [Hz|Hz].
  - intros ->. rw Hmem; [by left|]. destruct Hrc as [[_ ->]|[[? _]|[? _]]]; [|done|done].
    rw /stored. destruct (decide _); [done|]. by apply Herased.
  - rw Hmem; [lia|]. rw /stored decide_False //. lia.
Qed.

(** C20: erasing the sectors [i..j] of such a bank and, when that succeeds,
    writing [src] inside them returns 0, or 1 when the chip stayed busy up to the
    timeout, and never finds a bit that is not erased.  No byte outside the sectors
    changes; after 0 the sectors hold [src] where it was written and 0xFF elsewhere. *)
Theorem nor_update {shw : SfHw} {hw : NorHw} bit idt ops n b k info same mem0 i j src addr cnt :
  NorTimer n → nor_booted bit idt ops b → b_info b !! k = Some info → vendor info ≠ FLASH_MAN_INTEL →
  NorChip (port_of bit) (starts info 0) (fi_size info) same mem0 → geometry same info →
  0 ≤ i ≤ j → j < fi_sector_count info → unprotected info i j →
  0 < cnt → starts info i ≤ addr → addr + cnt - 1 ≤ send info j →
  Forall is_byte src → cnt ≤ Z.of_nat (length src) →
  wp (let! rc := flash_sect_erase n (starts info i) (send info j) in
      if rc =? 0 then flash_write n src addr cnt else ret rc)
    (λ rc b', ∃ st', b' = set_nor b st' ∧ 
      (rc = 0 ∨ rc = 1 ∧ slow (port_of bit) (starts info 0) (fi_size info)) ∧ ∀ z,
      if decide (starts info i ≤ z ≤ send info j)
      then rc = 0 → bank_mem bit info same mem0 (n_hist st') z = stored addr src cnt (λ _, 0xFF) z
      else bank_mem bit info same mem0 (n_hist st') z = bank_mem bit info same mem0 (n_hist (b_nor b)) z) b.
Proof. apply wp_nor_update. Qed.

(** C21: on a chip that ends every program and erase before the timeout, the same
    sequence ends, within [n] polls of each wait, and returns 0, with the sectors
    holding [src] and nothing else of the bank changed. *)
Theorem nor_update_completes {shw : SfHw} {hw : NorHw} bit idt ops n b k info same mem0 i j src addr cnt :
  NorTimer n → nor_booted bit idt ops b → b_info b !! k = Some info → vendor info ≠ FLASH_MAN_INTEL →
  NorChip (port_of bit) (starts info 0) (fi_size info) same mem0 → geometry same info →
  ¬ slow (port_of bit) (starts info 0) (fi_size info) →
  0 ≤ i ≤ j → j < fi_sector_count info → unprotected info i j →
  0 < cnt → starts info i ≤ addr → addr + cnt - 1 ≤ send info j →
  Forall is_byte src → cnt ≤ Z.of_nat (length src) →
  ∃ st', (let! rc := flash_sect_erase n (starts info i) (send info j) in
          if rc =? 0 then flash_write n src addr cnt else ret rc) b = Ok (0, set_nor b st') ∧
    ∀ z, bank_mem bit info same mem0 (n_hist st') z =
      if decide (starts info i ≤ z ≤ send info j) then stored addr src cnt (λ _, 0xFF) z
      else bank_mem bit info same mem0 (n_hist (b_nor b)) z.
Proof.
  intros Ht Hboot Hk Hjd Hchip Hgeo Hfast Hij Hj Hun Hc Hlo Hhi Hsrc Hlen.
  pose proof (wp_nor_update bit idt ops n b k info same mem0 i j src addr cnt Ht Hboot Hk Hjd Hchip Hgeo
    Hij Hj Hun Hc Hlo Hhi Hsrc Hlen) as Hw.
  apply wp_ok in Hw as (rc & b' & -> & st' & -> & [-> |[_ Hslow]] & Hmem); [|by destruct Hfast].
  exists st'. split; [done|]. intros z. specialize (Hmem z). destruct (decide _); [by apply Hmem|done].
Qed.

(** On the other processors that can be strapped to boot from NOR flash (0x3426
    and 0x3451) the NOR drivers never set the array of bank addresses that they go
    through, since their own test of the straps is the one of the 0x3445: whatever
    the chips answer, [flash_init] reads it uninitialised. *)
Theorem flash_init_nor_uninit {shw : SfHw} {hw : NorHw} n chip_id val b :
  get_boot_flash_type chip_id val = NOR_FLASH_TYPE → chip_id ≠ 0x3445 →
  flash_init n chip_id val b = Err Uninit.
Proof.
  intros Ht Hid. assert (Z.land (Z.shiftr val 1) 3 ≠ 2) as Hs.
  { intros He. assert (Z.land (Z.shiftr val 1) 1 = 0) as H1.
    { change 1 with (Z.land 3 1) at 2. by rw Z.land_assoc He. }
    revert Ht. rw /get_boot_flash_type He H1 (proj2 (Z.eqb_neq _ _) Hid). by repeat case_match. }
  rw /flash_init Ht /bind /modify /=.
  destruct (get_boot_nor_flash_bit_type val); rw /on_nor /zoom /nor_flash_8b_init /nor_flash_16b_init /nor_init;
    by rw (proj2 (Z.eqb_neq _ _) Hs).
Qed.

(** ** Witnesses: four uniform 8 MB chips on an 8-bit bus *)

Definition demo_window (a : Z) : Z := 0xFE000000 + (a - 0xFE000000) / WINDOW * WINDOW.
Definition demo_same (a z : Z) : bool := a / 0x10000 =? z / 0x10000.

(** Programming and erasing end with the first poll; each look at the timer
    finds it a long time later. *)
Definition demo_read (h : list bus_event) (a : Z) : Z :=
  let base := demo_window a in
  match (chip_run port8 base WINDOW h).1 with
  | Ready => contents port8 base WINDOW demo_same (λ _, 0xFF) h a
  | Programming _ d => d
  | Erasing _ => 0xFF
  | AutoSelect => if a =? base then 0x7F else if a =? base + 2 then 0xD7 else 0
  | _ => 0
  end.
Definition demo_ticks (h : list bus_event) : Z :=
  fold_right (λ ev t, match ev with TimerR _ => t + 2 ^ 30 | _ => t end) 0 h.
#[local] Instance demo_nor : NorHw :=
  {| bus_read := demo_read; bus_read8 := demo_read; io_read _ _ := 0; nor_timer := demo_ticks |}.
#[local] Existing Instance quiet_hw.

Lemma ticks_snoc h ev :
  demo_ticks (h ++ [ev]) = demo_ticks h + match ev with TimerR _ => 2 ^ 30 | _ => 0 end.
Proof. rw /demo_ticks. induction h as [|ev' h IH]; [by destruct ev|]. rw /= IH. destruct ev'; lia. Qed.

#[local] Instance demo_timer : NorTimer 2.
Proof.
  intros h a start. rw /late.
  destruct (decide (CFG_FLASH_WRITE_TOUT < u32 (demo_ticks h - start))) as [Hd|Hd]; [exists 0%nat|exists 1%nat];
    (split; [lia|]); rw /polled /poll_round /= !ticks_snoc ?Z.add_0_r //.
  rw /u32 /wrap /CFG_FLASH_WRITE_TOUT in Hd |- *. Z.div_mod_to_equations. lia.
Qed.

Lemma demo_window_in i base a :
  CFG_NOR_FLASH_BASE !! i = Some base → base ≤ a < base + WINDOW → demo_window a = base.
Proof. intros [-> _]%bank_base Ha. rw /demo_window /WINDOW in Ha |- *. Z.div_mod_to_equations. lia. Qed.

#[local] Instance demo_nor_chip i base :
  CFG_NOR_FLASH_BASE !! i = Some base → NorChip port8 base WINDOW demo_same (λ _, 0xFF).
Proof.
  intros Hi. split; simpl.
  - rw /is_byte. lia.
  - intros h a Hr Hlo Hhi. rw /demo_read (demo_window_in i base) //; [lia|]. by rw Hr.
  - intros h a Hr Hin. rw /in_chip in Hin. rw /demo_read (demo_window_in i base) //; [lia|]. by rw Hr.
Qed.

Definition demo_idt (_ : nat) : Z * Z * Z := (FLASH_MAN_EON + FLASH_EON29LV640U, 128, 0x00800000).

Lemma demo_chips_known :
  chips_known BOOT_TYPE_8BIT (λ _, 0x7F) (λ _, 0xD7) (λ _, 0) (λ _, 0) demo_idt.
Proof.
  intros i base Hi. split_and!; [|exists None; split; [by left|by left]|done].
  intros h Hh. destruct (bank_base _ _ Hi) as [Hb Hlt]. rw /WINDOW in Hb. cbn [port_of] in Hh |- *.
  split_and!; [| |done]; rw /at_idx u32_small /=; [lia| |lia|];
    (rw /demo_read (demo_window_in i base) // /WINDOW; [lia|]); rw Hh ?Z.add_0_r ?Z.eqb_refl //.
  rw (proj2 (Z.eqb_neq _ _)) //. lia.
Qed.

Definition nor_demo_start : board :=
  Board (b_sf demo_board) (b_info demo_board) (NorSt [] (replicate 4 blank_bank)) [] SPI_FLASH_TYPE
    BOOT_TYPE_8BIT BOOT_TYPE_8BIT.

Lemma nor_demo_idle : nor_idle BOOT_TYPE_8BIT (λ _, []) nor_demo_start.
Proof. split_and!; [done|by apply Forall_replicate|done]. Qed.

(** The state in which a run ends. *)
Definition final {S A} (m : M S A) (s : S) : S := match m s with Ok (_, s') => s' | Err _ => s end.

Lemma wp_final {S A} (m : M S A) (Q : S → Prop) s : wp m (λ _ s', Q s') s → Q (final m s).
Proof. rw /wp /final. by destruct (m s) as [[a s']|f]. Qed.

Definition nor_demo : board := final (flash_init 2 0x3445 0x4) nor_demo_start.

Lemma nor_demo_booted : nor_booted BOOT_TYPE_8BIT demo_idt (λ _, []) nor_demo.
Proof.
  rw /nor_demo. apply wp_final.
  exact (wp_flash_init_nor 2 0x4 _ _ _ _ _ _ nor_demo_start eq_refl demo_chips_known nor_demo_idle).
Qed.

Lemma flash_init_nor_uninit_witness :
  flash_init (hw := quiet_hw) (nhw := quiet_nor) 1 0x3451 0x2 demo_board = Err Uninit.
Proof. by apply flash_init_nor_uninit. Defined.

Lemma flash_init_nor_witness :
  wp (flash_init 2 0x3445 0x4) (λ _ b', nor_booted BOOT_TYPE_8BIT demo_idt (λ _, []) b') nor_demo_start.
Proof.
  apply (flash_init_nor 2 0x4 (λ _, 0x7F) (λ _, 0xD7) (λ _, 0) (λ _, 0));
    [reflexivity|exact demo_chips_known|exact nor_demo_idle].
Defined.

Definition nor_demo_bank : flash_info_t := nth 3 (b_info nor_demo) blank_bank.

Lemma nor_demo_bank_at : b_info nor_demo !! 3%nat = Some nor_demo_bank.
Proof.
  destruct (nb_bank _ _ _ _ nor_demo_booted 3 0xFF800000 eq_refl) as (info & Hi & _).
  rw /nor_demo_bank. by rw (nth_lookup_Some _ _ _ _ Hi).
Qed.

Lemma nor_demo_bank_is :
  starts nor_demo_bank 0 = 0xFF800000 ∧ fi_size nor_demo_bank = WINDOW ∧ fi_sector_count nor_demo_bank = 128 ∧
  vendor nor_demo_bank ≠ FLASH_MAN_INTEL ∧ unprotected nor_demo_bank 0 0.
Proof. split_and!; [by vm_compute..|]. intros s Hs. assert (s = 0) as -> by lia. by vm_compute. Qed.

Lemma nor_demo_starts s : 0 ≤ s < 128 → starts nor_demo_bank s = 0xFF800000 + s * 0x10000.
Proof.
  intros Hs. assert (Forall (λ s, starts nor_demo_bank s = 0xFF800000 + s * 0x10000) (seqZ 0 128)) as H.
  { apply (bool_decide_unpack _). by vm_compute. }
  rw Forall_forall in H. apply H, elem_of_seqZ. lia.
Qed.

#[local] Opaque nor_demo_bank.

Lemma nor_demo_geometry : geometry demo_same nor_demo_bank.
Proof.
  destruct nor_demo_bank_is as (H0 & Hsz & Hc & _). intros s z Hs. rw Hc in Hs.
  assert (send nor_demo_bank s = 0xFF800000 + s * 0x10000 + 0xFFFF) as ->.
  { rw /send Hc /bank_top H0 Hsz /WINDOW. destruct (Z.eqb_spec s (128 - 1)); [lia|]. rw nor_demo_starts; lia. }
  rw nor_demo_starts; [lia|]. rw /demo_same. apply eq_true_iff_eq. rw Z.eqb_eq bool_decide_eq_true.
  Z.div_mod_to_equations. lia.
Qed.

Lemma nor_demo_send : send nor_demo_bank 0 = 0xFF80FFFF.
Proof.
  destruct nor_demo_bank_is as (_ & _ & Hc & _). rw /send Hc nor_demo_starts; [lia|reflexivity].
Qed.

Lemma nor_demo_chip :
  NorChip (port_of BOOT_TYPE_8BIT) (starts nor_demo_bank 0) (fi_size nor_demo_bank) demo_same (λ _, 0xFF).
Proof. destruct nor_demo_bank_is as (-> & -> & _). by apply (demo_nor_chip 3). Qed.

Lemma flash_write_nor_witness :
  wp (flash_write 2 [0x12; 0x34] 0xFF800010 2) (λ rc b',
    if decide (hit_by nor_demo_bank 0xFF800010 (0xFF800010 + 2 - 1)) then rc = ERR_PROTECTED ∧ b' = nor_demo
    else ∃ st', b' = set_nor nor_demo st' ∧
      write_result port8 (starts nor_demo_bank 0) (fi_size nor_demo_bank) demo_same (λ _, 0xFF)
        0xFF800010 [0x12; 0x34] 2
        (bank_mem BOOT_TYPE_8BIT nor_demo_bank demo_same (λ _, 0xFF) (n_hist (b_nor nor_demo)))
        (n_info (b_nor nor_demo)) rc st') nor_demo.
Proof.
  destruct nor_demo_bank_is as (H0 & Hsz & Hc & Hv & _).
  apply (flash_write_nor BOOT_TYPE_8BIT demo_idt (λ _, []) 2 nor_demo 3 nor_demo_bank demo_same (λ _, 0xFF));
    [apply _|exact nor_demo_booted|exact nor_demo_bank_at|exact Hv|exact nor_demo_chip|lia|rw H0; lia
    |rw /bank_top H0 Hsz /WINDOW; lia|repeat constructor; rw /is_byte; lia|simpl; lia].
Defined.

Lemma nor_update_witness :
  wp (let! rc := flash_sect_erase 2 (starts nor_demo_bank 0) (send nor_demo_bank 0) in
      if rc =? 0 then flash_write 2 [0x12; 0x34] 0xFF800010 2 else ret rc)
    (λ rc b', ∃ st', b' = set_nor nor_demo st' ∧
      (rc = 0 ∨ rc = 1 ∧ slow port8 (starts nor_demo_bank 0) (fi_size nor_demo_bank)) ∧ ∀ z,
      if decide (starts nor_demo_bank 0 ≤ z ≤ send nor_demo_bank 0)
      then rc = 0 → bank_mem BOOT_TYPE_8BIT nor_demo_bank demo_same (λ _, 0xFF) (n_hist st') z =
                    stored 0xFF800010 [0x12; 0x34] 2 (λ _, 0xFF) z
      else bank_mem BOOT_TYPE_8BIT nor_demo_bank demo_same (λ _, 0xFF) (n_hist st') z =
           bank_mem BOOT_TYPE_8BIT nor_demo_bank demo_same (λ _, 0xFF) (n_hist (b_nor nor_demo)) z) nor_demo.
Proof.
  destruct nor_demo_bank_is as (H0 & Hsz & Hc & Hv & Hu).
  apply (nor_update BOOT_TYPE_8BIT demo_idt (λ _, []) 2 nor_demo 3 nor_demo_bank demo_same (λ _, 0xFF));
    [apply _|exact nor_demo_booted|exact nor_demo_bank_at|exact Hv|exact nor_demo_chip|exact nor_demo_geometry
    |lia|lia|exact Hu|lia|rw H0; lia|rw nor_demo_send; lia|repeat constructor; rw /is_byte; lia|simpl; lia].
Defined.

Lemma nor_demo_prompt : ¬ slow port8 (starts nor_demo_bank 0) (fi_size nor_demo_bank).
Proof.
  destruct nor_demo_bank_is as (-> & -> & _). intros (h & cmds & s & a & _ & Hin & Hs & Hrun & k & Hk & _).
  specialize (Hk 0%nat ltac:(lia)). rw /in_chip in Hin. cbn [polled bus_read demo_nor] in Hk.
  rw /demo_read (demo_window_in 3 0xFF800000) // in Hk; [lia|]. rw Hrun in Hk.
  destruct Hs as [-> |[d ->]]; [done|]. by rw /= Z.eqb_refl in Hk.
Qed.

Lemma nor_update_completes_witness :
  ∃ st', (let! rc := flash_sect_erase 2 (starts nor_demo_bank 0) (send nor_demo_bank 0) in
          if rc =? 0 then flash_write 2 [0x12; 0x34] 0xFF800010 2 else ret rc) nor_demo =
         Ok (0, set_nor nor_demo st') ∧
    ∀ z, bank_mem BOOT_TYPE_8BIT nor_demo_bank demo_same (λ _, 0xFF) (n_hist st') z =
      if decide (starts nor_demo_bank 0 ≤ z ≤ send nor_demo_bank 0)
      then stored 0xFF800010 [0x12; 0x34] 2 (λ _, 0xFF) z
      else bank_mem BOOT_TYPE_8BIT nor_demo_bank demo_same (λ _, 0xFF) (n_hist (b_nor nor_demo)) z.
Proof.
  destruct nor_demo_bank_is as (H0 & Hsz & Hc & Hv & Hu).
  apply (nor_update_completes BOOT_TYPE_8BIT demo_idt (λ _, []) 2 nor_demo 3);
    [apply _|exact nor_demo_booted|exact nor_demo_bank_at|exact Hv|exact nor_demo_chip|exact nor_demo_geometry
    |exact nor_demo_prompt|lia|lia|exact Hu|lia|rw H0; lia|rw nor_demo_send; lia
    |repeat constructor; rw /is_byte; lia|simpl; lia].
Defined.

(** The run itself. *)
Example nor_demo_update :
  match (let! rc := flash_sect_erase 2 0xFF800000 0xFF80FFFF in
         if rc =? 0 then flash_write 2 [0x12; 0x34] 0xFF800010 2 else ret rc) nor_demo with
  | Ok (rc, b) => rc = 0 ∧ demo_read (n_hist (b_nor b)) 0xFF800011 = 0x34 ∧
                  demo_read (n_hist (b_nor b)) 0xFF800012 = 0xFF
  | Err _ => False
  end.
Proof. by vm_compute. Qed.
