(* ===== verification/EnvStack.v ===== *)
(** * The environment on the serial flash

    [saveenv] over the flash commands and the serial flash driver, instead of
    the interface [FlashDev] of EnvFlash: protection, erase and writes go through
    FlashCmd to SpiFlash, and the chip is what the log of the driver makes of it.
    The run refines that of EnvFlash, so its theorems hold of the chip. *)

From Stdlib Require Import ssreflect ZArith Lia ZifyBool String.
From stdpp Require Import base tactics numbers list strings.
From S2P Require Import Prelude Crc32 EnvFormat EnvFlash SpiFlash NorFlash FlashCmd FlashRange FlashSafety.

Set Default Goal Selector "!".
Open Scope general_if_scope.
#[local] Open Scope Z_scope.

(** ** Addresses (include/configs/wmt.h) *)

Definition CFG_FLASH_BASE : Z := 0xFF000000.
Definition CFG_ENV_SIZE : Z := 0x10000.
Definition CFG_ENV_SECT_SIZE : Z := 0x10000.
Definition CFG_ENV_OFFSET : Z := 0x00FD0000.
Definition CFG_ENV_ADDR : Z := CFG_FLASH_BASE + CFG_ENV_OFFSET.
Definition CFG_ENV_ADDR_REDUND : Z := CFG_ENV_ADDR + CFG_ENV_SIZE.
(** [sizeof(env_ptr->data)] *)
Definition ENV_SIZE : Z := CFG_ENV_SIZE - Z.of_nat ENV_HEADER_SIZE.

Definition SECT_LEN : nat := Z.to_nat CFG_ENV_SIZE.

Definition env_addr (s : sect) : Z :=
  match s with Sect1 => CFG_ENV_ADDR | Sect2 => CFG_ENV_ADDR_REDUND end.
Definition end_addr (s : sect) : Z := env_addr s + CFG_ENV_SECT_SIZE - 1.

(** ** [saveenv] (common/env_flash.c) *)

Record stk := Stk {
  k_board : board;
  k_cur : sect;       (** [flash_addr]; [flash_addr_new] is the other *)
  k_ram : env_t       (** [*env_ptr] *)
}.

Definition set_board (st : stk) (b : board) : stk := Stk b (k_cur st) (k_ram st).
Definition on_board {A} (m : M board A) : M stk A := zoom k_board set_board m.

Section saveenv.
Context {hw : SfHw} {nhw : NorHw}.

Definition sect_protect (p : Z) (s : sect) : M stk Z :=
  on_board (FlashCmd.flash_sect_protect p (env_addr s) (end_addr s)).

(** The label [Done]. *)
Definition saveenv_done (rc : Z) : M stk Z :=
  let! st := get in
  sect_protect 1 (k_cur st) ;;;
  sect_protect 1 (other (k_cur st)) ;;;
  ret rc.

Definition saveenv (n : nat) : M stk Z :=
  let! st := get in
  let flash_addr := k_cur st in
  let flash_addr_new := other (k_cur st) in
  let! r := sect_protect 0 flash_addr in
  if negb (r =? 0) then saveenv_done 1 else
  let! r := sect_protect 0 flash_addr_new in
  if negb (r =? 0) then saveenv_done 1 else
  let! r := on_board (FlashCmd.flash_sect_erase n (env_addr flash_addr_new) (end_addr flash_addr_new)) in
  if negb (r =? 0) then saveenv_done 1 else
  let! rc := on_board (FlashCmd.flash_write n (e_data (k_ram st)) (env_addr flash_addr_new + 5) ENV_SIZE) in
  if negb (rc =? 0) then saveenv_done rc else
  let! rc := on_board (FlashCmd.flash_write n (le32 (e_crc (k_ram st))) (env_addr flash_addr_new) 4) in
  if negb (rc =? 0) then saveenv_done rc else
  let! rc := on_board (FlashCmd.flash_write n [OBSOLETE_FLAG] (env_addr flash_addr + 4) 1) in
  if negb (rc =? 0) then saveenv_done rc else
  let! rc := on_board (FlashCmd.flash_write n [ACTIVE_FLAG] (env_addr flash_addr_new + 4) 1) in
  if negb (rc =? 0) then saveenv_done rc else
  modify (λ st, Stk (k_board st) flash_addr_new (k_ram st)) ;;;
  saveenv_done 0.

End saveenv.

(** ** The chip

    What the events of the driver do to the bytes in the flash window: a sector
    erase sets 64 KB to 0xFF, a byte write clears bits. *)

Fixpoint chip_mem (cur : Z) (log : list event) (mem : Z → Z) : Z → Z :=
  match log with
  | [] => mem
  | WriteReg SPI_ER_START_ADDR v :: log => chip_mem v log mem
  | WriteReg SPI_ER_CTR _ :: log =>
      chip_mem cur log (λ a, if a / SECTOR =? cur / SECTOR then 0xFF else mem a)
  | WriteByte a v :: log => chip_mem cur log (λ x, if x =? a then Z.land (mem x) v else mem x)
  | _ :: log => chip_mem cur log mem
  end.

(** The two environment sectors of the chip. *)
Definition bytes_at (len : nat) (base : Z) (mem : Z → Z) : list Z :=
  (λ i, mem (base + Z.of_nat i)) <$> seq 0 len.
Definition sector_bytes (base : Z) (mem : Z → Z) : list Z := bytes_at SECT_LEN base mem.
Definition view (mem : Z → Z) : flash :=
  Flash (sector_bytes (env_addr Sect1) mem) (sector_bytes (env_addr Sect2) mem).

(** The events as steps on the two sectors. *)
Definition sect_at (a : Z) : option sect :=
  if a / SECTOR =? env_addr Sect1 / SECTOR then Some Sect1
  else if a / SECTOR =? env_addr Sect2 / SECTOR then Some Sect2 else None.
Definition erase_step (a : Z) : option step := Erase <$> sect_at a.
Definition byte_step (w : Z * Z) : option step :=
  (λ s, Prog s (Z.to_nat (w.1 - env_addr s)) w.2) <$> sect_at w.1.
Definition opt_list {A} (o : option A) : list A := match o with Some x => [x] | None => [] end.

Fixpoint chip_steps (cur : Z) (log : list event) : list step :=
  match log with
  | [] => []
  | WriteReg SPI_ER_START_ADDR v :: log => chip_steps v log
  | WriteReg SPI_ER_CTR _ :: log => opt_list (erase_step cur) ++ chip_steps cur log
  | WriteByte a v :: log => opt_list (byte_step (a, v)) ++ chip_steps cur log
  | _ :: log => chip_steps cur log
  end.

Lemma same_sector a s : a / SECTOR = env_addr s / SECTOR ↔ env_addr s ≤ a < env_addr s + 65536.
Proof.
  assert (∃ q, env_addr s = q * 65536) as [q ->] by (destruct s; [by exists 65533|by exists 65534]).
  rw /SECTOR Z.div_mul //. Z.div_mod_to_equations. lia.
Qed.

Lemma env_addr_range s : 2 ^ 32 - 3 * 65536 ≤ env_addr s ∧ env_addr s + 65536 ≤ 2 ^ 32.
Proof. by destruct s. Qed.

Lemma sect_at_spec a s : sect_at a = Some s ↔ env_addr s ≤ a < env_addr s + 65536.
Proof.
  rw -same_sector /sect_at.
  destruct (Z.eqb_spec (a / SECTOR) (env_addr Sect1 / SECTOR)) as [H1|H1],
    (Z.eqb_spec (a / SECTOR) (env_addr Sect2 / SECTOR)) as [H2|H2], s;
    split; intros H; try done; try congruence; by rw H1 in H2.
Qed.

Lemma sect_at_none a s : sect_at a = None → a / SECTOR ≠ env_addr s / SECTOR.
Proof. intros H He. apply same_sector, sect_at_spec in He. congruence. Qed.

(** *** The chip follows the steps *)

Lemma sect_len : Z.of_nat SECT_LEN = 65536.
Proof. rw /SECT_LEN Z2Nat.id //. Qed.
#[global] Opaque SECT_LEN.

Lemma length_bytes_at len base mem : length (bytes_at len base mem) = len.
Proof. by rw length_fmap length_seq. Qed.

Lemma bytes_at_ext len base mem mem' :
  (∀ a, base ≤ a < base + Z.of_nat len → mem a = mem' a) → bytes_at len base mem = bytes_at len base mem'.
Proof. intros H. apply list_fmap_ext. intros i x [-> Hx]%lookup_seq. apply H. lia. Qed.

Lemma bytes_at_const len base mem v :
  (∀ a, base ≤ a < base + Z.of_nat len → mem a = v) → bytes_at len base mem = replicate len v.
Proof.
  intros H. symmetry. apply replicate_as_elem_of. split; [apply length_bytes_at|].
  intros y (i & -> & Hi%elem_of_seq)%list_elem_of_fmap. apply H. lia.
Qed.

Lemma bytes_at_alter len base mem a v :
  base ≤ a →
  bytes_at len base (λ x, if x =? a then Z.land (mem x) v else mem x) =
  alter (λ old, Z.land old v) (Z.to_nat (a - base)) (bytes_at len base mem).
Proof.
  intros Ha. apply list_eq. intros i. destruct (decide (i = Z.to_nat (a - base))) as [->|Hi].
  - rw list_lookup_alter_eq !list_lookup_fmap. destruct (seq 0 len !! _) as [x|] eqn:Hx; [|done].
    apply lookup_seq in Hx as [-> _]. simpl. by rw (proj2 (Z.eqb_eq _ _)); [lia|].
  - rw list_lookup_alter_ne // !list_lookup_fmap. destruct (seq 0 len !! i) as [x|] eqn:Hx; [|done].
    apply lookup_seq in Hx as [-> _]. simpl. by rw (proj2 (Z.eqb_neq _ _)); [lia|].
Qed.

(** A window that holds [img] from [base] on. *)
Definition mem_of (img : list Z) (base a : Z) : Z :=
  if a <? base then 0xFF else default 0xFF (img !! Z.to_nat (a - base)).

Lemma bytes_at_mem_of img base : bytes_at (length img) base (mem_of img base) = img.
Proof.
  apply list_eq. intros i. rw list_lookup_fmap. destruct (decide (i < length img)%nat) as [Hi|Hi].
  - rw lookup_seq_lt //= /mem_of (proj2 (Z.ltb_ge _ _)); [lia|].
    rw (_ : base + Z.of_nat i - base = Z.of_nat i); [lia|]. rw Nat2Z.id.
    by destruct (lookup_lt_is_Some_2 img i Hi) as [x ->].
  - rw !lookup_ge_None_2 ?length_seq //; lia.
Qed.

Lemma length_sector_bytes base mem : length (sector_bytes base mem) = SECT_LEN.
Proof. apply length_bytes_at. Qed.

Lemma fl_get_view mem s : fl_get (view mem) s = sector_bytes (env_addr s) mem.
Proof. by destruct s. Qed.

Lemma view_ext f mem : (∀ s, fl_get f s = sector_bytes (env_addr s) mem) → f = view mem.
Proof. intros H. apply (fl_eq _ _ Sect1); rw H fl_get_view //. Qed.

Lemma sector_bytes_ext base mem mem' :
  (∀ a, base ≤ a < base + 65536 → mem a = mem' a) → sector_bytes base mem = sector_bytes base mem'.
Proof. intros H. apply bytes_at_ext. by rw sect_len. Qed.

Lemma sector_bytes_const base mem v :
  (∀ a, base ≤ a < base + 65536 → mem a = v) → sector_bytes base mem = replicate SECT_LEN v.
Proof. intros H. apply bytes_at_const. by rw sect_len. Qed.

(** The sector [s'] is not touched by a change at another one. *)
Lemma sector_apart s a : sect_at a = Some s → a / SECTOR ≠ env_addr (other s) / SECTOR.
Proof.
  intros Hs He%same_sector%sect_at_spec. rw Hs in He. simplify_eq. by apply (other_ne s).
Qed.

Lemma view_erase cur mem :
  view (λ a, if a / SECTOR =? cur / SECTOR then 0xFF else mem a) =
  run_steps (view mem) (opt_list (erase_step cur)).
Proof.
  symmetry. apply view_ext. intros s'. rw /erase_step.
  destruct (sect_at cur) as [s|] eqn:Hs; cbn [fmap option_fmap option_map opt_list run_steps fold_left].
  - pose proof (sector_apart _ _ Hs) as Hap. apply sect_at_spec, same_sector in Hs.
    cbn [apply_step]. destruct (sect_cases s' s) as [->| ->].
    + rw fl_get_set fl_get_view length_sector_bytes. symmetry. apply sector_bytes_const.
      intros a Ha%same_sector. by rw Hs Ha Z.eqb_refl.
    + rw fl_get_set_other fl_get_view. apply sector_bytes_ext. intros a Ha%same_sector.
      by rw Ha (proj2 (Z.eqb_neq _ _) (not_eq_sym Hap)).
  - rw fl_get_view. apply sector_bytes_ext. intros a Ha%same_sector.
    rw Ha (proj2 (Z.eqb_neq _ _) (not_eq_sym (sect_at_none cur s' Hs))) //.
Qed.

Lemma view_byte a v mem :
  view (λ x, if x =? a then Z.land (mem x) v else mem x) =
  run_steps (view mem) (opt_list (byte_step (a, v))).
Proof.
  symmetry. apply view_ext. intros s'. rw /byte_step /=.
  assert (sect_at a ≠ Some s' →
    sector_bytes (env_addr s') mem =
    sector_bytes (env_addr s') (λ x, if x =? a then Z.land (mem x) v else mem x)) as Hother.
  { intros Hne. apply sector_bytes_ext. intros x Hx%sect_at_spec.
    destruct (Z.eqb_spec x a) as [->|]; done. }
  destruct (sect_at a) as [s|] eqn:Hs; cbn [fmap option_fmap option_map opt_list run_steps fold_left].
  - cbn [apply_step]. destruct (sect_cases s' s) as [->| ->].
    + apply sect_at_spec in Hs. rw fl_get_set fl_get_view. symmetry. apply bytes_at_alter. lia.
    + rw fl_get_set_other fl_get_view. apply Hother. intros [= He]. by apply (other_ne s).
  - rw fl_get_view. by apply Hother.
Qed.

Lemma view_chip cur log mem : view (chip_mem cur log mem) = run_steps (view mem) (chip_steps cur log).
Proof.
  revert cur mem. induction log as [|[[]|a v] log IH]; intros cur mem; simpl; try apply IH; [done|..].
  - by rw IH view_erase run_steps_app.
  - by rw IH view_byte run_steps_app.
Qed.

(** *** Steps of parts of a log *)

Lemma chip_steps_app cur l1 l2 :
  chip_steps cur (l1 ++ l2) = chip_steps cur l1 ++ chip_steps (last_start cur l1) l2.
Proof.
  revert cur. induction l1 as [|[[]|] l1 IH]; intros cur; simpl; [done|..]; by rw IH ?app_assoc.
Qed.

Lemma chip_steps_take cur k log : ∃ k', chip_steps cur (take k log) = take k' (chip_steps cur log).
Proof.
  rw -{2}(take_drop k log) chip_steps_app. exists (length (chip_steps cur (take k log))).
  by rw take_app_length.
Qed.

(** A log that only erases, or only writes. *)
Lemma chip_steps_erases cur l :
  byte_writes l = [] → chip_steps cur l = omap erase_step (erase_cmds cur l).
Proof.
  revert cur. induction l as [|[[]|a v] l IH]; intros cur H; simpl in *; try done; try by apply IH.
  rw (IH _ H). by destruct (erase_step cur).
Qed.

Lemma chip_steps_writes cur l :
  erase_cmds cur l = [] → chip_steps cur l = omap byte_step (byte_writes l).
Proof.
  revert cur. induction l as [|[[]|a v] l IH]; intros cur H; simpl in *; try done; try by apply IH.
  rw (IH _ H). by destruct (byte_step (a, v)).
Qed.

Lemma steps_placed s off src :
  Z.of_nat off + Z.of_nat (length src) ≤ 65536 →
  omap byte_step (placed (env_addr s + Z.of_nat off) src) = progs s off src.
Proof.
  revert off. induction src as [|b src IH]; intros off Hl; [done|]. cbn [length] in Hl.
  rw progs_cons /=. rw /byte_step /= (proj2 (sect_at_spec _ s)); [lia|]. cbn [fmap option_fmap option_map].
  rw (_ : env_addr s + Z.of_nat off - env_addr s = Z.of_nat off); [lia|]. rw Nat2Z.id. f_equal.
  rw (_ : u32 (env_addr s + Z.of_nat off + 1) = env_addr s + Z.of_nat (S off)).
  { assert (0 ≤ env_addr s < 2 ^ 32 - 65536 - 1) by by destruct s.
    rw u32_small; lia. }
  apply IH. lia.
Qed.

(** ** The refinement

    The flash layer as EnvFlash sees it: protection and writes succeed, an erase
    answers [e]; after an error the sector is what the erase command left. *)

Definition spi_dev (e : Z) : FlashDev :=
  {| dev_protect _ := 0; dev_erase _ := (e, []); dev_write _ := (0, 0%nat) |}.

(** On the chip a failed erase is an erase. *)
Definition norm_step (st : step) : step := match st with Tear s _ => Erase s | _ => st end.

Lemma norm_progs s off bs : norm_step <$> progs s off bs = progs s off bs.
Proof.
  rw /progs -{2}(list_fmap_id (imap _ _)). apply list_fmap_ext. intros i x Hx.
  rw list_lookup_imap in Hx. by apply fmap_Some in Hx as (v & _ & ->).
Qed.

(** The states after the calls, in EnvFlash. *)
Definition after_protect (p : bool) (s : sect) (a : fstate) : fstate :=
  set_prot (set_calls a (S (fs_calls a))) (λ s', if decide (s' = s) then p else fs_prot a s').
Definition after_erase (e : Z) (s : sect) (a : fstate) : fstate :=
  do_steps (set_calls a (S (fs_calls a))) [if e =? 0 then Erase s else Tear s []].
Definition after_write (src : list Z) (s : sect) (off : nat) (a : fstate) : fstate :=
  do_steps (set_calls a (S (fs_calls a))) (progs s off src).

Section refine.
Context {hw : SfHw} {nhw : NorHw} (n : nat) {live : SfLive n}.
Context (k0 k1 : Z) (Hk0 : 3 ≤ k0).

(** The sector of the first bank that holds a copy. *)
Definition sect_idx (s : sect) : Z := match s with Sect1 => k0 - 3 | Sect2 => k0 - 2 end.

(** The table of the board, with the protection of the two sectors. *)
Definition table_rel (prot : sect → bool) (b : board) : Prop :=
  b_type b = SPI_FLASH_TYPE ∧ ∃ fi0 fi1, spi_table k0 k1 fi0 fi1 (b_info b) ∧ known fi0 ∧
    ∀ s, prot s = negb (arr_at (fi_protect fi0) (sect_idx s) =? 0).

(** What was logged after [l0] is what was done. *)
Definition log_rel (l0 : list event) (tr : list step) (b : board) : Prop :=
  ∃ l, sf_log (b_sf b) = l0 ++ l ∧ ∀ cur, chip_steps cur l = norm_step <$> tr.

Record stack_rel (l0 : list event) (a : fstate) (st : stk) : Prop := {
  sr_table : table_rel (fs_prot a) (k_board st);
  sr_log : log_rel l0 (fs_trace a) (k_board st);
  sr_cur : k_cur st = fs_cur a;
  sr_ram : k_ram st = fs_ram a
}.

Lemma idx_range fi s : fi_sector_count fi = k0 → 0 ≤ sect_idx s < fi_sector_count fi - 1.
Proof. intros ->. destruct s; simpl; lia. Qed.

Lemma idx_inj s s' : sect_idx s = sect_idx s' → s = s'.
Proof. destruct s, s'; simpl; (done || lia). Qed.

Lemma env_sector k1' fi0 fi1 banks s :
  spi_table k0 k1' fi0 fi1 banks →
  starts fi0 (sect_idx s) = env_addr s ∧ send fi0 (sect_idx s) = end_addr s ∧ fi_sector_count fi0 = k0.
Proof.
  intros (_ & Hb & _). pose proof Hb as (Hsz & Hc & Hk & _ & _ & _ & _ & Hst).
  destruct (spi_sector _ _ _ (sect_idx s) Hb) as [_ He].
  { rw Hc. destruct s; simpl; lia. }
  assert (starts fi0 (sect_idx s) = env_addr s) as Hs.
  { rw Hst; [destruct s; simpl; lia|]. rw /SECTOR.
    destruct s; rw /sect_idx; [rw (_ : env_addr Sect1 = 2 ^ 32 - 3 * 65536) //|
      rw (_ : env_addr Sect2 = 2 ^ 32 - 2 * 65536) //]; lia. }
  rw He Hs /end_addr /CFG_ENV_SECT_SIZE. split_and!; [done|lia|done].
Qed.

Lemma env_run fi0 fi1 banks s :
  spi_table k0 k1 fi0 fi1 banks → known fi0 →
  starts fi0 (sect_idx s) = env_addr s ∧ send fi0 (sect_idx s) = end_addr s ∧ fi_sector_count fi0 = k0 ∧
  0 ≤ sect_idx s < fi_sector_count fi0 - 1 ∧ run_of banks 0 fi0 (sect_idx s) (sect_idx s).
Proof.
  intros Htab Hkn. destruct (env_sector _ _ _ _ s Htab) as (Haddr & Hend & Hcnt).
  pose proof (idx_range fi0 s Hcnt) as Hidx. split_and!; [done|done|done|lia|lia|].
  apply (spi_table_run _ _ _ _ _ 0 fi0 _ _ Htab); [by destruct Htab as [-> _]|done|lia|lia].
Qed.

Lemma wp_stk_protect p s l0 a st (Q : Z → stk → Prop) :
  stack_rel l0 a st →
  (∀ st', stack_rel l0 (after_protect p s a) st' → Q 0 st') →
  wp (sect_protect (if p then 1 else 0) s) Q st.
Proof.
  intros [[Ht (fi0 & fi1 & Htab & Hkn & Hp)] Hlog Hc Hr] HQ.
  destruct (env_run _ _ _ s Htab Hkn) as (Haddr & Hend & Hcnt & Hidx & Hrun).
  rw /sect_protect -Haddr -Hend. apply wp_zoom. eapply wp_mono; [by eapply wp_flash_sect_protect_run|].
  intros rc b' [-> ->]. set (pr := protect_all _ _ _). apply HQ.
  assert (length (fi_protect fi0) = CFG_MAX_FLASH_SECT) as Hlen by by destruct Htab as (_ & (_ & _ & _ & [_ ?] & _) & _).
  assert (fi_sector_count fi0 ≤ 256) as Hc256 by (destruct Htab as (_ & (_ & -> & Hk256 & _) & _); apply Hk256).
  assert (spi_table k0 k1 (with_protect fi0 pr) fi1 (<[0%nat := with_protect fi0 pr]> (b_info (k_board st)))) as Htab'.
  { destruct Htab as (-> & H0 & H1). split_and!; [done| |done]. apply with_protect_bank; [done|].
    by rw length_protect_all. }
  split; [|done|done|done]. split; [done|]. exists (with_protect fi0 pr), fi1. split_and!; [done|done|].
  intros s'. simpl. rw protect_all_at.
  { apply Forall_forall. intros i Hi%elem_of_seqZ. rw Hlen /CFG_MAX_FLASH_SECT. lia. }
  { pose proof (idx_range fi0 s' Hcnt). lia. }
  destruct (decide (s' = s)) as [->|Hne].
  - rw decide_True; [apply elem_of_seqZ; lia|]. by destruct p.
  - rw decide_False; [|by rw Hp]. intros Hin%elem_of_seqZ. apply Hne, idx_inj. lia.
Qed.

(** Whatever the driver logs adds to the steps. *)
Lemma log_rel_did l0 tr er wr tr' b b' :
  log_rel l0 tr b → sf_did er wr b b' →
  (∀ cur l, erase_cmds cur l = er → byte_writes l = wr → chip_steps cur l = norm_step <$> tr') →
  log_rel l0 (tr ++ tr') b'.
Proof.
  intros (l & Hl & Hs) (sf & (_ & _ & _ & _ & l' & Hl' & He & Hw) & ->) Hst. exists (l ++ l').
  simpl. rw Hl' Hl -app_assoc. split; [done|]. intros cur.
  rw chip_steps_app Hs fmap_app. f_equal. by apply Hst.
Qed.

Lemma stack_rel_did l0 er wr tr' a a' st b' :
  stack_rel l0 a st → sf_did er wr (k_board st) b' →
  (∀ cur l, erase_cmds cur l = er → byte_writes l = wr → chip_steps cur l = norm_step <$> tr') →
  fs_trace a' = fs_trace a ++ tr' → fs_prot a' = fs_prot a → fs_cur a' = fs_cur a → fs_ram a' = fs_ram a →
  stack_rel l0 a' (set_board st b').
Proof.
  intros [[Ht (fi0 & fi1 & Htab & Hkn & Hp)] Hlog Hc Hr] Hd Hst Htr Hp' Hc' Hr'.
  destruct (sf_did_info _ _ _ _ Hd) as [Hinfo Htype]. split; simpl; [|..|by rw Hc'|by rw Hr'].
  - split; [by rw Htype|]. exists fi0, fi1. by rw Hinfo Hp'.
  - rw Htr. by eapply log_rel_did.
Qed.

Lemma wp_stk_erase s l0 a st (Q : Z → stk → Prop) :
  (∀ t, hw_ctrlc t = false) → stack_rel l0 a st → fs_prot a s = false →
  (∀ e st', stack_rel l0 (after_erase e s a) st' → Q e st') →
  wp (on_board (FlashCmd.flash_sect_erase n (env_addr s) (end_addr s))) Q st.
Proof.
  intros Hquiet Hrel Hps HQ. pose proof (sr_table _ _ _ Hrel) as [Ht (fi0 & fi1 & Htab & Hkn & Hp)].
  destruct (env_run _ _ _ s Htab Hkn) as (Haddr & Hend & Hcnt & Hidx & Hrun).
  rw -Haddr -Hend. apply wp_zoom. eapply wp_mono; [by eapply wp_flash_sect_erase_run|].
  intros e b' (k & Hk & Hd & Hok & Herr).
  assert (k = sect_idx s + 1) as ->.
  { destruct (decide (e = ERR_OK)) as [He|He]; [|specialize (Herr He); lia].
    destruct (Hok He) as [?|(t & _ & Hctl)]; [done|by rw Hquiet in Hctl]. }
  assert (open_sectors fi0 (sect_idx s) (sect_idx s + 1 - 1) = [env_addr s]) as Hopen.
  { replace (sect_idx s + 1 - 1) with (sect_idx s) by lia.
    rw open_sectors_snoc; [lia|]. rw open_sectors_nil decide_True /=.
    { specialize (Hp s). rw Hps in Hp. lia. }
    destruct Htab as (_ & Hb & _). destruct (spi_sector _ _ _ (sect_idx s) Hb ltac:(lia)) as [Hso _].
    by rw Hso Haddr. }
  rw Hopen in Hd. apply HQ. eapply stack_rel_did; [exact Hrel|exact Hd| |done..].
  intros cur l Hel Hwl. rw chip_steps_erases // Hel /=.
  rw /erase_step (proj2 (sect_at_spec _ s)); [lia|]. by destruct (e =? 0).
Qed.

(** A write inside an unprotected sector meets no protected one. *)
Lemma no_hit fi0 fi1 banks s addr e :
  spi_table k0 k1 fi0 fi1 banks → arr_at (fi_protect fi0) (sect_idx s) = 0 →
  env_addr s ≤ addr → e ≤ end_addr s → ¬ hit_by fi0 addr e.
Proof.
  intros Htab Hp Ha He Hh. destruct (env_sector _ _ _ _ s Htab) as (Haddr & Hend & Hcnt).
  pose proof (idx_range fi0 s Hcnt) as Hidx.
  assert (bank_ok fi0) as Hok by (destruct Htab as (_ & Hb & _); by eapply spi_bank_ok).
  apply Exists_exists in Hh as (i & Hi%elem_of_seqZ & Hpi & Hs & Hse & _).
  destruct (Z.lt_trichotomy i (sect_idx s)) as [Hlt|[->|Hgt]]; [|done|].
  - pose proof (send_lt Hok i (sect_idx s) ltac:(lia) ltac:(lia)). lia.
  - pose proof (send_lt Hok (sect_idx s) i ltac:(lia) ltac:(lia)). lia.
Qed.

Lemma wp_stk_write src cnt s off l0 a st (Q : Z → stk → Prop) :
  stack_rel l0 a st → fs_prot a s = false → cnt = Z.of_nat (length src) → 0 < cnt →
  Z.of_nat off + cnt ≤ 65536 →
  (∀ st', stack_rel l0 (after_write src s off a) st' → Q 0 st') →
  wp (on_board (FlashCmd.flash_write n src (env_addr s + Z.of_nat off) cnt)) Q st.
Proof.
  intros Hrel Hps -> Hpos Hfit HQ. pose proof (sr_table _ _ _ Hrel) as [Ht (fi0 & fi1 & Htab & Hkn & Hp)].
  pose proof (env_addr_range s) as [Hlo Hhi].
  pose proof (spi_table_write _ _ _ _ _ (env_addr s + Z.of_nat off) (Z.of_nat (length src)) Htab Hkn
    Hpos ltac:(lia) ltac:(lia)) as Hw.
  apply wp_zoom. eapply wp_mono; [apply (wp_flash_write _ _ 0 fi0); [done|done|lia]|].
  intros rc b'. cbn beta. rw decide_False.
  { eapply (no_hit fi0 fi1 _ s); [done| |lia|rw /end_addr /CFG_ENV_SECT_SIZE; lia].
    specialize (Hp s). rw Hps in Hp. lia. }
  intros [-> Hd]. rw Nat2Z.id take_ge // in Hd. apply HQ.
  eapply stack_rel_did; [exact Hrel|exact Hd| |done..].
  intros cur l Hel Hwl. rw chip_steps_writes // Hwl norm_progs. apply steps_placed. lia.
Qed.

Lemma wp_done rc l0 a st (Q : Z → stk → Prop) :
  stack_rel l0 a st →
  (∀ st', stack_rel l0 (after_protect true (other (fs_cur a)) (after_protect true (fs_cur a) a)) st' → Q rc st') →
  wp (saveenv_done rc) Q st.
Proof.
  intros Hrel HQ. rw /saveenv_done. wp_step. apply wp_get. rw (sr_cur _ _ _ Hrel).
  wp_step. eapply (wp_stk_protect true); [done|]. intros st1 H1.
  wp_step. eapply (wp_stk_protect true); [done|]. intros st2 H2. apply wp_ret. by apply HQ.
Qed.

(** The states of EnvFlash at the end of [saveenv]: before the erase, after the
    writes, and at the end. *)
Definition opened (a : fstate) : fstate :=
  after_protect false (other (fs_cur a)) (after_protect false (fs_cur a) a).
Definition closed (a : fstate) : fstate :=
  after_protect true (other (fs_cur a)) (after_protect true (fs_cur a) a).
Definition written (a : fstate) : fstate :=
  let A := fs_cur a in
  let B := other (fs_cur a) in
  set_cur (after_write [ACTIVE_FLAG] B 4 (after_write [OBSOLETE_FLAG] A 4
    (after_write (le32 (e_crc (fs_ram a))) B 0
      (after_write (e_data (fs_ram a)) B ENV_HEADER_SIZE a)))) B.
Definition saved_state (e : Z) (a : fstate) : fstate :=
  let erased := after_erase e (other (fs_cur a)) (opened a) in
  closed (if e =? 0 then written erased else erased).

Lemma opened_both a :
  fs_prot (opened a) (fs_cur a) = false ∧ fs_prot (opened a) (other (fs_cur a)) = false.
Proof. rw /opened. by destruct (fs_cur a). Qed.

Lemma wp_abs_protect e p s a (Q : Z → fstate → Prop) :
  Q 0 (after_protect p s a) → wp (EnvFlash.flash_sect_protect (dev := spi_dev e) p s) Q a.
Proof. done. Qed.

Lemma wp_abs_erase e s a (Q : Z → fstate → Prop) :
  Q e (after_erase e s a) → wp (EnvFlash.flash_sect_erase (dev := spi_dev e) s) Q a.
Proof. done. Qed.

Lemma wp_abs_write e src s off a (Q : Z → fstate → Prop) :
  fs_prot a s = false → Q 0 (after_write src s off a) →
  wp (EnvFlash.flash_write (dev := spi_dev e) src s off) Q a.
Proof. intros Hp HQ. rw /EnvFlash.flash_write /wp /bind /=. by rw Hp. Qed.

Lemma wp_abs_done e rc a (Q : Z → fstate → Prop) :
  Q rc (closed a) → wp (EnvFlash.saveenv_done (dev := spi_dev e) rc) Q a.
Proof. done. Qed.

Lemma saveenv_abstract e a :
  EnvFlash.saveenv (dev := spi_dev e) a = Ok (if e =? 0 then 0 else 1, saved_state e a).
Proof.
  enough (wp (EnvFlash.saveenv (dev := spi_dev e)) (λ rc a',
    rc = (if e =? 0 then 0 else 1) ∧ a' = saved_state e a) a) as H.
  { rw /wp in H. destruct (EnvFlash.saveenv a) as [[rc a']|]; [|done]. by destruct H as [-> ->]. }
  rw /EnvFlash.saveenv /saved_state. wp_step. apply wp_get.
  destruct (opened_both a) as [HA HB].
  do 2 (wp_step; apply wp_abs_protect; cbn [negb Z.eqb]). wp_step. apply wp_abs_erase. cbn beta.
  destruct (e =? 0); cbn [negb]; [|by apply wp_abs_done].
  do 4 (wp_step; apply wp_abs_write; [done|]; cbn [negb Z.eqb]).
  wp_step. apply wp_modify. by apply wp_abs_done.
Qed.

(** [saveenv], from what its erase does. *)
Lemma wp_saveenv_erase l0 a st (P : Z → fstate → Prop) (Q : Z → stk → Prop) :
  stack_rel l0 a st → Z.of_nat (length (e_data (fs_ram a))) = ENV_SIZE →
  (∀ st2 (Q' : Z → stk → Prop), stack_rel l0 (opened a) st2 →
     (∀ e a3 st3, stack_rel l0 a3 st3 → fs_prot a3 = fs_prot (opened a) → fs_cur a3 = fs_cur a →
        fs_ram a3 = fs_ram a → P e a3 → Q' e st3) →
     wp (on_board (FlashCmd.flash_sect_erase n (env_addr (other (fs_cur a)))
          (end_addr (other (fs_cur a))))) Q' st2) →
  (∀ e a3 st', P e a3 → stack_rel l0 (closed (if e =? 0 then written a3 else a3)) st' →
     Q (if e =? 0 then 0 else 1) st') →
  wp (saveenv n) Q st.
Proof.
  intros Hrel Hlen Herase HQ. rw /saveenv. wp_step. apply wp_get.
  rw (sr_cur _ _ _ Hrel) (sr_ram _ _ _ Hrel).
  wp_step. eapply (wp_stk_protect false); [done|]. intros st1 H1. cbn [negb Z.eqb].
  wp_step. eapply (wp_stk_protect false); [done|]. intros st2 H2. cbn [negb Z.eqb].
  wp_step. apply Herase; [done|]. intros e a3 st3 H3 Hp Hc Hr HP.
  specialize (HQ e a3). destruct (e =? 0) eqn:He; cbn [negb].
  2:{ eapply wp_done; [done|]. intros st4 H4. by apply HQ. }
  destruct (opened_both a) as [HA HB]. rw -Hp in HA HB. rw /written in HQ. rw -Hc in HA HB |- *. rw -Hr in Hlen |- *.
  wp_step. eapply (wp_stk_write _ _ _ ENV_HEADER_SIZE); [done|done|done|by rw /ENV_SIZE|by rw /ENV_SIZE|].
  intros st4 H4. cbn [negb Z.eqb].
  wp_step. rw -(Z.add_0_r (env_addr (other _))).
  eapply (wp_stk_write _ _ _ 0); [done|done|done|done|done|]. intros st5 H5. cbn [negb Z.eqb].
  wp_step. eapply (wp_stk_write _ _ _ 4); [done|done|done|done|done|]. intros st6 H6. cbn [negb Z.eqb].
  wp_step. rw Z.add_0_r. eapply (wp_stk_write _ _ _ 4); [done|done|done|done|done|].
  intros st7 H7. cbn [negb Z.eqb]. wp_step. apply wp_modify.
  eapply (wp_done _ _ (set_cur (after_write [ACTIVE_FLAG] _ 4 _) _)); [|intros st8; by apply HQ].
  by destruct H7; split.
Qed.

Lemma wp_stk_saveenv l0 a st (Q : Z → stk → Prop) :
  (∀ t, hw_ctrlc t = false) → stack_rel l0 a st → Z.of_nat (length (e_data (fs_ram a))) = ENV_SIZE →
  (∀ e st', stack_rel l0 (saved_state e a) st' → Q (if e =? 0 then 0 else 1) st') →
  wp (saveenv n) Q st.
Proof.
  intros Hquiet Hrel Hlen HQ.
  eapply (wp_saveenv_erase _ _ _ (λ e a3, a3 = after_erase e (other (fs_cur a)) (opened a))); [done..| |].
  - intros st2 Q' H2 HQ'. eapply wp_stk_erase; [done|done|apply opened_both|]. intros e st3 H3. by eapply HQ'.
  - intros e a3 st' ->. apply HQ.
Qed.

(** With ctrl-C down nothing is erased. *)
Lemma wp_erase_ctrlc s l0 a st (Q : Z → stk → Prop) :
  (∀ t, hw_ctrlc t = true) → stack_rel l0 a st → (∀ st', stack_rel l0 a st' → Q 0 st') →
  wp (on_board (FlashCmd.flash_sect_erase n (env_addr s) (end_addr s))) Q st.
Proof.
  intros Hctl Hrel HQ. pose proof (sr_table _ _ _ Hrel) as [Ht (fi0 & fi1 & Htab & Hkn & Hp)].
  destruct (env_run _ _ _ s Htab Hkn) as (Haddr & Hend & Hcnt & Hidx & Hrun).
  rw -Haddr -Hend. apply wp_zoom. eapply wp_flash_sect_erase_one; [done|].
  apply wp_bind, wp_get. rw Ht. apply wp_zoom. eapply wp_mono; [apply acts_erase_ctrlc; [|lia| |done]|].
  { by destruct Htab as (_ & (_ & _ & _ & ? & _) & _). }
  { destruct Htab as (_ & (_ & Hc & Hk & _) & _). lia. }
  intros rc sf [Hd ->]. split; [done|]. apply HQ.
  eapply (stack_rel_did _ [] [] []); [exact Hrel|by exists sf| |by rw ?app_nil_r..].
  intros cur l Hel Hwl. by rw chip_steps_writes // Hwl.
Qed.

End refine.

(** ** The traces *)

Lemma spi_dev_ok : FlashDevOk (spi_dev 0).
Proof. by split. Qed.

(** The steps of the writes, and of a complete [saveenv]. *)
Definition write_steps (a : fstate) : list step :=
  let A := fs_cur a in
  let B := other (fs_cur a) in
  progs B ENV_HEADER_SIZE (e_data (fs_ram a)) ++ progs B 0 (le32 (e_crc (fs_ram a))) ++
  progs A 4 [OBSOLETE_FLAG] ++ progs B 4 [ACTIVE_FLAG].
Definition save_steps (a : fstate) : list step := Erase (other (fs_cur a)) :: write_steps a.

Lemma written_trace a : fs_trace (written a) = fs_trace a ++ write_steps a.
Proof. rw /write_steps !app_assoc. reflexivity. Qed.

Lemma written_flash a : fs_flash (written a) = run_steps (fs_flash a) (write_steps a).
Proof. rw /write_steps !run_steps_app. reflexivity. Qed.

Lemma norm_write_steps a : norm_step <$> write_steps a = write_steps a.
Proof. by rw /write_steps !fmap_app !norm_progs. Qed.

Lemma saved_trace e a :
  norm_step <$> fs_trace (saved_state e a) =
  (norm_step <$> fs_trace a) ++ (if e =? 0 then save_steps a else [Erase (other (fs_cur a))]).
Proof.
  rw /saved_state /save_steps. cbn [closed fs_trace after_protect set_prot set_calls].
  destruct (e =? 0) eqn:He.
  - rw written_trace fmap_app norm_write_steps. cbn [fs_trace after_erase do_steps set_calls].
    rw He fmap_app -app_assoc //.
  - rw /= He fmap_app //.
Qed.

Lemma saved_trace_ok a : fs_trace a = [] → fs_trace (saved_state 0 a) = save_steps a.
Proof. intros Ha. rw /saved_state. cbn [Z.eqb]. rw -[fs_trace _]/(fs_trace (written _)) written_trace /= Ha //. Qed.

Lemma saved_state_flash a : fs_flash (saved_state 0 a) = run_steps (fs_flash a) (save_steps a).
Proof. rw /saved_state. cbn [Z.eqb]. rw -[fs_flash _]/(fs_flash (written _)) written_flash //. Qed.

(** The steps that are done, in either case, are the first of a complete save. *)
Lemma save_steps_prefix e a :
  ∃ k, (if e =? 0 then save_steps a else [Erase (other (fs_cur a))]) = take k (save_steps a).
Proof.
  destruct (e =? 0); [exists (length (save_steps a)); by rw firstn_all|by exists 1%nat].
Qed.

(** *** Writing over what is there *)

Lemma alter_mid {A} (f : A → A) (pre suf : list A) x :
  alter f (length pre) (pre ++ x :: suf) = pre ++ f x :: suf.
Proof. induction pre as [|y pre IH]; simpl; [done|]. by rw -IH. Qed.

(** Bytes written at an offset clear bits of the bytes that are there. *)
Lemma run_progs_land f s off bs pre mid suf :
  length pre = off → length mid = length bs → fl_get f s = pre ++ mid ++ suf →
  run_steps f (progs s off bs) = fl_set f s (pre ++ zip_with Z.land mid bs ++ suf).
Proof.
  revert f off pre mid. induction bs as [|b bs IH]; intros f off pre [|m mid] Hp Hl Hf; try discriminate Hl.
  { apply (fl_eq _ _ s); [by rw fl_get_set -Hf|by rw fl_get_set_other]. }
  injection Hl as Hl. subst off. rw progs_cons. change (run_steps f (?x :: ?l)) with (run_steps (apply_step f x) l).
  rw (IH _ _ (pre ++ [Z.land m b]) mid) /=; [|done|..].
  - rw length_app /=. lia.
  - rw fl_get_set Hf alter_mid -app_assoc //.
  - rw fl_set_set -app_assoc //.
Qed.

(** The image of an environment. *)
Definition env_image (ram : env_t) : list Z := le32 (e_crc ram) ++ [ACTIVE_FLAG] ++ e_data ram.

Lemma length_env_image ram : length (env_image ram) = (ENV_HEADER_SIZE + length (e_data ram))%nat.
Proof. done. Qed.

(** The writes over sectors that were not erased. *)
Lemma run_write_steps a f :
  length (fl_get f (other (fs_cur a))) = (ENV_HEADER_SIZE + length (e_data (fs_ram a)))%nat →
  let f' := run_steps f (write_steps a) in
  fl_get f' (other (fs_cur a)) = zip_with Z.land (fl_get f (other (fs_cur a))) (env_image (fs_ram a)) ∧
  fl_get f' (fs_cur a) = with_flag (fl_get f (fs_cur a)) OBSOLETE_FLAG.
Proof.
  intros Hlen f'. rw /f' /write_steps !run_steps_app !run_prog_flag. clear f'. set (B := other (fs_cur a)) in *.
  destruct (fl_get f B) as [|b0 [|b1 [|b2 [|b3 [|b4 d]]]]] eqn:HB; simpl in Hlen; try lia.
  rw (run_progs_land f B ENV_HEADER_SIZE _ [b0; b1; b2; b3; b4] d []); [done|lia|by rw HB app_nil_r|].
  rw (run_progs_land _ B 0 _ [] [b0; b1; b2; b3] (b4 :: zip_with Z.land d (e_data (fs_ram a)))); [done|done| |].
  { by rw fl_get_set app_nil_r. }
  rw fl_set_set /B. split.
  - rw fl_get_set fl_get_set_other fl_get_set //.
  - rw fl_get_other_set fl_get_set fl_get_other_set //.
Qed.

(** ** Theorems *)

Section claims.
Context {hw : SfHw} {nhw : NorHw}.

(** C4: [saveenv] over the flash commands and the serial flash driver refines
    [saveenv] over the interface of EnvFlash.  On a board with the table of
    [flash_init], a chip of at least three sectors and no ctrl-C, the run
    returns what a run over the interface returns when the erase answers what the
    driver answered; the sector in use, the RAM copy and the protection agree at
    the end, and the erase commands and bytes that the driver gave to the chip
    are the steps of that run. *)
Theorem saveenv_spi_refines n k0 k1 l0 a st :
  SfLive n → (∀ t, hw_ctrlc t = false) → 3 ≤ k0 → stack_rel k0 k1 l0 a st →
  Z.of_nat (length (e_data (fs_ram a))) = ENV_SIZE →
  wp (saveenv n) (λ rc st', ∃ e a',
    EnvFlash.saveenv (dev := spi_dev e) a = Ok (rc, a') ∧ stack_rel k0 k1 l0 a' st') st.
Proof.
  intros Hlive Hq Hk0 Hrel Hlen. eapply wp_stk_saveenv; [done..|]. intros e st' Hrel'.
  exists e, (saved_state e a). split; [apply saveenv_abstract|done].
Qed.

(** C3: [saveenv] on the serial flash, with ctrl-C never pressed, is crash safe,
    down to the registers of the controller.  (With ctrl-C the result 0 does not
    mean that the copy was saved, see the next theorem.) Let [mem] be the bytes
    of the flash window, with a good copy in the sector in use.  Wherever the
    events that the driver sends stop, the chip is at a crash point of the
    model; at each of these, and with the erased sector in any state if power
    goes during the erase, the copy in use is intact and the next start takes
    the old or the new environment (accidental CRC matches of a half-written
    sector apart).  When [saveenv] returns 0, the next start takes the RAM copy,
    from the other sector. *)
Theorem saveenv_spi_crash_safe n k0 k1 a st mem :
  SfLive n → (∀ t, hw_ctrlc t = false) → 3 ≤ k0 →
  stack_rel k0 k1 (sf_log (b_sf (k_board st))) a st → fs_trace a = [] → fs_flash a = view mem →
  Z.of_nat (length (e_data (fs_ram a))) = ENV_SIZE → Forall is_byte (e_data (fs_ram a)) →
  e_crc (fs_ram a) = crc32 0 (e_data (fs_ram a)) →
  crc_ok (fl_get (view mem) (fs_cur a)) = true →
  flag_ok (s_flags (fl_get (view mem) (fs_cur a))) →
  wp (saveenv n) (λ rc st', ∃ l, sf_log (b_sf (k_board st')) = sf_log (b_sf (k_board st)) ++ l ∧
    ∀ cur,
      (∀ k, crash (view mem) (chip_steps cur l) (view (chip_mem cur (take k l) mem))) ∧
      (∀ f', crash (view mem) (chip_steps cur l) f' →
         crash_good (view mem) (fs_cur a) (e_data (fs_ram a)) f') ∧
      (rc = 0 → let f := view (chip_mem cur l mem) in
         env_choice f = Some (LocSect (k_cur st'), 1) ∧
         s_env (fl_get f (k_cur st')) = EnvT (e_crc (fs_ram a)) ACTIVE_FLAG (e_data (fs_ram a)))) st.
Proof.
  intros Hlive Hq Hk0 Hrel Htr Hfl Hlen Hb Hcrc Hok Hflag.
  assert (sizes_ok (Z.to_nat ENV_SIZE) a) as Hsz.
  { assert (∀ s, length (fl_get (fs_flash a) s) = (ENV_HEADER_SIZE + Z.to_nat ENV_SIZE)%nat) as Hs.
    { intros s. rw Hfl fl_get_view length_sector_bytes. pose proof sect_len.
      rw /ENV_SIZE /CFG_ENV_SIZE /ENV_HEADER_SIZE. lia. }
    split_and!; [apply (Hs Sect1)|apply (Hs Sect2)|lia|done|rw Hcrc; apply crc32_word]. }
  eapply (wp_stk_saveenv n k0 k1); [done..|]. intros e st' Hrel'.
  destruct (sr_log _ _ _ _ _ Hrel') as (l & Hl & Hsteps). exists l. split; [done|]. intros cur.
  specialize (Hsteps cur). rw saved_trace Htr /= in Hsteps. split_and!.
  - intros k. destruct (chip_steps_take cur k l) as [k' Hk']. rw view_chip Hk'. constructor.
  - destruct (saveenv_outcome (dev := spi_dev 0) (Z.to_nat ENV_SIZE) a 0 (saved_state 0 a))
      as (_ & Hall & _); [done..|by rw Hfl|by rw Hfl|apply saveenv_abstract|].
    intros f' Hcr. rw -Hfl. apply Hall. rw (saved_trace_ok _ Htr) Hfl.
    destruct (save_steps_prefix e a) as [k Hk]. rw Hsteps Hk in Hcr. by eapply crash_take.
  - intros Hrc f. assert (e =? 0 = true) as He by by destruct (e =? 0).
    assert (f = saved_flash (fs_flash a) (fs_cur a) (fs_ram a) ∧ k_cur st' = other (fs_cur a)) as [-> ->].
    2:{ by apply (saved_flash_choice (Z.to_nat ENV_SIZE)). }
    pose proof (wp_saveenv_ok (dev := spi_dev 0) (Hok := spi_dev_ok) (Z.to_nat ENV_SIZE) a
      (λ _ a', fs_flash a' = saved_flash (fs_flash a) (fs_cur a) (fs_ram a))
      (sizes_ok_get _ _ _ Hsz) ltac:(lia) Hb ltac:(done)) as Hend.
    rw /wp saveenv_abstract in Hend. split.
    + by rw /f view_chip Hsteps He -Hend -Hfl saved_state_flash.
    + rw (sr_cur _ _ _ _ _ Hrel'). rw /saved_state He. done.
Qed.

(** C38: a ctrl-C can lose a save without an error.  With the key down, the erase of
    [saveenv] stops before its first sector and returns 0, and [saveenv] goes on:
    it programs the new environment over the old contents of the other sector,
    which leaves the bitwise AND of the two, marks the copy in use obsolete,
    switches to the other sector and returns 0.  When that AND fails its CRC, the
    next start takes the old environment again.  (When the other sector was blank
    the AND is the new environment, and nothing is lost.) *)
Theorem saveenv_spi_ctrlc n k0 k1 a st mem :
  SfLive n → (∀ t, hw_ctrlc t = true) → 3 ≤ k0 →
  stack_rel k0 k1 (sf_log (b_sf (k_board st))) a st → fs_trace a = [] →
  Z.of_nat (length (e_data (fs_ram a))) = ENV_SIZE →
  wp (saveenv n) (λ rc st', rc = 0 ∧ k_cur st' = other (k_cur st) ∧
    ∃ l, sf_log (b_sf (k_board st')) = sf_log (b_sf (k_board st)) ++ l ∧
    let mix := zip_with Z.land (fl_get (view mem) (other (k_cur st))) (env_image (k_ram st)) in
    ∀ cur, let f := view (chip_mem cur l mem) in
      fl_get f (other (k_cur st)) = mix ∧
      fl_get f (k_cur st) = with_flag (fl_get (view mem) (k_cur st)) OBSOLETE_FLAG ∧
      (crc_ok (fl_get (view mem) (k_cur st)) = true → crc_ok mix = false →
       selected_data f = Some (s_data (fl_get (view mem) (k_cur st))))) st.
Proof.
  intros Hlive Hctl Hk0 Hrel Htr Hlen. rw (sr_cur _ _ _ _ _ Hrel) (sr_ram _ _ _ _ _ Hrel).
  eapply (wp_saveenv_erase n k0 k1 Hk0 _ _ _ (λ e a3, e = 0 ∧ a3 = opened a)); [done..| |].
  { intros st2 Q' H2 HQ'. eapply wp_erase_ctrlc; [done..|]. intros st3 H3. by eapply HQ'. }
  intros e a3 st' [-> ->] Hrel'. cbn [Z.eqb] in Hrel' |- *. split; [done|].
  split; [by rw (sr_cur _ _ _ _ _ Hrel')|].
  destruct (sr_log _ _ _ _ _ Hrel') as (l & Hl & Hsteps). exists l. split; [done|]. intros cur.
  specialize (Hsteps cur). rw -[fs_trace _]/(fs_trace (written _)) written_trace fmap_app norm_write_steps /= Htr in Hsteps.
  assert (∀ s, length (fl_get (view mem) s) = (ENV_HEADER_SIZE + length (e_data (fs_ram a)))%nat) as Hs.
  { intros s. rw fl_get_view length_sector_bytes. pose proof sect_len. rw /ENV_SIZE /CFG_ENV_SIZE in Hlen. lia. }
  destruct (run_write_steps (opened a) (view mem)) as [HB HA]; [apply Hs|].
  rw -[write_steps _]Hsteps -view_chip in HA HB. split_and!; [exact HB|exact HA|]. intros Hok Hbad.
  destruct (with_flag_spec (fl_get (view mem) (fs_cur a)) OBSOLETE_FLAG) as (_ & HdA & _ & HcA & _).
  { rw Hs /ENV_HEADER_SIZE. lia. }
  rw /selected_data (choice_single _ (fs_cur a)); [by rw HA HcA|by rw HB|by rw HA HdA].
Qed.

End claims.

(** ** A board with two 8 MB chips and an environment in the first sector *)

#[local] Existing Instance quiet_nor.

(** Every register reads 0 and the key is up, or down. *)
Definition key_hw (down : bool) : SfHw :=
  {| hw_reg _ _ := 0; hw_timer _ := 0; hw_ctrlc _ := down |}.

Lemma key_live down : @SfLive (key_hw down) 1.
Proof. split; [intros t sr|intros t]; exists 0%nat; (split; [lia|]); [by left|done]. Qed.

Definition demo_env (v : string) : env_t :=
  let data := bytes v ++ replicate (Z.to_nat 65528) 0 in EnvT (crc32 0 data) ACTIVE_FLAG data.
Definition demo_mem : Z → Z := mem_of (env_image (demo_env "a=1")) CFG_ENV_ADDR.
Definition demo_stk : stk := Stk demo_board Sect1 (demo_env "a=2").
Definition demo_abs : fstate :=
  FState (view demo_mem) [] 0 (λ s, negb (arr_at (fi_protect demo_bank0) (sect_idx 128 s) =? 0))
    Sect1 LocRam 1 (demo_env "a=2").

Lemma demo_len v : length (bytes v) = 3%nat → Z.of_nat (length (e_data (demo_env v))) = ENV_SIZE.
Proof.
  intros Hv. rw /demo_env. cbn [e_data]. rw length_app length_replicate Hv Nat2Z.inj_add Z2Nat.id; [lia|].
  rw /ENV_SIZE /CFG_ENV_SIZE /ENV_HEADER_SIZE. lia.
Qed.

Lemma demo_image_len v : length (bytes v) = 3%nat → SECT_LEN = length (env_image (demo_env v)).
Proof.
  intros Hv. apply Nat2Z.inj. pose proof (demo_len v Hv) as Hd.
  pose proof (length_env_image (demo_env v)) as Hi. pose proof sect_len.
  unfold ENV_SIZE, CFG_ENV_SIZE, ENV_HEADER_SIZE in *. lia.
Qed.

Lemma demo_bytes v : Forall is_byte (bytes v) → Forall is_byte (e_data (demo_env v)).
Proof. intros H. apply Forall_app. split; [done|]. apply Forall_replicate. rw /is_byte. lia. Qed.

Lemma demo_rel : stack_rel 128 128 (sf_log (b_sf (k_board demo_stk))) demo_abs demo_stk.
Proof.
  split.
  - split; [reflexivity|]. exists demo_bank0, demo_bank1. split; [apply demo_table|]. split; [|reflexivity].
    intros H. discriminate H.
  - exists []. split; [reflexivity|]. intros cur. reflexivity.
  - reflexivity.
  - reflexivity.
Qed.

Lemma demo_first : fl_get (view demo_mem) Sect1 = env_image (demo_env "a=1").
Proof.
  rw fl_get_view /sector_bytes (demo_image_len "a=1" eq_refl). apply bytes_at_mem_of.
Qed.

Lemma demo_flag v : flag_ok (s_flags (env_image (demo_env v))).
Proof. destruct (saved_sector_spec (demo_env v)) as (_ & Hf & _); [apply crc32_word|]. rw /env_image Hf. by right; left. Qed.

Lemma demo_crc v : crc_ok (env_image (demo_env v)) = true.
Proof.
  destruct (saved_sector_spec (demo_env v)) as (_ & _ & Hc); [apply crc32_word|].
  rw /env_image Hc. apply Z.eqb_refl.
Qed.

Lemma saveenv_spi_refines_witness :
  wp (saveenv (hw := key_hw false) 1) (λ rc st', ∃ e a',
    EnvFlash.saveenv (dev := spi_dev e) demo_abs = Ok (rc, a') ∧
    stack_rel 128 128 (sf_log (b_sf (k_board demo_stk))) a' st') demo_stk.
Proof.
  apply (saveenv_spi_refines 1 128 128 (sf_log (b_sf (k_board demo_stk))) demo_abs demo_stk (key_live false)).
  - reflexivity.
  - lia.
  - apply demo_rel.
  - by apply demo_len.
Defined.

Lemma saveenv_spi_crash_safe_witness :
  wp (saveenv (hw := key_hw false) 1) (λ rc st', ∃ l, sf_log (b_sf (k_board st')) = sf_log (b_sf (k_board demo_stk)) ++ l ∧
    ∀ cur,
      (∀ k, crash (view demo_mem) (chip_steps cur l) (view (chip_mem cur (take k l) demo_mem))) ∧
      (∀ f', crash (view demo_mem) (chip_steps cur l) f' →
         crash_good (view demo_mem) (fs_cur demo_abs) (e_data (fs_ram demo_abs)) f') ∧
      (rc = 0 → let f := view (chip_mem cur l demo_mem) in
         env_choice f = Some (LocSect (k_cur st'), 1) ∧
         s_env (fl_get f (k_cur st')) =
           EnvT (e_crc (fs_ram demo_abs)) ACTIVE_FLAG (e_data (fs_ram demo_abs)))) demo_stk.
Proof.
  apply (saveenv_spi_crash_safe 1 128 128 demo_abs demo_stk demo_mem (key_live false)).
  - reflexivity.
  - lia.
  - apply demo_rel.
  - reflexivity.
  - reflexivity.
  - by apply demo_len.
  - apply demo_bytes. repeat constructor; rw /is_byte; lia.
  - reflexivity.
  - rw demo_first. apply demo_crc.
  - rw demo_first. apply demo_flag.
Defined.

(** The same with zeros in the other sector: nothing can be programmed there. *)
Definition demo_used : Z → Z := λ a, if a <? env_addr Sect2 then demo_mem a else 0.

Lemma demo_used_first : fl_get (view demo_used) Sect1 = env_image (demo_env "a=1").
Proof.
  rw -demo_first !fl_get_view. apply bytes_at_ext. intros i Hi. pose proof sect_len.
  rw /demo_used. destruct (Z.ltb_spec i (env_addr Sect2)) as [_|Hge]; [done|].
  exfalso. change (env_addr Sect2) with (env_addr Sect1 + 0x10000) in Hge. lia.
Qed.

Lemma zeros_bad : crc_ok (replicate SECT_LEN 0) = false.
Proof. vm_compute. reflexivity. Qed.

Lemma demo_used_mix :
  zip_with Z.land (fl_get (view demo_used) Sect2) (env_image (demo_env "a=2")) = replicate SECT_LEN 0.
Proof.
  assert (fl_get (view demo_used) Sect2 = replicate SECT_LEN 0) as ->.
  { rw fl_get_view. apply bytes_at_const. intros a Ha. rw /demo_used (proj2 (Z.ltb_ge _ _)) //. lia. }
  rw (demo_image_len "a=2" eq_refl).
  induction (env_image (demo_env "a=2")) as [|x l IH]; [done|]. simpl. by rw IH.
Qed.

Lemma saveenv_spi_ctrlc_witness :
  wp (saveenv (hw := key_hw true) 1) (λ rc st', rc = 0 ∧ k_cur st' = Sect2 ∧
    ∃ l, sf_log (b_sf (k_board st')) = sf_log (b_sf (k_board demo_stk)) ++ l ∧
    ∀ cur, selected_data (view (chip_mem cur l demo_used)) =
             Some (s_data (env_image (demo_env "a=1")))) demo_stk.
Proof.
  eapply wp_mono.
  - apply (saveenv_spi_ctrlc 1 128 128 demo_abs demo_stk demo_used (key_live true)).
    + reflexivity.
    + lia.
    + apply demo_rel.
    + reflexivity.
    + by apply demo_len.
  - intros rc st' (Hrc & Hcur & l & Hl & H). split; [exact Hrc|]. split; [exact Hcur|].
    exists l. split; [exact Hl|]. intros cur. destruct (H cur) as (_ & _ & Hsel).
    change (k_cur demo_stk) with Sect1 in Hsel. rw demo_used_first in Hsel. apply Hsel.
    + apply demo_crc.
    + change (k_ram demo_stk) with (demo_env "a=2"). rw -[other Sect1]/Sect2 demo_used_mix. apply zeros_bad.
Defined.
