(* ===== verification/Command.v ===== *)
(** * The command table (u-boot/common/command.c)

    Looking a command up by name or abbreviation, the list of commands that
    [help] prints, and the commands [echo], [test] and [exit] of the shell,
    with the string functions they use (lib_generic/string.c).  The table, which
    the linker collects from all commands of the image, is an argument. *)

From Stdlib Require Import ssreflect ZArith Lia String Sorting.Sorted.
From stdpp Require Import base tactics numbers list sets sorting.
From S2P Require Import Prelude Vsprintf EnvFormat.

Set Default Goal Selector "!".
Open Scope general_if_scope.

(** ** Strings (lib_generic/string.c)

    [char] is unsigned on the board's ARM; the difference of two characters is
    kept in a [signed char]. *)

Fixpoint strcmp (cs ct : list Z) : Z :=
  let res := s8 (deref cs - deref ct) in
  if negb (res =? 0)%Z then res else
  match cs with
  | [] => res
  | _ :: cs' => strcmp cs' (tail ct)
  end.

Fixpoint strncmp (cs ct : list Z) (count : nat) : Z :=
  match count with
  | O => 0
  | S count' =>
      let res := s8 (deref cs - deref ct) in
      if negb (res =? 0)%Z then res else
      match cs with
      | [] => res
      | _ :: cs' => strncmp cs' (tail ct) count'
      end
  end.

(** The index of the first [c]. *)
Fixpoint strchr (s : list Z) (c : Z) : option nat :=
  match s with
  | [] => if (c =? 0)%Z then Some 0%nat else None
  | x :: s' => if (x =? c)%Z then Some 0%nat else S <$> strchr s' c
  end.

(** A C string: bytes, no NUL inside. *)
Definition cstring (s : list Z) : Prop := Forall (λ c, 0 < c < 256)%Z s.
Definition ascii (s : list Z) : Prop := Forall (λ c, 0 < c < 128)%Z s.

(** ** The table *)

(** What a [complete] function returns: its result and [cmdv] up to the null. *)
Definition completer : Type :=
  list (list Z) → Z → nat → M (list Z) (Z * list (list Z)).

Record cmd_tbl_t (St : Type) := CmdTbl {
  name : list Z;
  maxargs : Z;
  repeatable : Z;
  cmd : Z → list (list Z) → M St Z;  (** on [flag] and [argv] *)
  usage : option (list Z);
  help : option (list Z);
  complete : option completer
}.
Arguments CmdTbl {St} _ _ _ _ _ _ _.
Arguments name {St} _.
Arguments maxargs {St} _.
Arguments repeatable {St} _.
Arguments cmd {St} _ _ _ _.
Arguments usage {St} _.
Arguments help {St} _.
Arguments complete {St} _.

Definition DOT : Z := 46.

(** [((p = strchr(cmd, '.')) == NULL) ? strlen (cmd) : (p - cmd)] *)
Definition cmd_len (s : list Z) : nat :=
  match strchr s DOT with None => length s | Some p => p end.

(** The loop, at entry [i] of the table; a result is the entry's index. *)
Fixpoint find_cmd_loop {St} (tbl : list (cmd_tbl_t St)) (i : nat) (s : list Z) (len : nat)
    (cmdtp_temp n_found : nat) : option nat :=
  match tbl with
  | [] => if decide (n_found = 1)%nat then Some cmdtp_temp else None
  | cmdtp :: tbl' =>
      if (strncmp s (name cmdtp) len =? 0)%Z then
        if decide (len = length (name cmdtp)) then Some i
        else find_cmd_loop tbl' (S i) s len i (S n_found)
      else find_cmd_loop tbl' (S i) s len cmdtp_temp n_found
  end.

Definition find_cmd {St} (tbl : list (cmd_tbl_t St)) (s : list Z) : option nat :=
  find_cmd_loop tbl 0 s (cmd_len s) 0 0.

(** ** [echo], [test], [exit] *)

(** One argument: what is printed, and [putnl] after it. *)
Fixpoint echo_arg (p : list Z) (putnl : bool) : list Z * bool :=
  match p with
  | [] => ([], putnl)
  | c :: p' =>
      let plain := let '(out, nl) := echo_arg p' putnl in (c :: out, nl) in
      if (c =? 92)%Z then
        match p' with
        | d :: p'' => if (d =? 99)%Z then echo_arg p'' false else plain
        | [] => plain
        end
      else plain
  end.

Fixpoint echo_args (first : bool) (args : list (list Z)) (putnl : bool) : list Z * bool :=
  match args with
  | [] => ([], putnl)
  | a :: args' =>
      let '(out, putnl) := echo_arg a putnl in
      let '(out', putnl) := echo_args false args' putnl in
      ((if first then [] else [32%Z]) ++ out ++ out', putnl)
  end.

(** [argv] is argv[1..argc-1]; the output and the result. *)
Definition do_echo (argv : list (list Z)) : list Z * Z :=
  let '(out, putnl) := echo_args true argv true in
  (out ++ (if putnl then [10%Z] else []), 0%Z).

Definition is_word (w : string) (s : list Z) : bool := (strcmp s (bytes w) =? 0)%Z.
Definition c_bool (b : bool) : Z := if b then 1%Z else 0%Z.
Definition truth (x : Z) : bool := negb (x =? 0)%Z.

(** The [if (last_cmp == 0) ... else if (last_cmp == 1) ...] after a test. *)
Definition test_join (last_cmp last_expr expr : Z) : Z :=
  if (last_cmp =? 0)%Z then c_bool (truth last_expr || truth expr)
  else if (last_cmp =? 1)%Z then c_bool (truth last_expr && truth expr)
  else expr.

(** A test with three words; [None] is the [else] that breaks. *)
Definition test_op (a op b : list Z) : option bool :=
  let num s := (simple_strtol s 10).1 in
  if is_word "=" op then Some (strcmp a b =? 0)%Z
  else if is_word "!=" op then Some (negb (strcmp a b =? 0)%Z)
  else if is_word ">" op then Some (0 <? strcmp a b)%Z
  else if is_word "<" op then Some (strcmp a b <? 0)%Z
  else if is_word "-eq" op then Some (num a =? num b)%Z
  else if is_word "-ne" op then Some (negb (num a =? num b)%Z)
  else if is_word "-lt" op then Some (num a <? num b)%Z
  else if is_word "-le" op then Some (num a <=? num b)%Z
  else if is_word "-gt" op then Some (num b <? num a)%Z
  else if is_word "-ge" op then Some (num b <=? num a)%Z
  else None.

(** The [while (left > 0)] loop on the words [ap] that are left: [expr] at its end. *)
Fixpoint test_loop (ap : list (list Z)) (expr last_expr last_cmp : Z) : Z :=
  match ap with
  | [] => expr
  | a :: ap1 =>
      if is_word "-o" a then test_loop ap1 expr expr 0
      else if is_word "-a" a then test_loop ap1 expr expr 1
      else if is_word "-z" a || is_word "-n" a then
        match ap1 with
        | [] => 1%Z
        | b :: ap2 =>
            let empty := bool_decide (length b = 0)%nat in
            let expr := c_bool (if is_word "-z" a then empty else negb empty) in
            test_loop ap2 (test_join last_cmp last_expr expr) last_expr (-1)
        end
      else
        match ap1 with
        | op :: b :: ap3 =>
            match test_op a op b with
            | None => 1%Z
            | Some r => test_loop ap3 (test_join last_cmp last_expr (c_bool r)) last_expr (-1)
            end
        | _ => 1%Z
        end
  end.

(** [argv] is argv[1..argc-1]. *)
Definition do_test (argv : list (list Z)) : Z :=
  match argv with
  | a :: ((_ :: _) as ap1) =>
      let neg := is_word "!" a in
      let ap := if neg then ap1 else argv in
      let expr := test_loop ap (-1) (-1) (-1) in
      let expr := if neg then c_bool (negb (truth expr)) else expr in
      c_bool (negb (truth expr))
  | _ => 1%Z
  end.

Definition do_exit (argv : list (list Z)) : Z :=
  let r := match argv with a :: _ => s32 (simple_strtoul a 10).1 | [] => 0%Z end in
  s32 (- r - 2).

(** ** [help] *)

Section help.
Context {St : Type}.
Implicit Types (l tbl : list (cmd_tbl_t St)).

(** [for (j = 0; j < i; ++j)]: the rest of the array from [j] on, and [swaps]. *)
Fixpoint bubble_pass (i : nat) l : list (cmd_tbl_t St) * nat :=
  match i, l with
  | S i', x :: y :: l' =>
      if (0 <? strcmp (name x) (name y))%Z then
        let '(r, swaps) := bubble_pass i' (x :: l') in (y :: r, S swaps)
      else
        let '(r, swaps) := bubble_pass i' (y :: l') in (x :: r, swaps)
  | _, _ => (l, 0%nat)
  end.

(** [for (i = cmd_items - 1; i > 0; --i)], with the [break]. *)
Fixpoint bubble_sort (i : nat) l : list (cmd_tbl_t St) :=
  match i with
  | O => l
  | S i' =>
      let '(l, swaps) := bubble_pass i l in
      if decide (swaps = 0)%nat then l else bubble_sort i' l
  end.

(** "print short help (usage)": [ctrlc k] is what the k-th call returns. *)
Fixpoint help_list (ctrlc : nat → bool) (k : nat) l : list Z * Z :=
  match l with
  | [] => ([], 0%Z)
  | c :: l' =>
      if ctrlc k then ([], 1%Z) else
      let '(out, rc) := help_list ctrlc (S k) l' in
      (default [] (usage c) ++ out, rc)
  end.

Definition unknown_help (s : list Z) : list Z :=
  bytes "Unknown command '" ++ s ++
  bytes "' - try 'help' without arguments for list of all known commands" ++ [10; 10]%Z.

(** "command help (long version)", with CFG_LONGHELP. *)
Fixpoint help_args tbl (args : list (list Z)) (rcode : Z) : list Z * Z :=
  match args with
  | [] => ([], rcode)
  | a :: args' =>
      let '(line, rcode) :=
        match find_cmd tbl a ≫= (λ i, tbl !! i) with
        | Some c =>
            match help c with
            | Some h => (name c ++ [32%Z] ++ h ++ [10%Z], rcode)
            | None => (name c ++ [32%Z] ++ bytes "- No help available." ++ [10; 10]%Z, 1%Z)
            end
        | None => (unknown_help a, 1%Z)
        end in
      let '(out, rcode) := help_args tbl args' rcode in (line ++ out, rcode)
  end.

(** [argv] is argv[1..argc-1]; the output and the result. *)
Definition do_help tbl (ctrlc : nat → bool) (argv : list (list Z)) : list Z * Z :=
  match argv with
  | [] => help_list ctrlc 0 (bubble_sort (length tbl - 1) tbl)
  | _ => help_args tbl argv 0
  end.

End help.

(** ** Comparing strings *)

Lemma s8_zero d : (-256 < d < 256)%Z → s8 d = 0%Z ↔ d = 0%Z.
Proof.
  intros Hd. rw /s8 /swrap. change (2 ^ (8 - 1))%Z with 128%Z. change (2 ^ 8)%Z with 256%Z.
  split; [|by intros ->]. intros H. pose proof (Z.div_mod (d + 128) 256). lia.
Qed.

Lemma s8_small d : (-128 < d < 128)%Z → s8 d = d.
Proof. intros Hd. apply swrap_small; [done|]. change (2 ^ (8 - 1))%Z with 128%Z. lia. Qed.

Lemma strcmp_cons x s y t :
  strcmp (x :: s) (y :: t) =
  if negb (s8 (x - y) =? 0)%Z then s8 (x - y) else strcmp s t.
Proof. done. Qed.

Lemma strncmp_cons x s y t n :
  strncmp (x :: s) (y :: t) (S n) =
  if negb (s8 (x - y) =? 0)%Z then s8 (x - y) else strncmp s t n.
Proof. done. Qed.

(** [strcmp] tests equality. *)
Lemma strcmp_eq a b : cstring a → cstring b → strcmp a b = 0%Z ↔ a = b.
Proof.
  intros Ha. revert b. induction Ha as [|x a Hx Ha IH]; intros b Hb.
  - destruct Hb as [|y b Hy Hb]; [done|]. simpl.
    assert (s8 (0 - y) ≠ 0%Z) as Hne by (rw s8_zero; lia).
    rw (proj2 (Z.eqb_neq _ _) Hne). by split.
  - destruct Hb as [|y b Hy Hb].
    + simpl. assert (s8 (x - 0) ≠ 0%Z) as Hne by (rw s8_zero; lia).
      rw (proj2 (Z.eqb_neq _ _) Hne). by split.
    + rw strcmp_cons. destruct (Z.eqb_spec (s8 (x - y)) 0) as [H|H]; simpl.
      * rw s8_zero in H; [lia|]. rw IH //. split; [intros ->; f_equal; lia|by intros [= _ ->]].
      * split; [by intros|]. intros [= -> ->]. by rw Z.sub_diag in H.
Qed.

Lemma is_word_eq w s : cstring s → cstring (bytes w) → is_word w s = bool_decide (s = bytes w).
Proof.
  intros Hs Hw. rw /is_word. apply eq_true_iff_eq. rw Z.eqb_eq bool_decide_eq_true.
  by apply strcmp_eq.
Qed.

(** [strncmp] up to the length of the first string tests for a prefix. *)
Lemma strncmp_prefix s t len :
  cstring s → cstring t → (len ≤ length s)%nat →
  strncmp s t len = 0%Z ↔ take len s `prefix_of` t.
Proof.
  intros Hs. revert t len. induction Hs as [|x s Hx Hs IH]; intros t [|len] Ht Hlen.
  - split; [intros _; apply prefix_nil|done].
  - simpl in Hlen. lia.
  - split; [intros _; apply prefix_nil|done].
  - simpl in Hlen. rw firstn_cons. destruct Ht as [|y t Hy Ht].
    + assert (s8 (x - 0) ≠ 0%Z) as Hne by (rw s8_zero; lia). simpl.
      rw (proj2 (Z.eqb_neq _ _) Hne). split; [by intros|by intros ?%prefix_nil_inv].
    + rw strncmp_cons. destruct (Z.eqb_spec (s8 (x - y)) 0) as [H|H]; simpl.
      * rw s8_zero in H; [lia|]. rw IH; [done|lia|].
        assert (x = y) as -> by lia. split; [apply prefix_cons|apply prefix_cons_inv_2].
      * split; [by intros|]. intros ->%prefix_cons_inv_1. by rw Z.sub_diag in H.
Qed.

(** On ASCII strings [strcmp] is the lexicographic order. *)
Lemma strcmp_ascii a b :
  ascii a → ascii b →
  strcmp a b = match a, b with
               | x :: a', y :: b' => if decide (x = y) then strcmp a' b' else (x - y)%Z
               | x :: _, [] => x
               | [], y :: _ => (- y)%Z
               | [], [] => 0%Z
               end.
Proof.
  intros [|x a' Hx _] [|y b' Hy _]; rw /= /deref /= ?s8_small; try lia.
  - by rw (proj2 (Z.eqb_neq _ _)); [lia|simpl; lia].
  - by rw (proj2 (Z.eqb_neq _ _)); [lia|simpl; lia].
  - destruct (decide (x = y)) as [->|Hne]; [by rw Z.sub_diag|].
    by rw (proj2 (Z.eqb_neq _ _)); [lia|].
Qed.

Lemma strcmp_total a b : ascii a → ascii b → (0 < strcmp a b)%Z → (strcmp b a ≤ 0)%Z.
Proof.
  intros Ha. revert b. induction Ha as [|x a Hx Ha IH]; intros b Hb;
    rw !strcmp_ascii //; try by constructor.
  - destruct Hb; simpl; lia.
  - destruct Hb as [|y b Hy Hb]; [lia|].
    destruct (decide (x = y)) as [->|]; [rw decide_True //; by apply IH|].
    rw decide_False; [congruence|lia].
Qed.

Lemma strcmp_trans a b c :
  ascii a → ascii b → ascii c → (strcmp a b ≤ 0)%Z → (strcmp b c ≤ 0)%Z → (strcmp a c ≤ 0)%Z.
Proof.
  intros Ha. revert b c. induction Ha as [|x a Hx Ha IH]; intros b c Hb Hc;
    rw !strcmp_ascii //; try by constructor.
  - destruct Hc; lia.
  - destruct Hb as [|y b Hy Hb]; [lia|]. destruct Hc as [|z c Hz Hc]; [lia|].
    repeat destruct (decide _); subst; try lia. by apply IH.
Qed.

(** ** Looking a command up *)

(** The part of the word that is compared. *)
Definition cmd_key (s : list Z) : list Z := take (cmd_len s) s.

Lemma strchr_le s c p : c ≠ 0%Z → strchr s c = Some p → (p ≤ length s)%nat.
Proof.
  intros Hc. revert p. induction s as [|x s IH]; intros p; simpl.
  { by rw (proj2 (Z.eqb_neq _ _)). }
  destruct (x =? c)%Z; [intros [= <-]; lia|]. destruct (strchr s c); [|done].
  intros [= <-]. specialize (IH _ eq_refl). lia.
Qed.

Lemma cmd_len_le s : (cmd_len s ≤ length s)%nat.
Proof. rw /cmd_len. destruct (strchr s DOT) eqn:E; [by eapply strchr_le, E|done]. Qed.

Lemma cmd_key_length s : length (cmd_key s) = cmd_len s.
Proof. rw /cmd_key length_take. pose proof (cmd_len_le s). lia. Qed.

(** A word without a dot is compared as a whole. *)
Lemma strchr_notin s c : c ≠ 0%Z → c ∉ s → strchr s c = None.
Proof.
  intros Hc. induction s as [|x s IH]; simpl; [by rw (proj2 (Z.eqb_neq _ _))|].
  intros [Hx Hs]%not_elem_of_cons. rw (proj2 (Z.eqb_neq x c)); [congruence|]. by rw IH.
Qed.

Lemma cmd_key_plain s : DOT ∉ s → cmd_key s = s.
Proof. intros Hs. by rw /cmd_key /cmd_len strchr_notin // firstn_all. Qed.

Lemma length_filter_snoc {A} (P : A → Prop) `{∀ x, Decision (P x)} (l : list A) x :
  length (filter P (l ++ [x])) = (length (filter P l) + if decide (P x) then 1 else 0)%nat.
Proof. rw filter_app length_app filter_cons filter_nil. by destruct (decide (P x)). Qed.

Lemma fmap_snoc_lookup {A B} (f : A → B) l x j y :
  (f <$> l ++ [x]) !! j = Some y → (f <$> l) !! j = Some y ∨ j = length l ∧ y = f x.
Proof.
  rw fmap_app lookup_app. destruct ((f <$> l) !! j) eqn:E; [by left|].
  rw length_fmap. intros H. right. apply lookup_ge_None in E. rw length_fmap in E.
  destruct (j - length l)%nat eqn:Ej; simpl in H; [|done]. split; [lia|congruence].
Qed.

Section lookup.
Context {St : Type} (tbl : list (cmd_tbl_t St)).
Hypothesis Htbl : Forall (λ c, cstring (name c)) tbl.

(** Entry [i] has the name [key], and is the first that does. *)
Definition full_match (key : list Z) (i : nat) : Prop :=
  (name <$> tbl) !! i = Some key ∧ ∀ j, (j < i)%nat → (name <$> tbl) !! j ≠ Some key.

(** Entry [i] is the only one whose name starts with [key], and its name is
    longer. *)
Definition only_match (key : list Z) (i : nat) : Prop :=
  ∀ j nm, (name <$> tbl) !! j = Some nm → (key `prefix_of` nm ↔ j = i) ∧ nm ≠ key.

Lemma find_cmd_loop_spec s pre suf temp n_found :
  cstring s → tbl = pre ++ suf →
  (∀ nm, nm ∈ name <$> pre → nm ≠ cmd_key s) →
  n_found = length (filter (λ nm, cmd_key s `prefix_of` nm) (name <$> pre)) →
  (n_found = 1%nat → (temp < length pre)%nat ∧
     ∀ j nm, (name <$> pre) !! j = Some nm → cmd_key s `prefix_of` nm ↔ j = temp) →
  match find_cmd_loop suf (length pre) s (cmd_len s) temp n_found with
  | Some i => full_match (cmd_key s) i ∨ ((i < length tbl)%nat ∧ only_match (cmd_key s) i)
  | None => (cmd_key s ∉ name <$> tbl) ∧
            length (filter (λ nm, cmd_key s `prefix_of` nm) (name <$> tbl)) ≠ 1%nat
  end.
Proof.
  intros Hs. revert pre temp n_found.
  induction suf as [|c suf IH]; intros pre temp n_found Ht Hno Hn Htemp; cbn [find_cmd_loop].
  - rw app_nil_r in Ht. rw Ht. destruct (decide (n_found = 1)%nat) as [H1|H1].
    + right. destruct (Htemp H1) as [Hlt Hj]. split; [done|]. rw /only_match Ht.
      intros j nm Hnm. split; [by apply Hj|]. apply Hno. by eapply list_elem_of_lookup_2.
    + split; [|by rw -Hn]. intros Hin. by apply (Hno _ Hin).
  - assert (tbl = (pre ++ [c]) ++ suf) as Ht' by (by rw -app_assoc).
    assert (cstring (name c)) as Hc.
    { pose proof Htbl as Hall. rw Ht in Hall. by apply Forall_app in Hall as [_ [? _]%Forall_cons]. }
    replace (S (length pre)) with (length (pre ++ [c])) by (rw length_app /=; lia).
    pose proof (fmap_snoc_lookup name pre c) as Hlast.
    pose proof (strncmp_prefix s (name c) (cmd_len s) Hs Hc (cmd_len_le s)) as Hp.
    destruct (Z.eqb_spec (strncmp s (name c) (cmd_len s)) 0) as [Heq|Hne].
    + apply Hp in Heq. change (take _ _) with (cmd_key s) in Heq.
      destruct (decide (cmd_len s = length (name c))) as [Hl|Hl].
      * left. assert (cmd_key s = name c) as Hk.
        { apply prefix_length_eq; [done|]. rw cmd_key_length. lia. }
        split.
        -- rw Ht fmap_app fmap_cons. replace (length pre) with (length (name <$> pre)) by
             apply length_fmap. by rw lookup_app_len Hk.
        -- intros j Hj. rw Ht fmap_app lookup_app_l; [by rw length_fmap|]. intros Hnm.
           apply (Hno (cmd_key s)); [|done]. by eapply list_elem_of_lookup_2.
      * apply IH; [done| | |].
        -- intros nm. rw fmap_app elem_of_app list_elem_of_singleton.
           intros [?| ->]; [by apply Hno|]. intros Hk. apply Hl. by rw Hk cmd_key_length.
        -- rw fmap_app length_filter_snoc decide_True // -Hn. lia.
        -- intros Hn1. assert (n_found = 0%nat) as -> by lia. split; [rw length_app /=; lia|].
           intros j nm [Hnm|[-> ->]]%Hlast; [|done]. split.
           ++ intros Hpre. symmetry in Hn. apply length_zero_iff_nil in Hn.
              assert (nm ∈ filter (λ nm, cmd_key s `prefix_of` nm) (name <$> pre)) as Hin.
              { apply list_elem_of_filter. split; [done|]. by eapply list_elem_of_lookup_2. }
              rw Hn in Hin. by apply elem_of_nil in Hin.
           ++ intros ->. apply lookup_lt_Some in Hnm. rw length_fmap in Hnm. lia.
    + assert (¬ cmd_key s `prefix_of` name c) as Hnp by (intros ?; by apply Hne, Hp).
      apply IH; [done| | |].
      * intros nm. rw fmap_app elem_of_app list_elem_of_singleton.
        intros [?| ->]; [by apply Hno|]. intros Hk. apply Hnp. by rw Hk.
      * rw fmap_app length_filter_snoc decide_False // -Hn. lia.
      * intros Hn1. destruct (Htemp Hn1) as [Hlt Hj]. split; [rw length_app; lia|].
        intros j nm [Hnm|[-> ->]]%Hlast; [by apply Hj|]. split; [done|]. lia.
Qed.

End lookup.

(** ** Sorting the table *)

Section sort.
Context {St : Type}.
Implicit Types (l : list (cmd_tbl_t St)).

Definition cmd_le (a b : cmd_tbl_t St) : Prop := (strcmp (name a) (name b) ≤ 0)%Z.
Definition ascii_names l : Prop := Forall (λ c, ascii (name c)) l.

Lemma bubble_pass_perm i l : (bubble_pass i l).1 ≡ₚ l.
Proof.
  revert l. induction i as [|i IH]; intros [|x [|y l]]; simpl; try done.
  destruct (0 <? _)%Z.
  - pose proof (IH (x :: l)) as H. destruct (bubble_pass i (x :: l)) as [r k]. simpl in *.
    rw H. apply Permutation_swap.
  - pose proof (IH (y :: l)) as H. destruct (bubble_pass i (y :: l)) as [r k]. simpl in *.
    by rw H.
Qed.

(** A pass over the first [S i] entries leaves the others. *)
Lemma bubble_pass_app i l l2 :
  length l = S i →
  bubble_pass i (l ++ l2) = ((bubble_pass i l).1 ++ l2, (bubble_pass i l).2).
Proof.
  revert l. induction i as [|i IH]; intros [|x [|y l]] Hl; simpl in *; try (lia || done).
  destruct (0 <? _)%Z.
  - specialize (IH (x :: l) ltac:(simpl; lia)). simpl in IH. rw IH.
    by destruct (bubble_pass i (x :: l)).
  - specialize (IH (y :: l) ltac:(simpl; lia)). simpl in IH. rw IH.
    by destruct (bubble_pass i (y :: l)).
Qed.

(** It moves a greatest entry to the end. *)
Lemma bubble_pass_max i l :
  ascii_names l → length l = S i →
  ∃ r m, (bubble_pass i l).1 = r ++ [m] ∧ Forall (λ a, cmd_le a m) r.
Proof.
  revert l. induction i as [|i IH]; intros [|x [|y l]] Ha Hl; simpl in *; try lia.
  { exists [], x. split; [done|constructor]. }
  apply Forall_cons in Ha as [Hx [Hy Ha]%Forall_cons].
  assert (∀ z w, ascii (name z) → ascii (name w) → cmd_le w z →
    ∃ r m, (bubble_pass i (z :: l)).1 = r ++ [m] ∧ Forall (λ a, cmd_le a m) (w :: r)) as Hstep.
  { intros z w Hz Hw Hle. destruct (IH (z :: l)) as (r & m & Hr & Hm); [by constructor|simpl; lia|].
    exists r, m. split; [done|]. constructor; [|done].
    pose proof (bubble_pass_perm i (z :: l)) as Hp. rw Hr in Hp.
    assert (ascii_names (r ++ [m])) as Har by (rw /ascii_names Hp; by constructor).
    apply Forall_app in Har as [_ [Ham _]%Forall_cons].
    assert (Forall (λ a, cmd_le a m) (r ++ [m])) as Hall.
    { apply Forall_app. split; [done|]. apply Forall_singleton. rw /cmd_le.
      destruct (decide (0 < strcmp (name m) (name m))%Z) as [H|]; [|lia].
      by apply strcmp_total. }
    rw Hp in Hall. apply Forall_cons in Hall as [Hzm _].
    by apply (strcmp_trans _ (name z)). }
  destruct (Z.ltb_spec 0 (strcmp (name x) (name y))) as [Hgt|Hle].
  - destruct (Hstep x y) as (r & m & Hr & Hm); [done..|by apply strcmp_total|].
    destruct (bubble_pass i (x :: l)) as [r' k]. simpl in *. subst r'. by exists (y :: r), m.
  - destruct (Hstep y x) as (r & m & Hr & Hm); [done..|].
    destruct (bubble_pass i (y :: l)) as [r' k]. simpl in *. subst r'. by exists (x :: r), m.
Qed.

(** A pass without swaps finds the entries in order. *)
Lemma bubble_pass_sorted i l :
  ascii_names l → length l = S i → (bubble_pass i l).2 = 0%nat →
  (bubble_pass i l).1 = l ∧ StronglySorted cmd_le l.
Proof.
  revert l. induction i as [|i IH]; intros [|x [|y l]] Ha Hl; simpl in *; try lia.
  { intros _. split; [done|]. repeat constructor. }
  destruct (Z.ltb_spec 0 (strcmp (name x) (name y))) as [Hgt|Hle].
  { by destruct (bubble_pass i (x :: l)). }
  apply Forall_cons in Ha as [Hx Ha].
  specialize (IH (y :: l) Ha ltac:(simpl; lia)).
  destruct (bubble_pass i (y :: l)) as [r k]. simpl in *. intros Hk.
  destruct (IH Hk) as [-> Hs]. split; [done|]. constructor; [done|].
  apply StronglySorted_inv in Hs as [_ Hs]. apply Forall_cons in Ha as [Hy Ha].
  constructor; [done|]. rw Forall_forall in Hs. rw Forall_forall in Ha. apply Forall_forall.
  intros z Hz. eapply strcmp_trans; [apply Hx|apply Hy|by apply Ha|done|by apply Hs].
Qed.

Lemma StronglySorted_snoc_app r m l2 :
  StronglySorted cmd_le l2 → Forall (λ a, Forall (cmd_le a) l2) (r ++ [m]) →
  Forall (λ a, cmd_le a m) r →
  StronglySorted cmd_le (m :: l2) ∧ Forall (λ a, Forall (cmd_le a) (m :: l2)) r.
Proof.
  intros Hs [Hr [Hm _]%Forall_cons]%Forall_app Hle. split; [by constructor|].
  rw Forall_forall in Hr. rw Forall_forall in Hle. apply Forall_forall. intros a Ha.
  constructor; [by apply Hle|by apply Hr].
Qed.

Lemma StronglySorted_join l1 l2 :
  StronglySorted cmd_le l1 → StronglySorted cmd_le l2 →
  Forall (λ a, Forall (cmd_le a) l2) l1 → StronglySorted cmd_le (l1 ++ l2).
Proof.
  induction 1 as [|x l1 H1 IH Hx]; intros H2; simpl; [done|].
  intros [Hx2 Hl]%Forall_cons. constructor; [by apply IH|]. by apply Forall_app.
Qed.

Lemma bubble_sort_sorted i l1 l2 :
  ascii_names l1 → length l1 = S i → StronglySorted cmd_le l2 →
  Forall (λ a, Forall (cmd_le a) l2) l1 →
  StronglySorted cmd_le (bubble_sort i (l1 ++ l2)) ∧ bubble_sort i (l1 ++ l2) ≡ₚ l1 ++ l2.
Proof.
  revert l1 l2. induction i as [|i IH]; intros l1 l2 Ha Hl Hs Hall.
  { destruct l1 as [|x [|]]; try done. split; [|done]. constructor; [done|].
    by apply Forall_cons in Hall as [? _]. }
  cbn [bubble_sort]. rw bubble_pass_app //.
  pose proof (bubble_pass_perm (S i) l1) as Hp.
  destruct (bubble_pass_max (S i) l1 Ha Hl) as (r & m & Hr & Hm).
  pose proof (bubble_pass_sorted (S i) l1 Ha Hl) as Hz.
  destruct (bubble_pass (S i) l1) as [l' k]. cbn [fst snd] in *. cbv beta iota.
  destruct (decide (k = 0)%nat) as [Hk|Hk].
  { destruct (Hz Hk) as [-> Hs1]. split; [|done]. by apply StronglySorted_join. }
  subst l'. rw -Hp in Hall. destruct (StronglySorted_snoc_app r m l2) as [Hs' Hall']; [done..|].
  rw -(app_assoc r [m]). destruct (IH r (m :: l2)) as [H1 H2]; [| |done..|].
  - rw /ascii_names -Hp in Ha. by apply Forall_app in Ha as [? _].
  - apply Permutation_length in Hp. rw length_app /= in Hp. lia.
  - split; [done|]. rw H2 -Hp. by rw -app_assoc.
Qed.

End sort.

(** An uninterrupted listing. *)
Lemma help_list_all {St} (l : list (cmd_tbl_t St)) k :
  help_list (λ _, false) k l = (mjoin ((λ c, default [] (usage c)) <$> l), 0%Z).
Proof. revert k. induction l as [|c l IH]; intros k; [done|]. simpl. by rw IH. Qed.

(** ** Expressions of [test] *)

Inductive test_rel : Set :=
| StrEq | StrNe | StrGt | StrLt | NumEq | NumNe | NumLt | NumLe | NumGt | NumGe.

Definition rel_word (r : test_rel) : string :=
  match r with
  | StrEq => "=" | StrNe => "!=" | StrGt => ">" | StrLt => "<"
  | NumEq => "-eq" | NumNe => "-ne" | NumLt => "-lt" | NumLe => "-le"
  | NumGt => "-gt" | NumGe => "-ge"
  end.

Definition rel_holds (r : test_rel) (a b : list Z) : bool :=
  let x := (simple_strtol a 10).1 in
  let y := (simple_strtol b 10).1 in
  match r with
  | StrEq => bool_decide (a = b)
  | StrNe => bool_decide (a ≠ b)
  | StrGt => bool_decide (0 < strcmp a b)%Z
  | StrLt => bool_decide (strcmp a b < 0)%Z
  | NumEq => bool_decide (x = y)
  | NumNe => bool_decide (x ≠ y)
  | NumLt => bool_decide (x < y)%Z
  | NumLe => bool_decide (x ≤ y)%Z
  | NumGt => bool_decide (y < x)%Z
  | NumGe => bool_decide (y ≤ x)%Z
  end.

(** A primary, its words and its value. *)
Inductive test_prim : Set :=
| TestZ (s : list Z)
| TestN (s : list Z)
| TestRel (a : list Z) (r : test_rel) (b : list Z).

Definition prim_words (p : test_prim) : list (list Z) :=
  match p with
  | TestZ s => [bytes "-z"; s]
  | TestN s => [bytes "-n"; s]
  | TestRel a r b => [a; bytes (rel_word r); b]
  end.

Definition prim_value (p : test_prim) : bool :=
  match p with
  | TestZ s => bool_decide (s = [])
  | TestN s => bool_decide (s ≠ [])
  | TestRel a r b => rel_holds r a b
  end.

(** The first word of a comparison is not one that [test] takes for an
    operator. *)
Definition reserved : list (list Z) := bytes <$> ["!"; "-o"; "-a"; "-z"; "-n"]%string.
Definition prim_ok (p : test_prim) : Prop :=
  match p with
  | TestRel a _ b => cstring a ∧ cstring b ∧ a ∉ reserved
  | _ => True
  end.

(** A chain of primaries: [true] is -a, [false] is -o. *)
Definition chain_words (p : test_prim) (rest : list (bool * test_prim)) : list (list Z) :=
  prim_words p ++
  mjoin ((λ '(c, q), (if c : bool then bytes "-a" else bytes "-o") :: prim_words q) <$> rest).

(** From left to right, without precedence. *)
Definition chain_value (p : test_prim) (rest : list (bool * test_prim)) : bool :=
  foldl (λ acc '(c, q), if c : bool then acc && prim_value q else acc || prim_value q)
    (prim_value p) rest.

Lemma test_op_rel a r b :
  cstring a → cstring b → test_op a (bytes (rel_word r)) b = Some (rel_holds r a b).
Proof.
  intros Ha Hb. pose proof (strcmp_eq a b Ha Hb) as He.
  destruct r; cbv [test_op rel_word rel_holds];
    repeat (match goal with |- context [is_word ?w (bytes ?v)] =>
      let b := eval vm_compute in (is_word w (bytes v)) in change (is_word w (bytes v)) with b
    end; cbv beta iota); f_equal; apply eq_true_iff_eq;
    rw ?negb_true_iff ?Z.eqb_neq ?Z.eqb_eq ?Z.ltb_lt ?Z.leb_le bool_decide_eq_true ?He; lia || done.
Qed.

Lemma reserved_word a w : cstring a → a ∉ reserved → bytes w ∈ reserved → cstring (bytes w) →
  is_word w a = false.
Proof. intros Ha Hr Hw Hc. rw is_word_eq // bool_decide_eq_false. by intros ->. Qed.

Lemma truth_c_bool b : truth (c_bool b) = b.
Proof. by destruct b. Qed.

Lemma test_loop_prim p ap expr le lc :
  prim_ok p →
  test_loop (prim_words p ++ ap) expr le lc =
  test_loop ap (test_join lc le (c_bool (prim_value p))) le (-1).
Proof.
  destruct p as [s|s|a r b]; simpl.
  - intros _. f_equal. f_equal. f_equal. apply bool_decide_ext. destruct s; naive_solver.
  - intros _. f_equal. f_equal. f_equal. rw -bool_decide_not. apply bool_decide_ext.
    destruct s; naive_solver.
  - intros (Ha & Hb & Hr).
    assert (∀ w, bytes w ∈ reserved → cstring (bytes w) → is_word w a = false) as Hw
      by (intros; by apply reserved_word).
    rw !Hw; [by repeat constructor..|]. by rw test_op_rel.
Qed.

Lemma test_loop_chain rest acc le :
  Forall (λ '(_, q), prim_ok q) rest →
  test_loop (mjoin ((λ '(c, q), (if c : bool then bytes "-a" else bytes "-o") :: prim_words q)
                      <$> rest)) (c_bool acc) le (-1) =
  c_bool (foldl (λ acc '(c, q), if c : bool then acc && prim_value q else acc || prim_value q)
            acc rest).
Proof.
  intros Hok. revert acc le. induction Hok as [|[c q] rest Hq Hok IH]; intros acc le; [done|].
  rw fmap_cons. cbn [mjoin list_join]. destruct c.
  - change (test_loop ((bytes "-a" :: prim_words q) ++ _) (c_bool acc) le (-1)) with
      (test_loop (prim_words q ++ mjoin ((λ '(c, q), (if c : bool then bytes "-a" else bytes "-o")
         :: prim_words q) <$> rest)) (c_bool acc) (c_bool acc) 1).
    rw test_loop_prim //. cbn [foldl]. rw -(IH _ (c_bool acc)). by rw /test_join !truth_c_bool.
  - change (test_loop ((bytes "-o" :: prim_words q) ++ _) (c_bool acc) le (-1)) with
      (test_loop (prim_words q ++ mjoin ((λ '(c, q), (if c : bool then bytes "-a" else bytes "-o")
         :: prim_words q) <$> rest)) (c_bool acc) (c_bool acc) 0).
    rw test_loop_prim //. cbn [foldl]. rw -(IH _ (c_bool acc)). by rw /test_join !truth_c_bool.
Qed.

Lemma chain_words_head p rest :
  prim_ok p → ∃ a b ws, chain_words p rest = a :: b :: ws ∧ is_word "!" a = false.
Proof.
  destruct p as [s|s|a r b]; intros Hok; [by do 3 eexists..|].
  destruct Hok as (Ha & _ & Hr). do 3 eexists. split; [done|].
  apply reserved_word; [done..|by repeat constructor|by repeat constructor].
Qed.

(** ** The theorems *)

(** C18: Commands are found by their names or by unambiguous abbreviations.  For
    every table and every word, with [key] the part of the word before its first
    dot: a result is the first entry named [key], or the entry that is the only
    one with a name starting with [key] when no entry has that name; and no
    result means that [key] is no entry's name and that none or several start
    with it. *)
Theorem find_cmd_correct {St} (tbl : list (cmd_tbl_t St)) s :
  Forall (λ c, cstring (name c)) tbl → cstring s →
  match find_cmd tbl s with
  | Some i => full_match tbl (cmd_key s) i ∨
              ((i < length tbl)%nat ∧ only_match tbl (cmd_key s) i)
  | None => (cmd_key s ∉ name <$> tbl) ∧
            length (filter (λ nm, cmd_key s `prefix_of` nm) (name <$> tbl)) ≠ 1%nat
  end.
Proof.
  intros Ht Hs. apply (find_cmd_loop_spec tbl Ht s [] tbl 0 0); [done..| |done|done].
  intros nm. by intros ?%elem_of_nil.
Qed.

(** A small table for the witnesses. *)
Definition demo_cmd (w : string) : cmd_tbl_t unit :=
  CmdTbl (bytes w) 32 1 (λ _ _, ret 0%Z) (Some (bytes w ++ [10%Z])) None None.
Definition demo_tbl : list (cmd_tbl_t unit) :=
  demo_cmd <$> ["setenv"; "md"; "printenv"; "mm"; "saveenv"]%string.

Lemma demo_names : Forall (λ c, ascii (name c)) demo_tbl.
Proof. by apply (bool_decide_unpack _). Qed.

Lemma ascii_cstring s : ascii s → cstring s.
Proof. intros H. eapply Forall_impl; [exact H|]. simpl. lia. Qed.

Lemma find_cmd_correct_witness :
  find_cmd demo_tbl (bytes "md.b") = Some 1%nat ∧ find_cmd demo_tbl (bytes "sa") = Some 4%nat ∧
  find_cmd demo_tbl (bytes "m") = None ∧
  (full_match demo_tbl (bytes "md") 1 ∨
   (1 < length demo_tbl)%nat ∧ only_match demo_tbl (bytes "md") 1).
Proof.
  split_and!; [done..|]. apply (find_cmd_correct demo_tbl (bytes "md.b")).
  - by apply (bool_decide_unpack _).
  - by apply (bool_decide_unpack _).
Defined.

(** [help] lists the commands in order: on every table with ASCII names the
    bubble sort with its early exit ends with a permutation of the table in
    which every name is at most every later one, and when the listing is not
    interrupted its output is the usage lines of the table in that order. *)
Theorem do_help_sorted {St} (tbl : list (cmd_tbl_t St)) :
  ascii_names tbl →
  ∃ l, l ≡ₚ tbl ∧ StronglySorted cmd_le l ∧
    do_help tbl (λ _, false) [] = (mjoin ((λ c, default [] (usage c)) <$> l), 0%Z).
Proof.
  intros Ha. exists (bubble_sort (length tbl - 1) tbl).
  assert (StronglySorted cmd_le (bubble_sort (length tbl - 1) tbl) ∧
          bubble_sort (length tbl - 1) tbl ≡ₚ tbl) as [Hs Hp].
  { destruct tbl as [|c tbl]; [by repeat constructor|].
    pose proof (bubble_sort_sorted (length tbl) (c :: tbl) []) as H. rw app_nil_r in H.
    replace (length (c :: tbl) - 1)%nat with (length tbl) by (simpl; lia).
    apply H; [done..|constructor|]. by apply Forall_forall. }
  split_and!; [done..|apply help_list_all].
Qed.

Lemma do_help_sorted_witness :
  ∃ l, l ≡ₚ demo_tbl ∧ StronglySorted cmd_le l ∧
    do_help demo_tbl (λ _, false) [] = (mjoin ((λ c, default [] (usage c)) <$> l), 0%Z).
Proof. apply (do_help_sorted demo_tbl). apply demo_names. Defined.

(** [test] evaluates chains of primaries: for primaries -z, -n and the ten
    comparisons joined by -a and -o, with or without a leading !, the command
    returns 0 exactly when the chain, read from left to right without
    precedence, is true (false, with the !). *)
Theorem do_test_chain (neg : bool) p rest :
  prim_ok p → Forall (λ '(_, q), prim_ok q) rest →
  do_test ((if neg then [bytes "!"] else []) ++ chain_words p rest) =
  if xorb neg (chain_value p rest) then 0%Z else 1%Z.
Proof.
  intros Hp Hrest. destruct (chain_words_head p rest Hp) as (a & b & ws & Hw & Hneg).
  assert (test_loop (chain_words p rest) (-1) (-1) (-1) = c_bool (chain_value p rest)) as Hl.
  { rw /chain_words test_loop_prim //. apply test_loop_chain, Hrest. }
  rw Hw in Hl |- *. destruct neg.
  - change (do_test ([bytes "!"] ++ _)) with
      (c_bool (negb (truth (c_bool (negb (truth (test_loop (a :: b :: ws) (-1) (-1) (-1)))))))).
    rw Hl !truth_c_bool. by destruct (chain_value p rest).
  - cbn [app]. rw /do_test. rw Hneg Hl truth_c_bool. by destruct (chain_value p rest).
Qed.

Lemma do_test_chain_witness :
  do_test (bytes <$> ["-n"; "x"; "-a"; "10"; "-lt"; "9"; "-o"; "a"; "="; "a"]%string) = 0%Z.
Proof.
  apply (do_test_chain false (TestN (bytes "x"))
           [(true, TestRel (bytes "10") NumLt (bytes "9"));
            (false, TestRel (bytes "a") StrEq (bytes "a"))]).
  - done.
  - constructor; [by apply (bool_decide_unpack _)|].
    constructor; [by apply (bool_decide_unpack _)|constructor].
Defined.

(** [test] with a comparison it does not know counts as true. *)
Lemma do_test_unknown_operator : do_test (bytes <$> ["a"; "=="; "b"]%string) = 0%Z.
Proof. reflexivity. Qed.
