(* ===== verification/Complete.v ===== *)
(** * Tab completion (u-boot/common/command.c, env_complete of common/env_common.c)

    The console's input line in its buffer, its split into words, the
    candidates for the word under the cursor (commands or environment
    variables), and the completion of the line.  The configuration is
    include/configs/wmt.h: CONFIG_AUTO_COMPLETE, CFG_CBSIZE 1024, CFG_MAXARGS 32. *)

From Stdlib Require Import ssreflect ZArith Lia String.
From stdpp Require Import base tactics numbers list sets.
From S2P Require Import Prelude Vsprintf EnvFormat EnvOps NvEdit Command.

Set Default Goal Selector "!".
Open Scope general_if_scope.

Definition CFG_CBSIZE : nat := 1024.
Definition CFG_MAXARGS : nat := 32.
#[global] Arguments CFG_CBSIZE : simpl never.
#[global] Arguments CFG_MAXARGS : simpl never.
Definition CFG_PROMPT : list Z := bytes "WMT # ".

Definition TAB : Z := 9.
Definition BELL : Z := 7.
Definition blank (c : Z) : bool := (c =? 32)%Z || (c =? TAB)%Z.

(** ** The console *)

(** The globals of the commands, [console_buffer], and what the line editor,
    completion and [run_command] printed.  Messages of the commands themselves and of
    the countdown are not in it. *)
Record con := Con {
  con_u : uboot;
  con_buf : list Z;
  con_out : list Z
}.

Definition set_u c u := Con u (con_buf c) (con_out c).
Definition set_buf c b := Con (con_u c) b (con_out c).
Definition on_buf {A} (m : M (list Z) A) : M con A := zoom con_buf set_buf m.
Definition on_uboot {A} (m : M uboot A) : M con A := zoom con_u set_u m.

Definition puts (s : list Z) : M con unit :=
  modify (λ c, Con (con_u c) (con_buf c) (con_out c ++ s)).
Definition putc (c : Z) : M con unit := puts [c].

(** Waiting for a character that never comes does not end. *)
Definition getc : M con Z := λ c,
  match u_input (con_u c) with
  | [] => Err Timeout
  | k :: ks => Ok (k, set_u c (set_serial (con_u c) (u_baudrate (con_u c)) ks))
  end.

(** ** Words *)

(** [while ( *s == ' ' || *s == '\t') ++s;] *)
Definition skip_blanks (n s : nat) : M (list Z) nat :=
  loopM n (λ s, let! c := load s in if blank c then ret (inl (S s)) else ret (inr s)) s.

(** [while ( *s && ( *s != ' ') && ( *s != '\t')) ++s;] *)
Definition word_end (n s : nat) : M (list Z) nat :=
  loopM n (λ s, let! c := load s in
    if negb (c =? NUL)%Z && negb (blank c) then ret (inl (S s)) else ret (inr s)) s.

(** The body of the loop of [make_argv] and of [parse_line]: no argument left;
    or the start of one, and where the next is looked for when the line does not
    end with it. *)
Definition next_arg (n s : nat) : M (list Z) (option (nat * option nat)) :=
  let! s := skip_blanks n s in
  let! c := load s in
  if (c =? NUL)%Z then ret None else
  let start := s in
  let! s := word_end n s in
  let! c := load s in
  if (c =? NUL)%Z then ret (Some (start, None)) else
  store s NUL ;;;
  ret (Some (start, Some (S s))).

(** [while (argc < max)] around it: [argv] as offsets into the line, and whether
    the end of the line was reached. *)
Definition split_args (n max : nat) : M (list Z) (list nat * bool) :=
  loopM n (λ '(s, argv),
    if decide (length argv < max)%nat then
      let! r := next_arg n s in
      match r with
      | None => ret (inr (argv, true))
      | Some (a, None) => ret (inr (argv ++ [a], true))
      | Some (a, Some s) => ret (inl (s, argv ++ [a]))
      end
    else ret (inr (argv, false))) (0, []).

Definition make_argv (n argvsz : nat) : M (list Z) (list nat) :=
  let! (argv, _) := split_args n (argvsz - 1) in ret argv.

(** ** Candidates *)

Definition dots : list Z := bytes "...".

(** [cmdv[n_found++] = x] and [cmdv[n_found] = NULL] in an array of [maxv]. *)
Definition push_cmdv {S} (maxv : nat) (cmdv : list (list Z)) (x : list Z)
    : M S (list (list Z)) :=
  if decide (length cmdv < maxv)%nat then ret (cmdv ++ [x]) else fail OutOfBounds.
Definition end_cmdv {S} (maxv : nat) (cmdv : list (list Z)) : M S (Z * list (list Z)) :=
  if decide (length cmdv < maxv)%nat then ret (Z.of_nat (length cmdv), cmdv)
  else fail OutOfBounds.

(** [memcmp(a, b, len) == 0], where both have [len] bytes. *)
Definition memcmp_eq (a b : list Z) (len : nat) : bool := bool_decide (take len a = take len b).

Definition env_complete (n : nat) (var : list Z) (maxv : nat) (bufsz : Z)
    : M (list Z) (Z * list (list Z)) :=
  let len := length var in
  let! cmdv :=
    loopM n (λ '(i, bufsz, cmdv),
      let! c := load i in
      if (c =? NUL)%Z then ret (inr cmdv) else
      let! nxt := env_string_end n i in
      let! d := get in
      let lval := cstr_at d i in
      let vallen := match strchr lval EQ with Some p => p | None => length lval end in
      if bool_decide (0 < len)%nat &&
         (bool_decide (vallen < len)%nat || negb (memcmp_eq lval var len))
      then ret (inl ((nxt + 1)%nat, bufsz, cmdv)) else
      if bool_decide (maxv - 2 ≤ length cmdv)%nat || (bufsz <? Z.of_nat vallen + 1)%Z then
        let! cmdv := push_cmdv maxv cmdv dots in ret (inr cmdv)
      else
        let! cmdv := push_cmdv maxv cmdv (take vallen lval) in
        ret (inl ((nxt + 1)%nat, (bufsz - Z.of_nat vallen - 1)%Z, cmdv))) (0%nat, bufsz, []) in
  end_cmdv maxv cmdv.

(** The end of the line is a new word. *)
Definition at_space (last_char : Z) : bool := (last_char =? 0)%Z || blank last_char.

Definition var_complete (n : nat) : completer := λ argv last_char maxv,
  let space := at_space last_char in
  match argv with
  | [_] => if space then env_complete n [] maxv 512 else ret (0%Z, [])
  | [_; var] => if space then ret (0%Z, []) else env_complete n var maxv 512
  | _ => ret (0%Z, [])
  end.

Section candidates.
Context {St : Type}.
Implicit Types (tbl : list (cmd_tbl_t St)).

Definition install_auto_complete_handler tbl (s : list Z) (f : completer)
    : list (cmd_tbl_t St) :=
  match find_cmd tbl s with
  | None => tbl
  | Some i =>
      alter (λ c, CmdTbl (name c) (maxargs c) (repeatable c) (cmd c) (usage c) (help c) (Some f))
        i tbl
  end.

Definition install_auto_complete (n : nat) tbl : list (cmd_tbl_t St) :=
  let tbl := install_auto_complete_handler tbl (bytes "printenv") (var_complete n) in
  let tbl := install_auto_complete_handler tbl (bytes "setenv") (var_complete n) in
  install_auto_complete_handler tbl (bytes "run") (var_complete n).

(** The two loops over the table: the entries that [keep] selects, and "..."
    when there are too many. *)
Fixpoint list_cmds {S} tbl (keep : list Z → bool) (maxv : nat) (cmdv : list (list Z))
    : M S (list (list Z)) :=
  match tbl with
  | [] => ret cmdv
  | c :: tbl' =>
      if keep (name c) then
        if decide (maxv - 2 ≤ length cmdv)%nat then push_cmdv maxv cmdv dots
        else let! cmdv := push_cmdv maxv cmdv (name c) in list_cmds tbl' keep maxv cmdv
      else list_cmds tbl' keep maxv cmdv
  end.

Definition complete_cmdv tbl : completer := λ argv last_char maxv,
  if decide (maxv < 2)%nat then ret ((-2)%Z, []) else
  match argv with
  | [] => let! cmdv := list_cmds tbl (λ _, true) maxv [] in end_cmdv maxv cmdv
  | argv0 :: rest =>
      if bool_decide (rest ≠ []) || at_space last_char then
        match (find_cmd tbl argv0 ≫= (λ i, tbl !! i)) ≫= complete with
        | None => ret (0%Z, [])
        | Some f => f argv last_char maxv
        end
      else
        let len := cmd_len argv0 in
        let! cmdv := list_cmds tbl (λ nm,
          negb (bool_decide (length nm < len)%nat) && memcmp_eq argv0 nm len) maxv [] in
        end_cmdv maxv cmdv
  end.

(** ** Printing and extending *)

Fixpoint print_argv_loop (leader sep : list Z) (linemax i : Z) (argv : list (list Z)) : list Z :=
  match argv with
  | [] => []
  | a :: argv' =>
      let len := (Z.of_nat (length a) + Z.of_nat (length sep))%Z in
      if (linemax <=? i + len)%Z then
        [10%Z] ++ leader ++ a ++
        print_argv_loop leader sep linemax
          (Z.of_nat (length leader) - Z.of_nat (length sep) + len) argv'
      else sep ++ a ++ print_argv_loop leader sep linemax (i + len) argv'
  end.

(** With no banner. *)
Definition print_argv (leader sep : list Z) (linemax : Z) (argv : list (list Z)) : list Z :=
  print_argv_loop leader sep linemax linemax argv ++ [10%Z].

(** [for (i = 0; i < len; i++, t++, s++) if ( *t != *s) break;]: [s - anchor]. *)
Fixpoint common_len (len : nat) (s t : list Z) : nat :=
  match len with
  | O => 0
  | S len' => if (deref t =? deref s)%Z then S (common_len len' (tail s) (tail t)) else 0
  end.

Definition find_common_prefix (argv : list (list Z)) : nat :=
  match argv with
  | [] => 0
  | anchor :: argv' => foldl (λ len t, common_len len anchor t) (length anchor) argv'
  end.

(** [argv[argc - 1]], and the string [k] bytes into another. *)
Definition last_arg {S} (argv : list (list Z)) : M S (list Z) :=
  match last argv with Some a => ret a | None => fail OutOfBounds end.
Definition str_from {S} (s : list Z) (k : nat) : M S (list Z) :=
  if decide (k ≤ length s)%nat then ret (drop k s) else fail OutOfBounds.

(** Writing the string [s] with its NUL at [t]. *)
Fixpoint put_bytes (t : nat) (s : list Z) : M (list Z) unit :=
  match s with
  | [] => store t NUL
  | c :: s' => store t c ;;; put_bytes (S t) s'
  end.

(** [s] and [sep] of [cmd_auto_complete]: what is to be added to the line, and
    whether a blank follows.  [None] is [s == NULL]. *)
Definition completion_text {S} (argv cmdv : list (list Z)) (i : Z)
    : M S (option (list Z * bool)) :=
  match cmdv with
  | c0 :: _ =>
      if (i =? 1)%Z then
        let! w := last_arg argv in
        let! s := str_from c0 (length w) in
        ret (Some (s, true))
      else if (1 <? i)%Z && negb (bool_decide (find_common_prefix cmdv = 0)%nat) then
        let j := find_common_prefix cmdv in
        let! w := last_arg argv in
        if decide (length w < j)%nat then
          let! s := str_from c0 (length w) in
          ret (Some (take (j - length w) s, false))
        else ret None
      else ret None
  | [] => ret None
  end.

(** From the [i] candidates on: the result, and [*np] and [*colp] after it. *)
Definition finish_completion (prompt : list Z) (argv cmdv : list (list Z)) (i : Z) (n : nat)
    (col : Z) : M con (Z * nat * Z) :=
  if (i =? 0)%Z then
    if decide (1 < length argv)%nat then ret (0%Z, n, col)
    else putc BELL ;;; ret (1%Z, n, col)
  else
  let! r := completion_text argv cmdv i in
  let! st := get in
  let buf := cstr (con_buf st) in
  match r with
  | Some (s, sep) =>
      let text := s ++ (if sep : bool then [32%Z] else []) in
      let k := length text in
      if decide (CFG_CBSIZE - 2 ≤ n + k)%nat then putc BELL ;;; ret (1%Z, n, col) else
      on_buf (put_bytes (length buf) text) ;;;
      puts text ;;;
      (if sep then ret tt else putc BELL) ;;;
      ret (1%Z, (n + k)%nat, (col + Z.of_nat k)%Z)
  | None =>
      puts (print_argv (bytes "  ") [32%Z] 78 cmdv) ;;;
      puts prompt ;;;
      puts buf ;;;
      ret (1%Z, n, col)
  end.

(** [tmp_buf], a copy of the line, is cut into words. *)
Definition cmd_auto_complete (fuel : nat) tbl (prompt : list Z) (n : nat) (col : Z)
    : M con (Z * nat * Z) :=
  if negb (strcmp prompt CFG_PROMPT =? 0)%Z then ret (0%Z, n, col) else
  let! st := get in
  let buf := cstr (con_buf st) in
  let last_char := default 0%Z (last buf) in
  if decide (CFG_CBSIZE ≤ length buf)%nat then fail OutOfBounds else
  match make_argv fuel (CFG_MAXARGS + 1) (buf ++ [NUL]) with
  | Err f => fail f
  | Ok (argv, tmp_buf) =>
      let argv := cstr_at tmp_buf <$> argv in
      let! (i, cmdv) := on_uboot (on_env (complete_cmdv tbl argv last_char 20)) in
      finish_completion prompt argv cmdv i n col
  end.

End candidates.

(** ** Words of a line *)

(** The maximal runs without blanks. *)
Fixpoint words (l : list Z) : list (list Z) :=
  match l with
  | [] => []
  | c :: l' =>
      if blank c then words l' else
      match l' with
      | [] => [[c]]
      | d :: _ =>
          if blank d then [c] :: words l' else
          match words l' with w :: ws => (c :: w) :: ws | [] => [[c]] end
      end
  end.

Definition blanks (l : list Z) : Prop := Forall (λ c, blank c = true) l.
Definition solid (l : list Z) : Prop := Forall (λ c, blank c = false) l.

Lemma words_blanks b l : blanks b → words (b ++ l) = words l.
Proof. induction 1 as [|c b Hc Hb IH]; [done|]. simpl. by rw Hc IH. Qed.

Lemma words_word w l :
  w ≠ [] → solid w → match l with [] => True | c :: _ => blank c = true end →
  words (w ++ l) = w :: words l.
Proof.
  intros Hne Hw Hl. induction Hw as [|c w Hc Hw IH]; [done|].
  rw -app_comm_cons. cbn [words]. rw Hc. destruct w as [|d w].
  - destruct l as [|d l]; [done|]. cbn [app]. by rw Hl.
  - rw -app_comm_cons. apply Forall_cons in Hw as [Hd Hw]. rw Hd.
    rw app_comm_cons IH //.
Qed.

(** A line starts with blanks; then it ends, or there is a word. *)
Lemma line_split l :
  blanks l ∨ ∃ b w l', l = b ++ w ++ l' ∧ blanks b ∧ w ≠ [] ∧ solid w ∧
    match l' with [] => True | c :: _ => blank c = true end.
Proof.
  induction l as [|c l IH]; [left; constructor|]. destruct (blank c) eqn:Hc.
  - destruct IH as [Hb|(b & w & l' & -> & Hb & Hne & Hw & Hl)]; [left; by constructor|].
    right. exists (c :: b), w, l'. split_and!; [done| |done..]. by constructor.
  - right. destruct IH as [Hb|(b & w & l' & -> & Hb & Hne & Hw & Hl)].
    + exists [], [c], l. split_and!; [done|constructor|done|by constructor|].
      destruct Hb; done.
    + destruct b as [|d b].
      * exists [], (c :: w), l'. split_and!; [done|constructor|done|by constructor|done].
      * apply Forall_cons in Hb as [Hd Hb]. exists [], [c], (d :: b ++ w ++ l').
        split_and!; [done|constructor|done|by constructor|done].
Qed.

(** Running over bytes that satisfy [P] up to the first that does not. *)
Lemma wp_run n pre (P : Z → bool) run c suf (Q : nat → list Z → Prop) :
  Forall (λ x, P x = true) run → P c = false → (length run < n)%nat →
  Q (length pre + length run)%nat (pre ++ run ++ c :: suf) →
  wp (loopM n (λ s, let! x := load s in if P x then ret (inl (S s)) else ret (inr s))
        (length pre)) Q (pre ++ run ++ c :: suf).
Proof.
  intros Hrun Hc Hn HQ. set (data := pre ++ run ++ c :: suf) in *.
  apply (wp_loop (λ i d, d = data ∧ (length pre ≤ i ≤ length pre + length run)%nat)
           (λ i, length pre + length run - i)%nat); [|split; [done|lia]|lia].
  intros i d [-> Hi]. apply wp_bind.
  replace i with (length pre + (i - length pre))%nat at 1 by lia.
  destruct (decide (i - length pre < length run)%nat) as [Hlt|Hge].
  - destruct (lookup_lt_is_Some_2 run (i - length pre) Hlt) as [x Hx].
    eapply wp_load; [by rw lookup_app_add lookup_app_l|].
    rw (Forall_lookup_1 _ _ _ _ Hrun Hx). apply wp_ret. split; [split; [done|]|]; lia.
  - replace (i - length pre)%nat with (length run) by lia.
    eapply wp_load; [by rw lookup_app_add lookup_app_len|]. rw Hc.
    apply wp_ret. replace i with (length pre + length run)%nat by lia. done.
Qed.

Lemma wp_skip_blanks n pre b c suf (Q : nat → list Z → Prop) :
  blanks b → blank c = false → (length b < n)%nat →
  Q (length pre + length b)%nat (pre ++ b ++ c :: suf) →
  wp (skip_blanks n (length pre)) Q (pre ++ b ++ c :: suf).
Proof. apply (wp_run n pre blank). Qed.

Lemma wp_word_end n pre w c suf (Q : nat → list Z → Prop) :
  solid w → NUL ∉ w → (c = NUL ∨ blank c = true) → (length w < n)%nat →
  Q (length pre + length w)%nat (pre ++ w ++ c :: suf) →
  wp (word_end n (length pre)) Q (pre ++ w ++ c :: suf).
Proof.
  intros Hw Hnul Hc. apply (wp_run n pre (λ c, negb (c =? NUL)%Z && negb (blank c))).
  - rw /solid Forall_forall in Hw. apply Forall_forall. intros x Hx. rw (Hw x Hx).
    rw (proj2 (Z.eqb_neq x NUL)); [congruence|done].
  - destruct Hc as [->|Hc]; [done|]. rw Hc. apply andb_false_r.
Qed.

Lemma blank_NUL : blank NUL = false.
Proof. done. Qed.

(** One argument of a line [l] that starts at [pre]. *)
Lemma wp_next_arg n pre l suf (Q : option (nat * option nat) → list Z → Prop) :
  NUL ∉ l → (length l < n)%nat →
  (words l = [] → Q None (pre ++ l ++ NUL :: suf)) →
  (∀ b w, l = b ++ w → words l = [w] → NUL ∉ w →
     Q (Some ((length pre + length b)%nat, None)) (pre ++ l ++ NUL :: suf)) →
  (∀ b w c l', l = b ++ w ++ c :: l' → words l = w :: words l' → NUL ∉ w →
     let pre' := pre ++ b ++ w ++ [NUL] in
     Q (Some ((length pre + length b)%nat, Some (length pre'))) (pre' ++ l' ++ NUL :: suf)) →
  wp (next_arg n (length pre)) Q (pre ++ l ++ NUL :: suf).
Proof.
  intros Hnul Hn HQ0 HQ1 HQ2. rw /next_arg. apply wp_bind.
  destruct (line_split l) as [Hb|(b & w & l' & -> & Hb & Hne & Hw & Hl)].
  { apply wp_skip_blanks; [done..|]. apply wp_bind.
    eapply wp_load; [by rw lookup_app_add lookup_app_len|]. rw Z.eqb_refl. apply wp_ret, HQ0.
    pose proof (words_blanks l [] Hb) as H. by rw app_nil_r in H. }
  rw !length_app in Hn. rw !not_elem_of_app in Hnul. destruct Hnul as (_ & Hnw & Hnl).
  destruct w as [|c0 w]; [done|]. pose proof Hw as [Hc0 _]%Forall_cons.
  apply not_elem_of_cons in Hnw as Hnw'.
  assert (words (b ++ (c0 :: w) ++ l') = (c0 :: w) :: words l') as Hws
    by (rw words_blanks // words_word //).
  rw -(app_assoc b) -(app_assoc (c0 :: w)). apply wp_skip_blanks; [done|done|lia|].
  apply wp_bind. eapply wp_load; [by rw lookup_app_add lookup_app_len|].
  rw (proj2 (Z.eqb_neq c0 NUL)); [naive_solver|]. apply wp_bind.
  replace (pre ++ b ++ (c0 :: w) ++ l' ++ NUL :: suf)
    with ((pre ++ b) ++ (c0 :: w) ++ l' ++ NUL :: suf) by (by rw -app_assoc).
  change (pre ++ b ++ c0 :: w ++ l' ++ NUL :: suf)
    with (pre ++ b ++ (c0 :: w) ++ l' ++ NUL :: suf).
  rw app_assoc -length_app. destruct l' as [|c l'].
  - apply (wp_word_end n (pre ++ b) (c0 :: w) NUL suf); [done|done|by left|lia|].
    apply wp_bind. eapply wp_load; [by rw lookup_app_add lookup_app_len|].
    rw Z.eqb_refl. apply wp_ret. rw length_app.
    specialize (HQ1 b (c0 :: w)). rw app_nil_r in HQ1 Hws. rw -!app_assoc in HQ1 |- *.
    by apply HQ1.
  - apply (wp_word_end n (pre ++ b) (c0 :: w) c (l' ++ NUL :: suf)); [done|done|by right|lia|].
    apply wp_bind. eapply wp_load; [by rw lookup_app_add lookup_app_len|].
    rw (proj2 (Z.eqb_neq c NUL)); [by intros ->|]. apply wp_bind, wp_store.
    { rw !length_app /= length_app. lia. }
    rw (app_assoc (pre ++ b)) -length_app insert_app_len. apply wp_ret.
    replace (((pre ++ b) ++ c0 :: w) ++ NUL :: l' ++ NUL :: suf)
      with ((pre ++ b ++ (c0 :: w) ++ [NUL]) ++ l' ++ NUL :: suf) by (by rw -!app_assoc).
    replace (S (length ((pre ++ b) ++ c0 :: w)))
      with (length (pre ++ b ++ (c0 :: w) ++ [NUL])) by (rw !length_app /=; lia).
    rw (length_app pre b). apply (HQ2 b (c0 :: w) c l'); [done| |done].
    rw Hws. f_equal. simpl. by rw Hl.
Qed.

(** The strings that offsets into [pre] point to, each with its NUL. *)
Definition args_at (pre : list Z) (argv : list nat) (ws : list (list Z)) : Prop :=
  Forall2 (λ a w, ∃ p q, pre = p ++ w ++ NUL :: q ∧ a = length p ∧ NUL ∉ w) argv ws.

Lemma args_at_app pre x argv ws : args_at pre argv ws → args_at (pre ++ x) argv ws.
Proof.
  intros H. eapply Forall2_impl; [exact H|]. intros a w (p & q & -> & -> & Hw).
  exists p, (q ++ x). by rw -!app_assoc.
Qed.

Lemma args_at_snoc pre b w argv ws :
  NUL ∉ w → args_at pre argv ws →
  args_at (pre ++ b ++ w ++ [NUL]) (argv ++ [length pre + length b]) (ws ++ [w]).
Proof.
  intros Hw H. apply Forall2_app; [by apply args_at_app|]. constructor; [|constructor].
  exists (pre ++ b), []. rw length_app -!app_assoc. by split_and!.
Qed.

Lemma args_at_cstr pre x argv ws : args_at pre argv ws → cstr_at (pre ++ x) <$> argv = ws.
Proof.
  induction 1 as [|a w argv ws (p & q & -> & -> & Hw) H IH]; [done|]. rw fmap_cons IH. f_equal.
  rw /cstr_at -app_assoc drop_app_length -app_assoc. by apply cstr_nul.
Qed.

(** Splitting a line gives its words, as many as there is room for; it reports the
    end of the line when it found them all with room to spare. *)
Lemma wp_split_args n max l suf (Q : list nat * bool → list Z → Prop) :
  NUL ∉ l → (length l + 1 < n)%nat →
  (∀ argv fin d, cstr_at d <$> argv = take max (words l) →
     (fin = true → (length (words l) ≤ max)%nat) →
     ((length (words l) < max)%nat → fin = true) → Q (argv, fin) d) →
  wp (split_args n max) Q (l ++ NUL :: suf).
Proof.
  intros Hl Hn HQ.
  apply (wp_loop (λ '(s, argv) d, ∃ pre l2 ws, d = pre ++ l2 ++ NUL :: suf ∧ s = length pre ∧
            NUL ∉ l2 ∧ (length pre + length l2 = length l)%nat ∧
            words l = ws ++ words l2 ∧ args_at pre argv ws ∧ (length ws ≤ max)%nat)
           (λ '(s, _), S (length l) - s)%nat);
    [|exists [], l, []; split_and!; [done..|constructor|simpl; lia]|simpl; lia].
  intros [s argv] d (pre & l2 & ws & -> & -> & Hl2 & Hlen & Hws & Hargs & Hmax).
  assert (length argv = length ws) as Hlw by (by eapply Forall2_length).
  destruct (decide (length argv < max)%nat) as [Hlt|Hge].
  - apply wp_bind, wp_next_arg; [done|lia|intros H0|intros b w -> H1 Hw|intros b w c l' -> H2 Hw].
    + apply wp_ret. rw H0 app_nil_r in Hws. rw Hws in HQ. apply HQ; [|lia|done].
      rw take_ge; [lia|]. by eapply args_at_cstr.
    + apply wp_ret. rw H1 in Hws. rw Hws length_app /= in HQ. apply HQ; [|lia|done].
      rw take_ge; [rw length_app /=; lia|].
      replace (pre ++ (b ++ w) ++ NUL :: suf) with ((pre ++ b ++ w ++ [NUL]) ++ suf)
        by (by rw -!app_assoc). by apply args_at_cstr, args_at_snoc.
    + apply wp_ret. rw !length_app /= in Hlen. split.
      * exists (pre ++ b ++ w ++ [NUL]), l', (ws ++ [w]). split_and!; [done..| | | | |].
        -- rw !not_elem_of_app not_elem_of_cons in Hl2. naive_solver.
        -- rw !length_app /=. lia.
        -- by rw Hws H2 -app_assoc.
        -- by apply args_at_snoc.
        -- rw length_app /=. lia.
      * rw !length_app /=. lia.
  - apply wp_ret, HQ; [|done|].
    + rw (args_at_cstr _ _ _ _ Hargs) Hws take_app_le; [lia|]. by rw take_ge; [lia|].
    + rw Hws length_app. lia.
Qed.

(** ** Candidates from the environment *)

Definition var_names (var : list Z) (es : list entry) : list (list Z) :=
  filter (λ nm, var `prefix_of` nm) (entry_name <$> es).

(** The names that fit into [room] pointers and [bufsz] bytes, then "..." for the
    others. *)
Fixpoint pick_names (room : nat) (bufsz : Z) (names : list (list Z)) {struct names}
    : list (list Z) :=
  match names with
  | [] => []
  | x :: names' =>
      match room with
      | O => [dots]
      | S room' =>
          if (bufsz <? Z.of_nat (length x) + 1)%Z then [dots]
          else x :: pick_names room' (bufsz - Z.of_nat (length x) - 1) names'
      end
  end.

Lemma pick_names_length room bufsz names : (length (pick_names room bufsz names) ≤ S room)%nat.
Proof.
  revert bufsz names. induction room as [|room IH]; intros bufsz [|x names]; simpl; [lia..|].
  case_match; simpl; [lia|]. specialize (IH (bufsz - Z.of_nat (length x) - 1)%Z names). lia.
Qed.

(** Nothing is left out when there is room. *)
Lemma pick_all room bufsz names :
  (length names ≤ room)%nat →
  (Z.of_nat (sum_list_with (λ x, (length x + 1)%nat) names) ≤ bufsz)%Z →
  pick_names room bufsz names = names.
Proof.
  revert room bufsz. induction names as [|x names IH]; intros [|room] bufsz; simpl; [done..|lia|].
  intros Hr Hb. rw (proj2 (Z.ltb_ge _ _)); [lia|]. rw IH; [lia|lia|done].
Qed.

Lemma strchr_entry_name e :
  match strchr e EQ with Some p => p | None => length e end = length (entry_name e).
Proof.
  induction e as [|c e IH]; [done|]. rw entry_name_cons. cbn [strchr].
  destruct (Z.eqb_spec c EQ) as [->|Hne]; [done|]. rw decide_False; [done|].
  simpl. rw -IH. by destruct (strchr e EQ).
Qed.

Lemma entry_name_prefix e : entry_name e `prefix_of` e.
Proof.
  induction e as [|c e IH]; [done|]. rw entry_name_cons.
  destruct (decide _); [apply prefix_nil|by apply prefix_cons].
Qed.

Lemma prefix_take {A} (a b : list A) : a `prefix_of` b → take (length a) b = a.
Proof. intros [x ->]. apply take_app_length. Qed.

(** The test of the loop is the prefix test. *)
Lemma name_test var e :
  bool_decide (0 < length var)%nat &&
  (bool_decide (length (entry_name e) < length var)%nat || negb (memcmp_eq e var (length var))) =
  negb (bool_decide (var `prefix_of` entry_name e)).
Proof.
  rw /memcmp_eq (firstn_all var).
  destruct (decide (0 < length var)%nat) as [Hl|Hl].
  - rw (bool_decide_true (0 < _)%nat) //=.
    destruct (decide (length (entry_name e) < length var)%nat) as [Hv|Hv].
    + rw bool_decide_true // (bool_decide_false (_ `prefix_of` _)) //.
      intros ?%prefix_length. lia.
    + rw (bool_decide_false (_ < _)%nat) //=. f_equal. apply bool_decide_ext.
      destruct (entry_name_prefix e) as [x Hx]. rw {1}Hx take_app_le; [lia|]. split.
      * intros <-. exists (drop (length var) (entry_name e)). by rw take_drop.
      * apply prefix_take.
  - destruct var; [|simpl in Hl; lia]. done.
Qed.

Section env_complete.
Context (n : nat) (var : list Z) (maxv : nat) (bufsz : Z) (es : list entry) (data : list Z).
Hypothesis Hok : Forall entry_ok es.
Hypothesis Hrepr : env_repr es data.
Hypothesis Hn : (length data < n)%nat.
Hypothesis Hmaxv : (2 ≤ maxv)%nat.

Lemma wp_env_complete (Q : Z * list (list Z) → list Z → Prop) :
  (let r := pick_names (maxv - 2) bufsz (var_names var es) in Q (Z.of_nat (length r), r) data) →
  wp (env_complete n var maxv bufsz) Q data.
Proof.
  cbv zeta. intros HQ. rw /env_complete. apply wp_bind.
  apply (wp_scan (λ '(i, _, _), i) (λ es1 '(_, b, cmdv), (length cmdv ≤ maxv - 2)%nat ∧
           ∀ xs, pick_names (maxv - 2) bufsz (var_names var es1 ++ xs) =
                 cmdv ++ pick_names (maxv - 2 - length cmdv) b xs) _ _ es); [done..| | |].
  - split; [simpl; lia|]. intros xs. simpl. by rw Nat.sub_0_r.
  - intros [[i b] cmdv] rest [Hlen Hp] -> Hd. apply wp_bind.
    eapply wp_load; [by rw {1}Hd lookup_app_len|]. rw Z.eqb_refl. apply wp_ret.
    specialize (Hp []). simpl in Hp. rw !app_nil_r in Hp. rw /end_cmdv.
    rw decide_True; [lia|]. apply wp_ret. by rw Hp in HQ.
  - intros es1 e es2 rest [[i b] cmdv] Hes [Hlen Hp] -> Hd.
    assert (entry_ok e) as He.
    { pose proof Hok as Hok'. rw Hes in Hok'. by apply Forall_app in Hok' as [_ [? _]%Forall_cons]. }
    pose proof (f_equal length Hd) as Hl. rw (length_app (enc es1)) (length_app e) length_cons in Hl.
    apply wp_bind. rw Hd. apply wp_load_entry; [done|]. intros c Hc.
    rw (proj2 (Z.eqb_neq c NUL)) //. apply wp_bind, wp_string_end; [apply He|lia|].
    apply wp_bind, wp_get. cbv beta zeta. rw /cstr_at drop_app_length cstr_nul; [apply He|].
    rw strchr_entry_name name_test. rw -Hd.
    assert (∀ xs, var_names var (es1 ++ [e]) ++ xs = var_names var es1 ++
              (if bool_decide (var `prefix_of` entry_name e) then entry_name e :: xs else xs)) as Hv.
    { intros xs. rw /var_names fmap_app filter_app -app_assoc. f_equal.
      change (entry_name <$> [e]) with [entry_name e].
      rw filter_cons filter_nil. by repeat case_bool_decide || case_decide. }
    assert (var_names var es = var_names var (es1 ++ [e]) ++ var_names var es2) as Hves.
    { by rw Hes (cons_middle e) app_assoc /var_names !fmap_app !filter_app. }
    case_bool_decide as Hpre; cbn [negb].
    2: { apply wp_ret. split_and!; [done..|]. intros xs. by rw Hv Hp. }
    rw (prefix_take _ _ (entry_name_prefix e)).
    case_bool_decide as Hroom; cbn [orb]; [|destruct (b <? _)%Z eqn:Hb].
    + rw /push_cmdv decide_True; [lia|]. apply wp_bind, wp_ret, wp_ret.
      rw /end_cmdv decide_True; [rw length_app /=; lia|]. apply wp_ret.
      rw Hves Hv Hp /= in HQ. by replace (maxv - 2 - length cmdv)%nat with 0%nat in HQ by lia.
    + rw /push_cmdv decide_True; [lia|]. apply wp_bind, wp_ret, wp_ret.
      rw /end_cmdv decide_True; [rw length_app /=; lia|]. apply wp_ret.
      rw Hves Hv Hp /= in HQ. destruct (maxv - 2 - length cmdv)%nat eqn:E; [lia|].
      simpl in HQ. by rw Hb in HQ.
    + rw /push_cmdv decide_True; [lia|]. apply wp_bind, wp_ret, wp_ret.
      split_and!; [done..|rw length_app /=; lia|]. intros xs. rw Hv Hp -app_assoc length_app /=.
      destruct (maxv - 2 - length cmdv)%nat as [|k] eqn:E; [lia|]. simpl. rw Hb.
      by replace (maxv - 2 - (length cmdv + 1))%nat with k by lia.
Qed.

End env_complete.

(** ** Candidates from the table *)

(** The first [room] of a list, then "..." for the others. *)
Definition limit (room : nat) (l : list (list Z)) : list (list Z) :=
  if decide (length l ≤ room)%nat then l else take room l ++ [dots].

Lemma list_filter_bool_cons {A} (keep : A → bool) x l :
  filter keep (x :: l) = if keep x then x :: filter keep l else filter keep l.
Proof. rw filter_cons. by destruct (keep x). Qed.

Lemma list_cmds_limit {St S} (tbl : list (cmd_tbl_t St)) keep maxv cmdv (s : S) :
  (2 ≤ maxv)%nat → (length cmdv ≤ maxv - 2)%nat →
  list_cmds tbl keep maxv cmdv s =
  Ok (cmdv ++ limit (maxv - 2 - length cmdv) (filter keep (name <$> tbl)), s).
Proof.
  intros Hm. revert cmdv. induction tbl as [|c tbl IH]; intros cmdv Hc.
  { cbn [list_cmds]. rw filter_nil /limit. destruct (decide _) as [|H]; [|simpl in H; lia].
    by rw app_nil_r. }
  cbn [list_cmds fmap list_fmap]. rw list_filter_bool_cons. destruct (keep (name c)).
  2: by apply IH.
  rw /push_cmdv.
  destruct (decide (maxv - 2 ≤ length cmdv)%nat) as [Hfull|Hroom].
  - rw decide_True; [lia|]. replace (maxv - 2 - length cmdv)%nat with 0%nat by lia.
    rw /limit. by destruct (decide _) as [H|]; [simpl in H; lia|].
  - rw decide_True; [lia|]. rw /bind /ret IH; [rw length_app /=; lia|].
    rw -app_assoc length_app /=. do 2 f_equal. f_equal. rw /limit.
    destruct (maxv - 2 - length cmdv)%nat as [|k] eqn:Ek; [lia|].
    replace (maxv - 2 - (length cmdv + 1))%nat with k by lia.
    simpl. repeat destruct (decide _); simpl; try lia; done.
Qed.

Lemma limit_length room l : (length (limit room l) ≤ S room)%nat.
Proof. rw /limit. destruct (decide _); [lia|]. rw length_app length_take /=. lia. Qed.

(** The candidates for the first word of a line: the names that start with it. *)
Lemma complete_cmdv_word {St} (tbl : list (cmd_tbl_t St)) w last_char maxv d :
  (2 ≤ maxv)%nat → at_space last_char = false →
  let r := limit (maxv - 2) (filter (λ nm, cmd_key w `prefix_of` nm) (name <$> tbl)) in
  complete_cmdv tbl [w] last_char maxv d = Ok ((Z.of_nat (length r), r), d).
Proof.
  intros Hm Hsp r. rw /complete_cmdv decide_False; [lia|].
  rw (bool_decide_false ([] ≠ [])); [naive_solver|]. rw Hsp. cbn [orb].
  rw /bind list_cmds_limit; [lia|simpl; lia|]. rw /= Nat.sub_0_r.
  replace (filter (λ nm, negb (bool_decide (length nm < cmd_len w)%nat) &&
    memcmp_eq w nm (cmd_len w)) (name <$> tbl)) with (filter (λ nm, cmd_key w `prefix_of` nm)
    (name <$> tbl)).
  2: { apply list_filter_iff. intros nm. rw andb_True negb_True /memcmp_eq !bool_decide_spec.
       rw /cmd_key. pose proof (cmd_len_le w). split.
       - intros [x ->]. rw length_app length_take. split; [lia|].
         rw take_app_length' //. rw length_take. lia.
       - intros [Hl ->]. exists (drop (cmd_len w) nm). by rw take_drop. }
  rw /end_cmdv decide_True; [|done]. pose proof (limit_length (maxv - 2)
    (filter (λ nm, cmd_key w `prefix_of` nm) (name <$> tbl))). lia.
Qed.

(** ** The common prefix *)

Lemma prefix_cons_cons {A} (x y : A) k l : x :: k `prefix_of` y :: l ↔ x = y ∧ k `prefix_of` l.
Proof.
  split; [|intros [-> ?]; by apply prefix_cons].
  intros H. split; [by eapply prefix_cons_inv_1|by eapply prefix_cons_inv_2].
Qed.

Lemma common_len_spec len s t p :
  cstring s → cstring t → (len ≤ length s)%nat →
  (p `prefix_of` s ∧ (length p ≤ common_len len s t)%nat) ↔
  (p `prefix_of` s ∧ p `prefix_of` t ∧ (length p ≤ len)%nat).
Proof.
  intros Hs. revert t p len. induction Hs as [|x s Hx Hs IH]; intros t p [|len] Ht Hl;
    cbn [common_len]; simpl in Hl; try lia.
  - destruct p; simpl; [|lia]. split; [|done]. intros _. split_and!; [done|apply prefix_nil|lia].
  - destruct p; simpl; [|split; lia]. split; [|naive_solver].
    intros _. split_and!; [apply prefix_nil|apply prefix_nil|lia].
  - destruct p as [|c p]; [split; intros _; simpl; split_and!; try apply prefix_nil; lia|].
    change (deref (x :: s)) with x. cbn [length tail]. destruct Ht as [|y t Hy Ht].
    + change (deref []) with 0%Z. rw (proj2 (Z.eqb_neq _ _)); [lia|].
      split; [lia|]. by intros (_ & ?%prefix_nil_not & _).
    + change (deref (y :: t)) with y. rw !prefix_cons_cons. cbn [tail]. destruct (Z.eqb_spec y x) as [->|Hne]; simpl.
      * specialize (IH t p len Ht ltac:(lia)). split.
        -- intros [[-> Hp] Hlen]. destruct (proj1 IH) as (? & ? & ?); [split; [done|lia]|].
           split_and!; [done..|lia].
        -- intros ([-> Hp] & [_ Ht'] & Hlen). destruct (proj2 IH) as [? ?]; [split_and!; [done..|lia]|].
           split_and!; [done..|lia].
      * split; [lia|]. naive_solver.
Qed.

Lemma common_len_le len s t : (common_len len s t ≤ len)%nat.
Proof. revert s t. induction len as [|len IH]; intros s t; simpl; [done|]. case_match; [|lia]. specialize (IH (tail s) (tail t)). lia. Qed.

Lemma foldl_common_le c0 cs len : (foldl (λ len t, common_len len c0 t) len cs ≤ len)%nat.
Proof.
  revert len. induction cs as [|c cs IH]; intros len; simpl; [done|].
  etrans; [apply IH|]. apply common_len_le.
Qed.

(** [find_common_prefix] is the length of the longest common prefix: the prefixes
    of the first string up to that length are the prefixes of all. *)
Lemma find_common_prefix_spec c0 cs p :
  Forall cstring (c0 :: cs) →
  (p `prefix_of` c0 ∧ (length p ≤ find_common_prefix (c0 :: cs))%nat) ↔
  Forall (λ c, p `prefix_of` c) (c0 :: cs).
Proof.
  intros [H0 Hcs]%Forall_cons. cbn [find_common_prefix].
  assert (∀ len, (len ≤ length c0)%nat →
    (p `prefix_of` c0 ∧ (length p ≤ foldl (λ len t, common_len len c0 t) len cs)%nat) ↔
    (p `prefix_of` c0 ∧ Forall (λ c, p `prefix_of` c) cs ∧ (length p ≤ len)%nat)) as Hgen.
  { induction Hcs as [|c cs Hc Hcs IH]; intros len Hlen; simpl.
    { split; [intros [? ?]; by split_and!|naive_solver]. }
    pose proof (common_len_le len c0 c). rw IH; [lia|].
    pose proof (common_len_spec len c0 c p H0 Hc Hlen) as Hspec.
    split.
    - intros (Hp & Hall & Hl). destruct (proj1 Hspec) as (_ & Hpc & ?); [done|].
      split_and!; [done|by constructor|done].
    - intros (Hp & [Hpc Hall]%Forall_cons & Hl). destruct (proj2 Hspec); [done|].
      by split_and!. }
  rw (Hgen (length c0)) //. rw Forall_cons. split; [naive_solver|].
  intros [Hp Hall]. split_and!; [done..|]. by apply prefix_length.
Qed.

Lemma find_common_prefix_le c0 cs : (find_common_prefix (c0 :: cs) ≤ length c0)%nat.
Proof. apply foldl_common_le. Qed.

(** ** Completing the line *)

Lemma wp_put_bytes s l x rest (Q : unit → list Z → Prop) :
  length x = S (length s) →
  Q tt (l ++ s ++ NUL :: rest) → wp (put_bytes (length l) s) Q (l ++ x ++ rest).
Proof.
  revert l x. induction s as [|c s IH]; intros l [|y x] Hx HQ; simpl in Hx; try lia;
    cbn [put_bytes app].
  - destruct x; [|simpl in Hx; lia]. apply wp_store; [rw length_app /=; lia|].
    by rw insert_app_len.
  - apply wp_bind, wp_store; [rw length_app /=; lia|]. rw insert_app_len.
    replace (S (length l)) with (length (l ++ [c])) by (rw length_app /=; lia).
    replace (l ++ c :: x ++ rest) with ((l ++ [c]) ++ x ++ rest) by (by rw -app_assoc).
    apply IH; [lia|]. by rw -app_assoc.
Qed.

Lemma make_argv_words fuel argvsz l :
  NUL ∉ l → (length l + 1 < fuel)%nat →
  ∃ argv d, make_argv fuel argvsz (l ++ [NUL]) = Ok (argv, d) ∧
            cstr_at d <$> argv = take (argvsz - 1) (words l).
Proof.
  intros Hl Hf.
  assert (wp (make_argv fuel argvsz)
            (λ argv d, cstr_at d <$> argv = take (argvsz - 1) (words l)) (l ++ [NUL])) as Hwp.
  { apply wp_bind, wp_split_args; [done..|]. intros argv fin d Ha _ _. by apply wp_ret. }
  apply wp_ok in Hwp as (argv & d & Hrun & Ha). by exists argv, d.
Qed.

(** The console with a line [l] in its buffer. *)
Definition has_line (st : con) (l : list Z) : Prop :=
  NUL ∉ l ∧ length (con_buf st) = CFG_CBSIZE ∧ ∃ rest, con_buf st = l ++ NUL :: rest.

Lemma has_line_cstr st l : has_line st l → cstr (con_buf st) = l.
Proof. intros (Hl & _ & rest & ->). by apply cstr_nul. Qed.

Lemma has_line_length st l : has_line st l → (length l < CFG_CBSIZE)%nat.
Proof. intros (_ & <- & rest & ->). rw length_app /=. lia. Qed.

Lemma strcmp_prompt : strcmp CFG_PROMPT CFG_PROMPT = 0%Z.
Proof. done. Qed.

Lemma auto_complete_words {St} fuel (tbl : list (cmd_tbl_t St)) n col st l :
  has_line st l → (length l + 1 < fuel)%nat →
  cmd_auto_complete fuel tbl CFG_PROMPT n col st =
  bind (on_uboot (on_env (complete_cmdv tbl (take CFG_MAXARGS (words l)) (default 0%Z (last l)) 20)))
    (λ '(i, cmdv), finish_completion CFG_PROMPT (take CFG_MAXARGS (words l)) cmdv i n col) st.
Proof.
  intros Hl Hf. rw /cmd_auto_complete strcmp_prompt. cbn [negb Z.eqb].
  rw /bind {1}/get. cbv beta iota zeta. rw (has_line_cstr _ _ Hl).
  pose proof (has_line_length _ _ Hl). rw decide_False; [lia|].
  destruct (make_argv_words fuel (CFG_MAXARGS + 1) l) as (argv & d & -> & Ha); [apply Hl|done|].
  rw Ha. by replace (CFG_MAXARGS + 1 - 1)%nat with CFG_MAXARGS by lia.
Qed.

(** What completion prints: the added text, with a bell or not, or the candidates
    and the line once more. *)
Definition completion_output (l ext out : list Z) : Prop :=
  out = ext ∨ out = ext ++ [BELL] ∨
  (ext = [] ∧ ∃ cmdv, out = print_argv (bytes "  ") [32%Z] 78 cmdv ++ CFG_PROMPT ++ l).

(** The line is extended by [ext], within the buffer, and nothing else changes. *)
Definition completed (st : con) (l : list Z) (col : Z) (ext : list Z) (n' : nat) (col' : Z)
    (st' : con) : Prop :=
  has_line st' (l ++ ext) ∧ n' = length (l ++ ext) ∧ (n' < CFG_CBSIZE - 2)%nat ∧
  col' = (col + Z.of_nat (length ext))%Z ∧ con_u st' = con_u st ∧
  ∃ out, con_out st' = con_out st ++ out ∧ completion_output l ext out.

(** The text that [completion_text] asks for. *)
Definition added_text (r : option (list Z * bool)) : list Z :=
  match r with None => [] | Some (s, sep) => s ++ (if sep : bool then [32%Z] else []) end.

Lemma completed_same st l col out :
  has_line st l → (length l < CFG_CBSIZE - 2)%nat → completion_output l [] out →
  completed st l col [] (length l) col (Con (con_u st) (con_buf st) (con_out st ++ out)).
Proof.
  intros Hl Hlen Hout. rw /completed !app_nil_r /=. split_and!; [done..|lia|done|by exists out].
Qed.

Lemma wp_finish argv cmdv i st l col r :
  has_line st l → (length l < CFG_CBSIZE - 2)%nat → i ≠ 0%Z →
  completion_text argv cmdv i st = Ok (r, st) → NUL ∉ added_text r →
  let ext := if decide (length l + length (added_text r) < CFG_CBSIZE - 2)%nat
             then added_text r else [] in
  wp (finish_completion CFG_PROMPT argv cmdv i (length l) col)
    (λ '(rc, n', col') st', rc = 1%Z ∧ completed st l col ext n' col' st') st.
Proof.
  intros Hl Hlen Hi Htext Hnul ext. rw /finish_completion (proj2 (Z.eqb_neq i 0)) //.
  apply wp_bind. eapply wp_of_run; [exact Htext|]. apply wp_bind, wp_get.
  rw (has_line_cstr _ _ Hl). destruct r as [[s sep]|]; cbn [added_text] in *; cycle 1.
  { do 3 apply wp_bind, wp_modify. apply wp_ret. split; [done|]. rw /ext.
    rw decide_True; [cbn [length]; lia|].
    assert (∀ pa, completion_output l [] (pa ++ CFG_PROMPT ++ l) →
      completed st l col [] (length l) col
        (Con (con_u st) (con_buf st) (((con_out st ++ pa) ++ CFG_PROMPT) ++ l))) as H
      by (intros pa; rw -!app_assoc; by apply completed_same).
    apply H. right; right. split; [done|]. by eexists. }
  set (text := s ++ (if sep then [32%Z] else [])) in *.
  destruct (decide (CFG_CBSIZE - 2 ≤ length l + length text)%nat) as [Hfull|Hfit].
  { apply wp_bind, wp_modify, wp_ret. split; [done|]. rw /ext decide_False; [lia|].
    apply completed_same; [done..|]. right; by left. }
  rw /ext decide_True; [lia|]. clear ext. clearbody text.
  destruct Hl as (Hln & Hbuf & rest & Hrest).
  apply wp_bind, wp_zoom. rw Hrest. rw Hrest length_app /= in Hbuf.
  rw -(take_drop (length text) rest) app_comm_cons.
  apply wp_put_bytes; [simpl; rw length_take; lia|].
  apply wp_bind, wp_modify, wp_bind.
  assert (∀ out', completion_output l text (text ++ out') →
    completed st l col text (length l + length text) (col + Z.of_nat (length text))
      (Con (con_u st) (l ++ text ++ NUL :: drop (length text) rest) (con_out st ++ text ++ out')))
    as Hdone.
  { intros out' Ho. rw /completed length_app. cbn [con_u con_buf con_out].
    split_and!; [|done|lia|done|done|].
    - split_and!; [by apply not_elem_of_app| |].
      + rw /= !length_app /= length_drop. lia.
      + eexists. by rw /= -app_assoc.
    - by exists (text ++ out'). }
  destruct sep.
  - apply wp_ret, wp_ret. split; [done|]. specialize (Hdone []). rw !app_nil_r in Hdone.
    apply Hdone. by left.
  - apply wp_modify, wp_ret. split; [done|]. rw /= -app_assoc. apply Hdone. right; by left.
Qed.

(** ** Completing a command *)

Lemma words_single b w : blanks b → w ≠ [] → solid w → words (b ++ w) = [w].
Proof.
  intros Hb Hne Hw. rw words_blanks //. pose proof (words_word w [] Hne Hw I) as H.
  by rw app_nil_r in H.
Qed.

Lemma last_solid b w : w ≠ [] → solid w → NUL ∉ w → at_space (default 0%Z (last (b ++ w))) = false.
Proof.
  intros Hne Hw Hnul. destruct w as [|c w _] using rev_ind; [done|].
  rw app_assoc last_snoc /=. apply Forall_app in Hw as [_ [Hc _]%Forall_cons].
  rw /at_space Hc. rw not_elem_of_app not_elem_of_cons in Hnul.
  rw (proj2 (Z.eqb_neq c 0)) //. destruct Hnul as [_ [? _]]. by intros ->.
Qed.

(** The text added when all candidates start with [w]. *)
Definition word_ext (w : list Z) (cands : list (list Z)) : list Z :=
  match cands with
  | [] => []
  | [c] => drop (length w) c ++ [32%Z]
  | c :: _ => drop (length w) (take (find_common_prefix cands) c)
  end.

Lemma completion_text_word {S} argv w cands (s : S) :
  last argv = Some w → cands ≠ [] → Forall (λ c, w `prefix_of` c) cands →
  ∃ r, completion_text argv cands (Z.of_nat (length cands)) s = Ok (r, s) ∧
       added_text r = word_ext w cands.
Proof.
  intros Hlast Hne Hpre.
  assert (last_arg argv s = Ok (w, s)) as Harg by (by rw /last_arg Hlast).
  destruct cands as [|c0 [|c1 cs]]; [done| |].
  - apply Forall_cons in Hpre as [Hc _]. exists (Some (drop (length w) c0, true)). split; [|done].
    rw /completion_text /= /bind Harg /str_from decide_True; [by apply prefix_length|done].
  - apply Forall_cons in Hpre as Hpre'. destruct Hpre' as [Hc _].
    pose proof (find_common_prefix_le c0 (c1 :: cs)) as Hle.
    cbn [completion_text]. set (cmdv := c0 :: c1 :: cs) in *.
    rw (proj2 (Z.eqb_neq _ _)); [subst cmdv; simpl; lia|].
    rw (proj2 (Z.ltb_lt _ _)); [subst cmdv; simpl; lia|]. cbn [andb].
    assert (word_ext w cmdv = drop (length w) (take (find_common_prefix cmdv) c0)) as -> by done.
    case_bool_decide as H0; cbn [negb]; [eexists; split; [done|]; rw H0; by destruct (length w)|].
    rw /bind Harg. cbv beta iota zeta.
    destruct (decide (length w < find_common_prefix cmdv)%nat) as [Hlt|Hge].
    + eexists. split; [by rw /str_from decide_True; [lia|]|].
      cbn [added_text]. by rw app_nil_r skipn_firstn_comm.
    + eexists. split; [done|]. cbn [added_text]. rw drop_ge //. rw length_take. lia.
Qed.

(** More candidates than the list holds have no common prefix with "...". *)
Lemma limit_candidates w cands :
  w ≠ [] → DOT ∉ w → Forall cstring cands → Forall (λ c, w `prefix_of` c) cands →
  (18 < length cands)%nat → find_common_prefix (limit 18 cands) = 0%nat.
Proof.
  intros Hw Hdot Hcs Hpre Hlen. rw /limit decide_False; [lia|].
  destruct cands as [|c0 cands]; [simpl in Hlen; lia|]. cbn [take app].
  apply Forall_cons in Hcs as [Hc0 Hcs]. apply Forall_cons in Hpre as [Hp0 _].
  destruct (find_common_prefix _) as [|k] eqn:E; [done|]. exfalso.
  destruct w as [|x w]; [done|]. destruct c0 as [|y c0]; [by apply prefix_nil_not in Hp0|].
  apply prefix_cons_cons in Hp0 as [<- _].
  assert (Forall cstring ((x :: c0) :: take 17 cands ++ [dots])) as Hall.
  { constructor; [done|]. apply Forall_app. split; [by apply Forall_take|].
    constructor; [|constructor]. by apply (bool_decide_unpack _). }
  pose proof (proj1 (find_common_prefix_spec (x :: c0) (take 17 cands ++ [dots]) [x] Hall)) as H.
  apply Forall_cons in H as [_ H].
  - apply Forall_app in H as [_ [Hx _]%Forall_cons]. apply prefix_cons_inv_1 in Hx as ->.
    apply Hdot. by left.
  - split; [apply prefix_cons, prefix_nil|]. rw E /=. lia.
Qed.

Lemma completion_text_none {S} argv c0 c1 cs i (s : S) :
  (1 < i)%Z → find_common_prefix (c0 :: c1 :: cs) = 0%nat →
  completion_text argv (c0 :: c1 :: cs) i s = Ok (None, s).
Proof.
  intros Hi H0. cbn [completion_text]. rw (proj2 (Z.eqb_neq i 1)); [lia|].
  rw (proj2 (Z.ltb_lt 1 i)) // (bool_decide_true _ H0). done.
Qed.

(** What completion makes of a word that starts the candidates [cands]. *)
Definition word_completed (w : list Z) (cands : list (list Z)) (ext : list Z) : Prop :=
  match cands with
  | [] => ext = []
  | [c] => w ++ ext = c ++ [32%Z]
  | _ => Forall (λ c, w ++ ext `prefix_of` c) cands ∧
         ((length cands ≤ 18)%nat →
          ∀ p, Forall (λ c, p `prefix_of` c) cands → (length p ≤ length (w ++ ext))%nat)
  end.

Lemma word_ext_completed w cands :
  Forall cstring cands → Forall (λ c, w `prefix_of` c) cands →
  word_completed w cands (word_ext w cands).
Proof.
  intros Hcs Hpre. destruct cands as [|c0 [|c1 cs]]; [done| |].
  - apply Forall_cons in Hpre as [[x ->] _]. by rw /= drop_app_length -app_assoc.
  - set (cands := c0 :: c1 :: cs) in *. set (j := find_common_prefix cands).
    change (Forall (λ c, w ++ drop (length w) (take j c0) `prefix_of` c) cands ∧
      ((length cands ≤ 18)%nat → ∀ p, Forall (λ c, p `prefix_of` c) cands →
         (length p ≤ length (w ++ drop (length w) (take j c0)))%nat)).
    assert (∀ p, (p `prefix_of` c0 ∧ (length p ≤ j)%nat) ↔ Forall (λ c, p `prefix_of` c) cands)
      as Hspec by (intros p; by apply find_common_prefix_spec).
    assert (j ≤ length c0)%nat as Hj by apply find_common_prefix_le.
    assert (w ++ drop (length w) (take j c0) = take j c0) as ->.
    { destruct (proj2 (Hspec w) Hpre) as [[x ->] Hl].
      rw take_app_ge // drop_app_length //. }
    split.
    + apply Hspec. split; [|rw length_take; lia]. exists (drop j c0). by rw take_drop.
    + intros _ p Hp. apply Hspec in Hp as [_ Hp]. rw length_take. lia.
Qed.

Lemma con_env_same (st : con) : set_u st (set_env (con_u st) (u_env (con_u st))) = st.
Proof. by destruct st as [[]]. Qed.

(** Candidates that leave the environment as it is. *)
Lemma on_env_run {A} (m : M (list Z) A) st a :
  m (u_env (con_u st)) = Ok (a, u_env (con_u st)) → on_uboot (on_env m) st = Ok (a, st).
Proof. intros H. by rw /on_uboot /on_env /zoom H con_env_same. Qed.

Section word.
Context {St : Type} (fuel : nat) (tbl : list (cmd_tbl_t St)) (b w : list Z) (st : con) (col : Z).
Hypothesis Hline : has_line st (b ++ w).
Hypothesis Hfuel : (length (b ++ w) + 1 < fuel)%nat.
Hypothesis Hb : blanks b.
Hypothesis Hw : w ≠ [] ∧ solid w.

Lemma auto_complete_word :
  let cands := limit 18 (filter (λ nm, cmd_key w `prefix_of` nm) (name <$> tbl)) in
  cmd_auto_complete fuel tbl CFG_PROMPT (length (b ++ w)) col st =
  finish_completion CFG_PROMPT [w] cands (Z.of_nat (length cands)) (length (b ++ w)) col st.
Proof.
  intros cands. destruct Hw as [Hne Hs]. rw (auto_complete_words _ _ _ _ _ (b ++ w)) //.
  rw words_single //. change (take CFG_MAXARGS [w]) with [w].
  assert (NUL ∉ w) as Hnul by (destruct Hline as [H _]; by apply not_elem_of_app in H as [_ ?]).
  rw /bind (on_env_run _ _ (Z.of_nat (length cands), cands)) //.
  apply complete_cmdv_word; [lia|by apply last_solid].
Qed.

End word.

(** The text for the candidates that [complete_cmdv] lists. *)
Lemma limit_text {S} w cands (s : S) :
  cands ≠ [] → w ≠ [] → DOT ∉ w → Forall cstring cands → Forall (λ c, w `prefix_of` c) cands →
  ∃ r, completion_text [w] (limit 18 cands) (Z.of_nat (length (limit 18 cands))) s = Ok (r, s) ∧
       word_completed w cands (added_text r).
Proof.
  intros Hne Hw Hdot Hcs Hpre. destruct (decide (length cands ≤ 18)%nat) as [Hle|Hgt].
  - rw {1 2}/limit. destruct (decide _) as [_|?]; [|done].
    destruct (completion_text_word [w] w cands s) as (r & Hr & Ht); [done..|].
    exists r. split; [done|]. rw Ht. by apply word_ext_completed.
  - exists None. pose proof (limit_candidates w cands Hw Hdot Hcs Hpre ltac:(lia)) as H0. split.
    + rw /limit in H0 |- *. destruct (decide _) as [|_]; [lia|].
      destruct cands as [|c0 [|c1 cs]]; [done|simpl in Hgt; lia|].
      apply completion_text_none; [simpl; lia|done].
    + destruct cands as [|c0 [|c1 cs]]; [done|simpl in Hgt; lia|].
      rw /word_completed app_nil_r. split; [done|]. lia.
Qed.

(** The new word is no longer than some candidate and a blank. *)
Lemma word_added_fits w cands ext :
  cands ≠ [] → Forall cstring cands → word_completed w cands ext →
  ∃ c, c ∈ cands ∧ (length (w ++ ext) ≤ length c + 1)%nat ∧ NUL ∉ ext.
Proof.
  intros Hne Hcs Hext. destruct cands as [|c0 cands]; [done|]. exists c0.
  apply Forall_cons in Hcs as [Hc0 _].
  assert (NUL ∉ c0) as Hnul.
  { intros Hin. rw /cstring Forall_forall in Hc0. specialize (Hc0 _ Hin). rw /NUL in Hc0. lia. }
  split; [by left|]. destruct cands as [|c1 cands]; cbn [word_completed] in Hext.
  - rw Hext length_app /=. split; [done|]. intros Hin.
    assert (NUL ∈ w ++ ext) as H by (apply elem_of_app; by right). rw Hext in H.
    apply elem_of_app in H as [?|H]; [done|]. by apply list_elem_of_singleton in H.
  - destruct Hext as [[[x Hx] _]%Forall_cons _]. split.
    + rw Hx !length_app. lia.
    + intros Hin. apply Hnul. rw Hx. apply elem_of_app. left. apply elem_of_app. by right.
Qed.

(** C17: TAB completes a command.  On a line that is one word [w] without a dot,
    with room for every command's name, the completion returns, stays inside the
    console buffer and changes nothing but the line: with one command that starts
    with [w], the line becomes its name and a blank; with several, the line is
    extended to a prefix of all of them, the longest one unless the list of
    candidates overflows; with none it is unchanged.  Count and column are those
    of the new line, and exactly the added text is echoed, or the candidates and
    the line are printed. *)
Theorem auto_complete_command {St} fuel (tbl : list (cmd_tbl_t St)) b w st col :
  Forall (λ c, cstring (name c)) tbl → has_line st (b ++ w) → (length (b ++ w) + 1 < fuel)%nat →
  blanks b → w ≠ [] → solid w → DOT ∉ w → (length (b ++ w) < CFG_CBSIZE - 2)%nat →
  Forall (λ c, length b + length (name c) + 1 < CFG_CBSIZE - 2)%nat tbl →
  wp (cmd_auto_complete fuel tbl CFG_PROMPT (length (b ++ w)) col)
    (λ '(rc, n', col') st', rc = 1%Z ∧ ∃ ext, completed st (b ++ w) col ext n' col' st' ∧
       word_completed w (filter (λ nm, w `prefix_of` nm) (name <$> tbl)) ext) st.
Proof.
  intros Hnames Hline Hfuel Hb Hne Hs Hdot Hlen Hroom.
  rw /wp auto_complete_word // cmd_key_plain //.
  set (cands := filter (λ nm, w `prefix_of` nm) (name <$> tbl)).
  assert (∀ nm, nm ∈ cands → w `prefix_of` nm ∧ cstring nm ∧
            (length b + length nm + 1 < CFG_CBSIZE - 2)%nat) as Hin.
  { intros nm [Hp (c & -> & Hc)%list_elem_of_fmap]%list_elem_of_filter.
    rw Forall_forall in Hnames. rw Forall_forall in Hroom. naive_solver. }
  assert (Forall cstring cands) as Hcs by (apply Forall_forall; naive_solver).
  assert (Forall (λ c, w `prefix_of` c) cands) as Hpre by (apply Forall_forall; naive_solver).
  clearbody cands. destruct cands as [|c0 cands'].
  { split; [done|]. exists []. split; [|done]. apply completed_same; [done..|]. right; by left. }
  set (cands := c0 :: cands') in *.
  assert (cands ≠ []) as Hne' by done. clearbody cands.
  destruct (limit_text w cands st) as (r & Hr & Hext); [done..|].
  pose proof (word_added_fits w cands (added_text r) Hne' Hcs Hext) as (c & Hc & Hl & Hnul).
  eapply wp_mono.
  - apply wp_finish; [done..| |exact Hr|done]. destruct cands; [done|].
    rw /limit. destruct (decide _); simpl; lia.
  - intros [[rc n'] col'] st' [-> Hst']. split; [done|]. exists (added_text r). split; [|done].
    rw decide_True in Hst'; [|done]. destruct (Hin c Hc) as (_ & _ & ?).
    rw !length_app in Hl |- *. lia.
Qed.

Definition demo_con (line : list Z) : con :=
  Con demo_uboot (line ++ replicate (CFG_CBSIZE - length line) 0%Z) [].

Lemma demo_line line : NUL ∉ line → (length line < CFG_CBSIZE)%nat → has_line (demo_con line) line.
Proof.
  intros Hn Hl. split_and!; [done| |].
  - rw /= length_app length_replicate. lia.
  - exists (replicate (CFG_CBSIZE - length line - 1) 0%Z). rw /=. f_equal.
    destruct (CFG_CBSIZE - length line)%nat as [|k] eqn:E; [lia|]. by rw /= Nat.sub_0_r.
Qed.

Lemma auto_complete_command_witness :
  wp (cmd_auto_complete 100 demo_tbl CFG_PROMPT 2 8)
    (λ '(rc, n', col') st', rc = 1%Z ∧ ∃ ext,
       completed (demo_con (bytes "sa")) (bytes "sa") 8 ext n' col' st' ∧
       bytes "sa" ++ ext = bytes "saveenv ") (demo_con (bytes "sa")).
Proof.
  eapply wp_mono.
  - apply (auto_complete_command 100 demo_tbl [] (bytes "sa")).
    + by apply (bool_decide_unpack _).
    + apply demo_line; [by apply (bool_decide_unpack _)|vm_compute; lia].
    + vm_compute. lia.
    + constructor.
    + done.
    + by apply (bool_decide_unpack _).
    + by apply (bool_decide_unpack _).
    + vm_compute. lia.
    + by apply (bool_decide_unpack _).
  - intros [[rc n'] col'] st' [-> (ext & H & Hext)]. split; [done|]. by exists ext.
Defined.

(** ** Completing a variable *)

Section variable.
Context {St : Type} (fuel m : nat) (tbl : list (cmd_tbl_t St)) (st : con) (es : list entry).
Hypothesis Hok : Forall entry_ok es.
Hypothesis Hrepr : env_repr es (u_env (con_u st)).
Hypothesis Hm : (length (u_env (con_u st)) < m)%nat.

(** The command has been given [var_complete]. *)
Definition completes_vars (w0 : list Z) : Prop :=
  ∃ i c, find_cmd tbl w0 = Some i ∧ tbl !! i = Some c ∧ complete c = Some (var_complete m).

Lemma env_complete_run var :
  let r := pick_names 18 512 (var_names var es) in
  env_complete m var 20 512 (u_env (con_u st)) =
  Ok ((Z.of_nat (length r), r), u_env (con_u st)).
Proof.
  intros r. assert (wp (env_complete m var 20 512)
    (λ a d, a = (Z.of_nat (length r), r) ∧ d = u_env (con_u st)) (u_env (con_u st))) as H.
  { by eapply (wp_env_complete m var 20 512 es); [..|lia|]. }
  apply wp_ok in H as (a & d & -> & -> & ->). done.
Qed.

(** With the word under the cursor, or with none after the command. *)
Lemma complete_cmdv_var w0 var last_char :
  completes_vars w0 → at_space last_char = false →
  complete_cmdv tbl [w0; var] last_char 20 (u_env (con_u st)) =
  env_complete m var 20 512 (u_env (con_u st)).
Proof.
  intros (i & c & Hf & Hi & Hc) Hsp. rw /complete_cmdv Hf /= Hi /= Hc /var_complete.
  by rw Hsp.
Qed.

Lemma complete_cmdv_space w0 last_char :
  completes_vars w0 → at_space last_char = true →
  complete_cmdv tbl [w0] last_char 20 (u_env (con_u st)) =
  env_complete m [] 20 512 (u_env (con_u st)).
Proof.
  intros (i & c & Hf & Hi & Hc) Hsp. rw /complete_cmdv Hf /= Hi /= Hc /var_complete.
  by rw Hsp.
Qed.

End variable.

(** TAB after a dotted command word whose key names one command that is
    shorter than the word reads behind the end of the command's name. *)
Lemma auto_complete_dotted_faults {St} fuel (tbl : list (cmd_tbl_t St)) b w c st col :
  has_line st (b ++ w) → (length (b ++ w) + 1 < fuel)%nat → blanks b → w ≠ [] → solid w →
  filter (λ nm, cmd_key w `prefix_of` nm) (name <$> tbl) = [c] → (length c < length w)%nat →
  cmd_auto_complete fuel tbl CFG_PROMPT (length (b ++ w)) col st = Err OutOfBounds.
Proof.
  intros Hline Hfuel Hb Hne Hs Hc Hlen. rw auto_complete_word // Hc.
  change (limit 18 [c]) with [c]. rw /finish_completion /= /bind /last_arg /= /ret /str_from.
  rw decide_False; [lia|done].
Qed.

Lemma words_trailing b w b2 : blanks b → w ≠ [] → solid w → blanks b2 → words (b ++ w ++ b2) = [w].
Proof.
  intros Hb Hne Hw Hb2. rw words_blanks // words_word //; [by destruct Hb2|].
  pose proof (words_blanks b2 [] Hb2) as H. rw app_nil_r in H. by rw H.
Qed.

Lemma last_blanks l b2 : b2 ≠ [] → blanks b2 → at_space (default 0%Z (last (l ++ b2))) = true.
Proof.
  intros Hne Hb. destruct b2 as [|c b2 _] using rev_ind; [done|].
  rw app_assoc last_snoc /= /at_space. apply Forall_app in Hb as [_ [Hc _]%Forall_cons].
  rw Hc. apply orb_true_r.
Qed.

(** TAB after a command and a blank offers the wrong text.  Where the command
    completes variables ([printenv], [setenv], [run]) and the environment has one
    variable, the code drops from its name as many characters as the *command*
    has: when the name is shorter, it reads behind the name's end. *)
Theorem auto_complete_blank_faults {St} fuel m (tbl : list (cmd_tbl_t St)) b w b2 e st col :
  has_line st (b ++ w ++ b2) → (length (b ++ w ++ b2) + 1 < fuel)%nat →
  blanks b → w ≠ [] → solid w → b2 ≠ [] → blanks b2 →
  env_repr [e] (u_env (con_u st)) → entry_ok e → (length (u_env (con_u st)) < m)%nat →
  completes_vars m tbl w → (length (entry_name e) < length w ≤ 511)%nat →
  cmd_auto_complete fuel tbl CFG_PROMPT (length (b ++ w ++ b2)) col st = Err OutOfBounds.
Proof.
  intros Hline Hfuel Hb Hne Hs Hne2 Hb2 Hrepr He Hm Hcv Hlen.
  rw (auto_complete_words _ _ _ _ _ (b ++ w ++ b2)) // words_trailing //.
  change (take CFG_MAXARGS [w]) with [w]. rw /bind (on_env_run _ _ (1%Z, [entry_name e])).
  - rw (complete_cmdv_space m tbl st w) //; [by rw app_assoc; apply last_blanks|].
    rw (env_complete_run m st [e]) //; [by constructor|].
    assert (var_names [] [e] = [entry_name e]) as ->.
    { rw /var_names. change (entry_name <$> [e]) with [entry_name e].
      rw filter_cons filter_nil. destruct (decide _) as [|H]; [done|]. destruct H. apply prefix_nil. }
    by rw pick_all; [simpl; lia|simpl; lia|].
  - rw /finish_completion /= /bind /last_arg /= /ret /str_from. rw decide_False; [lia|done].
Qed.

Definition demo_one : con :=
  let env := enc [bytes "a=1"] ++ replicate 4 0%Z in
  let line := bytes "printenv " in
  Con (set_env demo_uboot env) (con_buf (demo_con line)) [].

Lemma auto_complete_blank_faults_witness :
  cmd_auto_complete 100 (install_auto_complete 100 demo_tbl) CFG_PROMPT 9 15 demo_one =
  Err OutOfBounds.
Proof.
  apply (auto_complete_blank_faults 100 100 (install_auto_complete 100 demo_tbl) []
           (bytes "printenv") (bytes " ") (bytes "a=1")).
  - destruct (demo_line (bytes "printenv ")) as (H1 & H2 & H3);
      [by apply (bool_decide_unpack _)|vm_compute; lia|]. by split_and!.
  - vm_compute. lia.
  - constructor.
  - done.
  - by apply (bool_decide_unpack _).
  - done.
  - by apply (bool_decide_unpack _).
  - by exists (replicate 3 0%Z).
  - by apply (bool_decide_unpack _).
  - vm_compute. lia.
  - by exists 2%nat, (CmdTbl (bytes "printenv") 32 1 (λ _ _, ret 0%Z)
      (Some (bytes "printenv" ++ [10%Z])) None (Some (var_complete 100))).
  - vm_compute. lia.
Defined.

(** TAB completes the name of a variable.  Behind a command that completes
    variables, with at most 18 names that start with the word [v] and room for
    them, the completion returns and leaves the line to the caller when there is
    no such name; else it extends [v] as [auto_complete_command] says. *)
Theorem auto_complete_variable {St} fuel m (tbl : list (cmd_tbl_t St)) b w b2 v es st col :
  let l := b ++ w ++ b2 ++ v in
  let names := var_names v es in
  has_line st l → (length l + 1 < fuel)%nat → (length l < CFG_CBSIZE - 2)%nat →
  blanks b → w ≠ [] → solid w → b2 ≠ [] → blanks b2 → v ≠ [] → solid v →
  Forall entry_ok es → env_repr es (u_env (con_u st)) → (length (u_env (con_u st)) < m)%nat →
  completes_vars m tbl w → Forall cstring names → (length names ≤ 18)%nat →
  (sum_list_with (λ x, (length x + 1)%nat) names ≤ 512)%nat →
  Forall (λ nm, length (b ++ w ++ b2) + length nm + 1 < CFG_CBSIZE - 2)%nat names →
  wp (cmd_auto_complete fuel tbl CFG_PROMPT (length l) col)
    (λ '(rc, n', col') st',
       if decide (names = []) then rc = 0%Z ∧ n' = length l ∧ col' = col ∧ st' = st
       else rc = 1%Z ∧ ∃ ext, completed st l col ext n' col' st' ∧ word_completed v names ext) st.
Proof.
  intros l names Hline Hfuel Hlen Hb Hne Hs Hne2 Hb2 Hnev Hv Hok Hrepr Hm Hcv Hcs H18 H512 Hroom.
  assert (words l = [w; v]) as Hw.
  { rw /l words_blanks // words_word //; [by destruct Hb2|]. f_equal.
    rw words_blanks //. by apply (words_single []); [constructor|..]. }
  assert (NUL ∉ v) as Hnul.
  { destruct Hline as [H _]. rw /l !not_elem_of_app in H. naive_solver. }
  assert (Forall (λ c, v `prefix_of` c) names) as Hpre.
  { apply Forall_forall. by intros nm [? _]%list_elem_of_filter. }
  rw /wp (auto_complete_words _ _ _ _ _ l) // Hw. change (take CFG_MAXARGS [w; v]) with [w; v].
  rw /bind (on_env_run _ _ (Z.of_nat (length names), names)).
  { rw (complete_cmdv_var m tbl st w) //.
    - rw /l 2!app_assoc. by apply last_solid.
    - rw (env_complete_run m st es) //. fold names. rw pick_all; [done|lia|done]. }
  clearbody names. destruct (decide (names = [])) as [->|Hnn]; [done|].
  destruct (completion_text_word [w; v] v names st) as (r & Hr & Hext); [done..|].
  pose proof (word_ext_completed v names Hcs Hpre) as Hwc. rw -Hext in Hwc.
  pose proof (word_added_fits v names (added_text r) Hnn Hcs Hwc) as (c & Hc & Hl & Hn).
  eapply wp_mono.
  - apply wp_finish; [done..| |exact Hr|done]. by destruct names; [done|simpl; lia].
  - intros [[rc n'] col'] st' [-> Hst']. split; [done|]. exists (added_text r). split; [|done].
    rw decide_True in Hst'; [|done]. rw Forall_forall in Hroom. specialize (Hroom c Hc).
    rw /l !length_app in Hl Hroom |- *. lia.
Qed.
