(* ===== verification/Readline.v ===== *)
(** * The line editor of the console (u-boot/common/main.c, [readline])

    Reading a line with echo, erase keys and completion, and the command that
    reads a variable's value from the user (common/cmd_nvedit.c, [do_askenv]).
    What the user sees is modelled too: one row of a terminal that follows the
    output.  CONFIG_BOOT_RETRY_TIME and CONFIG_SHOW_ACTIVITY are off, as on the
    board. *)

From Stdlib Require Import ssreflect ZArith Lia String.
From stdpp Require Import base tactics numbers list sets.
From S2P Require Import Prelude Crc32 Vsprintf EnvFormat EnvOps NvEdit Command Complete.

Set Default Goal Selector "!".
Open Scope general_if_scope.

Definition erase_seq : list Z := [8; 32; 8]%Z.
Definition tab_seq : list Z := replicate 8 32%Z.
Definition CTRL_C : Z := 3.
Definition CTRL_U : Z := 21.
Definition CTRL_W : Z := 23.
Definition DEL : Z := 127.

(** ** Erasing *)

Fixpoint erase_cols (k : nat) : M con unit :=
  match k with
  | O => ret tt
  | S k' => puts erase_seq ;;; erase_cols k'
  end.

(** [while ( *colp > plen) { puts (erase_seq); ( *colp)--; }] *)
Definition erase_line (col plen : Z) : M con Z :=
  erase_cols (Z.to_nat (col - plen)) ;;; ret (Z.min col plen).

(** Showing a character of the line, a TAB as blanks up to the next stop; the
    new column. *)
Definition show_char (c col : Z) : M con Z :=
  if (c =? TAB)%Z then
    puts (drop (Z.to_nat (Z.land col 7)) tab_seq) ;;; ret (col + (8 - Z.land col 7))%Z
  else putc c ;;; ret (col + 1)%Z.

(** [p], [*colp] and [*np] after it. *)
Definition delete_char (p : nat) (col : Z) (n : nat) (plen : Z) : M con (nat * Z * nat) :=
  match n with
  | O => ret (p, col, n)
  | S n' =>
      match p with
      | O => fail OutOfBounds
      | S p =>
          let! c := on_buf (load p) in
          let! col :=
            if (c =? TAB)%Z then
              let! col := erase_line col plen in
              for_fold (seq 0 p) (λ col s, let! c := on_buf (load s) in show_char c col) col
            else puts erase_seq ;;; ret (col - 1)%Z in
          ret (p, col, n')
      end
  end.

(** ** Reading *)

Section readline.
Context {St : Type} (fuel : nat) (tbl : list (cmd_tbl_t St)) (prompt : list Z).

(** [case 0x17]: "erase word". *)
Definition erase_word_key (p n : nat) (col plen : Z) : M con (nat * nat * Z) :=
  let! (p, col, n) := delete_char p col n plen in
  loopM (S n) (λ '(p, n, col),
    if decide (0 < n)%nat then
      let! c := on_buf (load p) in
      if (c =? 32)%Z then ret (inr (p, n, col)) else
      let! (p, col, n) := delete_char p col n plen in ret (inl (p, n, col))
    else ret (inr (p, n, col))) (p, n, col).

(** "Must be a normal character then". *)
Definition normal_key (c : Z) (p n : nat) (col : Z) : M con (nat * nat * Z) :=
  if decide (n < CFG_CBSIZE - 2)%nat then
    let! (handled, n, col) :=
      if (c =? TAB)%Z then
        on_buf (store p NUL) ;;;
        let! (r, n, col) := cmd_auto_complete fuel tbl prompt n col in
        ret (negb (r =? 0)%Z, n, col)
      else ret (false, n, col) in
    if handled : bool then ret (n, n, col) else
    let! col := show_char c col in
    on_buf (store p c) ;;;
    ret (S p, S n, col)
  else putc BELL ;;; ret (p, n, col).

(** One round of [for (;;)]: [inr] is a [return]. *)
Definition readline_key (plen : Z) : nat * nat * Z → M con (nat * nat * Z + Z) :=
  λ '(p, n, col),
    let! c := getc in
    if (c =? 13)%Z || (c =? 10)%Z then
      on_buf (store p NUL) ;;; puts [13; 10]%Z ;;; ret (inr (Z.of_nat p))
    else if (c =? 0)%Z then ret (inl (p, n, col))
    else if (c =? CTRL_C)%Z then on_buf (store 0 NUL) ;;; ret (inr (-1)%Z)
    else if (c =? CTRL_U)%Z then let! col := erase_line col plen in ret (inl (0%nat, 0%nat, col))
    else if (c =? CTRL_W)%Z then let! r := erase_word_key p n col plen in ret (inl r)
    else if (c =? 8)%Z || (c =? DEL)%Z then
      let! (p, col, n) := delete_char p col n plen in ret (inl (p, n, col))
    else let! r := normal_key c p n col in ret (inl r).

Definition readline (n : nat) : M con Z :=
  let plen := Z.of_nat (length prompt) in
  puts prompt ;;;
  loopM n (readline_key plen) (0%nat, 0%nat, plen).

End readline.

(** ** [askenv] (common/cmd_nvedit.c) *)

(** The message of [askenv name message ... size]: the loop over argv[2..argc-2]. *)
Fixpoint join_words (message : list Z) (ws : list (list Z)) : list Z :=
  match ws with
  | [] => message
  | w :: ws' =>
      join_words (message ++ (if decide (message = []) then [] else [32%Z]) ++ w) ws'
  end.

(** [message] and [size] before the limits: [args] is argv[2..argc-1]. *)
Definition askenv_args (name : list Z) (args : list (list Z)) : list Z * Z :=
  match args with
  | [] => (bytes "Please enter '" ++ name ++ bytes "':", Z.of_nat CFG_CBSIZE - 1)%Z
  | [sz] => (bytes "Please enter '" ++ name ++ bytes "':", s32 (simple_strtoul sz 10).1)
  | _ => (join_words [] (removelast args), s32 (simple_strtoul (List.last args []) 10).1)
  end.

(** [argv] is argv[1..argc-1].  A message that does not fit into its array is a
    fault. *)
Definition do_askenv {St} (fuel n ENV_SIZE : nat) (tbl : list (cmd_tbl_t St))
    (argv : list (list Z)) : M con Z :=
  match argv with
  | [] => ret 1%Z
  | name :: args =>
      let '(message, size) := askenv_args name args in
      if decide (CFG_CBSIZE ≤ length message)%nat then fail OutOfBounds else
      let size := if (Z.of_nat CFG_CBSIZE <=? size)%Z then (Z.of_nat CFG_CBSIZE - 1)%Z else size in
      if (size <=? 0)%Z then ret 1%Z else
      let! len := readline fuel tbl message n in
      (if (size <? len)%Z then on_buf (store (Z.to_nat size) NUL) else ret tt) ;;;
      let! st := get in
      let value := cstr (con_buf st) in
      on_uboot (_do_setenv n ENV_SIZE name (if decide (value = []) then [] else [Some value]))
  end.

(** ** A row of the terminal

    The characters to the left of the cursor, in reverse, and those from the
    cursor on. *)

Record row := Row { r_before : list Z; r_after : list Z }.

Definition term_put (r : row) (c : Z) : row :=
  if (c =? 8)%Z then
    match r_before r with
    | [] => r
    | x :: b => Row b (x :: r_after r)
    end
  else if (c =? BELL)%Z then r
  else if (c =? 13)%Z then Row [] (rev (r_before r) ++ r_after r)
  else if (c =? 10)%Z then Row [] []
  else Row (c :: r_before r) (tail (r_after r)).

Definition term (o : list Z) : row := foldl term_put (Row [] []) o.

(** ** The screen *)

Definition visible (c : Z) : Prop := (32 ≤ c < 256)%Z ∧ c ≠ DEL.

(** A line from column [col] on, with TABs as blanks. *)
Fixpoint display (col : nat) (l : list Z) : list Z :=
  match l with
  | [] => []
  | c :: l' =>
      if (c =? TAB)%Z then
        let k := (8 - col mod 8)%nat in replicate k 32%Z ++ display (col + k) l'
      else c :: display (S col) l'
  end.

Definition at_col (b : list Z) (k : nat) : row := Row b (replicate k 32%Z).

Lemma term_app o s : term (o ++ s) = foldl term_put (term o) s.
Proof. apply foldl_app. Qed.

Lemma term_visible c b k : visible c → term_put (at_col b k) c = at_col (c :: b) (k - 1).
Proof.
  intros [[Hc _] _]. rw /term_put /at_col /=.
  rw !(proj2 (Z.eqb_neq c _)); [lia|rw /BELL; lia|lia|lia|].
  f_equal. destruct k as [|k]; [done|]. by rw /= Nat.sub_0_r.
Qed.

Lemma term_text s b k :
  Forall visible s → foldl term_put (at_col b k) s = at_col (rev s ++ b) (k - length s).
Proof.
  intros Hs. revert b k. induction Hs as [|c s Hc Hs IH]; intros b k; simpl.
  { by rw Nat.sub_0_r. }
  rw term_visible // IH -app_assoc. f_equal. lia.
Qed.

Lemma term_erase c b k : foldl term_put (at_col (c :: b) k) erase_seq = at_col b (S k).
Proof. done. Qed.

Lemma display_app col l1 l2 :
  display col (l1 ++ l2) = display col l1 ++ display (col + length (display col l1)) l2.
Proof.
  revert col. induction l1 as [|c l1 IH]; intros col; simpl; [by rw Nat.add_0_r|].
  destruct (c =? TAB)%Z.
  - rw IH -app_assoc length_app length_replicate. by rw Nat.add_assoc.
  - rw IH /=. by replace (col + S (length (display (S col) l1)))%nat with
      (S col + length (display (S col) l1))%nat by lia.
Qed.

Definition line_char (c : Z) : Prop := c = TAB ∨ visible c.

Lemma visible_blank : visible 32.
Proof. by apply (bool_decide_unpack _). Qed.

Lemma display_visible col l : Forall line_char l → Forall visible (display col l).
Proof.
  intros Hl. revert col. induction Hl as [|c l Hc Hl IH]; intros col; simpl; [constructor|].
  destruct (Z.eqb_spec c TAB) as [->|Hne].
  - apply Forall_app. split; [|done]. apply Forall_replicate, visible_blank.
  - constructor; [|done]. by destruct Hc.
Qed.

(** The row shows the prompt and the line, the cursor is behind it, and only
    blanks follow. *)
Definition shows (prompt line o : list Z) : Prop :=
  ∃ k, term o = at_col (rev (prompt ++ display (length prompt) line)) k.

Lemma land7_mod col : Z.land (Z.of_nat col) 7 = Z.of_nat (col mod 8).
Proof. change 7%Z with (Z.ones 3). rw Z.land_ones; [lia|]. by rw Nat2Z.inj_mod. Qed.

Lemma cbsize_pos : (2 < CFG_CBSIZE)%nat.
Proof. vm_compute. lia. Qed.

Lemma wp_store_at line rest st v (Q : unit → con → Prop) :
  con_buf st = line ++ rest → (length line < length (con_buf st))%nat →
  Q tt (set_buf st (line ++ v :: tail rest)) → wp (on_buf (store (length line) v)) Q st.
Proof.
  intros Hb Hl HQ. apply wp_zoom. rw Hb in Hl |- *. rw length_app in Hl.
  destruct rest as [|x rest]; [simpl in Hl; lia|].
  apply wp_store; [rw length_app /=; lia|]. by rw insert_app_len.
Qed.

Section edit.
Context (st0 : con) (prompt : list Z).
Hypothesis Hprompt : Forall visible prompt.
Let plen := Z.of_nat (length prompt).

(** The console while [line] is edited: nothing but the input, the buffer and
    the output differ from [st0]. *)
Definition editing (line : list Z) (ks : list Z) (col : Z) (st : con) : Prop :=
  con_u st = set_serial (con_u st0) (u_baudrate (con_u st0)) ks ∧
  length (con_buf st) = CFG_CBSIZE ∧ (∃ rest, con_buf st = line ++ rest) ∧
  (length line ≤ CFG_CBSIZE - 2)%nat ∧ Forall line_char line ∧
  col = (plen + Z.of_nat (length (display (length prompt) line)))%Z ∧
  ∃ o, con_out st = con_out st0 ++ o ∧ shows prompt line o.

Lemma wp_erase_cols k x b st (Q : unit → con → Prop) o j :
  length x = k → con_out st = con_out st0 ++ o → term o = at_col (x ++ b) j →
  (∀ o', term o' = at_col b (j + k) →
     Q tt (Con (con_u st) (con_buf st) (con_out st0 ++ o'))) →
  wp (erase_cols k) Q st.
Proof.
  revert x j o st. induction k as [|k IH]; intros [|c x] j o st Hx Ho Ht HQ; simpl in Hx; try lia.
  - apply wp_ret. rw Nat.add_0_r in HQ. destruct st as [u bf out]. cbn in *. subst out. by apply HQ.
  - apply wp_bind, wp_modify. eapply (IH x (S j) (o ++ erase_seq)); [lia| | |].
    + rw /= Ho -app_assoc //.
    + rw term_app Ht. apply term_erase.
    + intros o' Ho'. apply HQ. rw Ho'. f_equal. lia.
Qed.

Lemma wp_show_char c m st (Q : Z → con → Prop) o k b :
  line_char c → con_out st = con_out st0 ++ o → term o = at_col b k →
  (∀ o' k', term o' = at_col (rev (display m [c]) ++ b) k' →
     Q (Z.of_nat (m + length (display m [c])))
       (Con (con_u st) (con_buf st) (con_out st0 ++ o'))) →
  wp (show_char c (Z.of_nat m)) Q st.
Proof.
  intros Hc Ho Ht HQ. rw /show_char. cbn [display] in HQ. destruct (Z.eqb_spec c TAB) as [->|Hne].
  - rw app_nil_r length_replicate in HQ. apply wp_bind, wp_modify, wp_ret. rw Ho -app_assoc.
    rw land7_mod Nat2Z.id. rw {1}/tab_seq drop_replicate. pose proof (Nat.mod_upper_bound m 8).
    replace (Z.of_nat m + (8 - Z.of_nat (m mod 8)))%Z with (Z.of_nat (m + (8 - m mod 8))) by lia.
    apply (HQ _ (k - length (replicate (8 - m mod 8) 32%Z))%nat).
    rw term_app Ht. apply term_text, Forall_replicate, visible_blank.
  - destruct Hc as [?|Hc]; [done|]. apply wp_bind, wp_modify, wp_ret. rw Ho -app_assoc.
    replace (Z.of_nat m + 1)%Z with (Z.of_nat (m + length [c])) by (simpl; lia).
    apply (HQ _ (k - 1)%nat). by rw term_app Ht /= term_visible.
Qed.

Lemma display_length_snoc l c :
  let m := (length prompt + length (display (length prompt) l))%nat in
  display (length prompt) (l ++ [c]) = display (length prompt) l ++ display m [c].
Proof. apply display_app. Qed.

(** Printing the line once more. *)
Lemma wp_retype line rest st (Q : Z → con → Prop) o k :
  con_buf st = line ++ rest → Forall line_char line →
  con_out st = con_out st0 ++ o → term o = at_col (rev prompt) k →
  (∀ o', shows prompt line o' →
     Q (plen + Z.of_nat (length (display (length prompt) line)))%Z
       (Con (con_u st) (con_buf st) (con_out st0 ++ o'))) →
  wp (for_fold (seq 0 (length line)) (λ col s, let! c := on_buf (load s) in show_char c col) plen)
    Q st.
Proof.
  intros Hbuf Hline Ho Ht HQ.
  apply (wp_for_fold _ [] _ (λ pre col st', ∃ o',
    let l := take (length pre) line in
    st' = Con (con_u st) (con_buf st) (con_out st0 ++ o') ∧ shows prompt l o' ∧
    col = (plen + Z.of_nat (length (display (length prompt) l)))%Z)).
  - intros s pre col st' (o' & -> & (k' & Ht') & ->) [suf Hsuf]. simpl in Hsuf.
    assert (s = length pre ∧ (length pre < length line)%nat) as [-> Hlt].
    { pose proof (f_equal length Hsuf) as Hl. rw length_seq length_app /= in Hl.
      assert (seq 0 (length line) !! length pre = Some s) as Hs by (rw Hsuf; apply lookup_app_len).
      apply lookup_seq in Hs as [-> ?]. by split. }
    destruct (lookup_lt_is_Some_2 line (length pre) Hlt) as [c Hc].
    apply wp_bind, wp_zoom. eapply wp_load; [by rw /= Hbuf lookup_app_l|].
    rw length_app /= Nat.add_1_r (take_S_r _ _ _ Hc).
    set (l := take (length pre) line) in *. rw /plen -Nat2Z.inj_add.
    eapply wp_show_char; [|done|exact Ht'|].
    + by eapply Forall_lookup_1.
    + intros o'' k'' Ht''. exists o''. cbn [con_u con_buf]. split_and!; [done| |].
      * exists k''. rw Ht'' display_length_snoc. by rw (app_assoc prompt) !rev_app_distr.
      * rw display_length_snoc length_app -Nat2Z.inj_add. f_equal. lia.
  - exists o. cbn [length take]. destruct st as [u bf out]. cbn in *. subst out.
    split_and!; [done| |by rw /= Z.add_0_r]. exists k. by rw app_nil_r.
  - intros col st' (o' & -> & Hsh & ->). rw /= length_seq in Hsh |- *. rw firstn_all in Hsh |- *.
    by apply HQ.
Qed.

Lemma wp_delete_char line c ks col st (Q : nat * Z * nat → con → Prop) :
  editing (line ++ [c]) ks col st →
  (∀ col' st', editing line ks col' st' → con_buf st' = con_buf st →
     Q (length line, col', length line) st') →
  wp (delete_char (length (line ++ [c])) col (length (line ++ [c])) plen) Q st.
Proof.
  intros (Hu & Hlen & [rest Hbuf] & Hl & Hchars & Hcol & o & Ho & k & Ht) HQ.
  rw length_app Nat.add_1_r in Hl |- *. cbn [delete_char]. apply Forall_app in Hchars as [Hline _].
  apply wp_bind, wp_zoom. rw -app_assoc in Hbuf.
  eapply wp_load; [by rw Hbuf lookup_app_len|].
  assert (∀ o', shows prompt line o' →
    editing line ks (plen + Z.of_nat (length (display (length prompt) line)))%Z
      (Con (con_u st) (con_buf st) (con_out st0 ++ o'))) as Hed.
  { intros o' Hsh. split_and!; [done|done|by eexists|lia|done|done|by exists o']. }
  rw display_length_snoc in Hcol Ht. set (m := (length prompt + _)%nat) in *.
  replace (set_buf st (con_buf st)) with st by (by destruct st).
  apply wp_bind. destruct (Z.eqb_spec c TAB) as [->|Hne].
  - apply wp_bind, wp_bind. rw app_assoc rev_app_distr rev_app_distr app_assoc in Ht.
    eapply wp_erase_cols; [|exact Ho|exact Ht|].
    { rw length_app !length_rev Hcol length_app. lia. }
    intros o' Ht'. apply wp_ret. replace (Z.min col plen) with plen by lia.
    eapply wp_retype; [exact Hbuf|done|done|exact Ht'|].
    intros o'' Hsh. apply wp_ret, HQ; [by apply Hed|done].
  - assert (display m [c] = [c]) as Hd by (rw /= (proj2 (Z.eqb_neq c TAB)) //).
    apply wp_bind, wp_modify, wp_ret, wp_ret. rw Hd length_app /= in Hcol. rw Ho -app_assoc.
    replace (col - 1)%Z with (plen + Z.of_nat (length (display (length prompt) line)))%Z by lia.
    apply HQ; [|done]. apply Hed. exists (S k). rw term_app Ht Hd app_assoc rev_app_distr /=.
    apply term_erase.
Qed.

(** A character that goes into the line. *)
Lemma wp_normal_key {St} fuel (tbl : list (cmd_tbl_t St)) line c ks col st
    (Q : nat * nat * Z → con → Prop) :
  editing line ks col st → line_char c → (c = TAB → strcmp prompt CFG_PROMPT ≠ 0%Z) →
  let line' := if decide (length line < CFG_CBSIZE - 2)%nat then line ++ [c] else line in
  (∀ col' st', editing line' ks col' st' → Q (length line', length line', col') st') →
  wp (normal_key fuel tbl prompt c (length line) (length line) col) Q st.
Proof.
  intros (Hu & Hlen & [rest Hbuf] & Hl & Hchars & Hcol & o & Ho & k & Ht) Hc Htab line' HQ.
  rw /normal_key. rw /line' in HQ. destruct (decide (length line < CFG_CBSIZE - 2)%nat) as [Hlt|Hge].
  2: { apply wp_bind, wp_modify, wp_ret, HQ. split_and!; [done|done|by exists rest|done..|].
       exists (o ++ [BELL]). rw /= Ho -app_assoc. split; [done|]. exists k. by rw term_app Ht. }
  set (m := (length prompt + length (display (length prompt) line))%nat).
  assert (∀ st1 rest1, con_u st1 = con_u st → con_buf st1 = line ++ rest1 →
    length (con_buf st1) = CFG_CBSIZE → con_out st1 = con_out st →
    wp (let! col := show_char c col in on_buf (store (length line) c) ;;;
        ret (S (length line), S (length line), col)) Q st1) as Hput.
  { intros st1 rest1 Hu1 Hb1 Hl1 Ho1. apply wp_bind.
    replace col with (Z.of_nat m) by lia.
    eapply wp_show_char; [done|by rw Ho1|exact Ht|]. intros o' k' Ht'.
    apply wp_bind. eapply wp_store_at; [exact Hb1|rw /= Hl1; lia|]. apply wp_ret.
    replace (S (length line)) with (length (line ++ [c])) by (rw length_app /=; lia).
    apply HQ. split_and!; cbn [con_u con_buf con_out set_buf].
    - by rw Hu1.
    - rw Hb1 in Hl1. rw length_app in Hl1. rw length_app /=. destruct rest1; cbn [tail length] in *; lia.
    - exists (tail rest1). by rw -app_assoc.
    - rw length_app. cbn [length]. lia.
    - apply Forall_app. split; [done|]. by constructor.
    - rw display_length_snoc length_app -/m. lia.
    - exists o'. split; [done|]. exists k'. rw Ht' display_length_snoc.
      by rw (app_assoc prompt) !rev_app_distr. }
  apply wp_bind. destruct (Z.eqb_spec c TAB) as [->|Hne].
  - apply wp_bind. eapply wp_store_at; [exact Hbuf|lia|]. apply wp_bind.
    rw /cmd_auto_complete (proj2 (Z.eqb_neq _ _)); [by apply Htab|]. apply wp_ret, wp_ret.
    apply (Hput _ (NUL :: tail rest)); [done..| |done]. rw /=.
    rw Hbuf length_app in Hlen. rw length_app /=. destruct rest; cbn [tail length] in *; lia.
  - apply wp_ret. by apply (Hput st rest).
Qed.

End edit.

(** ** Editing a line

    What the keys do to the line, as a list. *)

Fixpoint erase_word_rev (r : list Z) : list Z :=
  match r with
  | [] => []
  | c :: r' => if (c =? 32)%Z then r' else erase_word_rev r'
  end.

(** Up to and with the last blank, which may be the last character. *)
Definition erase_word (l : list Z) : list Z := rev (erase_word_rev (rev l)).

Definition edit (line : list Z) (c : Z) : list Z :=
  if (c =? 0)%Z then line
  else if (c =? CTRL_U)%Z then []
  else if (c =? CTRL_W)%Z then erase_word line
  else if (c =? 8)%Z || (c =? DEL)%Z then removelast line
  else if decide (length line < CFG_CBSIZE - 2)%nat then line ++ [c]
  else line.

Definition edit_key (c : Z) : Prop :=
  line_char c ∨ c ∈ [0; CTRL_U; CTRL_W; 8; DEL]%Z.

Lemma erase_word_snoc l c :
  erase_word (l ++ [c]) = if (c =? 32)%Z then l else erase_word l.
Proof.
  rw /erase_word rev_app_distr /=. destruct (c =? 32)%Z; [by rw rev_involutive|done].
Qed.

Section keys.
Context {St : Type} (fuel : nat) (tbl : list (cmd_tbl_t St)) (st0 : con) (prompt : list Z).
Hypothesis Hprompt : Forall visible prompt.
Let plen := Z.of_nat (length prompt).
Abbreviation editing := (editing st0 prompt).

(** After [c] was deleted, the rest of the word goes. *)
Lemma wp_erase_word_loop line c rest ks col st n (Q : nat * nat * Z → con → Prop) :
  editing line ks col st → con_buf st = line ++ c :: rest → (length line < n)%nat →
  let line' := if (c =? 32)%Z then line else erase_word line in
  (∀ col' st', editing line' ks col' st' → Q (length line', length line', col') st') →
  wp (loopM n (λ '(p, n, col),
    if decide (0 < n)%nat then
      let! c := on_buf (load p) in
      if (c =? 32)%Z then ret (inr (p, n, col)) else
      let! (p, col, n) := delete_char p col n plen in ret (inl (p, n, col))
    else ret (inr (p, n, col))) (length line, length line, col)) Q st.
Proof.
  revert c rest col st n. induction line as [|x line IH] using rev_ind;
    intros c rest col st n Hed Hbuf Hn line' HQ; destruct n as [|n]; try lia; apply wp_loop_step.
  { apply wp_ret. rw /line' in HQ. by destruct (c =? 32)%Z; apply HQ. }
  rw decide_True; [rw length_app /=; lia|].
  apply wp_bind, wp_zoom. eapply wp_load; [by rw Hbuf lookup_app_len|].
  replace (set_buf st (con_buf st)) with st by (by destruct st).
  rw /line' in HQ. destruct (c =? 32)%Z; [apply wp_ret; by apply HQ|].
  apply wp_bind. eapply wp_delete_char; [exact Hed|].
  intros col' st' Hed' Hb. apply wp_ret. rw erase_word_snoc in HQ.
  eapply (IH x (c :: rest)); [done| |rw length_app /= in Hn; lia|exact HQ].
  by rw Hb Hbuf -app_assoc.
Qed.

Lemma wp_erase_word_key line ks col st (Q : nat * nat * Z → con → Prop) :
  editing line ks col st →
  (∀ col' st', editing (erase_word line) ks col' st' →
     Q (length (erase_word line), length (erase_word line), col') st') →
  wp (erase_word_key (length line) (length line) col plen) Q st.
Proof.
  intros Hed HQ. rw /erase_word_key. apply wp_bind.
  destruct line as [|c line _] using rev_ind.
  { apply wp_ret, wp_loop_step, wp_ret. by apply HQ. }
  destruct Hed as (H1 & H2 & [rest Hbuf] & H3).
  eapply wp_delete_char; [split_and!; [exact H1|exact H2|by exists rest|apply H3..]|].
  intros col' st' Hed' Hb. rw erase_word_snoc in HQ. rw -app_assoc in Hbuf.
  eapply (wp_erase_word_loop line c rest); [done|by rw Hb|lia|exact HQ].
Qed.

Lemma wp_erase_line line ks col st (Q : Z → con → Prop) :
  editing line ks col st → (∀ st', editing [] ks plen st' → Q plen st') →
  wp (erase_line col plen) Q st.
Proof.
  intros (Hu & Hlen & [rest Hbuf] & Hl & Hchars & Hcol & o & Ho & k & Ht) HQ.
  apply wp_bind. rw rev_app_distr in Ht. eapply (wp_erase_cols st0 prompt); [|exact Ho|exact Ht|].
  { rw length_rev. lia. }
  intros o' Ht'. apply wp_ret. replace (Z.min col plen) with plen by lia. apply HQ.
  split_and!; [done|done|by eexists|simpl; lia|constructor|rw /= Z.add_0_r //|].
  exists o'. split; [done|]. eexists. rw /= app_nil_r. exact Ht'.
Qed.

(** A key that does not end the line. *)
Lemma wp_readline_key line c ks col st (Q : nat * nat * Z + Z → con → Prop) :
  editing line (c :: ks) col st → edit_key c → (c = TAB → strcmp prompt CFG_PROMPT ≠ 0%Z) →
  (∀ col' st', editing (edit line c) ks col' st' →
     Q (inl (length (edit line c), length (edit line c), col')) st') →
  wp (readline_key fuel tbl prompt plen (length line, length line, col)) Q st.
Proof.
  intros Hed Hkey Htab HQ. rw /readline_key. apply wp_bind.
  pose proof Hed as (Hu & H2). rw /wp /getc Hu. cbn [u_input set_serial].
  assert (editing line ks col (set_u st (set_serial (con_u st) (u_baudrate (con_u st)) ks)))
    as Hed1 by (split; [by rw /= Hu|apply H2]).
  rw -Hu. set (st1 := set_u st _) in *. clearbody st1. clear Hed Hu H2 st. rename st1 into st.
  rw /edit in HQ. assert (c ≠ 13 ∧ c ≠ 10 ∧ c ≠ CTRL_C)%Z as (H13 & H10 & H3).
  { rw /CTRL_C. destruct Hkey as [[->|[? _]]|Hin]; [done|lia|].
    rw !elem_of_cons elem_of_nil /CTRL_U /CTRL_W /DEL in Hin. lia. }
  rw (proj2 (Z.eqb_neq c 13)) // (proj2 (Z.eqb_neq c 10)) // (proj2 (Z.eqb_neq c CTRL_C)) //.
  cbn [orb]. destruct (Z.eqb_spec c 0) as [->|H0]; [by apply HQ|].
  destruct (Z.eqb_spec c CTRL_U) as [->|HU].
  { apply wp_bind. eapply wp_erase_line; [exact Hed1|]. intros st' Hed'. apply wp_ret. by apply HQ. }
  destruct (Z.eqb_spec c CTRL_W) as [->|HW].
  { apply wp_bind. eapply wp_erase_word_key; [exact Hed1|]. intros col' st' Hed'.
    apply wp_ret. by apply HQ. }
  destruct ((c =? 8)%Z || (c =? DEL)%Z) eqn:Hdel.
  { apply wp_bind. destruct line as [|x line _] using rev_ind.
    - apply wp_ret, wp_ret. by apply HQ.
    - eapply wp_delete_char; [exact Hed1|]. intros col' st' Hed' _. apply wp_ret.
      rw removelast_last in HQ. by apply HQ. }
  apply wp_bind. eapply wp_normal_key; [exact Hed1| |done|].
  - destruct Hkey as [?|Hin]; [done|]. apply orb_false_iff in Hdel as [?%Z.eqb_neq ?%Z.eqb_neq].
    rw !elem_of_cons elem_of_nil in Hin. naive_solver.
  - intros col' st' Hed'. apply wp_ret. by apply HQ.
Qed.

End keys.

(** What [readline] leaves when key [t] ends the line. *)
Definition line_read (st : con) (prompt line : list Z) (t : Z) (rest : list Z) (r : Z) (st' : con)
    : Prop :=
  con_u st' = set_serial (con_u st) (u_baudrate (con_u st)) rest ∧
  if decide (t = CTRL_C) then r = (-1)%Z ∧ has_line st' []
  else r = Z.of_nat (length line) ∧ has_line st' line ∧
       ∃ o, con_out st' = con_out st ++ o ++ [13; 10]%Z ∧ shows prompt line o.

Lemma line_char_nul line : Forall line_char line → NUL ∉ line.
Proof.
  intros Hl Hin. rw Forall_forall in Hl. destruct (Hl _ Hin) as [?|[[? _] _]]; [done|].
  rw /NUL in H. lia.
Qed.

Lemma wp_readline_loop {St} fuel (tbl : list (cmd_tbl_t St)) st0 prompt ks t rest n line col st
    (Q : Z → con → Prop) :
  Forall visible prompt → editing st0 prompt line (ks ++ t :: rest) col st → Forall edit_key ks →
  (TAB ∈ ks → strcmp prompt CFG_PROMPT ≠ 0%Z) → t ∈ [13; 10; CTRL_C]%Z → (length ks < n)%nat →
  (∀ r st', line_read st0 prompt (foldl edit line ks) t rest r st' → Q r st') →
  wp (loopM n (readline_key fuel tbl prompt (Z.of_nat (length prompt)))
        (length line, length line, col)) Q st.
Proof.
  intros Hp Hed Hks Htab Ht. revert line col st n Hed.
  induction Hks as [|c ks Hc Hks IH]; intros line col st n Hed Hn HQ;
    (destruct n as [|n]; [lia|]); apply wp_loop_step.
  - destruct Hed as (Hu & Hlen & [rest' Hbuf] & Hl & Hchars & Hcol & o & Ho & Hsh).
    pose proof cbsize_pos. rw /readline_key. apply wp_bind. rw /wp /getc Hu.
    cbn [u_input set_serial]. apply elem_of_cons in Ht as [->|Ht]; [|apply elem_of_cons in Ht as [->|Ht];
      [|apply list_elem_of_singleton in Ht as ->]]; cbn [Z.eqb Pos.eqb orb].
    1, 2: apply wp_bind; eapply wp_store_at; [exact Hbuf|cbn [set_u con_buf]; lia|];
      apply wp_bind, wp_modify, wp_ret, HQ; split; [done|]; (destruct (decide _) as [|_]; [done|]);
      split_and!; [done| |exists o; by rw /= Ho -app_assoc];
      split_and!; [by apply line_char_nul| |by eexists]; rw /=;
      rw Hbuf length_app in Hlen; rw length_app /=; destruct rest'; cbn [tail length] in *; lia.
    apply wp_bind, wp_zoom, wp_store; [rw /= Hlen; vm_compute; lia|]. apply wp_ret, HQ.
    split; [done|]. destruct (decide _) as [_|]; [|done]. split; [done|]. rw /=.
    split_and!; [apply not_elem_of_nil|by rw length_insert|]. rw /=.
    destruct (con_buf st) as [|x b]; [|by exists b]. exfalso. by vm_compute in Hlen.
  - eapply (wp_readline_key _ _ st0); [exact Hed|done| |].
    { intros ->. apply Htab. by left. }
    intros col' st' Hed'. apply IH; [|done|simpl in Hn; lia|done].
    intros Hin. apply Htab. by right.
Qed.

(** From the prompt on. *)
Lemma wp_readline {St} fuel (tbl : list (cmd_tbl_t St)) prompt ks t rest st n (Q : Z → con → Prop) :
  Forall visible prompt → length (con_buf st) = CFG_CBSIZE → Forall edit_key ks →
  (TAB ∈ ks → strcmp prompt CFG_PROMPT ≠ 0%Z) → t ∈ [13; 10; CTRL_C]%Z →
  u_input (con_u st) = ks ++ t :: rest → (length ks < n)%nat →
  (∀ r st', line_read st prompt (foldl edit [] ks) t rest r st' → Q r st') →
  wp (readline fuel tbl prompt n) Q st.
Proof.
  intros Hp Hlen Hks Htab Ht Hin Hn HQ. apply wp_bind, wp_modify.
  eapply (wp_readline_loop fuel tbl st prompt ks t rest n []); [done| |done..].
  split_and!; [|done|by exists (con_buf st)|simpl; lia|constructor|by rw /= Z.add_0_r|].
  - rw /= -Hin. by destruct (con_u st).
  - exists prompt. split; [done|]. exists (0 - length prompt)%nat. rw /= app_nil_r.
    rw /term. change (Row [] []) with (at_col [] 0). by rw term_text // app_nil_r.
Qed.

(** C13: The line editor does what the user sees.  For every prompt and every
    sequence of keys (characters, TAB outside the command prompt, backspace,
    delete, ^W, ^U) ended by ENTER, [readline] returns; the console buffer then
    holds, within its bounds, exactly the edited line (erasing takes back the last
    character, ^W back to the last blank, ^U all; characters beyond the size of
    the buffer are dropped), the result is its length, only the keys were
    consumed; and the terminal's row showed the prompt and that line, with TABs
    expanded, and nothing behind it.  ^C ends it with -1 and an empty line. *)
Theorem readline_edit {St} fuel (tbl : list (cmd_tbl_t St)) prompt ks t rest st n :
  Forall visible prompt → length (con_buf st) = CFG_CBSIZE → Forall edit_key ks →
  (TAB ∈ ks → strcmp prompt CFG_PROMPT ≠ 0%Z) → t ∈ [13; 10; CTRL_C]%Z →
  u_input (con_u st) = ks ++ t :: rest → (length ks < n)%nat →
  wp (readline fuel tbl prompt n) (line_read st prompt (foldl edit [] ks) t rest) st.
Proof.
  intros Hp Hl Hks Htab Ht Hin Hn. by apply (wp_readline fuel tbl prompt ks t rest).
Qed.

Definition demo_keys : list Z := bytes "sete x" ++ [8; 8; CTRL_W]%Z ++ bytes "ab" ++ [TAB] ++ bytes "d".

Lemma readline_edit_witness :
  let st := Con (set_serial demo_uboot 115200 (demo_keys ++ [13; 65]%Z))
              (replicate CFG_CBSIZE 0%Z) [] in
  wp (readline 10 demo_tbl (bytes "> ") 50)
    (line_read st (bytes "> ") (bytes "ab" ++ [TAB] ++ bytes "d") 13 [65%Z]) st.
Proof.
  intros st. apply (readline_edit 10 demo_tbl (bytes "> ") demo_keys 13 [65%Z]).
  - by apply (bool_decide_unpack _).
  - apply length_replicate.
  - rw /edit_key /line_char. by apply (bool_decide_unpack _).
  - done.
  - by left.
  - done.
  - vm_compute. lia.
Defined.

(** ** [askenv] *)

(** The line is cut at [size]. *)
Lemma wp_cut_line size line rest st (Q : unit → con → Prop) :
  con_buf st = line ++ NUL :: rest → NUL ∉ line → (0 < size)%Z →
  (∀ st', cstr (con_buf st') = take (Z.to_nat size) line → con_u st' = con_u st → Q tt st') →
  wp (if (size <? Z.of_nat (length line))%Z then on_buf (store (Z.to_nat size) NUL) else ret tt) Q st.
Proof.
  intros Hbuf Hnul Hsize HQ. destruct (Z.ltb_spec size (Z.of_nat (length line))) as [Hlt|Hge].
  - destruct (lookup_lt_is_Some_2 line (Z.to_nat size)) as [x Hx]; [lia|].
    pose proof (take_drop_middle _ _ _ Hx) as Hm.
    assert (con_buf st = take (Z.to_nat size) line ++ x :: drop (S (Z.to_nat size)) line ++ NUL :: rest)
      as Hb by (by rw Hbuf -{1}Hm -app_assoc).
    apply wp_zoom, wp_store; [rw Hbuf length_app; lia|]. apply HQ; [|done]. rw /= Hb.
    replace (<[Z.to_nat size := NUL]> _) with
      (take (Z.to_nat size) line ++ NUL :: drop (S (Z.to_nat size)) line ++ NUL :: rest).
    + apply cstr_nul. intros Hin. by apply Hnul, (subseteq_take (Z.to_nat size) line).
    + rw -{3}(length_take_le line (Z.to_nat size)); [lia|]. by rw insert_app_len.
  - apply wp_ret, HQ; [|done]. rw Hbuf cstr_nul // take_ge //. lia.
Qed.

Lemma edit_chars line ks :
  Forall line_char line → Forall edit_key ks → Forall line_char (foldl edit line ks).
Proof.
  intros Hl Hks. revert line Hl. induction Hks as [|c ks Hc Hks IH]; intros line Hl; [done|].
  simpl. apply IH. rw /edit. destruct (Z.eqb_spec c 0); [done|].
  destruct (Z.eqb_spec c CTRL_U); [constructor|]. destruct (Z.eqb_spec c CTRL_W).
  { induction line as [|x line IHl] using rev_ind; [constructor|]. rw erase_word_snoc.
    apply Forall_app in Hl as [Hl _]. by destruct (x =? 32)%Z; [|apply IHl]. }
  destruct (Z.eqb_spec c 8); simpl; [|destruct (Z.eqb_spec c DEL)].
  1, 2: destruct line as [|x line _] using rev_ind; [constructor|];
    rw removelast_last; by apply Forall_app in Hl as [? _].
  destruct (decide _); [|done]. apply Forall_app. split; [done|]. constructor; [|constructor].
  destruct Hc as [?|Hin]; [done|]. rw !elem_of_cons elem_of_nil in Hin. naive_solver.
Qed.

Section askenv.
Context {St : Type} (fuel n SZ : nat) (tbl : list (cmd_tbl_t St)) (name : list Z)
  (args : list (list Z)) (ks : list Z) (t : Z) (rest : list Z) (st : con) (es : list entry).
Let message := (askenv_args name args).1.
Let limit := Z.min (askenv_args name args).2 (Z.of_nat CFG_CBSIZE - 1).
Hypothesis Hmsg : Forall visible message ∧ (length message < CFG_CBSIZE)%nat.
Hypothesis Hsize : (0 < (askenv_args name args).2)%Z.
Hypothesis Hbuf : length (con_buf st) = CFG_CBSIZE.
Hypothesis Hkeys : Forall edit_key ks ∧ (TAB ∈ ks → strcmp message CFG_PROMPT ≠ 0%Z).
Hypothesis Hinput : u_input (con_u st) = ks ++ t :: rest ∧ t ∈ [13; 10; CTRL_C]%Z.
Hypothesis Hn : (length ks < n)%nat.

(** The value that [do_askenv] passes on. *)
Definition asked : list Z :=
  if decide (t = CTRL_C) then [] else take (Z.to_nat limit) (foldl edit [] ks).

Lemma wp_do_askenv (Q : Z → con → Prop) :
  (∀ st1, con_u st1 = set_serial (con_u st) (u_baudrate (con_u st)) rest →
     wp (on_uboot (_do_setenv n SZ name (if decide (asked = []) then [] else [Some asked]))) Q st1) →
  wp (do_askenv fuel n SZ tbl (name :: args)) Q st.
Proof.
  intros HQ. rw /do_askenv. revert Hmsg Hsize Hkeys HQ. rw /asked /limit /message.
  destruct (askenv_args name args) as [msg size]. cbn [fst snd]. intros [Hv Hl] Hs [Hks Htab] HQ.
  pose proof cbsize_pos. rw decide_False; [lia|].
  replace (if (Z.of_nat CFG_CBSIZE <=? size)%Z then _ else size)
    with (Z.min size (Z.of_nat CFG_CBSIZE - 1)) by (destruct (Z.leb_spec (Z.of_nat CFG_CBSIZE) size); lia).
  set (sz := Z.min size _) in *. rw (proj2 (Z.leb_gt sz 0)); [lia|].
  apply wp_bind. destruct Hinput as [Hi Ht].
  eapply (wp_readline fuel tbl msg ks t rest); [done..|].
  intros r st1 [Hu Hline]. destruct (decide (t = CTRL_C)) as [Hc|Hc].
  - destruct Hline as [-> Hl1]. rw (proj2 (Z.ltb_ge sz (-1))); [lia|].
    apply wp_bind, wp_ret, wp_bind, wp_get. rw (has_line_cstr _ _ Hl1). by apply HQ.
  - destruct Hline as (-> & (Hnul & _ & rest1 & Hb1) & _). apply wp_bind.
    eapply wp_cut_line; [exact Hb1|done|lia|]. intros st2 Hc2 Hu2.
    apply wp_bind, wp_get. rw Hc2. apply HQ. by rw Hu2.
Qed.

End askenv.

(** C31: [askenv] stores what the user typed.  For an ordinary variable, any of the
    command's forms and every sequence of keys, the variable is set to the edited
    line, cut at the given size; an empty line deletes it, and so does ^C.  When
    the definition does not fit, 1 is returned and the old one is gone. *)
Theorem do_askenv_correct {St} fuel n SZ (tbl : list (cmd_tbl_t St)) name args ks t rest st es :
  let message := (askenv_args name args).1 in
  let value := asked name args ks t in
  Forall visible message ∧ (length message < CFG_CBSIZE)%nat → (0 < (askenv_args name args).2)%Z →
  length (con_buf st) = CFG_CBSIZE →
  Forall edit_key ks ∧ (TAB ∈ ks → strcmp message CFG_PROMPT ≠ 0%Z) →
  u_input (con_u st) = ks ++ t :: rest ∧ t ∈ [13; 10; CTRL_C]%Z → (length ks < n)%nat →
  env_wf es → env_repr es (u_env (con_u st)) → length (u_env (con_u st)) = SZ → (SZ < n)%nat →
  name_ok name → (length name < n)%nat → is_special name = false →
  wp (do_askenv fuel n SZ tbl (name :: args)) (λ rc st',
    let u := con_u st' in
    if decide (value = []) then
      rc = 0%Z ∧ env_repr (env_remove name es) (u_env u) ∧ u_crc u = crc32 0 (u_env u)
    else
      rc = 0%Z ∧ env_repr (env_set name value es) (u_env u) ∧ u_crc u = crc32 0 (u_env u) ∨
      rc = 1%Z ∧ ¬ env_fits SZ name value (env_remove name es) ∧
      env_repr (env_remove name es) (u_env u)) st.
Proof.
  intros message value Hmsg Hsize Hbuf Hkeys Hinput Hn Hwf Hrepr Hlen HSZ Hname Hnn Hsp.
  eapply wp_do_askenv; [done..|]. intros st1 Hu1. apply wp_zoom. fold value.
  assert (NUL ∉ value) as Hnul.
  { rw /value /asked. destruct (decide _); [apply not_elem_of_nil|]. intros Hin.
    apply subseteq_take in Hin. revert Hin. by apply line_char_nul, edit_chars, Hkeys. }
  rw -(f_equal u_env Hu1 : u_env (con_u st1) = u_env (con_u st)) in Hrepr Hlen.
  destruct (decide (value = [])) as [Hv|Hv].
  - eapply wp_do_setenv_name; [done..|]. intros u' Hr Hc _. by split_and!.
  - eapply (wp_do_setenv n SZ name value []); [done..| | | | |].
    + by constructor.
    + by intros ->.
    + intros u' Hf Hr Hc _. left. rw /args_value app_nil_r in Hr. by split_and!.
    + intros u' Hf Hr _ _. right. rw /args_value app_nil_r in Hf. by split_and!.
    + intros u' Hs. by rw Hsp in Hs.
Qed.

Definition demo_ask : con :=
  Con (set_serial demo_uboot 115200 (bytes "abc" ++ [8; 13]%Z)) (replicate CFG_CBSIZE 0%Z) [].

Lemma do_askenv_correct_witness :
  wp (do_askenv 10 100 (length demo_data) demo_tbl [bytes "x"; bytes "2"]) (λ rc st',
    rc = 0%Z ∧ env_repr (env_set (bytes "x") (bytes "ab") demo_es) (u_env (con_u st')))
    demo_ask.
Proof.
  eapply wp_mono.
  - apply (do_askenv_correct 10 100 (length demo_data) demo_tbl (bytes "x") [bytes "2"]
             (bytes "abc" ++ [8%Z]) 13 [] demo_ask demo_es).
    + split; [by apply (bool_decide_unpack _)|vm_compute; lia].
    + vm_compute. done.
    + apply length_replicate.
    + split; [rw /edit_key /line_char; by apply (bool_decide_unpack _)|by intros ?%(bool_decide_pack _)].
    + split; [done|by left].
    + vm_compute. lia.
    + by apply (bool_decide_unpack _).
    + apply demo_repr.
    + done.
    + vm_compute. lia.
    + by apply (bool_decide_unpack _).
    + vm_compute. lia.
    + done.
  - intros rc st'. cbv zeta. assert (asked (bytes "x") [bytes "2"] (bytes "abc" ++ [8%Z]) 13 = bytes "ab")
      as -> by (vm_compute; done).
    destruct (decide _) as [?|_]; [done|]. intros [(-> & H & _)|(_ & Hf & _)]; [by split|].
    exfalso. apply Hf. by apply (bool_decide_unpack _).
Defined.

(** ^C at the prompt of [askenv] deletes the variable. *)
Lemma asked_interrupt name args ks : asked name args ks CTRL_C = [].
Proof. done. Qed.
