(* ===== verification/RunCmd.v ===== *)
(** * Running a command line (u-boot/common/main.c)

    [run_command]: separating commands, replacing variables, splitting into
    arguments, looking the command up and calling it.  The board's shell is hush;
    [run_command] runs the lines that come from the environment ([logocmd]). *)

From Stdlib Require Import ssreflect ZArith Lia String.
From stdpp Require Import base tactics numbers list sets.
From S2P Require Import Prelude Crc32 Vsprintf EnvFormat EnvOps NvEdit Command Complete.

Set Default Goal Selector "!".
Open Scope general_if_scope.

Definition BSLASH : Z := 92.
Definition QUOTE : Z := 39.
Definition DOLLAR : Z := 36.
Definition SEMI : Z := 59.

(** The console, and [ctrlc_was_pressed] (common/console.c). *)
Record shell := Shell { sh_con : con; sh_ctrlc : bool }.

Definition on_con {A} (m : M con A) : M shell A :=
  zoom sh_con (λ s c, Shell c (sh_ctrlc s)) m.
Definition clear_ctrlc : M shell unit := modify (λ s, Shell (sh_con s) false).
Definition had_ctrlc : M shell bool := let! s := get in ret (sh_ctrlc s).

(** ** Arguments *)

(** [argv] as offsets, and whether it was closed with a null pointer. *)
Definition parse_line (n : nat) : M (list Z) (list nat * bool) := split_args n CFG_MAXARGS.

(** ** Variables *)

(** The body of [switch (state)] for the character [c]; [input] is what follows
    it, and [vstart] what [varname_start] points to.  [state], [output] and
    [varname_start] after it. *)
Definition macro_char (n CFG_ENV_SIZE : nat) (state prev c : Z) (input out vstart : list Z)
    : M (list Z) (Z * list Z * list Z) :=
  if (state =? 0)%Z then
    if (c =? QUOTE)%Z && negb (prev =? BSLASH)%Z then ret (3%Z, out, vstart)
    else if (c =? DOLLAR)%Z && negb (prev =? BSLASH)%Z then ret (1%Z, out, vstart)
    else ret (0%Z, out ++ [c], vstart)
  else if (state =? 1)%Z then
    if (c =? 40)%Z || (c =? 123)%Z then ret (2%Z, out, input)
    else
      let out := out ++ [DOLLAR] in
      ret (0%Z, out ++ (if decide (length out < CFG_CBSIZE)%nat then [c] else []), vstart)
  else if (state =? 2)%Z then
    if (c =? 41)%Z || (c =? 125)%Z then
      let envname := take (length vstart - length input - 1) vstart in
      let! r := getenv n CFG_ENV_SIZE envname in
      let! d := get in
      let envval := match r with Some val => cstr_at d val | None => [] end in
      ret (0%Z, out ++ take (CFG_CBSIZE - length out) envval, vstart)
    else ret (2%Z, out, vstart)
  else
    if (c =? QUOTE)%Z && negb (prev =? BSLASH)%Z then ret (0%Z, out, vstart)
    else ret (3%Z, out ++ [c], vstart).

(** "remove one level of escape characters": [prev], [c] and [input] after it;
    [None] is the [break]. *)
Definition macro_escape (state prev c : Z) (input : list Z) : option (Z * Z * list Z) :=
  if negb (state =? 3)%Z && (c =? BSLASH)%Z && negb (prev =? BSLASH)%Z then
    match input with
    | [] => None
    | c' :: input' => Some (c, c', input')
    end
  else Some (prev, c, input).

(** The body of [while (inputcnt && outputcnt)]. *)
Definition macro_step (n CFG_ENV_SIZE : nat)
    : list Z * Z * Z * list Z * list Z → M (list Z) (list Z * Z * Z * list Z * list Z + list Z) :=
  λ '(input, state, prev, out, vstart),
    match input with
    | [] => ret (inr out)
    | c :: input =>
        if decide (length out < CFG_CBSIZE)%nat then
          match macro_escape state prev c input with
          | None => ret (inr out)
          | Some (prev, c, input) =>
              let! (state, out, vstart) := macro_char n CFG_ENV_SIZE state prev c input out vstart in
              ret (inl (input, state, c, out, vstart))
          end
        else ret (inr out)
    end.

(** What is written to [output]; a NUL follows if it is shorter than CFG_CBSIZE. *)
Definition process_macros (n CFG_ENV_SIZE : nat) (input : list Z) : M (list Z) (list Z) :=
  loopM (S (length input)) (macro_step n CFG_ENV_SIZE) (input, 0%Z, 0%Z, [], []).

Definition terminated (out : list Z) : list Z :=
  out ++ (if decide (length out < CFG_CBSIZE)%nat then [NUL] else []).

(** ** Commands *)

(** The body of [for (inquotes = 0, sep = str; *sep; sep++)]. *)
Definition sep_step (str : nat) : bool * nat → M (list Z) (bool * nat + nat) :=
  λ '(inquotes, sep),
    let before := match sep with O => fail OutOfBounds | S k => load k end in
    let! c := load sep in
    if (c =? NUL)%Z then ret (inr sep) else
    let! inquotes :=
      if (c =? QUOTE)%Z then
        let! p := before in ret (if (p =? BSLASH)%Z then inquotes else negb inquotes)
      else ret inquotes in
    if negb inquotes && (c =? SEMI)%Z && bool_decide (sep ≠ str) then
      let! p := before in
      if (p =? BSLASH)%Z then ret (inl (inquotes, S sep)) else ret (inr sep)
    else ret (inl (inquotes, S sep)).

(** Where it stops. *)
Definition find_sep (str : nat) : M (list Z) nat := λ buf,
  loopM (S (length buf)) (sep_step str) (false, str) buf.

(** [cmdtp->cmd == do_bootd]: the entries of the table with that handler are boot
    and bootd. *)
Definition is_bootd (c : cmd_tbl_t shell) : bool :=
  str_eq (name c) (bytes "boot") || str_eq (name c) (bytes "bootd").

Definition CMD_FLAG_BOOTD : Z := 2.

Section run.
Context (n CFG_ENV_SIZE : nat) (tbl : list (cmd_tbl_t shell)).

Definition say (s : list Z) : M shell unit := on_con (puts s).

(** The arguments of a token: [process_macros] into [finaltoken], then
    [parse_line]. *)
Definition token_args (token : list Z) : M shell (list (list Z)) :=
  let! out := on_con (on_uboot (on_env (process_macros n CFG_ENV_SIZE token))) in
  match parse_line n (terminated out) with
  | Err f => fail f
  | Ok (argv, fin, finaltoken) =>
      (if fin : bool then ret tt else say (bytes "** Too many args (max. 32) **" ++ [10%Z])) ;;;
      ret (cstr_at finaltoken <$> argv)
  end.

(** The body of [while ( *str)] after the token is found: [flag], [rc] and
    [repeatable], and whether it returns 0. *)
Definition run_token (flag rc repeatable : Z) (token : list Z) : M shell (Z * Z * Z * bool) :=
  let! argv := token_args token in
  match argv with
  | [] => fail NullDeref
  | argv0 :: _ =>
      match find_cmd tbl argv0 ≫= (λ i, tbl !! i) with
      | None =>
          say (bytes "Unknown command '" ++ argv0 ++ bytes "' - try 'help'" ++ [10%Z]) ;;;
          ret (flag, (-1)%Z, repeatable, false)
      | Some cmdtp =>
          if (maxargs cmdtp <? Z.of_nat (length argv))%Z then
            say (bytes "Usage:" ++ [10%Z] ++ default (bytes "<NULL>") (usage cmdtp) ++ [10%Z]) ;;;
            ret (flag, (-1)%Z, repeatable, false)
          else if is_bootd cmdtp && negb (Z.land flag CMD_FLAG_BOOTD =? 0)%Z then
            say (bytes "'bootd' recursion detected" ++ [10%Z]) ;;;
            ret (flag, (-1)%Z, repeatable, false)
          else
            let flag := if is_bootd cmdtp then Z.lor flag CMD_FLAG_BOOTD else flag in
            let! r := cmd cmdtp flag argv in
            let rc := if negb (r =? 0)%Z then (-1)%Z else rc in
            let repeatable := Z.land repeatable (Command.repeatable cmdtp) in
            let! stop := had_ctrlc in
            ret (flag, rc, repeatable, stop)
      end
  end.

(** The body of [while ( *str)]. *)
Definition command_step : list Z * nat * Z * Z * Z → M shell (list Z * nat * Z * Z * Z + Z) :=
  λ '(cmdbuf, str, flag, rc, repeatable),
    match cmdbuf !! str with
    | None => fail OutOfBounds
    | Some c =>
        if (c =? NUL)%Z then ret (inr (if negb (rc =? 0)%Z then rc else repeatable)) else
        match find_sep str cmdbuf with
        | Err f => fail f
        | Ok (sep, _) =>
            let token := take (sep - str) (drop str cmdbuf) in
            let more := negb (bool_decide (cmdbuf !! sep = Some NUL)) in
            let str := if more then S sep else sep in
            let cmdbuf := if more then <[sep := NUL]> cmdbuf else cmdbuf in
            let! (flag, rc, repeatable, stop) := run_token flag rc repeatable token in
            if stop : bool then ret (inr 0%Z)
            else ret (inl (cmdbuf, str, flag, rc, repeatable))
        end
    end.

(** [command] is not null. *)
Definition run_command (command : list Z) (flag : Z) : M shell Z :=
  clear_ctrlc ;;;
  if decide (command = []) then ret (-1)%Z else
  if decide (CFG_CBSIZE ≤ length command)%nat then
    say (bytes "## Command too long!" ++ [10%Z]) ;;; ret (-1)%Z
  else
  loopM (S (length command)) command_step (command ++ [NUL], 0%nat, flag, 0%Z, 1%Z).

End run.

(** ** Lines with variables *)

(** A character, an escaped character, a variable, a quoted string. *)
Inductive piece : Set :=
| Lit (c : Z)
| Esc (c : Z)
| Var (x : list Z)
| Quoted (s : list Z).

Definition render_piece (p : piece) : list Z :=
  match p with
  | Lit c => [c]
  | Esc c => [BSLASH; c]
  | Var x => [DOLLAR; 123%Z] ++ x ++ [125%Z]
  | Quoted s => [QUOTE] ++ s ++ [QUOTE]
  end.
Definition render (ps : list piece) : list Z := mjoin (render_piece <$> ps).

Definition piece_value (es : list entry) (p : piece) : list Z :=
  match p with
  | Lit c | Esc c => [c]
  | Var x => default [] (env_lookup x es)
  | Quoted s => s
  end.
Definition line_value (es : list entry) (ps : list piece) : list Z :=
  mjoin (piece_value es <$> ps).

Definition piece_ok (p : piece) : Prop :=
  match p with
  | Lit c => c ≠ BSLASH ∧ c ≠ QUOTE ∧ c ≠ DOLLAR
  | Esc c => c ≠ BSLASH
  | Var x => name_ok x ∧ Forall (λ c, c ≠ BSLASH ∧ c ≠ 41 ∧ c ≠ 125)%Z x
  | Quoted s => Forall (λ c, c ≠ BSLASH ∧ c ≠ QUOTE) s
  end.

#[export] Instance piece_ok_dec p : Decision (piece_ok p).
Proof. destruct p; rw /piece_ok; apply _. Defined.

Lemma render_cons p ps : render (p :: ps) = render_piece p ++ render ps.
Proof. done. Qed.
Lemma line_value_cons es p ps : line_value es (p :: ps) = piece_value es p ++ line_value es ps.
Proof. done. Qed.

Section macros.
Context (n SZ : nat) (es : list entry) (data : list Z).
Hypothesis Hok : Forall entry_ok es.
Hypothesis Hrepr : env_repr es data.
Hypothesis Hn : (length data < n)%nat.
Hypothesis HSZ : (length data ≤ SZ)%nat.

Abbreviation run := (λ fuel, loopM fuel (macro_step n SZ)).
Definition cut (l : list Z) : list Z := take CFG_CBSIZE l.

(** From state 0 on, the rest of the line adds [v]. *)
Definition adds (input v : list Z) : Prop :=
  ∀ fuel prev out vs, prev ≠ BSLASH → (length out ≤ CFG_CBSIZE)%nat → (length input < fuel)%nat →
    wp (run fuel (input, 0%Z, prev, out, vs)) (λ r d, r = cut (out ++ v) ∧ d = data) data.

Lemma cut_full out v : length out = CFG_CBSIZE → cut (out ++ v) = out.
Proof. intros H. by rw /cut -H take_app_length. Qed.

Lemma cut_cut out s v : cut (cut (out ++ s) ++ v) = cut (out ++ s ++ v).
Proof.
  rw /cut. destruct (decide (length (out ++ s) ≤ CFG_CBSIZE)%nat) as [H|H].
  - by rw (take_ge (out ++ s)) // -app_assoc.
  - rw take_app_le; [rw length_take; lia|]. rw take_take Nat.min_id app_assoc.
    by rw (take_app_le (out ++ s)); [lia|].
Qed.

(** With the output full, the loop ends. *)
Lemma run_full fuel input state prev out vs v :
  length out = CFG_CBSIZE → (0 < fuel)%nat →
  wp (run fuel (input, state, prev, out, vs)) (λ r d, r = cut (out ++ v) ∧ d = data) data.
Proof.
  intros Hout Hf. destruct fuel as [|fuel]; [lia|]. apply wp_loop_step. rw cut_full //.
  destruct input as [|c input]; [by apply wp_ret|]. cbn [macro_step].
  rw decide_False; [lia|]. by apply wp_ret.
Qed.

Lemma escape_none state prev c input :
  c ≠ BSLASH → macro_escape state prev c input = Some (prev, c, input).
Proof. intros Hc. rw /macro_escape (proj2 (Z.eqb_neq c BSLASH)) // andb_false_r //. Qed.

(** One character that is not a backslash. *)
Lemma run_step fuel c input state prev out vs (Q : list Z → list Z → Prop) :
  (length out < CFG_CBSIZE)%nat → c ≠ BSLASH →
  wp (macro_char n SZ state prev c input out vs)
    (λ '(state, out, vs), wp (run fuel (input, state, c, out, vs)) Q) data →
  wp (run (S fuel) (c :: input, state, prev, out, vs)) Q data.
Proof.
  intros Hout Hc Hrun. apply wp_loop_step. rw /macro_step decide_True // escape_none //.
  apply wp_bind. eapply wp_mono; [exact Hrun|]. intros [[state' out'] vs'] d H. by apply wp_ret.
Qed.

Lemma adds_nil : adds [] [].
Proof.
  intros fuel prev out vs Hp Hout Hf. destruct fuel as [|fuel]; [lia|].
  apply wp_loop_step, wp_ret. rw app_nil_r /cut take_ge //.
Qed.

Lemma adds_lit c input v :
  piece_ok (Lit c) → adds input v → adds (c :: input) (c :: v).
Proof.
  intros (Hb & Hq & Hd) IH fuel prev out vs Hp Hout Hf.
  destruct (decide (length out = CFG_CBSIZE)) as [Hfull|Hroom]; [by apply run_full; [|lia]|].
  destruct fuel as [|fuel]; [lia|]. apply run_step; [lia|done|]. rw /macro_char /=.
  rw (proj2 (Z.eqb_neq c QUOTE)) // (proj2 (Z.eqb_neq c DOLLAR)) //=. apply wp_ret.
  rw (cons_middle c out v) app_assoc. apply IH; [done|rw length_app /=; lia|simpl in Hf; lia].
Qed.

Lemma adds_esc c input v :
  piece_ok (Esc c) → adds input v → adds (BSLASH :: c :: input) (c :: v).
Proof.
  intros Hb IH fuel prev out vs Hp Hout Hf.
  destruct (decide (length out = CFG_CBSIZE)) as [Hfull|Hroom]; [by apply run_full; [|lia]|].
  destruct fuel as [|fuel]; [lia|]. apply wp_loop_step. cbn [macro_step].
  rw decide_True; [lia|]. rw /macro_escape (proj2 (Z.eqb_neq prev BSLASH)) //=.
  rw /macro_char /= !andb_false_r. apply wp_bind, wp_ret, wp_ret.
  rw (cons_middle c out v) app_assoc. apply IH; [done|rw length_app /=; lia|simpl in Hf; lia].
Qed.

Lemma run_quoted s input v fuel prev out vs :
  Forall (λ c, c ≠ BSLASH ∧ c ≠ QUOTE) s → adds input v → prev ≠ BSLASH →
  (length out ≤ CFG_CBSIZE)%nat → (length (s ++ QUOTE :: input) < fuel)%nat →
  wp (run fuel (s ++ QUOTE :: input, 3%Z, prev, out, vs))
    (λ r d, r = cut (out ++ s ++ v) ∧ d = data) data.
Proof.
  intros Hs IH. revert fuel prev out.
  induction Hs as [|c s [Hcb Hcq] Hs IHs]; intros fuel prev out Hp Hout Hf; simpl in Hf;
    (destruct (decide (length out = CFG_CBSIZE)) as [Hfull|Hroom]; [by apply run_full; [|lia]|]);
    (destruct fuel as [|fuel]; [lia|]); apply run_step; [lia|done| |lia|done|]; rw /macro_char /=.
  - rw (proj2 (Z.eqb_neq prev BSLASH)) //=. apply wp_ret. apply IH; [done|done|lia].
  - rw (proj2 (Z.eqb_neq c QUOTE)) //=. apply wp_ret.
    rw (cons_middle c out (s ++ v)) app_assoc. apply IHs; [done|rw length_app /=; lia|lia].
Qed.

Lemma adds_quoted s input v :
  piece_ok (Quoted s) → adds input v → adds (QUOTE :: s ++ QUOTE :: input) (s ++ v).
Proof.
  intros Hs IH fuel prev out vs Hp Hout Hf.
  destruct (decide (length out = CFG_CBSIZE)) as [Hfull|Hroom]; [by apply run_full; [|lia]|].
  destruct fuel as [|fuel]; [lia|]. apply run_step; [lia|done|].
  rw /macro_char /= (proj2 (Z.eqb_neq prev BSLASH)) //=.
  apply wp_ret. simpl in Hf. apply run_quoted; [done..|lia].
Qed.

(** Inside the name of a variable. *)
Lemma run_name y x input v fuel prev out :
  piece_ok (Var (y ++ x)) → (length (y ++ x) < n)%nat → adds input v → (length out < CFG_CBSIZE)%nat →
  (length (x ++ 125%Z :: input) < fuel)%nat →
  wp (run fuel (x ++ 125%Z :: input, 2%Z, prev, out, y ++ x ++ 125%Z :: input))
    (λ r d, r = cut (out ++ default [] (env_lookup (y ++ x) es) ++ v) ∧ d = data) data.
Proof.
  intros Hx Hnx IH Hout. revert y fuel prev Hx Hnx.
  induction x as [|c x IHx]; intros y fuel prev Hx Hnx Hf; simpl in Hf;
    (destruct fuel as [|fuel]; [lia|]).
  - apply run_step; [lia|done|]. rw /macro_char /=. rw app_nil_r in Hx Hnx |- *. apply wp_bind.
    replace (length (y ++ 125%Z :: input) - length input - 1)%nat with (length y)
      by (rw length_app /=; lia).
    rw take_app_length. apply (wp_getenv n SZ y es data); [done|done|apply Hx|done..|].
    intros r Hr. apply wp_bind, wp_get, wp_ret. rw -Hr.
    replace (default [] (cstr_at data <$> r)) with (match r with Some val => cstr_at data val | None => [] end)
      by (by destruct r).
    set (e := match r with Some val => cstr_at data val | None => [] end).
    replace (out ++ take (CFG_CBSIZE - length out) e) with (cut (out ++ e)).
    2: { rw /cut take_app take_ge //. lia. }
    rw -cut_cut. apply IH; [done| |lia]. rw /cut length_take. lia.
  - assert (c ≠ BSLASH ∧ c ≠ 41 ∧ c ≠ 125)%Z as (Hb & H41 & H125).
    { destruct Hx as [_ Hx]. by apply Forall_app in Hx as [_ [? _]%Forall_cons]. }
    apply run_step; [lia|done|].
    rw /macro_char /= (proj2 (Z.eqb_neq c 41)) // (proj2 (Z.eqb_neq c 125)) //=. apply wp_ret.
    rw (cons_middle c y) app_assoc. rw (cons_middle c y x) app_assoc in Hx Hnx |- *.
    apply IHx; [done|done|lia].
Qed.

Lemma adds_var x input v :
  piece_ok (Var x) → (length x < n)%nat → adds input v →
  adds (DOLLAR :: 123%Z :: x ++ 125%Z :: input) (default [] (env_lookup x es) ++ v).
Proof.
  intros Hx Hnx IH fuel prev out vs Hp Hout Hf.
  destruct (decide (length out = CFG_CBSIZE)) as [Hfull|Hroom]; [by apply run_full; [|lia]|].
  simpl in Hf. destruct fuel as [|[|fuel]]; [lia..|]. apply run_step; [lia|done|].
  rw /macro_char /= (proj2 (Z.eqb_neq prev BSLASH)) //=. apply wp_ret, run_step; [lia|done|].
  apply wp_ret. apply (run_name [] x); [done|done|done|lia|lia].
Qed.

Lemma adds_pieces ps :
  Forall piece_ok ps → (length (render ps) ≤ n)%nat → adds (render ps) (line_value es ps).
Proof.
  intros Hps. induction Hps as [|p ps Hp Hps IH]; [intros _; apply adds_nil|].
  rw render_cons line_value_cons length_app. intros Hlen. specialize (IH ltac:(lia)).
  destruct p as [c|c|x|s]; cbn [render_piece piece_value] in *.
  - by apply adds_lit.
  - by apply adds_esc.
  - rw /= -app_assoc. apply adds_var; [done| |done]. rw !length_app /= in Hlen. lia.
  - rw /= -app_assoc. by apply adds_quoted.
Qed.

Lemma wp_process_macros ps (Q : list Z → list Z → Prop) :
  Forall piece_ok ps → (length (render ps) ≤ n)%nat → Q (cut (line_value es ps)) data →
  wp (process_macros n SZ (render ps)) Q data.
Proof.
  intros Hps Hlen HQ. eapply wp_mono.
  - apply (adds_pieces ps Hps Hlen); [done|simpl; lia|lia].
  - by intros r d [-> ->].
Qed.

End macros.

(** ** Separating commands *)

(** A token that is found by its end: no separator, no quote, and no backslash
    before the separator. *)
Definition plain_token (t : list Z) : Prop :=
  t ≠ [] ∧ NUL ∉ t ∧ SEMI ∉ t ∧ QUOTE ∉ t ∧ last t ≠ Some BSLASH.

Lemma find_sep_token pre t c suf :
  plain_token t → c = NUL ∨ c = SEMI →
  find_sep (length pre) (pre ++ t ++ c :: suf) =
  Ok ((length pre + length t)%nat, pre ++ t ++ c :: suf).
Proof.
  intros (Hne & Hnul & Hsemi & Hquote & Hlast) Hc. set (buf := pre ++ t ++ c :: suf).
  assert (wp (find_sep (length pre))
    (λ r d, r = (length pre + length t)%nat ∧ d = buf) buf) as Hwp.
  2: { apply wp_ok in Hwp as (r & d & -> & -> & ->). done. }
  change (wp (loopM (S (length buf)) (sep_step (length pre)) (false, length pre))
    (λ r d, r = (length pre + length t)%nat ∧ d = buf) buf).
  apply (wp_loop (λ '(q, i) d, d = buf ∧ q = false ∧ (length pre ≤ i ≤ length pre + length t)%nat)
    (λ '(_, i), length pre + length t - i)%nat);
    [|split_and!; [done|done|lia|lia]|rw /buf !length_app /=; lia].
  intros [q i] d (-> & -> & Hi). apply wp_bind.
  destruct (decide (i < length pre + length t)%nat) as [Hlt|Hge].
  - destruct (lookup_lt_is_Some_2 t (i - length pre)) as [x Hx]; [lia|].
    replace i with (length pre + (i - length pre))%nat at 1 by lia.
    eapply wp_load; [rw lookup_app_add lookup_app_l; [lia|exact Hx]|].
    pose proof (list_elem_of_lookup_2 _ _ _ Hx) as Hin.
    rw (proj2 (Z.eqb_neq x NUL)); [congruence|]. rw (proj2 (Z.eqb_neq x QUOTE)); [congruence|].
    apply wp_bind, wp_ret. rw (proj2 (Z.eqb_neq x SEMI)); [congruence|]. apply wp_ret.
    split; [split_and!; [done|done|lia|lia]|lia].
  - assert (i = length pre + length t)%nat as -> by lia.
    eapply wp_load; [by rw lookup_app_add lookup_app_len|].
    destruct Hc as [->| ->]; [by apply wp_ret|].
    change (SEMI =? NUL)%Z with false. change (SEMI =? QUOTE)%Z with false.
    apply wp_bind, wp_ret. change (SEMI =? SEMI)%Z with true.
    assert (0 < length t)%nat as Hpos by (destruct t; [done|simpl; lia]).
    rw bool_decide_true; [lia|]. cbn [andb negb].
    destruct (length pre + length t)%nat as [|k] eqn:Ek; [lia|].
    rw last_lookup in Hlast. destruct (lookup_lt_is_Some_2 t (pred (length t))) as [x Hx]; [lia|].
    apply wp_bind. eapply (wp_load _ _ x).
    { replace k with (length pre + pred (length t))%nat by lia. by rw lookup_app_add lookup_app_l; [lia|]. }
    rw (proj2 (Z.eqb_neq x BSLASH)); [congruence|]. by apply wp_ret.
Qed.

(** The commands of a line, one after the other, until one is interrupted. *)
Fixpoint run_tokens (n SZ : nat) (tbl : list (cmd_tbl_t shell)) (flag rc repeatable : Z)
    (ts : list (list Z)) : M shell Z :=
  match ts with
  | [] => ret (if negb (rc =? 0)%Z then rc else repeatable)
  | t :: ts' =>
      let! (flag, rc, repeatable, stop) := run_token n SZ tbl flag rc repeatable t in
      if stop : bool then ret 0%Z else run_tokens n SZ tbl flag rc repeatable ts'
  end.

Fixpoint join_semi (ts : list (list Z)) : list Z :=
  match ts with
  | [] => []
  | [t] => t
  | t :: ts' => t ++ SEMI :: join_semi ts'
  end.

Lemma join_semi_cons t ts :
  ts ≠ [] → join_semi (t :: ts) = t ++ SEMI :: join_semi ts.
Proof. by destruct ts. Qed.

Section sequence.
Context (n SZ : nat) (tbl : list (cmd_tbl_t shell)).

(** One round at the start of a token. *)
Lemma command_step_token pre t c suf flag rc rep s :
  plain_token t → c = NUL ∨ c = SEMI →
  command_step n SZ tbl (pre ++ t ++ c :: suf, length pre, flag, rc, rep) s =
  (let! (flag, rc, rep, stop) := run_token n SZ tbl flag rc rep t in
   if stop : bool then ret (inr 0%Z)
   else ret (inl (if decide (c = SEMI) then
     ((pre ++ t ++ [NUL]) ++ suf, length (pre ++ t ++ [NUL]), flag, rc, rep)
     else ((pre ++ t) ++ NUL :: suf, length (pre ++ t), flag, rc, rep)))) s.
Proof.
  intros Ht Hc. assert (∃ x, (pre ++ t ++ c :: suf) !! length pre = Some x ∧ x ≠ NUL) as (x & Hx & Hne).
  { destruct Ht as (Hne & Hn & _). destruct t as [|x t]; [done|]. exists x.
    rw -app_comm_cons lookup_app_len. split; [done|]. rw not_elem_of_cons in Hn. naive_solver. }
  cbn [command_step]. rw Hx (proj2 (Z.eqb_neq x NUL)) // find_sep_token // drop_app_length.
  replace (length pre + length t - length pre)%nat with (length t) by lia.
  rw take_app_length lookup_app_add lookup_app_len.
  assert (S (length pre + length t) = length (pre ++ t ++ [NUL])) as Hs by (rw !length_app /=; lia).
  assert (length pre + length t = length (pre ++ t))%nat as Hs' by (rw length_app; lia).
  assert (<[(length pre + length t)%nat := NUL]> (pre ++ t ++ c :: suf) =
          (pre ++ t ++ [NUL]) ++ suf) as Hins.
  { rw app_assoc Hs' insert_app_len -!app_assoc //. }
  destruct Hc as [->| ->].
  - rw bool_decide_true //. cbn [negb]. rw (app_assoc pre) Hs'. done.
  - rw bool_decide_false //. cbn [negb]. rw Hins Hs. done.
Qed.

Lemma command_loop ts pre flag rc rep fuel s :
  Forall plain_token ts → (length (join_semi ts) < fuel)%nat →
  loopM fuel (command_step n SZ tbl) (pre ++ join_semi ts ++ [NUL], length pre, flag, rc, rep) s =
  run_tokens n SZ tbl flag rc rep ts s.
Proof.
  intros Hts. revert pre flag rc rep fuel s.
  assert (∀ pre flag rc rep fuel s, (0 < fuel)%nat →
    loopM fuel (command_step n SZ tbl) (pre ++ [NUL], length pre, flag, rc, rep) s =
    run_tokens n SZ tbl flag rc rep [] s) as Hend.
  { intros pre flag rc rep fuel s Hf. destruct fuel as [|fuel]; [lia|]. cbn [loopM].
    rw /bind. cbn [command_step]. by rw lookup_app_len. }
  induction Hts as [|t ts Ht Hts IH]; intros pre flag rc rep fuel s Hf; [by apply Hend|].
  destruct fuel as [|fuel]; [lia|]. cbn [loopM run_tokens].
  assert (0 < length t)%nat by (destruct Ht as [? _]; destruct t; [done|simpl; lia]).
  destruct ts as [|t2 ts].
  - rw {1}/bind command_step_token //; [by left|]. rw /bind.
    destruct (run_token _ _ _ _ _ _ _ s) as [[[[[flag' rc'] rep'] stop] s']|f]; [|done].
    destruct stop; [done|]. rw /ret. destruct (decide (NUL = SEMI)) as [|_]; [done|].
    apply Hend. simpl in Hf. lia.
  - rw join_semi_cons // in Hf |- *. rw -(app_assoc t) -app_comm_cons.
    rw {1}/bind command_step_token //; [by right|]. rw /bind.
    destruct (run_token _ _ _ _ _ _ _ s) as [[[[[flag' rc'] rep'] stop] s']|f]; [|done].
    destruct stop; [done|]. rw /ret. destruct (decide (SEMI = SEMI)) as [_|]; [|done].
    apply IH. rw length_app in Hf. cbn [length] in Hf. lia.
Qed.

End sequence.

Lemma plain_line_nonempty t ts : plain_token t → join_semi (t :: ts) ≠ [].
Proof. intros [Hne _]. destruct ts; simpl; by destruct t. Qed.

Lemma run_command_join n SZ tbl t ts flag s :
  Forall plain_token (t :: ts) → (length (join_semi (t :: ts)) < CFG_CBSIZE)%nat →
  run_command n SZ tbl (join_semi (t :: ts)) flag s =
  run_tokens n SZ tbl flag 0 1 (t :: ts) (Shell (sh_con s) false).
Proof.
  intros Hts Hlen. rw /run_command {1}/bind /clear_ctrlc /modify.
  pose proof (plain_line_nonempty t ts) as Hne. apply Forall_cons in Hts as Hts'.
  rw decide_False; [apply Hne, Hts'|]. rw decide_False; [lia|].
  apply (command_loop n SZ tbl (t :: ts) []); [done|lia].
Qed.

(** ** The arguments of a token *)

(** Reading the environment from the shell. *)
Lemma on_con_env {A} (m : M (list Z) A) s a :
  m (u_env (con_u (sh_con s))) = Ok (a, u_env (con_u (sh_con s))) →
  on_con (on_uboot (on_env m)) s = Ok (a, s).
Proof. intros H. rw /on_con /zoom (on_env_run m (sh_con s) a H). by destruct s. Qed.

Section args.
Context (n SZ : nat) (es : list entry) (s : shell).
Let data := u_env (con_u (sh_con s)).
Hypothesis Hok : Forall entry_ok es.
Hypothesis Hrepr : env_repr es data.
Hypothesis Hn : (length data < n)%nat.
Hypothesis HSZ : (length data ≤ SZ)%nat.

Lemma process_macros_run ps :
  Forall piece_ok ps → (length (render ps) ≤ n)%nat →
  process_macros n SZ (render ps) data = Ok (cut (line_value es ps), data).
Proof.
  intros Hps Hlen.
  assert (wp (process_macros n SZ (render ps)) (λ r d, r = cut (line_value es ps) ∧ d = data) data)
    as H by (by eapply wp_process_macros).
  apply wp_ok in H as (r & d & -> & -> & ->). done.
Qed.

(** A line that expands to less than the buffer and fewer words than CFG_MAXARGS
    gives its words. *)
Lemma token_args_words ps :
  let v := line_value es ps in
  Forall piece_ok ps → (length (render ps) ≤ n)%nat → NUL ∉ v → (length v < CFG_CBSIZE)%nat →
  (length v + 1 < n)%nat → (length (words v) < CFG_MAXARGS)%nat →
  token_args n SZ (render ps) s = Ok (words v, s).
Proof.
  intros v Hps Hlen Hnul Hv Hvn Hw. rw /token_args {1}/bind.
  rw (on_con_env _ _ _ (process_macros_run ps Hps Hlen)).
  rw /cut take_ge; [fold v; lia|]. fold v. rw /terminated decide_True //.
  assert (wp (parse_line n) (λ '(argv, fin) d, fin = true ∧ cstr_at d <$> argv = words v) (v ++ [NUL]))
    as H.
  { apply wp_split_args; [done|lia|]. intros argv fin d Ha _ Hfin. split; [by apply Hfin|].
    rw Ha take_ge //. lia. }
  apply wp_ok in H as ([argv fin] & d & -> & -> & ->). done.
Qed.

End args.

(** A word without an end is followed behind the array. *)
Lemma word_end_overrun l n i :
  solid l → NUL ∉ l → (i ≤ length l)%nat → (length l - i < n)%nat →
  word_end n i l = Err OutOfBounds.
Proof.
  intros Hs Hnul. revert i. induction n as [|n IH]; intros i Hi Hn; [lia|].
  rw /word_end. cbn [loopM]. rw /bind /load. destruct (l !! i) as [c|] eqn:Hc; [|done].
  pose proof (list_elem_of_lookup_2 _ _ _ Hc) as Hin.
  rw (proj2 (Z.eqb_neq c NUL)); [congruence|]. rw (Forall_lookup_1 _ _ _ _ Hs Hc). cbn [negb andb].
  apply lookup_lt_Some in Hc. apply (IH (S i)); lia.
Qed.

Lemma parse_line_overrun l n :
  l ≠ [] → solid l → NUL ∉ l → (length l < n)%nat → parse_line n l = Err OutOfBounds.
Proof.
  intros Hne Hs Hnul Hn. destruct n as [|n]; [lia|]. rw /parse_line /split_args. cbn [loopM].
  rw {1}/bind. destruct (decide _) as [_|H]; [|by destruct H; vm_compute; lia].
  assert (next_arg (S n) 0 l = Err OutOfBounds) as Harg; [|by rw /bind Harg].
  destruct l as [|c l]; [done|]. apply Forall_cons in Hs as Hs'. destruct Hs' as [Hc _].
  apply not_elem_of_cons in Hnul as Hnul'. destruct Hnul' as [Hcn _].
  assert (skip_blanks (S n) 0 (c :: l) = Ok (0%nat, c :: l)) as Hskip.
  { rw /skip_blanks. cbn [loopM]. rw /bind /load /=. by rw Hc. }
  rw /next_arg {1}/bind Hskip {1}/bind {1}/load /=. rw (proj2 (Z.eqb_neq c NUL)); [congruence|].
  rw {1}/bind word_end_overrun //; lia.
Qed.

(** ** The theorems *)

(** C15: Variables in a command line are replaced by their values.  For every
    environment and every line made of plain characters, escaped characters,
    [${name}] and quoted strings, [process_macros] returns and has written the
    line's text: the characters as they are, the value of each variable or
    nothing when it is not defined, the inside of the quotes untouched; cut at
    the size of the buffer.  The environment is only read. *)
Theorem process_macros_expand n SZ ps es data :
  Forall entry_ok es → env_repr es data → (length data < n)%nat → (length data ≤ SZ)%nat →
  Forall piece_ok ps → (length (render ps) ≤ n)%nat →
  wp (process_macros n SZ (render ps))
    (λ out d, out = take CFG_CBSIZE (line_value es ps) ∧ d = data) data.
Proof. intros. by eapply wp_process_macros. Qed.

Definition demo_ps : list piece :=
  (Lit <$> bytes "ping ") ++ [Var (bytes "ipaddr"); Lit 32; Quoted (bytes "$x")].

Lemma process_macros_expand_witness :
  render demo_ps = bytes "ping ${ipaddr} '$x'" ∧
  wp (process_macros 100 100 (render demo_ps))
    (λ out d, out = bytes "ping 10.0.0.1 $x" ∧ d = demo_data) demo_data.
Proof.
  split; [reflexivity|]. eapply wp_mono.
  - apply (process_macros_expand 100 100 demo_ps demo_es demo_data).
    + by apply (bool_decide_unpack _).
    + apply demo_repr.
    + vm_compute. lia.
    + vm_compute. lia.
    + by apply (bool_decide_unpack _).
    + vm_compute. lia.
  - intros out d [-> ->]. split; [vm_compute; reflexivity|done].
Defined.

(** ** How a command line runs

    An evaluation relation, one rule for each way a command of the line can end. *)
Section line_runs.
Context (n SZ : nat) (tbl : list (cmd_tbl_t shell)).

Definition entry_of (argv0 : list Z) : option (cmd_tbl_t shell) :=
  find_cmd tbl argv0 ≫= (λ i, tbl !! i).

(** [boot] and [bootd] mark the rest of the line, and are refused on a marked one. *)
Definition marked (flag : Z) : bool := Z.testbit flag 1.
Definition mark (c : cmd_tbl_t shell) (flag : Z) : Z := if is_bootd c then Z.setbit flag 1 else flag.

(** A command that is not called: [s'] is the state after the message. *)
Inductive refused (flag : Z) (t : list Z) (s s' : shell) : Prop :=
| refused_unknown a args s1 :
    token_args n SZ t s = Ok (a :: args, s1) → entry_of a = None →
    say (bytes "Unknown command '" ++ a ++ bytes "' - try 'help'" ++ [10%Z]) s1 = Ok (tt, s') →
    refused flag t s s'
| refused_usage a args s1 c :
    token_args n SZ t s = Ok (a :: args, s1) → entry_of a = Some c →
    (maxargs c < Z.of_nat (length (a :: args)))%Z →
    say (bytes "Usage:" ++ [10%Z] ++ default (bytes "<NULL>") (usage c) ++ [10%Z]) s1 = Ok (tt, s') →
    refused flag t s s'
| refused_recursion a args s1 c :
    token_args n SZ t s = Ok (a :: args, s1) → entry_of a = Some c →
    (Z.of_nat (length (a :: args)) ≤ maxargs c)%Z → is_bootd c = true → marked flag = true →
    say (bytes "'bootd' recursion detected" ++ [10%Z]) s1 = Ok (tt, s') →
    refused flag t s s'.

(** A command that is called, with its result. *)
Inductive called (flag : Z) (t : list Z) (s : shell) (c : cmd_tbl_t shell) (r : Z) (s' : shell) : Prop :=
| called_intro a args s1 :
    token_args n SZ t s = Ok (a :: args, s1) → entry_of a = Some c →
    (Z.of_nat (length (a :: args)) ≤ maxargs c)%Z → is_bootd c && marked flag = false →
    cmd c (mark c flag) (a :: args) s1 = Ok (r, s') →
    called flag t s c r s'.

(** The rest of a line in state [s], after commands of which one [failed] or not and
    with the flags and the repeatability they left: its result and the last state. *)
Inductive line_runs :
    Z → bool → Z → list (list Z) → shell → Z → shell → Prop :=
| line_end flag (failed : bool) rep s :
    line_runs flag failed rep [] s (if failed then (-1)%Z else rep) s
| line_refused flag failed rep t ts s s1 r s' :
    refused flag t s s1 → line_runs flag true rep ts s1 r s' →
    line_runs flag failed rep (t :: ts) s r s'
| line_called flag failed rep t ts s c r1 s1 r s' :
    called flag t s c r1 s1 → sh_ctrlc s1 = false →
    line_runs (mark c flag) (failed || bool_decide (r1 ≠ 0%Z)) (Z.land rep (repeatable c)) ts s1 r s' →
    line_runs flag failed rep (t :: ts) s r s'
| line_interrupted flag failed rep t ts s c r1 s1 :
    called flag t s c r1 s1 → sh_ctrlc s1 = true →
    line_runs flag failed rep (t :: ts) s 0%Z s1.

Definition rc_of (failed : bool) : Z := if failed then (-1)%Z else 0%Z.

Lemma marked_land flag : negb (Z.land flag CMD_FLAG_BOOTD =? 0)%Z = marked flag.
Proof.
  rw /marked /CMD_FLAG_BOOTD. change 2%Z with (2 ^ 1)%Z. destruct (Z.testbit flag 1) eqn:Hb.
  - apply negb_true_iff, Z.eqb_neq. intros H0.
    apply (f_equal (λ z, Z.testbit z 1)) in H0. by rw Z.land_spec Hb in H0.
  - apply negb_false_iff, Z.eqb_eq, Z.bits_inj'. intros i Hi. rw Z.land_spec Z.bits_0.
    destruct (decide (i = 1%Z)) as [->|Hne]; [by rw Hb|].
    rw Z.pow2_bits_false; [lia|]. apply andb_false_r.
Qed.

(** [run_token] against the two ways a command ends. *)
Lemma run_token_refused flag failed rep t s s' :
  refused flag t s s' →
  run_token n SZ tbl flag (rc_of failed) rep t s = Ok (flag, (-1)%Z, rep, false, s').
Proof.
  rw /run_token /bind. intros [a args s1 -> He Hs|a args s1 c -> He Hm Hs|a args s1 c -> He Hm Hb Hf Hs];
    rw /entry_of in He; rw He.
  - by rw Hs.
  - rw (proj2 (Z.ltb_lt _ _)) // Hs //.
  - rw (proj2 (Z.ltb_ge _ _)) // Hb marked_land Hf. cbn [andb]. by rw Hs.
Qed.

Lemma run_token_called flag failed rep t s c r s' :
  called flag t s c r s' →
  run_token n SZ tbl flag (rc_of failed) rep t s =
  Ok (mark c flag, rc_of (failed || bool_decide (r ≠ 0%Z)), Z.land rep (repeatable c), sh_ctrlc s', s').
Proof.
  rw /run_token /bind. intros [a args s1 -> He Hm Hb Hr]. rw /entry_of in He. rw He.
  rw (proj2 (Z.ltb_ge _ _)) // marked_land Hb. change (Z.lor flag CMD_FLAG_BOOTD) with (Z.setbit flag 1).
  fold (mark c flag). rw Hr /had_ctrlc /bind /=. do 5 f_equal.
  destruct (Z.eqb_spec r 0) as [->|Hne]; [by rw orb_false_r|]. by rw bool_decide_true // orb_true_r.
Qed.

Lemma run_token_cases flag failed rep t s x s' :
  run_token n SZ tbl flag (rc_of failed) rep t s = Ok (x, s') →
  refused flag t s s' ∨ ∃ c r, called flag t s c r s'.
Proof.
  rw /run_token /bind. destruct (token_args n SZ t s) as [[[|a args] s1]|] eqn:Ht; [done| |done].
  destruct (find_cmd tbl a ≫= _) as [c|] eqn:He.
  - destruct (Z.ltb_spec (maxargs c) (Z.of_nat (length (a :: args)))) as [Hm|Hm].
    { destruct (say _ s1) as [[[] s2]|] eqn:Hs; [|done]. intros [= _ <-]. left.
      by eapply refused_usage. }
    rw marked_land. destruct (is_bootd c && marked flag) eqn:Hb.
    { destruct (say _ s1) as [[[] s2]|] eqn:Hs; [|done]. intros [= _ <-]. left.
      apply andb_true_iff in Hb as [Hb Hf]. by eapply refused_recursion. }
    change (Z.lor flag CMD_FLAG_BOOTD) with (Z.setbit flag 1). fold (mark c flag).
    destruct (cmd c (mark c flag) (a :: args) s1) as [[r s2]|] eqn:Hr; [|done].
    rw /had_ctrlc /bind /=. intros [= _ <-]. right. exists c, r. by econstructor.
  - destruct (say _ s1) as [[[] s2]|] eqn:Hs; [|done]. intros [= _ <-]. left.
    by eapply refused_unknown.
Qed.

Lemma line_runs_sound flag failed rep ts s r s' :
  line_runs flag failed rep ts s r s' →
  run_tokens n SZ tbl flag (rc_of failed) rep ts s = Ok (r, s').
Proof.
  induction 1 as [flag failed rep s|flag failed rep t ts s s1 r s' Hr _ IH
    |flag failed rep t ts s c r1 s1 r s' Hc Hk _ IH|flag failed rep t ts s c r1 s1 Hc Hk];
    cbn [run_tokens]; rw /bind.
  - by destruct failed.
  - by rw (run_token_refused _ _ _ _ _ _ Hr).
  - by rw (run_token_called _ _ _ _ _ _ _ _ Hc) Hk.
  - by rw (run_token_called _ _ _ _ _ _ _ _ Hc) Hk.
Qed.

Lemma line_runs_complete flag failed rep ts s r s' :
  run_tokens n SZ tbl flag (rc_of failed) rep ts s = Ok (r, s') →
  line_runs flag failed rep ts s r s'.
Proof.
  revert flag failed rep s. induction ts as [|t ts IH]; intros flag failed rep s; cbn [run_tokens].
  { intros [= <- <-]. pose proof (line_end flag failed rep s). by destruct failed. }
  rw /bind. destruct (run_token n SZ tbl flag (rc_of failed) rep t s) as [[x s1]|] eqn:Ht; [|done].
  destruct (run_token_cases _ _ _ _ _ _ _ Ht) as [Hr|(c & r1 & Hc)].
  - rw (run_token_refused _ _ _ _ _ _ Hr) in Ht. injection Ht as <-. intros H.
    eapply line_refused; [done|]. by apply (IH flag true).
  - rw (run_token_called _ _ _ _ _ _ _ _ Hc) in Ht. injection Ht as <-.
    destruct (sh_ctrlc s1) eqn:Hk.
    + intros [= <- <-]. by eapply line_interrupted.
    + intros H. eapply line_called; [done..|]. by apply IH.
Qed.

End line_runs.


Definition demo_shell : shell := Shell (demo_con []) true.

(** Commands that print their letter: one fails, one is interrupted. *)
Definition letter_cmd (x : string) (rc : Z) (stop : bool) : cmd_tbl_t shell :=
  CmdTbl (bytes x) 1 1 (λ _ _, say (bytes x) ;;; modify (λ s, Shell (sh_con s) stop) ;;; ret rc)
    None None None.
Definition letter_tbl : list (cmd_tbl_t shell) :=
  [letter_cmd "a" 0 false; letter_cmd "f" 7 false; letter_cmd "k" 0 true].
Definition shell_out (s : shell) : list Z := con_out (sh_con s).


(** What a command line that runs [setenv] does.  [c] is the entry of [setenv]. *)
Section setenv_line.
Context (n SZ : nat) (tbl : list (cmd_tbl_t shell)) (i : nat) (c : cmd_tbl_t shell).
Hypothesis Hfind : find_cmd tbl (bytes "setenv") = Some i ∧ tbl !! i = Some c.
Hypothesis Hentry : maxargs c = 32%Z ∧ name c = bytes "setenv" ∧ repeatable c = 0%Z.
Hypothesis Hcmd : cmd c = λ _ argv, on_con (on_uboot (do_setenv n SZ (tail argv))).

Lemma wp_run_setenv ps x v vs flag es s (Q : Z → shell → Prop) :
  let u := con_u (sh_con s) in
  env_wf es → env_repr es (u_env u) → length (u_env u) = SZ → (SZ < n)%nat →
  Forall piece_ok ps → (length (render ps) ≤ n)%nat → sh_ctrlc s = false →
  words (line_value es ps) = bytes "setenv" :: x :: v :: vs →
  (length vs < 29)%nat → NUL ∉ line_value es ps → (length (line_value es ps) < CFG_CBSIZE)%nat →
  (length (line_value es ps) + 1 < n)%nat → name_ok x → is_special x = false →
  Forall (λ v, NUL ∉ v) (v :: vs) → (length x < n)%nat →
  (∀ s', (env_fits SZ x (args_value v vs) (env_remove x es) ∧
          env_repr (env_set x (args_value v vs) es) (u_env (con_u (sh_con s')))) → Q 0%Z s') →
  (∀ s', (¬ env_fits SZ x (args_value v vs) (env_remove x es) ∧
          env_repr (env_remove x es) (u_env (con_u (sh_con s')))) → Q (-1)%Z s') →
  wp (run_tokens n SZ tbl flag 0 1 [render ps]) Q s.
Proof.
  intros u Hwf Hrepr Hlen Hn Hps Hps' Hctrl Hwords Hvs Hnul Hv Hvn Hx Hsp Hvals Hxn HQ0 HQ1.
  destruct Hfind as [Hf Hi]. destruct Hentry as (Hm & Hnm & Hr). cbn [run_tokens].
  apply wp_bind, wp_bind. eapply wp_of_run.
  { apply (token_args_words n SZ es s); [apply Hwf|done|fold u; lia|fold u; lia|done..|].
    rw Hwords /CFG_MAXARGS /=. lia. }
  rw Hwords. cbv beta iota. rw Hf /= Hi Hm. rw (proj2 (Z.ltb_ge 32 _)); [simpl; lia|].
  assert (is_bootd c = false) as -> by (by rw /is_bootd Hnm). cbn [andb].
  apply wp_bind. rw Hcmd. do 2 apply wp_zoom.
  change (do_setenv n SZ (tail _)) with (_do_setenv n SZ x (Some <$> v :: vs)).
  assert (∀ (r : Z) u', wp (let! stop := had_ctrlc in
      ret (flag, (if negb (r =? 0)%Z then (-1)%Z else 0%Z), Z.land 1 (repeatable c), stop))
    (λ '(flag, rc, rep, stop), wp (if stop : bool then ret 0%Z else run_tokens n SZ tbl flag rc rep []) Q)
    (Shell (set_u (sh_con s) u') (sh_ctrlc s)) ↔
    Q (if negb (r =? 0)%Z then (-1)%Z else 0%Z) (Shell (set_u (sh_con s) u') false)) as Hend.
  { intros r u'. rw Hctrl Hr. by destruct (r =? 0)%Z. }
  eapply (wp_do_setenv n SZ x v vs); [done..| | | |].
  - by intros ->.
  - intros u' Hfit Hr' _ _. by apply (Hend 0%Z), HQ0.
  - intros u' Hfit Hr' _ _. by apply (Hend 1%Z), HQ1.
  - intros u' H. by rw Hsp in H.
Qed.

End setenv_line.


Definition setenv_entry (n SZ : nat) : cmd_tbl_t shell :=
  CmdTbl (bytes "setenv") 32 0 (λ _ argv, on_con (on_uboot (do_setenv n SZ (tail argv))))
    None None None.

Definition demo_line_ps : list piece :=
  (Lit <$> bytes "setenv a ") ++ [Var (bytes "bootdelay")] ++ (Lit <$> bytes "  x").


Section faults.
Context (n SZ : nat) (tbl : list (cmd_tbl_t shell)) (flag : Z) (es : list entry) (s : shell).
Let data := u_env (con_u (sh_con s)).
Hypothesis Hok : Forall entry_ok es.
Hypothesis Hrepr : env_repr es data.
Hypothesis Hn : (length data < n)%nat.
Hypothesis HSZ : (length data ≤ SZ)%nat.
Hypothesis Hcb : (CFG_CBSIZE < n)%nat.

Lemma blanks_lit b : blanks b →
  Forall piece_ok (Lit <$> b) ∧ render (Lit <$> b) = b ∧ line_value es (Lit <$> b) = b.
Proof.
  induction 1 as [|c b Hc Hb (H1 & H2 & H3)]; [done|]. rw fmap_cons render_cons line_value_cons H2 H3.
  split_and!; [|done|done]. constructor; [|done].
  split_and!; intros ->; by vm_compute in Hc.
Qed.

Lemma blanks_plain b : b ≠ [] → blanks b → plain_token b.
Proof.
  intros Hne Hb. rw /blanks Forall_forall in Hb.
  assert (∀ c, blank c = false → c ∉ b) as Hnot.
  { intros c Hc Hin. by rw (Hb c Hin) in Hc. }
  split_and!; [done|by apply Hnot..|]. intros Hl. apply last_Some_elem_of in Hl.
  by apply (Hnot BSLASH).
Qed.

Lemma run_command_blanks b :
  b ≠ [] → blanks b → (length b + 1 < CFG_CBSIZE)%nat →
  run_command n SZ tbl b flag s = Err NullDeref.
Proof.
  intros Hne Hb Hlen. destruct (blanks_lit b Hb) as (H1 & H2 & H3).
  pose proof (blanks_plain b Hne Hb) as Hp. pose proof Hp as (_ & Hnul & _).
  pose proof (words_blanks b [] Hb) as Hw. rw app_nil_r in Hw.
  rw (run_command_join n SZ tbl b []); [by constructor|simpl; lia|].
  cbn [run_tokens]. rw /bind /run_token /bind -{1}H2 (token_args_words n SZ es); simpl;
    rw ?H2 ?H3 ?Hw //; lia || (vm_compute; lia).
Qed.

Lemma run_command_quote t :
  (length t + 1 < CFG_CBSIZE)%nat → run_command n SZ tbl (QUOTE :: t) flag s = Err OutOfBounds.
Proof.
  intros Hlen. rw /run_command {1}/bind /clear_ctrlc /modify.
  destruct (decide (QUOTE :: t = [])) as [|_]; [done|].
  rw decide_False; [cbn [length]; lia|]. done.
Qed.

Lemma run_command_overlong x v :
  piece_ok (Var x) → plain_token x → env_lookup x es = Some v → solid v → NUL ∉ v →
  (length x + 3 < CFG_CBSIZE ≤ length v)%nat →
  run_command n SZ tbl (render [Var x]) flag s = Err OutOfBounds.
Proof.
  intros Hx (Hne & Hn0 & Hs0 & Hq0 & _) Hv Hsolid Hnul Hlen.
  assert (render [Var x] = [DOLLAR; 123%Z] ++ x ++ [125%Z]) as Ht by (by rw /render /= app_nil_r).
  rw (run_command_join n SZ tbl (render [Var x]) []).
  { constructor; [|constructor]. rw Ht. split_and!; [done| | | |by rw app_assoc last_snoc].
    all: rw !not_elem_of_app; split_and!; [|done|]; by apply (bool_decide_unpack _). }
  { cbn [join_semi]. rw Ht !length_app. cbn [length]. lia. }
  cbn [run_tokens]. rw /bind /run_token /bind /token_args /bind.
  rw (on_con_env _ _ (cut (line_value es [Var x]))).
  { apply (process_macros_run n SZ es (Shell (sh_con s) false)); [done..|by constructor|].
    rw Ht !length_app. cbn [length]. lia. }
  assert (line_value es [Var x] = v) as -> by (rw /line_value /= Hv app_nil_r //).
  assert (length (cut v) = CFG_CBSIZE) as Hc by (rw /cut length_take; lia).
  rw /terminated decide_False; [lia|]. rw app_nil_r parse_line_overrun //.
  - intros H. rw H in Hc. by vm_compute in Hc.
  - by apply Forall_take.
  - intros Hin. by apply Hnul, (subseteq_take CFG_CBSIZE).
  - lia.
Qed.

End faults.

(** C40: Three lines that [run_command] does not survive: blanks only, where the
    command's name is a null pointer; a quote at the start, where the character
    before the buffer is read; and a variable whose value fills the buffer, which
    is left without its NUL and followed behind its end. *)
Theorem run_command_faults n SZ tbl flag es s :
  let u := con_u (sh_con s) in
  Forall entry_ok es → env_repr es (u_env u) → (length (u_env u) < n)%nat →
  (length (u_env u) ≤ SZ)%nat → (CFG_CBSIZE < n)%nat →
  (∀ b, b ≠ [] → blanks b → (length b + 1 < CFG_CBSIZE)%nat →
     run_command n SZ tbl b flag s = Err NullDeref) ∧
  (∀ t, (length t + 1 < CFG_CBSIZE)%nat →
     run_command n SZ tbl (QUOTE :: t) flag s = Err OutOfBounds) ∧
  (∀ x v, piece_ok (Var x) → plain_token x → env_lookup x es = Some v → solid v → NUL ∉ v →
     (length x + 3 < CFG_CBSIZE ≤ length v)%nat →
     run_command n SZ tbl (render [Var x]) flag s = Err OutOfBounds).
Proof.
  intros u Hok Hrepr Hn HSZ Hcb. split_and!; intros.
  - by eapply run_command_blanks.
  - by apply run_command_quote.
  - by eapply run_command_overlong.
Qed.

Definition long_value : list Z := replicate (CFG_CBSIZE + 3) 97%Z.
Definition long_env : list Z := enc [bytes "a=" ++ long_value] ++ [0; 0]%Z.
Definition long_shell : shell :=
  Shell (Con (set_env demo_uboot long_env) (replicate CFG_CBSIZE 0%Z) []) false.

Lemma run_command_faults_witness :
  run_command 3000 3000 [] (bytes " ") 0 long_shell = Err NullDeref ∧
  run_command 3000 3000 [] (bytes "'") 0 long_shell = Err OutOfBounds ∧
  run_command 3000 3000 [] (render [Var (bytes "a")]) 0 long_shell = Err OutOfBounds.
Proof.
  destruct (run_command_faults 3000 3000 [] 0 [bytes "a=" ++ long_value] long_shell)
    as (H1 & H2 & H3).
  - by apply (bool_decide_unpack _).
  - exists [0%Z]. by split.
  - apply Nat.ltb_lt. vm_compute. done.
  - apply Nat.leb_le. vm_compute. done.
  - apply Nat.ltb_lt. vm_compute. done.
  - split_and!.
    + apply H1; [done|by apply (bool_decide_unpack _)|apply Nat.ltb_lt; vm_compute; done].
    + apply H2. apply Nat.ltb_lt. vm_compute. done.
    + apply (H3 _ long_value).
      * by apply (bool_decide_unpack _).
      * rw /plain_token. by apply (bool_decide_unpack _).
      * vm_compute. done.
      * by apply (bool_decide_unpack _).
      * by apply (bool_decide_unpack _).
      * split; [apply Nat.ltb_lt|apply Nat.leb_le]; vm_compute; done.
Defined.
