(* ===== verification/Autoboot.v ===== *)
(** * Automatic boot (u-boot/common/main.c, [abortboot] and [main_loop])

    The part of [main_loop] before the interactive shell: the variable ver, the
    delay from the environment, the logo command, the countdown that a key stops,
    and the boot command.  The string of the version, which the build makes, is a
    parameter.  The keyboard is any function from the number of the poll to the key
    that is found; the countdown polls every 10 ms.  hush, which runs the boot
    command, is a parameter.  The messages, such as the seconds that count down, are
    left out.  The configuration is include/configs/wmt.h:
    CONFIG_BOOTDELAY 3, CONFIG_ZERO_BOOTDELAY_CHECK, CONFIG_VERSION_VARIABLE,
    CONFIG_AUTO_COMPLETE, no CONFIG_AUTOBOOT_KEYED, no CONFIG_PREBOOT. *)

From Stdlib Require Import ssreflect ZArith Lia String.
From stdpp Require Import base tactics numbers list sets.
From S2P Require Import Prelude Vsprintf EnvFormat EnvOps NvEdit Command Complete RunCmd.

Set Default Goal Selector "!".
Open Scope general_if_scope.

Definition CONFIG_BOOTDELAY : Z := 3.
Definition ENTER : Z := 13.

(** The shell, how often the keyboard was polled, and a key that was found and
    not fetched yet. *)
Record boot := Boot { b_shell : shell; b_polls : nat; b_held : option Z }.

Definition on_shell {A} (m : M shell A) : M boot A :=
  zoom b_shell (λ b s, Boot s (b_polls b) (b_held b)) m.

Section boot.
Context (kbd : nat → option Z).

Definition tstc : M boot bool := λ b,
  match b_held b with
  | Some _ => Ok (true, b)
  | None =>
      let r := kbd (b_polls b) in
      Ok (bool_decide (is_Some r), Boot (b_shell b) (S (b_polls b)) r)
  end.

(** Called after [tstc] only; else it would wait. *)
Definition getc_key : M boot Z := λ b,
  match b_held b with
  | Some c => Ok (c, Boot (b_shell b) (b_polls b) None)
  | None => Err Timeout
  end.

(** [if (tstc()) if (getc() == 0xd) abort = 1;], in [main_loop] and in
    [abortboot]. *)
Definition enter_pressed : M boot bool :=
  let! t := tstc in
  if t : bool then let! c := getc_key in ret (c =? ENTER)%Z else ret false.

(** "delay 100 * 10ms": whether a key came. *)
Definition wait_second : M boot bool :=
  let! r := for_until (seq 0 100) (λ _,
    let! t := tstc in
    if t : bool then let! _ := getc_key in ret (Some tt) else ret None) in
  ret (bool_decide (is_Some r)).

Definition abortboot (bootdelay : Z) : M boot bool :=
  let! abort := if (0 <=? bootdelay)%Z then enter_pressed else ret false in
  loopM (S (Z.to_nat bootdelay)) (λ '(bootdelay, abort),
    if (0 <? bootdelay)%Z && negb abort then
      let bootdelay := (bootdelay - 1)%Z in
      let! key := wait_second in
      ret (inl (if key : bool then (0%Z, true) else (bootdelay, false)))
    else ret (inr abort)) (bootdelay, abort).

Context (n CFG_ENV_SIZE : nat) (tbl : list (cmd_tbl_t shell)).
Context (parse_string_outer : list Z → M shell Z).

(** [getenv], with the string it points to. *)
Definition getenv_str_z (x : list Z) : M boot (option (list Z)) :=
  on_shell (on_con (on_uboot (on_env (
    let! r := getenv n CFG_ENV_SIZE x in
    let! d := get in
    ret (cstr_at d <$> r))))).
Definition getenv_str (x : string) : M boot (option (list Z)) := getenv_str_z (bytes x).

(** The logo command, when the three variables are there. *)
Definition run_logo : M boot unit :=
  let! s := getenv_str "wmt.nfc.mtd.u-boot-logo" in
  match s with
  | None => ret tt
  | Some _ =>
      let! s := getenv_str "wmt.display.logoaddr" in
      match s with
      | None => ret tt
      | Some _ =>
          let! s := getenv_str "logocmd" in
          match s with
          | None => ret tt
          | Some s => let! _ := on_shell (run_command n CFG_ENV_SIZE tbl s 0) in ret tt
          end
      end
  end.

(** [main_loop] from [getenv ("bootdelay")] on, up to [parse_file_outer]: the
    result of the boot command when it was run. *)
Definition autoboot : M boot (option Z) :=
  let! s := getenv_str "bootdelay" in
  let bootdelay :=
    match s with Some s => s32 (simple_strtol s 10).1 | None => CONFIG_BOOTDELAY end in
  let! abort := enter_pressed in
  (if abort : bool then ret tt else run_logo) ;;;
  let! s := getenv_str "bootcmd" in
  match s with
  | Some s =>
      if (0 <=? bootdelay)%Z && negb abort then
        let! stop := abortboot bootdelay in
        if stop : bool then ret None
        else let! rc := on_shell (parse_string_outer s) in ret (Some rc)
      else ret None
  | None => ret None
  end.

(** ** The commands that run a variable *)

(** hush returns 1 for a null pointer. *)
Definition parse_string_ptr (s : option (list Z)) : M boot Z :=
  match s with
  | None => ret 1%Z
  | Some s => on_shell (parse_string_outer s)
  end.

(** common/cmd_bootm.c *)
Definition do_bootd : M boot Z :=
  let! s := getenv_str_z (bytes "bootcmd") in
  let! r := parse_string_ptr s in
  ret (if negb (r =? 0)%Z then 1%Z else 0%Z).

(** [args] is argv[1..argc-1]. *)
Fixpoint run_vars (args : list (list Z)) : M boot Z :=
  match args with
  | [] => ret 0%Z
  | a :: args' =>
      let! s := getenv_str_z a in
      match s with
      | None => ret 1%Z
      | Some _ =>
          let! r := parse_string_ptr s in
          if negb (r =? 0)%Z then ret 1%Z else run_vars args'
      end
  end.
Definition do_run (args : list (list Z)) : M boot Z :=
  match args with
  | [] => ret 1%Z
  | _ => run_vars args
  end.

(** ** The countdown *)

(** A key is found by one of [len] polls from [from] on. *)
Definition key_in (from len : nat) : bool :=
  existsb (λ k, bool_decide (is_Some (kbd k))) (seq from len).

(** The polls that find no key, or the first that does. *)
Definition after_polls (sh : shell) (from len : nat) (b : boot) : Prop :=
  b_shell b = sh ∧ b_held b = None ∧
  if key_in from len then (from < b_polls b ≤ from + len)%nat else b_polls b = (from + len)%nat.

Lemma wp_wait_polls (l : list nat) from sh (Q : option unit → boot → Prop) :
  (∀ b, after_polls sh from (length l) b → Q (if key_in from (length l) then Some tt else None) b) →
  wp (for_until l (λ _,
    let! t := tstc in
    if t : bool then let! _ := getc_key in ret (Some tt) else ret None)) Q (Boot sh from None).
Proof.
  revert from Q. induction l as [|a l IH]; intros from Q HQ; cbn [for_until].
  { apply wp_ret. apply (HQ (Boot sh from None)). split_and!; [done..|]. simpl. lia. }
  do 2 apply wp_bind. rw /wp /tstc /=. rw /key_in /= in HQ. rw /after_polls /key_in /= in HQ.
  destruct (kbd from) as [c|] eqn:Hk.
  - rw (bool_decide_true (is_Some (Some c))) // in HQ. rw (bool_decide_true (is_Some (Some c))) //.
    apply HQ. split_and!; [done..|simpl; lia].
  - rw (bool_decide_false (is_Some (@None Z))) in HQ; [by intros [? ?]|].
    rw (bool_decide_false (is_Some (@None Z))); [by intros [? ?]|].
    apply IH. intros b (H1 & H2 & H3). apply HQ. split_and!; [done..|]. cbn [orb].
    rw /key_in in H3. destruct (existsb _ _); lia.
Qed.

Lemma key_in_app from len1 len2 :
  key_in from (len1 + len2) = key_in from len1 || key_in (from + len1) len2.
Proof. rw /key_in seq_app existsb_app //. Qed.

Lemma wp_countdown delay from sh (Q : bool → boot → Prop) fuel :
  (delay < fuel)%nat →
  (∀ b, after_polls sh from (100 * delay) b → Q (key_in from (100 * delay)) b) →
  wp (loopM fuel (λ '(bootdelay, abort),
    if (0 <? bootdelay)%Z && negb abort then
      let bootdelay := (bootdelay - 1)%Z in
      let! key := wait_second in
      ret (inl (if key : bool then (0%Z, true) else (bootdelay, false)))
    else ret (inr abort)) (Z.of_nat delay, false)) Q (Boot sh from None).
Proof.
  revert from fuel Q. induction delay as [|delay IH]; intros from fuel Q Hf HQ;
    (destruct fuel as [|fuel]; [lia|]); apply wp_loop_step.
  { apply wp_ret. apply (HQ (Boot sh from None)). split_and!; [done..|]. simpl. lia. }
  rw (proj2 (Z.ltb_lt 0 _)); [lia|]. cbn [andb negb]. apply wp_bind, wp_bind, wp_wait_polls.
  rw length_seq. intros b Hb. replace (100 * S delay)%nat with (100 + 100 * delay)%nat in HQ by lia.
  rw key_in_app in HQ. apply wp_ret, wp_ret. destruct (key_in from 100) eqn:Hk.
  - rw bool_decide_true; [by eexists|]. destruct fuel as [|fuel]; [lia|].
    apply wp_loop_step, wp_ret. rw orb_true_l in HQ. apply HQ.
    destruct Hb as (H1 & H2 & H3). rw Hk in H3. split_and!; [done..|]. rw key_in_app Hk /=. lia.
  - rw bool_decide_false; [by intros [? ?]|].
    replace (Z.of_nat (S delay) - 1)%Z with (Z.of_nat delay) by lia.
    destruct Hb as (H1 & H2 & H3). rw Hk in H3. destruct b as [sh' p h].
    cbn [b_shell b_polls b_held] in *. subst. rw orb_false_l in HQ. apply IH; [lia|]. intros b (G1 & G2 & G3). apply HQ.
    split_and!; [done..|]. rw key_in_app Hk orb_false_l. destruct (key_in (from + 100) (100 * delay)); lia.
Qed.

Lemma enter_run sh k :
  enter_pressed (Boot sh k None) = Ok (bool_decide (kbd k = Some ENTER), Boot sh (S k) None).
Proof.
  rw /enter_pressed /bind /tstc /=. destruct (kbd k) as [c|].
  - rw bool_decide_true; [by eexists|]. rw /= /ret. do 2 f_equal.
    apply eq_true_iff_eq. rw Z.eqb_eq bool_decide_eq_true. naive_solver.
  - rw bool_decide_false; [by intros [? ?]|]. done.
Qed.

(** Whether a countdown of [delay] seconds whose first poll is [k] is stopped: by
    ENTER at the first poll, by any key later. *)
Definition aborts (k : nat) (delay : Z) : bool :=
  (0 <=? delay)%Z &&
  (bool_decide (kbd k = Some ENTER) || key_in (S k) (100 * Z.to_nat delay)).

Lemma wp_abortboot delay sh k (Q : bool → boot → Prop) :
  (∀ b, b_shell b = sh → b_held b = None → Q (aborts k delay) b) →
  wp (abortboot delay) Q (Boot sh k None).
Proof.
  intros HQ. rw /aborts in HQ. apply wp_bind. destruct (Z.leb_spec 0 delay) as [Hd|Hd].
  - eapply wp_of_run; [apply enter_run|]. destruct (bool_decide (kbd k = Some ENTER)).
    + apply wp_loop_step. rw andb_false_r. by apply wp_ret, HQ.
    + replace delay with (Z.of_nat (Z.to_nat delay)) at 2 by lia.
      apply wp_countdown; [lia|]. intros b (H1 & H2 & _). by apply HQ.
  - apply wp_ret, wp_loop_step. rw (proj2 (Z.ltb_ge 0 delay)); [lia|]. by apply wp_ret, HQ.
Qed.

(** ** The boot *)

Section env.
Context (es : list entry) (sh : shell).
Let data := u_env (con_u (sh_con sh)).
Hypothesis Hok : Forall entry_ok es.
Hypothesis Hrepr : env_repr es data.
Hypothesis Hn : (length data < n)%nat.
Hypothesis HSZ : (length data ≤ CFG_ENV_SIZE)%nat.

Lemma getenv_str_run x k h :
  name_ok x → (length x < n)%nat →
  getenv_str_z x (Boot sh k h) = Ok (env_lookup x es, Boot sh k h).
Proof.
  intros Hx Hl. rw /getenv_str_z /on_shell /zoom. cbn [b_shell b_polls b_held].
  rw (on_con_env _ sh (env_lookup x es)) //. fold data.
  assert (wp (let! r := getenv n CFG_ENV_SIZE x in let! d := get in ret (cstr_at d <$> r))
    (λ r d, r = env_lookup x es ∧ d = data) data) as H.
  { apply wp_bind, (wp_getenv n CFG_ENV_SIZE x es data); [done..|].
    intros r Hr. by apply wp_bind, wp_get, wp_ret. }
  apply wp_ok in H as (r & d & -> & -> & ->). done.
Qed.

Definition boot_delay : Z :=
  match env_lookup (bytes "bootdelay") es with
  | Some s => s32 (simple_strtol s 10).1
  | None => CONFIG_BOOTDELAY
  end.

(** Whether an automatic boot that starts at poll [k] goes through. *)
Definition boots (k : nat) : bool :=
  negb (bool_decide (kbd k = Some ENTER)) && (0 <=? boot_delay)%Z && negb (aborts (S k) boot_delay).

Lemma autoboot_run k :
  (24 ≤ n)%nat → env_lookup (bytes "wmt.nfc.mtd.u-boot-logo") es = None →
  ∃ polls,
    autoboot (Boot sh k None) =
    match env_lookup (bytes "bootcmd") es with
    | Some s =>
        if boots k then
          match parse_string_outer s sh with
          | Ok (rc, sh') => Ok (Some rc, Boot sh' polls None)
          | Err f => Err f
          end
        else Ok (None, Boot sh polls None)
    | None => Ok (None, Boot sh polls None)
    end.
Proof.
  intros Hn24 Hlogo.
  assert (∀ x k h, bool_decide (name_ok (bytes x)) = true → (length (bytes x) <? 24)%nat = true →
    getenv_str x (Boot sh k h) = Ok (env_lookup (bytes x) es, Boot sh k h)) as Hget.
  { intros x k' h Hx%bool_decide_eq_true Hl%Nat.ltb_lt. apply getenv_str_run; [done|lia]. }
  rw /autoboot {1}/bind (Hget "bootdelay"%string) //. rw {1}/bind enter_run /boots.
  assert ((if bool_decide (kbd k = Some ENTER) then ret tt else run_logo) (Boot sh (S k) None) =
          Ok (tt, Boot sh (S k) None)) as Hl.
  { case_bool_decide; [done|]. rw /run_logo /bind (Hget "wmt.nfc.mtd.u-boot-logo"%string) // Hlogo //. }
  rw {1}/bind Hl {1}/bind (Hget "bootcmd"%string) //.
  destruct (env_lookup (bytes "bootcmd") es) as [s|]; [|by exists (S k)]. fold boot_delay.
  case_bool_decide as He; cbn [negb]; [exists (S k); by rw andb_false_r|]. rw andb_true_r.
  destruct (0 <=? boot_delay)%Z; [|by exists (S k)]. cbn [andb].
  assert (wp (abortboot boot_delay) (λ r b, r = aborts (S k) boot_delay ∧ b_shell b = sh ∧
    b_held b = None) (Boot sh (S k) None)) as Hwp by (apply wp_abortboot; by intros b -> ->).
  apply wp_ok in Hwp as (r & [sh' p h] & Hrun & -> & Hsh & Hh). cbn in Hsh, Hh. subst.
  exists p. rw /bind Hrun. destruct (aborts (S k) boot_delay); [done|]. cbn [negb].
  rw /on_shell /zoom /=. by destruct (parse_string_outer s sh) as [[rc sh'']|f].
Qed.

End env.
End boot.

(** ** The start *)

(** The version goes into the environment and the handlers for completion into
    the table; [u_boot_hush_start] only prepares hush. *)
Definition main_loop (kbd : nat → option Z) (n ENV_SIZE CFG_ENV_SIZE : nat)
    (version_string : list Z) (tbl : list (cmd_tbl_t shell))
    (parse_string_outer : list Z → M shell Z) : M boot (option Z) :=
  on_shell (on_con (on_uboot (setenv n ENV_SIZE (bytes "ver") (Some version_string)))) ;;;
  let tbl := install_auto_complete n tbl in
  autoboot kbd n CFG_ENV_SIZE tbl parse_string_outer.

(** The environment with the version, if there is room for it. *)
Definition with_version (SZ : nat) (ver : list Z) (es : list entry) : list entry :=
  let rest := env_remove (bytes "ver") es in
  if decide (env_fits SZ (bytes "ver") ver rest) then env_set (bytes "ver") ver es else rest.

Lemma with_version_lookup SZ ver es x :
  x ≠ bytes "ver" → env_lookup x (with_version SZ ver es) = env_lookup x es.
Proof.
  intros Hx. rw /with_version. case_decide; [|by apply env_lookup_remove_ne].
  apply env_lookup_set_ne; [by apply (bool_decide_unpack _)|done].
Qed.

Lemma with_version_wf SZ ver es : env_wf es → NUL ∉ ver → env_wf (with_version SZ ver es).
Proof.
  intros Hwf Hv. rw /with_version. case_decide; [|by apply env_remove_wf].
  apply env_set_wf; [done| |done]. by apply (bool_decide_unpack _).
Qed.

Lemma with_version_boots kbd SZ ver es k :
  boots kbd (with_version SZ ver es) k = boots kbd es k.
Proof. rw /boots /boot_delay with_version_lookup //. Qed.

(** The shell after the start: only the globals of [setenv] may differ. *)
Definition same_console (sh sh' : shell) : Prop :=
  sh_ctrlc sh' = sh_ctrlc sh ∧ con_buf (sh_con sh') = con_buf (sh_con sh) ∧
  con_out (sh_con sh') = con_out (sh_con sh).

Lemma setenv_version_run n SZ ver es sh k h :
  let data := u_env (con_u (sh_con sh)) in
  env_wf es → env_repr es data → length data = SZ → (SZ < n)%nat → (24 ≤ n)%nat → NUL ∉ ver →
  ∃ sh', on_shell (on_con (on_uboot (setenv n SZ (bytes "ver") (Some ver)))) (Boot sh k h) =
           Ok (tt, Boot sh' k h) ∧
    same_console sh sh' ∧ length (u_env (con_u (sh_con sh'))) = SZ ∧
    env_repr (with_version SZ ver es) (u_env (con_u (sh_con sh'))).
Proof.
  intros data Hwf Hrepr Hlen Hn H24 Hv.
  assert (wp (setenv n SZ (bytes "ver") (Some ver)) (λ _ u, length (u_env u) = SZ ∧
    env_repr (with_version SZ ver es) (u_env u)) (con_u (sh_con sh))) as Hwp.
  { apply wp_bind. apply (wp_do_setenv n SZ (bytes "ver") ver [] _ es).
    - done.
    - done.
    - done.
    - done.
    - by apply (bool_decide_unpack _).
    - change (3 < n)%nat. lia.
    - by constructor.
    - done.
    - intros u Hf Hr _ Hl. apply wp_ret. split; [done|]. rw /args_value app_nil_r in Hf Hr.
      by rw /with_version decide_True.
    - intros u Hf Hr _ Hl. apply wp_ret. split; [done|]. rw /args_value app_nil_r in Hf.
      by rw /with_version decide_False.
    - done. }
  apply wp_ok in Hwp as ([] & u & Hrun & Hl & Hr).
  exists (Shell (Con u (con_buf (sh_con sh)) (con_out (sh_con sh))) (sh_ctrlc sh)).
  split; [|done]. rw /on_shell /on_con /on_uboot /zoom /= Hrun //.
Qed.

(** Nobody at the keyboard: the boot goes through unless the delay is negative. *)
Lemma boots_unattended es k : boots (λ _, None) es k = (0 <=? boot_delay es)%Z.
Proof.
  assert (∀ from len, key_in (λ _, None) from len = false) as Hk.
  { intros from len. rw /key_in. by induction (seq from len). }
  rw /boots /aborts Hk. by destruct (0 <=? boot_delay es)%Z.
Qed.

(** Without a delay only ENTER stops the boot, where the prompt says any key. *)
Lemma aborts_no_delay kbd k : aborts kbd k 0 = bool_decide (kbd k = Some ENTER).
Proof. apply orb_false_r. Qed.

(** [run] with a variable that is defined hands its value to the shell; with one
    that is not, it returns 1 and runs nothing. *)
Lemma do_run_var n SZ parse_string_outer es sh k x :
  let data := u_env (con_u (sh_con sh)) in
  Forall entry_ok es → env_repr es data → (length data < n)%nat → (length data ≤ SZ)%nat →
  name_ok x → (length x < n)%nat →
  do_run n SZ parse_string_outer [x] (Boot sh k None) =
  match env_lookup x es with
  | None => Ok (1%Z, Boot sh k None)
  | Some s =>
      match parse_string_outer s sh with
      | Ok (rc, sh') => Ok (c_bool (truth rc), Boot sh' k None)
      | Err f => Err f
      end
  end.
Proof.
  intros data Hok Hrepr Hn HSZ Hx Hl. cbn [do_run run_vars]. rw /bind (getenv_str_run n SZ es sh) //.
  destruct (env_lookup x es) as [s|]; [|done]. rw /parse_string_ptr /on_shell /zoom /=.
  destruct (parse_string_outer s sh) as [[rc sh']|f]; [|done].
  rw /truth. by destruct (rc =? 0)%Z.
Qed.

(** C16: When the board boots by itself.  For every keyboard, environment, version
    and delay, with no boot logo configured: [main_loop] stores the version in ver if
    it fits, and runs the value of bootcmd, once and right after that, exactly when
    it is defined, the delay is not negative, ENTER is not found by the poll before
    the countdown or by its first poll, and no key by any of the 100 polls of each
    second; otherwise nothing is run.  The delay is bootdelay from the environment,
    or 3. *)
Theorem main_loop_autoboot kbd n ENV_SIZE SZ ver tbl parse_string_outer es sh k :
  let data := u_env (con_u (sh_con sh)) in
  env_wf es → env_repr es data → length data = ENV_SIZE → (ENV_SIZE ≤ SZ)%nat → (ENV_SIZE < n)%nat →
  (24 ≤ n)%nat → NUL ∉ ver → env_lookup (bytes "wmt.nfc.mtd.u-boot-logo") es = None →
  ∃ sh1 polls,
    same_console sh sh1 ∧
    env_repr (with_version ENV_SIZE ver es) (u_env (con_u (sh_con sh1))) ∧
    main_loop kbd n ENV_SIZE SZ ver tbl parse_string_outer (Boot sh k None) =
    match env_lookup (bytes "bootcmd") es with
    | Some s =>
        if boots kbd es k then
          match parse_string_outer s sh1 with
          | Ok (rc, sh') => Ok (Some rc, Boot sh' polls None)
          | Err f => Err f
          end
        else Ok (None, Boot sh1 polls None)
    | None => Ok (None, Boot sh1 polls None)
    end.
Proof.
  intros data Hwf Hrepr Hlen HSZ Hn H24 Hv Hlogo.
  destruct (setenv_version_run n ENV_SIZE ver es sh k None) as (sh1 & Hrun & Hsame & Hl & Hr); [done..|].
  destruct (autoboot_run kbd n SZ (install_auto_complete n tbl) parse_string_outer
    (with_version ENV_SIZE ver es) sh1) with (k := k) as [polls Hb].
  { by apply with_version_wf. }
  { done. }
  { lia. }
  { lia. }
  { done. }
  { by rw with_version_lookup. }
  exists sh1, polls. split_and!; [done..|]. rw /main_loop {1}/bind Hrun Hb with_version_boots.
  by rw with_version_lookup.
Qed.

Definition boot_es : list entry := [bytes "bootdelay=2"; bytes "bootcmd=bootm"].
Definition boot_sh : shell :=
  Shell (Con (set_env demo_uboot (enc boot_es ++ replicate 20 0%Z)) [] []) false.
Definition boot_size : nat := length (u_env (con_u (sh_con boot_sh))).
Definition hush (s : list Z) : M shell Z := λ sh, Ok (Z.of_nat (length s), sh).

Lemma main_loop_autoboot_witness :
  (∃ sh1 polls, env_repr (boot_es ++ [bytes "ver=1.1.4"]) (u_env (con_u (sh_con sh1))) ∧
     main_loop (λ _, None) 100 boot_size boot_size (bytes "1.1.4") [] hush (Boot boot_sh 0 None) =
     Ok (Some 5%Z, Boot sh1 polls None)) ∧
  (∃ sh1 polls, main_loop (λ k, if decide (k = 150)%nat then Some 32%Z else None) 100 boot_size
     boot_size (bytes "1.1.4") [] hush (Boot boot_sh 0 None) = Ok (None, Boot sh1 polls None)).
Proof.
  split.
  - destruct (main_loop_autoboot (λ _, None) 100 boot_size boot_size (bytes "1.1.4") [] hush boot_es
                boot_sh 0) as (sh1 & polls & _ & Hr & H).
    + by apply (bool_decide_unpack _).
    + exists (replicate 19 0%Z). by split.
    + done.
    + done.
    + apply Nat.ltb_lt. vm_compute. done.
    + lia.
    + by apply (bool_decide_unpack _).
    + vm_compute. done.
    + exists sh1, polls. split; [exact Hr|]. rw H. vm_compute. reflexivity.
  - destruct (main_loop_autoboot (λ k, if decide (k = 150)%nat then Some 32%Z else None) 100 boot_size
                boot_size (bytes "1.1.4") [] hush boot_es boot_sh 0) as (sh1 & polls & _ & _ & H).
    + by apply (bool_decide_unpack _).
    + exists (replicate 19 0%Z). by split.
    + done.
    + done.
    + apply Nat.ltb_lt. vm_compute. done.
    + lia.
    + by apply (bool_decide_unpack _).
    + vm_compute. done.
    + exists sh1, polls. rw H. vm_compute. reflexivity.
Defined.
