(* ===== verification/WmtClk.v ===== *)
(** * Clock and PLL driver (u-boot/board/wmt/wmt_clk.c)

    The driver counts the users of each device clock, and programs PLLs and
    divisors through the registers of the power management controller.  The
    registers are words by offset that hold what was last written, with a log of
    the writes; the busy bits of the status register are answered by the
    hardware ([ClkHw]), any function of the number of reads before. *)

From Stdlib Require Import ssreflect ZArith Lia ZifyBool.
From stdpp Require Import base tactics numbers list.
From S2P Require Import Prelude SpiFlash FlashRange.

Set Default Goal Selector "!".
Open Scope general_if_scope.
#[local] Open Scope Z_scope.

(** ** Devices and commands (include/wmt_clk.h) *)

Inductive dev_id :=
| DEV_SDMMC0 | DEV_SDMMC1 | DEV_SDMMC2 | DEV_ETHMAC | DEV_ETHPHY | DEV_RTC | DEV_I2C0 | DEV_I2C1
| DEV_GPIO | DEV_KEYPAD | DEV_PCM | DEV_PWM | DEV_SCC | DEV_SYS | DEV_AMP | DEV_MALI | DEV_PERM
| DEV_MBOX
| DEV_DDRMC | DEV_ARF | DEV_ARFP | DEV_DMA | DEV_PDMA | DEV_VDMA | DEV_UHDC | DEV_AHBB | DEV_NAND
| DEV_NOR | DEV_SPI0 | DEV_SPI1 | DEV_SF | DEV_UART0 | DEV_UART1 | DEV_UART2 | DEV_UART3
| DEV_UART4 | DEV_UART5
| DEV_NA0 | DEV_NA0REF | DEV_JDEC | DEV_MSVD | DEV_TSBK | DEV_SAE | DEV_HDCE | DEV_H264 | DEV_CIR
| DEV_NA12 | DEV_VPU | DEV_VPP | DEV_VID | DEV_VDU | DEV_SCL444U | DEV_HDMII2C | DEV_HDMI
| DEV_GOVW | DEV_GOVRHD | DEV_GE | DEV_DISP | DEV_DVO | DEV_SDTV
| DEV_I2S | DEV_ARM | DEV_AHB | DEV_APB | DEV_L2C | DEV_L2CAXI | DEV_L2CPAXI.

#[export] Instance dev_id_eq_dec : EqDecision dev_id.
Proof. solve_decision. Defined.

(** The values of the enumeration. *)
Definition dev_num (dev : dev_id) : Z :=
  match dev with
  | DEV_SDMMC0 => 0 | DEV_SDMMC1 => 1 | DEV_SDMMC2 => 2 | DEV_ETHMAC => 4 | DEV_ETHPHY => 6
  | DEV_RTC => 7 | DEV_I2C0 => 8 | DEV_I2C1 => 9 | DEV_GPIO => 11 | DEV_KEYPAD => 14
  | DEV_PCM => 16 | DEV_PWM => 17 | DEV_SCC => 21 | DEV_SYS => 22 | DEV_AMP => 24
  | DEV_MALI => 26 | DEV_PERM => 30 | DEV_MBOX => 31
  | DEV_DDRMC => 32 | DEV_ARF => 35 | DEV_ARFP => 36 | DEV_DMA => 37 | DEV_PDMA => 38
  | DEV_VDMA => 39 | DEV_UHDC => 41 | DEV_AHBB => 45 | DEV_NAND => 48 | DEV_NOR => 49
  | DEV_SPI0 => 51 | DEV_SPI1 => 52 | DEV_SF => 55 | DEV_UART0 => 56 | DEV_UART1 => 57
  | DEV_UART2 => 58 | DEV_UART3 => 59 | DEV_UART4 => 60 | DEV_UART5 => 61
  | DEV_NA0 => 64 | DEV_NA0REF => 65 | DEV_JDEC => 67 | DEV_MSVD => 68 | DEV_TSBK => 69
  | DEV_SAE => 70 | DEV_HDCE => 71 | DEV_H264 => 72 | DEV_CIR => 79 | DEV_NA12 => 80
  | DEV_VPU => 81 | DEV_VPP => 82 | DEV_VID => 83 | DEV_VDU => 84 | DEV_SCL444U => 85
  | DEV_HDMII2C => 86 | DEV_HDMI => 87 | DEV_GOVW => 88 | DEV_GOVRHD => 89 | DEV_GE => 90
  | DEV_DISP => 91 | DEV_DVO => 94 | DEV_SDTV => 95
  | DEV_I2S => 98 | DEV_ARM => 99 | DEV_AHB => 100 | DEV_APB => 101 | DEV_L2C => 102
  | DEV_L2CAXI => 103 | DEV_L2CPAXI => 104
  end.

Inductive clk_cmd := CLK_DISABLE | GET_FREQ | CLK_ENABLE | SET_DIV | SET_PLL | SET_PLLDIV.

#[export] Instance clk_cmd_eq_dec : EqDecision clk_cmd.
Proof. solve_decision. Defined.

Definition is_sdmmc (dev : dev_id) : bool :=
  match dev with DEV_SDMMC0 | DEV_SDMMC1 | DEV_SDMMC2 => true | _ => false end.
Definition is_sdtv (dev : dev_id) : bool := match dev with DEV_SDTV => true | _ => false end.

(** ** State *)

Definition SRC_FREQ : Z := 25.

(** Offsets from [PMC_BASE]. *)
Definition PMC_PLL : Z := 0x200.
Definition PMC_CLK : Z := 0x250.
Definition BUSY : Z := 0x3F0038.

Class ClkHw := { hw_busy : nat → Z }.

Record clkst := ClkSt {
  ck_time : nat;               (** reads of the status register so far *)
  ck_reg : Z → Z;              (** the other registers: words by offset *)
  ck_log : list (Z * Z);       (** the words written to them, in order *)
  ck_count : list Z            (** [dev_en_count] *)
}.

Definition upd (off v : Z) (r : Z → Z) : Z → Z := λ o, if o =? off then v else r o.
Definition set_reg (off v : Z) (st : clkst) : clkst :=
  ClkSt (ck_time st) (upd off v (ck_reg st)) (ck_log st ++ [(off, v)]) (ck_count st).
Definition set_count (i : nat) (v : Z) (st : clkst) : clkst :=
  ClkSt (ck_time st) (ck_reg st) (ck_log st) (<[i := v]> (ck_count st)).
Definition set_time (t : nat) (st : clkst) : clkst :=
  ClkSt t (ck_reg st) (ck_log st) (ck_count st).

(** Word accesses fault at other addresses than multiples of four; a byte access
    is to a part of a word. *)
Definition rd32 (off : Z) : M clkst Z := λ st,
  if off mod 4 =? 0 then Ok (ck_reg st off, st) else Err Unaligned.
Definition wr32 (off v : Z) : M clkst unit := λ st,
  if off mod 4 =? 0 then Ok (tt, set_reg off (u32 v) st) else Err Unaligned.
Definition rd8 (off : Z) : M clkst Z := λ st,
  Ok (Z.land (Z.shiftr (ck_reg st (off - off mod 4)) (8 * (off mod 4))) 0xFF, st).
Definition wr8 (off v : Z) : M clkst unit := λ st,
  let w := off - off mod 4 in
  let sh := 8 * (off mod 4) in
  Ok (tt, set_reg w (Z.lor (Z.ldiff (ck_reg st w) (Z.shiftl 0xFF sh)) (Z.shiftl (u8 v) sh)) st).

(** An unsigned division. *)
Definition udiv {S} (a b : Z) : M S Z := if b =? 0 then fail DivByZero else ret (a / b).

Section clk.
Context {hw : ClkHw}.

(** The loop on the busy bits of the status register at [PMC_BASE + 0x18]. *)
Definition wait_busy (n : nat) : M clkst unit :=
  loopM n (λ _ : unit, λ st,
    Ok (if Z.land (hw_busy (ck_time st)) BUSY =? 0 then inr tt else inl tt,
        set_time (S (ck_time st)) st)) tt.

(** ** Clock enables *)

Definition clk_reg (d : Z) : Z := PMC_CLK + 4 * (d / 32).
Definition clk_bit (d : Z) : Z := d - 32 * (d / 32).

Definition get_count (d : Z) : M clkst Z :=
  let! st := get in arr_get (ck_count st) d.

Definition disable_dev_clk (dev : dev_id) : M clkst Z :=
  let d := dev_num dev in
  if 128 <=? d then ret (-1) else
  let! en_count := get_count d in
  if en_count <=? 1 then
    modify (set_count (Z.to_nat d) 0) ;;;
    let! w := rd32 (clk_reg d) in
    wr32 (clk_reg d) (Z.land w (u32 (Z.lnot (Z.shiftl 1 (clk_bit d))))) ;;;
    ret 0
  else
    modify (set_count (Z.to_nat d) (en_count - 1)) ;;;
    ret (en_count - 1).

Definition enable_dev_clk (dev : dev_id) : M clkst Z :=
  let d := dev_num dev in
  if 128 <? d then ret (-1) else
  let! en_count := get_count d in
  if en_count <=? 0 then
    modify (set_count (Z.to_nat d) 1) ;;;
    let! w := rd32 (clk_reg d) in
    wr32 (clk_reg d) (Z.lor w (Z.shiftl 1 (clk_bit d))) ;;;
    ret 1
  else
    modify (set_count (Z.to_nat d) (s32 (en_count + 1))) ;;;
    ret (s32 (en_count + 1)).

(** The test of the enable bit; a device without one counts as enabled. *)
Definition clk_enabled (dev : dev_id) : M clkst bool :=
  let d := dev_num dev in
  if d <? 128 then
    let! w := rd32 (clk_reg d) in
    ret (negb (Z.land w (Z.shiftl 1 (clk_bit d)) =? 0))
  else ret true.

(** ** PLL and divisor of a device: [(PLL_NO, div_offset)] *)

Definition calc_pll_num (dev : dev_id) : Z * Z :=
  match dev with
  | DEV_UART0 | DEV_UART1 | DEV_UART2 | DEV_UART3 | DEV_UART4 | DEV_UART5 | DEV_CIR => (6, 0)
  | DEV_I2C0 => (1, 0x3A0)
  | DEV_I2C1 => (1, 0x3A4)
  | DEV_PWM => (1, 0x350)
  | DEV_SPI0 => (1, 0x340)
  | DEV_SPI1 => (1, 0x344)
  | DEV_DVO | DEV_SDTV => (2, 0x36C)
  | DEV_SCC | DEV_JDEC | DEV_MSVD | DEV_AMP | DEV_VPU | DEV_MBOX | DEV_GE | DEV_GOVRHD
  | DEV_KEYPAD | DEV_RTC | DEV_GPIO => (6, 0)
  | DEV_MALI => (0, 0x388)
  | DEV_DDRMC => (3, 0x310)
  | DEV_NA0 => (1, 0x358)
  | DEV_NA12 | DEV_VPP => (1, 0x35C)
  | DEV_L2C => (0, 0x30C)
  | DEV_L2CAXI => (0, 0x3B0)
  | DEV_L2CPAXI => (0, 0x3C0)
  | DEV_ARF | DEV_ARFP | DEV_DMA | DEV_UHDC | DEV_PERM | DEV_PDMA | DEV_VDMA => (6, 0)
  | DEV_VDU => (1, 0x368)
  | DEV_NAND => (1, 0x318)
  | DEV_NOR => (1, 0x31C)
  | DEV_SDMMC0 => (1, 0x330)
  | DEV_SDMMC1 => (1, 0x334)
  | DEV_SDMMC2 => (1, 0x338)
  | DEV_ETHMAC => (1, 0x394)
  | DEV_SF => (1, 0x314)
  | DEV_PCM => (1, 0x354)
  | DEV_I2S => (4, 0x374)
  | DEV_HDMI | DEV_SCL444U | DEV_GOVW | DEV_VID | DEV_SAE => (6, 0)
  | DEV_ARM => (0, 0x300)
  | DEV_AHB => (0, 0x304)
  | DEV_APB => (0, 0x320)
  | DEV_ETHPHY => (6, 25)
  | DEV_SYS | DEV_AHBB | DEV_NA0REF | DEV_TSBK | DEV_HDCE | DEV_H264 | DEV_HDMII2C | DEV_DISP => (5, 0)
  end.

Definition check_filter (filter : Z) : Z :=
  if 166 <=? filter then 7
  else if 104 <=? filter then 6
  else if 65 <=? filter then 5
  else if 42 <=? filter then 4
  else if 26 <=? filter then 3
  else if 16 <=? filter then 2
  else if 10 <=? filter then 1
  else 0.

(** The byte store and the wait that the functions begin with. *)
Definition prepare_div (n : nat) (dev : dev_id) (offs : Z) : M clkst unit :=
  wr8 (offs + 2) (if is_sdtv dev then 1 else 0) ;;;
  wait_busy n.

(** The factors of the frequency in a PLL register. *)
Definition pll_mult (tmp : Z) : Z := SRC_FREQ * (Z.land (Z.shiftr tmp 16) 0xFF + 1).
Definition pll_div (tmp : Z) : Z :=
  (Z.land (Z.shiftr tmp 8) 0x3F + 1) * Z.shiftl 1 (Z.land tmp 7).

Definition get_freq (n : nat) (dev : dev_id) : M clkst Z :=
  let '(PLL_NO, offs) := calc_pll_num dev in
  if PLL_NO =? 5 then ret (-1) else
  clk_enabled dev ;;;
  if PLL_NO =? 6 then ret (offs * 1000000) else
  prepare_div n dev offs ;;;
  let! divisor := rd8 offs in
  let! tmp := rd32 (PMC_PLL + 4 * PLL_NO) in
  let div :=
    if is_sdmmc dev
    then Z.land divisor 0x1F * (if negb (Z.land divisor 32 =? 0) then 64 else 1)
    else Z.land divisor 0x1F in
  let! q := udiv 1000000 (u32 (pll_div tmp * div)) in
  ret (s32 (u32 (pll_mult tmp * q))).

(** ** Setting the divisor *)

(** The first divisor in 1..32 that does not exceed the target, without the odd
    ones for PLL C. *)
Definition find_divisor (PLL_NO scale PLL freq : Z) : option Z :=
  List.find (λ i, negb ((1 <? i) && negb (i mod 2 =? 0) && (PLL_NO =? 2)) &&
                  (PLL / (i * scale) <=? freq)) (seqZ 1 32).

Definition div_value (dev : dev_id) (j : bool) (div : Z) : Z :=
  (if is_sdtv dev then 0x10000 else 0) + (if j then 32 else 0) + (if div =? 32 then 0 else div).

(** [freq *= 1000] and [freq *= 1000000] on an [int]. *)
Definition scale_freq (unit freq : Z) : Z :=
  if unit =? 1 then s32 (freq * 1000) else if unit =? 2 then s32 (freq * 1000000) else freq.

Definition set_divisor (n : nat) (dev : dev_id) (unit freq : Z) : M clkst Z :=
  let '(PLL_NO, offs) := calc_pll_num dev in
  if PLL_NO =? 5 then ret (-1) else
  if PLL_NO =? 6 then ret (-1) else
  prepare_div n dev offs ;;;
  let! tmp := rd32 (PMC_PLL + 4 * PLL_NO) in
  let! PLL := udiv (pll_mult tmp) (pll_div tmp) in
  let! en := clk_enabled dev in
  if negb en then ret (-1) else
  let PLL := u32 (PLL * 1000000) in
  let freq := u32 (scale_freq unit freq) in
  let j := is_sdmmc dev && (freq <=? PLL / 64) in
  let scale := if j then 64 else 1 in
  match find_divisor PLL_NO scale PLL freq with
  | None => ret (-1)
  | Some div =>
      wait_busy n ;;;
      wr32 offs (div_value dev j div) ;;;
      wait_busy n ;;;
      ret (s32 (PLL / (div * scale)))
  end.

(** ** Searching a PLL setting *)

(** The local variables of the search. *)
Record pick := Pick { DIVF : Z; DIVR : Z; DIVQ : Z; div : Z; min_minor : Z }.
Definition pick_init : pick := Pick 1 1 1 1 0xFF000000.

Inductive jump := Break | Goto_find.

Definition keep (DF DR DQ VD minor : Z) : M pick unit :=
  modify (λ b, if minor <? min_minor b then Pick DF DR DQ VD minor else b).

(** The body of the loop on [DF]: [None] goes round. *)
Definition df_body (PLL_NO target DR DQ VD DF : Z) : M pick (option jump) :=
  if SRC_FREQ / (DR + 1) <? 10 then ret (Some Break) else
  if 1000 / SRC_FREQ >? (DF + 1) / (DR + 1) then ret None else
  if 2000 / SRC_FREQ <? (DF + 1) / (DR + 1) then ret (Some Break) else
  let! q := udiv 1000000 (VD * (DR + 1) * Z.shiftl 1 DQ) in
  let f := u32 (SRC_FREQ * (DF + 1) * q) in
  if f =? target then
    modify (λ b, Pick DF DR DQ VD (min_minor b)) ;;; ret (Some Goto_find)
  else if f <? target then
    keep DF DR DQ VD (target - f) ;;; ret None
  else
    (if PLL_NO =? 2 then keep DF DR DQ VD (f - target) else ret tt) ;;;
    ret (Some Break).

(** The loop on [DF]; [Some tt] is the jump to [find]. *)
Definition df_loop (PLL_NO target DR DQ VD : Z) : M pick (option unit) :=
  let! r := for_until (seqZ 0 256) (df_body PLL_NO target DR DQ VD) in
  ret (match r with Some Goto_find => Some tt | _ => None end).

Definition dr_values : list Z := [1; 0].
Definition dq_values : list Z := reverse (seqZ 0 8).
Definition vd_values : list Z := reverse (seqZ 1 32).

(** The search of [set_pll_speed], for the divisor that is set. *)
Definition speed_search (PLL_NO target VD : Z) : M pick (option unit) :=
  for_until dr_values (λ DR, for_until dq_values (λ DQ, df_loop PLL_NO target DR DQ VD)).

(** The search of [set_pll_divisor], over the divisors too. *)
Definition divisor_search (PLL_NO target : Z) : M pick (option unit) :=
  for_until dr_values (λ DR, for_until dq_values (λ DQ, for_until vd_values (λ VD,
    if (1 <? VD) && negb (VD mod 2 =? 0) && (PLL_NO =? 2) then ret None
    else df_loop PLL_NO target DR DQ VD))).

(** Running it on fresh local variables. *)
Definition run_search (m : M pick (option unit)) : M clkst pick := λ st,
  match m pick_init with Ok (_, b) => Ok (b, st) | Err f => Err f end.

(** The frequency at the end of both functions, and the word for the PLL
    register. *)
Definition last_freq (b : pick) (divisor : Z) : M clkst Z :=
  let! q := udiv 1000000 (u32 ((DIVR b + 1) * Z.shiftl 1 (DIVQ b) * divisor)) in
  ret (u32 (SRC_FREQ * (DIVF b + 1) * q)).
Definition pll_word (DIVF DIVR DIVQ : Z) : Z :=
  u32 (Z.shiftl DIVF 16 + Z.shiftl DIVR 8 + DIVQ + Z.shiftl (check_filter (SRC_FREQ / (DIVR + 1))) 24).

(** The multiplier of the unit; [None] is the error. *)
Definition unit_base (unit : Z) : option Z :=
  if unit =? 1 then Some 1000 else if unit =? 2 then Some 1000000
  else if unit =? 0 then Some 1 else None.

Definition set_pll_speed (n : nat) (dev : dev_id) (unit freq : Z) : M clkst Z :=
  let '(PLL_NO, offs) := calc_pll_num dev in
  if PLL_NO =? 5 then ret (-1) else
  if PLL_NO =? 6 then ret (-1) else
  prepare_div n dev offs ;;;
  let! divisor := rd8 offs in
  match unit_base unit with
  | None => ret (-1)
  | Some base_f =>
      let! b := run_search (speed_search PLL_NO (u32 (freq * base_f)) divisor) in
      let! last := last_freq b divisor in
      wait_busy n ;;;
      wr32 (PMC_PLL + 4 * PLL_NO) (pll_word (DIVF b) (DIVR b) (DIVQ b)) ;;;
      wait_busy n ;;;
      ret (s32 last)
  end.

Definition set_pll_divisor (n : nat) (dev : dev_id) (unit freq : Z) : M clkst Z :=
  let '(PLL_NO, offs) := calc_pll_num dev in
  if PLL_NO =? 5 then ret (-1) else
  if PLL_NO =? 6 then ret (-1) else
  prepare_div n dev offs ;;;
  let! old_divisor := rd8 offs in
  match unit_base unit with
  | None => ret (-1)
  | Some base_f =>
      let! b := run_search (divisor_search PLL_NO (u32 (freq * base_f))) in
      let! last := last_freq b (div b) in
      let! en := clk_enabled dev in
      if negb en then ret (-1) else
      wait_busy n ;;;
      (if old_divisor <? div b
       then wr32 offs (div_value dev false (div b)) ;;; wait_busy n else ret tt) ;;;
      wr32 (PMC_PLL + 4 * PLL_NO) (pll_word (DIVF b) (DIVR b) (DIVQ b)) ;;;
      wait_busy n ;;;
      (if div b <? old_divisor
       then wr32 offs (div_value dev false (div b)) ;;; wait_busy n else ret tt) ;;;
      ret (s32 last)
  end.

(** ** The entry points *)

Definition auto_pll_divisor (n : nat) (dev : dev_id) (cmd : clk_cmd) (unit freq : Z) : M clkst Z :=
  match cmd with
  | CLK_DISABLE => if dev_num dev <? 128 then disable_dev_clk dev else ret (-1)
  | CLK_ENABLE => if dev_num dev <? 128 then enable_dev_clk dev else ret (-1)
  | GET_FREQ => get_freq n dev
  | SET_DIV => set_divisor n dev unit freq
  | SET_PLL => set_pll_speed n dev unit freq
  | SET_PLLDIV => set_pll_divisor n dev unit freq
  end.

(** The tests of the arguments of [manu_pll_divisor]. *)
Definition manu_args_ok (dev : dev_id) (DIVF DIVR DIVQ dev_div : Z) : bool :=
  negb ((DIVF <? 0) || (255 <? DIVF)) &&
  negb ((DIVR <? 0) || (1 <? DIVR)) &&
  negb ((DIVQ <? 0) || (7 <? DIVQ)) &&
  negb (1000 / SRC_FREQ >? (DIVF + 1) / (DIVR + 1)) &&
  negb (2000 / SRC_FREQ <? (DIVF + 1) / (DIVR + 1)) &&
  negb ((SRC_FREQ / (DIVR + 1) <? 10) || (200 <? SRC_FREQ / (DIVR + 1))) &&
  negb ((if is_sdmmc dev then 63 else 31) <? dev_div).

Definition manu_pll_divisor (n : nat) (dev : dev_id) (DIVF DIVR DIVQ dev_div : Z) : M clkst Z :=
  if negb (manu_args_ok dev DIVF DIVR DIVQ dev_div) then ret (-1) else
  let '(PLL_NO, offs) := calc_pll_num dev in
  if PLL_NO =? 5 then ret (-1) else
  let! old_divisor := rd8 offs in
  let j := negb (Z.land dev_div 32 =? 0) && is_sdmmc dev in
  let div := Z.land dev_div 0x1F in
  let! f := udiv (1000 * SRC_FREQ * (DIVF + 1))
                 (u32 ((DIVR + 1) * Z.shiftl 1 DIVQ * div * (if j then 64 else 1))) in
  let freq := u32 (f * 1000) in
  let word := (if j then 32 else 0) + (if div =? 32 then 0 else div) in
  let! en := clk_enabled dev in
  (if en then ret 0 else enable_dev_clk dev) ;;;
  wait_busy n ;;;
  (if old_divisor <? u32 dev_div then wr32 offs word ;;; wait_busy n else ret tt) ;;;
  wr32 (PMC_PLL + 4 * PLL_NO) (pll_word DIVF DIVR DIVQ) ;;;
  wait_busy n ;;;
  (if u32 dev_div <? old_divisor then wr32 offs word ;;; wait_busy n else ret tt) ;;;
  ret (s32 freq).

End clk.

(** ** Running the driver *)

(** The hardware is idle within [n] reads of the status register, from any
    point on. *)
Class ClkLive {hw : ClkHw} (n : nat) :=
  clk_live : ∀ t, ∃ k, (k < n)%nat ∧ Z.land (hw_busy (t + k)) BUSY = 0.

Lemma set_time_time t t' st : set_time t (set_time t' st) = set_time t st.
Proof. done. Qed.

Lemma wp_wait_busy `{ClkLive n} Q st : (∀ t, Q tt (set_time t st)) → wp (wait_busy n) Q st.
Proof.
  intros HQ. destruct (clk_live (n := n) (ck_time st)) as (k & Hk & Hidle). rw /wait_busy.
  clear H. revert n st Hk Hidle HQ.
  induction k as [|k IH]; intros n st Hk Hidle HQ; (destruct n as [|n]; [lia|]);
    apply wp_loop_step; rw /wp.
  - rw Nat.add_0_r in Hidle. rw Hidle /=. apply HQ.
  - destruct (_ =? 0); [apply HQ|]. apply IH; [lia| |].
    + simpl. by rw -Nat.add_succ_r.
    + intros t. rw set_time_time. apply HQ.
Qed.

Lemma wp_rd32 off Q st : off mod 4 = 0 → Q (ck_reg st off) st → wp (rd32 off) Q st.
Proof. intros Ho HQ. by rw /wp /rd32 Ho. Qed.

Lemma wp_wr32 off v Q st : off mod 4 = 0 → Q tt (set_reg off (u32 v) st) → wp (wr32 off v) Q st.
Proof. intros Ho HQ. by rw /wp /wr32 Ho. Qed.

Lemma wp_rd8 off Q st :
  off mod 4 = 0 → Q (Z.land (ck_reg st off) 0xFF) st → wp (rd8 off) Q st.
Proof. intros Ho HQ. by rw /wp /rd8 Ho Z.sub_0_r Z.shiftr_0_r. Qed.

Lemma wp_udiv {S} a b Q (s : S) : b ≠ 0 → Q (a / b) s → wp (udiv a b) Q s.
Proof. intros Hb HQ. rw /udiv. by rw (proj2 (Z.eqb_neq b 0) Hb). Qed.

Lemma wp_run_search m Q st : wp m (λ _ b, Q b st) pick_init → wp (run_search m) Q st.
Proof. rw /wp /run_search. by destruct (m pick_init) as [[r b]|f]. Qed.

Lemma upd_eq off v r : upd off v r off = v.
Proof. by rw /upd Z.eqb_refl. Qed.

Lemma upd_ne off v r o : o ≠ off → upd off v r o = r o.
Proof. intros Ho. by rw /upd (proj2 (Z.eqb_neq o off) Ho). Qed.

(** The table of devices. *)
Lemma calc_pll_num_range dev P offs :
  calc_pll_num dev = (P, offs) →
  0 ≤ P ≤ 4 ∧ 0x300 ≤ offs ≤ 0x3C0 ∧ offs mod 4 = 0 ∨ P = 5 ∨ P = 6.
Proof.
  intros H. assert (P = (calc_pll_num dev).1 ∧ offs = (calc_pll_num dev).2) as [-> ->] by by rw H.
  clear H. destruct dev; vm_compute; intuition congruence.
Qed.

Lemma dev_num_range dev : 0 ≤ dev_num dev ≤ 104.
Proof. destruct dev; cbn; lia. Qed.

#[export] Instance dev_num_inj : Inj (=) (=) dev_num.
Proof. intros d d' H. destruct d; cbn in H; destruct d'; try reflexivity; discriminate H. Qed.

Lemma clk_reg_range dev :
  0x250 ≤ clk_reg (dev_num dev) ≤ 0x25C ∧ clk_reg (dev_num dev) mod 4 = 0.
Proof. rw /clk_reg /PMC_CLK. pose proof (dev_num_range dev). Z.div_mod_to_equations. lia. Qed.

(** The enable bit of a device. *)
Definition clk_on (dev : dev_id) (r : Z → Z) : bool :=
  Z.testbit (r (clk_reg (dev_num dev))) (clk_bit (dev_num dev)).

Lemma land_bit w k : 0 ≤ k → negb (Z.land w (Z.shiftl 1 k) =? 0) = Z.testbit w k.
Proof.
  intros Hk. rw Z.shiftl_1_l. destruct (Z.testbit w k) eqn:Hb.
  - apply negb_true_iff, Z.eqb_neq. intros H0. assert (Z.testbit (Z.land w (2 ^ k)) k = true) as Ht.
    { by rw Z.land_spec Hb Z.pow2_bits_true. }
    by rw H0 Z.bits_0 in Ht.
  - apply negb_false_iff, Z.eqb_eq, Z.bits_inj_0. intros i. rw Z.land_spec.
    destruct (decide (i = k)) as [->|Hi]; [by rw Hb|]. rw Z.pow2_bits_false //. apply andb_false_r.
Qed.

Lemma clk_bit_range d : 0 ≤ clk_bit d < 32.
Proof. rw /clk_bit. Z.div_mod_to_equations. lia. Qed.

Lemma wp_clk_enabled dev Q st : Q (clk_on dev (ck_reg st)) st → wp (clk_enabled dev) Q st.
Proof.
  intros HQ. pose proof (dev_num_range dev). rw /clk_enabled (proj2 (Z.ltb_lt _ _)); [lia|].
  wp_step. apply wp_rd32; [apply clk_reg_range|]. wp_step. rw land_bit; [apply clk_bit_range|done].
Qed.

(** The first step leaves the divisor byte as it is. *)
Lemma byte_store_low w b : Z.land (Z.lor (Z.ldiff w (Z.shiftl 0xFF 16)) (Z.shiftl (u8 b) 16)) 0xFF = Z.land w 0xFF.
Proof.
  rw (_ : 0xFF = Z.ones 8) //. apply Z.bits_inj'. intros i Hi.
  rw !Z.land_spec Z.lor_spec Z.ldiff_spec Z.testbit_ones; [lia|].
  rw !Z.shiftl_spec; try lia.
  destruct (Z.ltb_spec i 8); [|by rw !andb_false_r].
  rw !(Z.testbit_neg_r _ (i - 16)); lia.
Qed.

Lemma wp_prepare_div `{ClkLive n} dev offs Q st :
  offs mod 4 = 0 →
  (∀ t w, Z.land w 0xFF = Z.land (ck_reg st offs) 0xFF → Q tt (set_time t (set_reg offs w st))) →
  wp (prepare_div n dev offs) Q st.
Proof.
  intros Ho HQ. rw /prepare_div. wp_step. rw /wp /wr8.
  rw (_ : (offs + 2) mod 4 = 2); [Z.div_mod_to_equations; lia|]. rw (_ : offs + 2 - 2 = offs); [lia|].
  apply wp_wait_busy. intros t. apply HQ. apply byte_store_low.
Qed.

(** ** States after a sequence of writes *)

Definition replay (ws : list (Z * Z)) (r : Z → Z) : Z → Z := fold_left (λ r w, upd w.1 w.2 r) ws r.
Definition after (t : nat) (ws : list (Z * Z)) (st : clkst) : clkst :=
  ClkSt t (replay ws (ck_reg st)) (ck_log st ++ ws) (ck_count st).

Lemma after_nil st : st = after (ck_time st) [] st.
Proof. rw /after app_nil_r. by destruct st. Qed.

Lemma replay_app ws ws' r : replay (ws ++ ws') r = replay ws' (replay ws r).
Proof. apply fold_left_app. Qed.

Lemma set_reg_after o v t ws st : set_reg o v (after t ws st) = after t (ws ++ [(o, v)]) st.
Proof. by rw /set_reg /after /= replay_app app_assoc. Qed.

Lemma set_time_after t t' ws st : set_time t (after t' ws st) = after t ws st.
Proof. done. Qed.

(** A register that is not written keeps its value. *)
Lemma replay_other ws r o : Forall (λ w, w.1 ≠ o) ws → replay ws r o = r o.
Proof.
  revert r. induction ws as [|w ws IH]; intros r Hws; [done|]. apply Forall_cons in Hws as [Hw Hws].
  rw /= IH //. apply upd_ne. congruence.
Qed.

Section after.
Context `{ClkLive n}.
Implicit Types (Q : unit → clkst → Prop).

Lemma wp_wait_after Q t ws st : (∀ t, Q tt (after t ws st)) → wp (wait_busy n) Q (after t ws st).
Proof. intros HQ. apply wp_wait_busy. intros t'. rw set_time_after. apply HQ. Qed.

Lemma wp_write_after o v Q t ws st :
  o mod 4 = 0 → Q tt (after t (ws ++ [(o, u32 v)]) st) → wp (wr32 o v) Q (after t ws st).
Proof. intros Ho HQ. apply wp_wr32; [done|]. by rw set_reg_after. Qed.

(** A conditional write followed by a wait. *)
Lemma wp_write_if (c : bool) o v Q t ws st :
  o mod 4 = 0 → (∀ t, Q tt (after t (ws ++ if c then [(o, u32 v)] else []) st)) →
  wp (if c then wr32 o v ;;; wait_busy n else ret tt) Q (after t ws st).
Proof.
  intros Ho HQ. destruct c; [|apply wp_ret; by rw -{1}(app_nil_r ws)].
  wp_step. apply wp_write_after; [done|]. by apply wp_wait_after.
Qed.

Lemma wp_prepare_after dev offs Q st :
  offs mod 4 = 0 →
  (∀ t w, Z.land w 0xFF = Z.land (ck_reg st offs) 0xFF → Q tt (after t [(offs, w)] st)) →
  wp (prepare_div n dev offs) Q st.
Proof.
  intros Ho HQ. apply wp_prepare_div; [done|]. intros t w Hw. by apply HQ.
Qed.

End after.
