(* ===== verification/ClkRef.v ===== *)
(** * Reference counts of the clock driver

    The contract of [CLK_ENABLE] and [CLK_DISABLE] as an abstract machine on
    counters, and that [auto_pll_divisor] implements it, whatever other commands
    come in between. *)

From Stdlib Require Import ssreflect ZArith Lia ZifyBool.
From stdpp Require Import base tactics numbers list.
From S2P Require Import Prelude SpiFlash FlashRange WmtClk.

Set Default Goal Selector "!".
Open Scope general_if_scope.
#[local] Open Scope Z_scope.

(** ** The abstract machine *)

(** For each device, the number of its users and whether its clock runs. *)
Definition clocks : Type := dev_id → nat * bool.
Definition set_clock (dev : dev_id) (x : nat * bool) (a : clocks) : clocks :=
  λ d, if decide (d = dev) then x else a d.

(** The first user starts the clock and the last one stops it. *)
Definition spec_enable (dev : dev_id) (a : clocks) : clocks :=
  let '(c, on) := a dev in set_clock dev (S c, (c =? 0)%nat || on) a.
Definition spec_disable (dev : dev_id) (a : clocks) : clocks :=
  let '(c, on) := a dev in set_clock dev (pred c, negb (c <=? 1)%nat && on) a.

Definition count_of (a : clocks) (dev : dev_id) : nat := (a dev).1.
Definition on_of (a : clocks) (dev : dev_id) : bool := (a dev).2.

(** A command on a device: the new state, and the result when the machine fixes
    it. *)
Record clk_call := ClkCall { c_dev : dev_id; c_cmd : clk_cmd; c_unit : Z; c_freq : Z }.
Definition spec_call (c : clk_call) (a : clocks) : clocks * option Z :=
  match c_cmd c with
  | CLK_ENABLE => let a' := spec_enable (c_dev c) a in (a', Some (Z.of_nat (count_of a' (c_dev c))))
  | CLK_DISABLE => let a' := spec_disable (c_dev c) a in (a', Some (Z.of_nat (count_of a' (c_dev c))))
  | _ => (a, None)
  end.

Fixpoint spec_run (cs : list clk_call) (a : clocks) : clocks * list (option Z) :=
  match cs with
  | [] => (a, [])
  | c :: cs =>
      let '(a1, r) := spec_call c a in
      let '(a2, rs) := spec_run cs a1 in
      (a2, r :: rs)
  end.

(** Every device in use has its clock running. *)
Definition clocks_ok (a : clocks) : Prop := ∀ dev, (0 < count_of a dev)%nat → on_of a dev = true.

(** ** The driver *)

Fixpoint run_calls `{ClkHw} (n : nat) (cs : list clk_call) : M clkst (list Z) :=
  match cs with
  | [] => ret []
  | c :: cs =>
      let! r := auto_pll_divisor n (c_dev c) (c_cmd c) (c_unit c) (c_freq c) in
      let! rs := run_calls n cs in
      ret (r :: rs)
  end.

(** The counters and enable bits of the driver show [a]. *)
Record clk_rel (a : clocks) (st : clkst) : Prop := {
  cr_length : length (ck_count st) = 128%nat;
  cr_count dev : arr_at (ck_count st) (dev_num dev) = Z.of_nat (count_of a dev);
  cr_on dev : clk_on dev (ck_reg st) = on_of a dev
}.

(** ** Enable bits *)

Lemma clk_pos_inj dev dev' :
  clk_reg (dev_num dev) = clk_reg (dev_num dev') → clk_bit (dev_num dev) = clk_bit (dev_num dev') →
  dev = dev'.
Proof. rw /clk_reg /clk_bit => ??. apply (inj dev_num). lia. Qed.

(** A store to the enable register that changes one bit. *)
Lemma clk_on_store dev v r b :
  (∀ i, 0 ≤ i < 32 → Z.testbit v i =
     if i =? clk_bit (dev_num dev) then b else Z.testbit (r (clk_reg (dev_num dev))) i) →
  ∀ d, clk_on d (upd (clk_reg (dev_num dev)) (u32 v) r) = if decide (d = dev) then b else clk_on d r.
Proof.
  intros Hv d. rw /clk_on. pose proof (clk_bit_range (dev_num d)) as Hbit.
  destruct (decide (clk_reg (dev_num d) = clk_reg (dev_num dev))) as [Hr|Hr].
  - rw Hr upd_eq /u32 /wrap Z.mod_pow2_bits_low; [lia|]. rw Hv; [lia|].
    destruct (decide (d = dev)) as [->|Hd]; [by rw Z.eqb_refl|].
    destruct (Z.eqb_spec (clk_bit (dev_num d)) (clk_bit (dev_num dev))); [|done].
    by destruct Hd; apply clk_pos_inj.
  - rw upd_ne //. by destruct (decide (d = dev)) as [->|].
Qed.

Lemma testbit_set w k i : 0 ≤ k → 0 ≤ i →
  Z.testbit (Z.lor w (Z.shiftl 1 k)) i = if i =? k then true else Z.testbit w i.
Proof.
  intros Hk Hi. rw Z.shiftl_1_l Z.lor_spec Z.pow2_bits_eqb // Z.eqb_sym.
  destruct (i =? k); [apply orb_true_r|apply orb_false_r].
Qed.

Lemma testbit_clear w k i : 0 ≤ k → 0 ≤ i < 32 →
  Z.testbit (Z.land w (u32 (Z.lnot (Z.shiftl 1 k)))) i = if i =? k then false else Z.testbit w i.
Proof.
  intros Hk Hi. rw Z.shiftl_1_l Z.land_spec /u32 /wrap Z.mod_pow2_bits_low; [lia|].
  rw Z.lnot_spec; [lia|]. rw Z.pow2_bits_eqb // Z.eqb_sym.
  destruct (i =? k); [apply andb_false_r|apply andb_true_r].
Qed.

(** ** Counters *)

Lemma arr_at_insert l i j v :
  0 ≤ i < Z.of_nat (length l) → 0 ≤ j →
  arr_at (<[Z.to_nat i := v]> l) j = if decide (j = i) then v else arr_at l j.
Proof.
  intros Hi Hj. rw /arr_at !nth_lookup. destruct (decide (j = i)) as [->|Hne].
  - rw list_lookup_insert_eq //. lia.
  - rw list_lookup_insert_ne //. lia.
Qed.

(** A step of the driver that sets counter and bit of one device. *)
Lemma clk_rel_set a st st' dev c on :
  clk_rel a st → ck_count st' = <[Z.to_nat (dev_num dev) := Z.of_nat c]> (ck_count st) →
  (∀ d, clk_on d (ck_reg st') = if decide (d = dev) then on else clk_on d (ck_reg st)) →
  clk_rel (set_clock dev (c, on) a) st'.
Proof.
  intros [Hl Hc Ho] Hcount Hon. split.
  - by rw Hcount length_insert.
  - intros d. pose proof (dev_num_range d). pose proof (dev_num_range dev).
    rw Hcount arr_at_insert; [lia|lia|]. rw Hc /count_of /set_clock.
    destruct (decide (dev_num d = dev_num dev)) as [->%(inj dev_num)|Hne]; [by rw decide_True|].
    rw decide_False //. by intros ->.
  - intros d. rw Hon Ho /on_of /set_clock. by destruct (decide (d = dev)).
Qed.

Lemma get_count_rel a st dev :
  clk_rel a st → get_count (dev_num dev) st = Ok (Z.of_nat (count_of a dev), st).
Proof.
  intros [Hl Hc Ho]. rw /get_count /bind /=. pose proof (dev_num_range dev).
  rw reads_arr_get ?Hc //. rw Hl. lia.
Qed.

Section driver.
Context {hw : ClkHw}.

Lemma enable_rel a st dev :
  clk_rel a st → clocks_ok a → Z.of_nat (count_of a dev) < 2147483647 →
  ∃ st', enable_dev_clk dev st = Ok (Z.of_nat (count_of (spec_enable dev a) dev), st') ∧
    clk_rel (spec_enable dev a) st'.
Proof.
  intros Hrel Hok Hlt. pose proof (dev_num_range dev). destruct (clk_reg_range dev) as [_ Hal].
  rw /enable_dev_clk (proj2 (Z.ltb_ge _ _)); [lia|].
  rw (bind_ok _ _ _ _ _ (get_count_rel _ _ dev Hrel)).
  specialize (Hok dev). pose proof (cr_on _ _ Hrel dev) as Hon. rw /spec_enable.
  rw /count_of /on_of in Hok Hlt Hon |- *. destruct (a dev) as [c on] eqn:Ha; simpl in *.
  destruct (Z.leb_spec (Z.of_nat c) 0) as [Hc|Hc].
  - assert (c = 0%nat) as -> by lia. rw /bind /= /rd32 Hal /= /wr32 Hal /=.
    eexists. split; [by rw /set_clock decide_True|].
    eapply clk_rel_set; [done|done|]. simpl. apply clk_on_store. intros i Hi.
    apply testbit_set; [apply clk_bit_range|lia].
  - rw s32_small; [lia|]. rw (_ : Z.of_nat c + 1 = Z.of_nat (S c)); [lia|].
    rw /bind /=. eexists. split; [by rw /set_clock decide_True|].
    rw (_ : (c =? 0)%nat = false); [lia|].
    eapply clk_rel_set; [done|done|]. intros d. by destruct (decide (d = dev)) as [->|].
Qed.

Lemma disable_rel a st dev :
  clk_rel a st →
  ∃ st', disable_dev_clk dev st = Ok (Z.of_nat (count_of (spec_disable dev a) dev), st') ∧
    clk_rel (spec_disable dev a) st'.
Proof.
  intros Hrel. pose proof (dev_num_range dev). destruct (clk_reg_range dev) as [_ Hal].
  rw /disable_dev_clk (proj2 (Z.leb_gt _ _)); [lia|].
  rw (bind_ok _ _ _ _ _ (get_count_rel _ _ dev Hrel)).
  pose proof (cr_on _ _ Hrel dev) as Hon. rw /spec_disable.
  rw /count_of /on_of in Hon |- *. destruct (a dev) as [c on] eqn:Ha; simpl in *.
  destruct (Z.leb_spec (Z.of_nat c) 1) as [Hc|Hc].
  - rw /bind /= /rd32 Hal /= /wr32 Hal /=. rw (_ : (c <=? 1)%nat = true); [lia|].
    assert (pred c = 0%nat) as -> by lia. eexists. split; [by rw /set_clock decide_True|].
    eapply clk_rel_set; [done|done|]. simpl. apply clk_on_store. intros i Hi.
    apply testbit_clear; [apply clk_bit_range|lia].
  - rw /bind /=. rw (_ : (c <=? 1)%nat = false); [lia|].
    rw (_ : Z.of_nat c - 1 = Z.of_nat (pred c)); [lia|].
    eexists. split; [by rw /set_clock decide_True|].
    eapply clk_rel_set; [done|done|]. intros d. by destruct (decide (d = dev)) as [->|].
Qed.

(** ** Code that leaves counters and enable bits alone *)

Definition frame {A} (m : M clkst A) : Prop :=
  ∀ st r st', m st = Ok (r, st') →
    ck_count st' = ck_count st ∧ ∀ d, clk_on d (ck_reg st') = clk_on d (ck_reg st).

Lemma frame_ret {A} (x : A) : frame (ret x).
Proof. by intros st r st' [= _ <-]. Qed.

Lemma frame_fail {A} f : frame (A := A) (fail f).
Proof. done. Qed.

Lemma frame_bind {A B} (m : M clkst A) (k : A → M clkst B) :
  frame m → (∀ x, frame (k x)) → frame (bind m k).
Proof.
  intros Hm Hk st r st'. rw /bind. destruct (m st) as [[x st1]|f] eqn:H1; [|done]. intros H2.
  destruct (Hm _ _ _ H1) as [Hc1 Ho1], (Hk _ _ _ _ H2) as [Hc2 Ho2]. split; congruence.
Qed.

Lemma frame_rd32 off : frame (rd32 off).
Proof. intros st r st'. rw /rd32. destruct (_ =? 0); by intros [= _ <-]. Qed.

Lemma frame_rd8 off : frame (rd8 off).
Proof. by intros st r st' [= _ <-]. Qed.

(** A register that is not an enable register. *)
Definition not_clk (off : Z) : Prop := off < 0x250 ∨ 0x25C < off.

Lemma frame_set_reg off v st d : not_clk off → clk_on d (upd off v (ck_reg st)) = clk_on d (ck_reg st).
Proof. intros Hoff. rw /clk_on upd_ne //. pose proof (clk_reg_range d). rw /not_clk in Hoff. lia. Qed.

Lemma frame_wr32 off v : not_clk off → frame (wr32 off v).
Proof.
  intros Hoff st r st'. rw /wr32. destruct (_ =? 0); [|done]. intros [= _ <-].
  split; [done|]. intros d. by apply frame_set_reg.
Qed.

Lemma frame_wait n : frame (wait_busy n).
Proof.
  rw /wait_busy. induction n as [|n IH]; [done|]. simpl. apply frame_bind; [|intros [[]|]; [apply IH|apply frame_ret]].
  by intros st r st' [= _ <-].
Qed.

Lemma frame_prepare n dev offs : 0x300 ≤ offs → offs mod 4 = 0 → frame (prepare_div n dev offs).
Proof.
  intros Hoff Hal. apply frame_bind; [|intros _; apply frame_wait]. intros st r st' [= _ <-].
  split; [done|]. intros d. apply frame_set_reg. right. Z.div_mod_to_equations. lia.
Qed.

Lemma frame_udiv a b : frame (udiv a b).
Proof. rw /udiv. destruct (b =? 0); [apply frame_fail|apply frame_ret]. Qed.

Lemma frame_clk_enabled dev : frame (clk_enabled dev).
Proof.
  rw /clk_enabled. destruct (_ <? _); [|apply frame_ret].
  apply frame_bind; [apply frame_rd32|intros; apply frame_ret].
Qed.

Lemma frame_run_search m : frame (run_search m).
Proof. intros st r st'. rw /run_search. destruct (m pick_init) as [[??]|?]; [|done]. by intros [= _ <-]. Qed.

Lemma frame_last_freq b d : frame (last_freq b d).
Proof. apply frame_bind; [apply frame_udiv|intros; apply frame_ret]. Qed.

End driver.

Create HintDb frame.
#[export] Hint Resolve frame_ret frame_fail frame_rd32 frame_rd8 frame_wr32 frame_wait
  frame_prepare frame_udiv frame_clk_enabled frame_run_search frame_last_freq : frame.

(** Walks through the code: every write is to a register other than the enable
    registers. *)
Ltac solve_frame :=
  repeat (match goal with
  | |- frame (bind _ _) => apply frame_bind
  | |- frame (match ?x with _ => _ end) => destruct x
  | |- _ => progress intros
  end); eauto with frame.

Section calls.
Context {hw : ClkHw}.

(** The commands on frequencies. *)
Lemma frame_freq n dev cmd unit freq :
  cmd ≠ CLK_ENABLE → cmd ≠ CLK_DISABLE → frame (auto_pll_divisor n dev cmd unit freq).
Proof.
  intros He Hd. pose proof (calc_pll_num_range dev) as Hr.
  destruct cmd; try done; rw /auto_pll_divisor /get_freq /set_divisor /set_pll_speed /set_pll_divisor;
    destruct (calc_pll_num dev) as [P offs]; specialize (Hr P offs eq_refl);
    (destruct (Z.eqb_spec P 5) as [|H5]; [apply frame_ret|]);
    (destruct (Z.eqb_spec P 6) as [|H6]; [solve_frame|]);
    (destruct Hr as [(HP & Hoffs & Hal)|[?|?]]; [|done|done]);
    assert (not_clk offs) by (right; lia);
    assert (not_clk (PMC_PLL + 4 * P)) by (left; rw /PMC_PLL; lia);
    assert (0x300 ≤ offs) by lia; solve_frame.
Qed.

Lemma clk_rel_frame {A} (m : M clkst A) a st r st' :
  frame m → clk_rel a st → m st = Ok (r, st') → clk_rel a st'.
Proof.
  intros Hm [Hl Hc Ho] [Hc' Ho']%Hm. split; [by rw Hc'|intros d; by rw Hc'|intros d; by rw Ho'].
Qed.

(** The machine keeps its invariant, and a call adds at most one user. *)
Lemma spec_call_ok c a : clocks_ok a → clocks_ok (spec_call c a).1.
Proof.
  rw /spec_call /spec_enable /spec_disable /clocks_ok /count_of /on_of. intros Hok.
  destruct (c_cmd c); try done; pose proof (Hok (c_dev c)) as Hd;
    destruct (a (c_dev c)) as [k on] eqn:Ha; cbn [fst snd] in *; intros d; rw /set_clock;
    (destruct (decide (d = c_dev c)); [simpl|by apply Hok]); intros Hk.
  - rw Hd; [lia|]. lia.
  - destruct k; [done|]. by rw Hd; [lia|].
Qed.

Lemma spec_call_count c a d : (count_of (spec_call c a).1 d ≤ S (count_of a d))%nat.
Proof.
  rw /spec_call /spec_enable /spec_disable /count_of. destruct (c_cmd c); cbn [fst]; try lia;
    destruct (a (c_dev c)) as [k on] eqn:Ha; cbn [fst]; rw /set_clock;
    destruct (decide (d = c_dev c)) as [->|]; rw ?Ha /=; lia.
Qed.

(** The result is the machine's, where it has one. *)
Definition agrees (r : Z) (o : option Z) : Prop := match o with Some x => r = x | None => True end.

(** The commands that can fault. *)
Definition freq_call (c : clk_call) : Prop := c_cmd c ≠ CLK_ENABLE ∧ c_cmd c ≠ CLK_DISABLE.

Lemma call_rel n c a st :
  clk_rel a st → clocks_ok a → Z.of_nat (count_of a (c_dev c)) < 2147483647 →
  match auto_pll_divisor n (c_dev c) (c_cmd c) (c_unit c) (c_freq c) st with
  | Ok (r, st') => agrees r (spec_call c a).2 ∧ clk_rel (spec_call c a).1 st'
  | Err _ => freq_call c
  end.
Proof.
  intros Hrel Hok Hlt. pose proof (dev_num_range (c_dev c)).
  assert (freq_call c → (spec_call c a) = (a, None)) as Hspec.
  { rw /freq_call /spec_call. by destruct (c_cmd c); intros []. }
  destruct (decide (c_cmd c = CLK_ENABLE)) as [He|He];
    [|destruct (decide (c_cmd c = CLK_DISABLE)) as [Hd|Hd]].
  - rw /auto_pll_divisor He (proj2 (Z.ltb_lt _ _)); [lia|].
    destruct (enable_rel a st (c_dev c) Hrel Hok Hlt) as (st' & -> & Hrel'). by rw /spec_call He.
  - rw /auto_pll_divisor Hd (proj2 (Z.ltb_lt _ _)); [lia|].
    destruct (disable_rel a st (c_dev c) Hrel) as (st' & -> & Hrel'). by rw /spec_call Hd.
  - rw Hspec //. destruct (auto_pll_divisor _ _ _ _ _ st) as [[r st']|f] eqn:Hrun; [|done].
    split; [done|]. eapply clk_rel_frame; [by eapply (frame_freq n (c_dev c))|done|done].
Qed.

Lemma run_calls_rel n cs a st :
  clk_rel a st → clocks_ok a →
  (∀ d, Z.of_nat (count_of a d) + Z.of_nat (length cs) ≤ 2147483647) →
  match run_calls n cs st with
  | Ok (rs, st') => Forall2 agrees rs (spec_run cs a).2 ∧ clk_rel (spec_run cs a).1 st' ∧
                    clocks_ok (spec_run cs a).1
  | Err _ => Exists freq_call cs
  end.
Proof.
  revert a st. induction cs as [|c cs IH]; intros a st Hrel Hok Hb; [by split_and!|].
  cbn [run_calls spec_run]. rw {1}/bind. simpl length in Hb.
  pose proof (call_rel n c a st Hrel Hok ltac:(specialize (Hb (c_dev c)); lia)) as Hcall.
  destruct (auto_pll_divisor _ _ _ _ _ st) as [[r st1]|f]; [|by left].
  pose proof (spec_call_ok c a Hok) as Hok1. pose proof (spec_call_count c a) as Hc1.
  destruct (spec_call c a) as [a1 o]. destruct Hcall as [Hag Hrel1]. simpl in *.
  pose proof (IH a1 st1 Hrel1 Hok1) as Hrest. rw /bind.
  destruct (spec_run cs a1) as [a2 os].
  destruct (run_calls n cs st1) as [[rs st2]|f]; simpl in *.
  - destruct Hrest as (Hags & Hrel2 & Hok2). { intros d. specialize (Hb d). specialize (Hc1 d). lia. }
    split_and!; [by constructor|done|done].
  - right. apply Hrest. intros d. specialize (Hb d). specialize (Hc1 d). lia.
Qed.

End calls.

(** C24: The driver implements reference counted clocks.  From a state with no
    users, whatever clocks are running, any sequence of fewer than 2^31 calls
    gives for every [CLK_ENABLE] and [CLK_DISABLE] the number of users that the
    abstract machine has; at the end the counters and the enable bits are those
    of the machine, and the clock of every device in use is running.  A fault can
    only come from a command on frequencies. *)
Theorem clk_refcount `{ClkHw} n cs st :
  ck_count st = replicate 128 0 → Z.of_nat (length cs) < 2 ^ 31 →
  let '(a, os) := spec_run cs (λ dev, (0%nat, clk_on dev (ck_reg st))) in
  match run_calls n cs st with
  | Ok (rs, st') =>
      Forall2 agrees rs os ∧ clk_rel a st' ∧
      ∀ dev, (0 < count_of a dev)%nat → clk_on dev (ck_reg st') = true
  | Err _ => Exists freq_call cs
  end.
Proof.
  intros Hcount Hlen. set (a0 := λ dev : dev_id, (0%nat, clk_on dev (ck_reg st))).
  assert (clk_rel a0 st) as Hrel.
  { split; [by rw Hcount|intros d; rw Hcount|done]. pose proof (dev_num_range d).
    rw /arr_at nth_lookup lookup_replicate_2 //. lia. }
  assert (clocks_ok a0) as Hok by (intros d Hd; rw /count_of /= in Hd; lia).
  assert (∀ d, Z.of_nat (count_of a0 d) + Z.of_nat (length cs) ≤ 2147483647) as Hb.
  { intros d. rw /count_of /=. lia. }
  pose proof (run_calls_rel n cs a0 st Hrel Hok Hb) as Hrun.
  destruct (spec_run cs a0) as [a os]. simpl in Hrun.
  destruct (run_calls n cs st) as [[rs st']|f]; [|done].
  destruct Hrun as (Hag & Hrel' & Hok'). split_and!; [done|done|].
  intros d Hd. rw (cr_on _ _ Hrel'). by apply Hok'.
Qed.

(** Three calls that share a clock with a frequency command in between. *)
Lemma clk_refcount_witness :
  let hw := {| hw_busy t := 0 |} in
  let st := ClkSt 0 (λ o, if o =? 0x254 then 0 else 0x02270001) [] (replicate 128 0) in
  let cs := [ClkCall DEV_SF CLK_ENABLE 0 0; ClkCall DEV_SF GET_FREQ 0 0;
             ClkCall DEV_SF CLK_ENABLE 0 0; ClkCall DEV_SF CLK_DISABLE 0 0] in
  match run_calls 1 cs st with
  | Ok (rs, st') => rs = [1; 500000000; 2; 1] ∧ clk_on DEV_SF (ck_reg st') = true
  | Err _ => False
  end.
Proof.
  intros hw st cs. pose proof (clk_refcount 1 cs st eq_refl eq_refl) as Hr.
  destruct (run_calls 1 cs st) as [[rs st']|f] eqn:Hrun.
  - destruct (spec_run cs _) as [a os] eqn:Ha. destruct Hr as (_ & _ & Hon). split.
    + vm_compute in Hrun. by injection Hrun as <- <-.
    + apply Hon. vm_compute in Ha. injection Ha as <- _. vm_compute. lia.
  - vm_compute in Hrun. discriminate Hrun.
Defined.
