(* ===== verification/ClkPll.v ===== *)
(** * Frequencies of the clock driver

    What [auto_pll_divisor] sets: the best setting of PLL and divisor for the
    frequency asked for, the best divisor for the PLL as it is, in an order of
    writes that does not overclock the device, and readable by [GET_FREQ]. *)

From Stdlib Require Import ssreflect ZArith Lia ZifyBool.
From stdpp Require Import base tactics numbers list.
From S2P Require Import Prelude SpiFlash FlashRange WmtClk.

Set Default Goal Selector "!".
Open Scope general_if_scope.
#[local] Open Scope Z_scope.

(** ** Settings *)

(** The frequency of a setting in Hz, with the rounding of the driver. *)
Definition freq_of (F R Q D : Z) : Z := SRC_FREQ * (F + 1) * (1000000 / (D * (R + 1) * 2 ^ Q)).

(** The settings the PLL and the divisor can take: the oscillator runs between
    1 and 2 GHz. *)
Record pll_ok (F R Q : Z) : Prop := {
  pk_F : 0 ≤ F ≤ 255;
  pk_R : 0 ≤ R ≤ 1;
  pk_Q : 0 ≤ Q ≤ 7;
  pk_vco : 40 ≤ (F + 1) / (R + 1) ≤ 80
}.

(** The frequency of a setting in Hz, with only the result rounded down. *)
Definition real_freq (F R Q D : Z) : Z := SRC_FREQ * (F + 1) * 1000000 / (D * (R + 1) * 2 ^ Q).

Lemma freq_of_rounding F R Q D :
  pll_ok F R Q → 1 ≤ D → freq_of F R Q D ≤ real_freq F R Q D ≤ freq_of F R Q D + 4024.
Proof.
  intros [HF HR HQ Hvco] HD. rw /freq_of /real_freq.
  assert (0 < 2 ^ Q) by (apply Z.pow_pos_nonneg; lia). set (x := D * (R + 1) * 2 ^ Q).
  assert (0 < x) by (rw /x; apply Z.mul_pos_pos; [nia|done]).
  assert (F + 1 ≤ 161).
  { pose proof (Z.div_mod (F + 1) (R + 1) ltac:(lia)).
    pose proof (Z.mod_pos_bound (F + 1) (R + 1) ltac:(lia)). nia. }
  pose proof (Z.div_mod 1000000 x ltac:(lia)) as Hm. pose proof (Z.mod_pos_bound 1000000 x ltac:(lia)).
  set (q := 1000000 / x) in *. change SRC_FREQ with 25. split.
  - apply Z.div_le_lower_bound; [done|]. nia.
  - enough (25 * (F + 1) * 1000000 / x < 25 * (F + 1) * (q + 1)) by nia.
    apply Z.div_lt_upper_bound; [done|]. nia.
Qed.

Lemma pll_F_bound F R Q : pll_ok F R Q → 40 * (R + 1) ≤ F + 1 < 81 * (R + 1).
Proof.
  intros [? HR ? Hv]. assert (R = 0 ∨ R = 1) as [-> | ->] by lia; simpl in *;
    Z.div_mod_to_equations; lia.
Qed.

Lemma step_pos F R Q D : pll_ok F R Q → 1 ≤ D → R + 1 ≤ D * (R + 1) * 2 ^ Q.
Proof. intros [????] HD. pose proof (Z.pow_pos_nonneg 2 Q ltac:(lia) ltac:(lia)). nia. Qed.

(** No setting overflows the computation. *)
Lemma freq_range F R Q D : pll_ok F R Q → 1 ≤ D → 0 ≤ freq_of F R Q D < 2012500001.
Proof.
  intros Hok HD. pose proof (pll_F_bound _ _ _ Hok). pose proof (step_pos _ _ _ _ Hok HD) as Hs.
  destruct Hok as [? ? ? ?]. rw /freq_of /SRC_FREQ.
  pose proof (Z.div_le_compat_l 1000000 (R + 1) (D * (R + 1) * 2 ^ Q) ltac:(lia) ltac:(lia)) as Hle.
  pose proof (Z.div_pos 1000000 (D * (R + 1) * 2 ^ Q) ltac:(lia) ltac:(lia)).
  set (q := 1000000 / (D * (R + 1) * 2 ^ Q)) in *.
  assert (q ≤ 1000000 / (R + 1)) as Hq by done. clearbody q. clear Hle Hs.
  assert (R = 0 ∧ F + 1 ≤ 80 ∧ q ≤ 1000000 ∨ R = 1 ∧ F + 1 ≤ 161 ∧ q ≤ 500000) as HFq.
  { assert (R = 0 ∨ R = 1) as [-> | ->] by lia; [left|right]; split_and!; try lia; exact Hq. }
  nia.
Qed.

Lemma freq_mono F F' R Q D : 0 ≤ Q → 0 ≤ R → 1 ≤ D → F ≤ F' → freq_of F R Q D ≤ freq_of F' R Q D.
Proof.
  intros HQ HR HD HF. rw /freq_of /SRC_FREQ.
  pose proof (Z.pow_pos_nonneg 2 Q ltac:(lia) ltac:(lia)).
  pose proof (Z.div_pos 1000000 (D * (R + 1) * 2 ^ Q) ltac:(lia) ltac:(nia)). nia.
Qed.

(** The values of a loop that were done before [a]. *)
Lemma seqZ_before m k pre a suf x : seqZ m k = pre ++ a :: suf → m ≤ x < a → x ∈ pre.
Proof.
  intros Hl Hx. assert (seqZ m k !! length pre = Some a) as Hlk.
  { by rw Hl list_lookup_middle. }
  apply lookup_seqZ in Hlk as [-> Hlen]. apply list_elem_of_lookup. exists (Z.to_nat (x - m)).
  rw -(lookup_app_l pre (m + Z.of_nat (length pre) :: suf)); [lia|]. rw -Hl.
  apply lookup_seqZ. lia.
Qed.

(** ** The search

    [dom] is the set of divisors that the search visits. *)

Section search.
Context (P T : Z) (dom : Z → Prop).
Context (HT : 0 ≤ T < 2 ^ 32) (Hdom : ∀ D, dom D → 1 ≤ D).

(** PLL C takes the nearest frequency, the others the nearest from below. *)
Definition eligible (F R Q D : Z) : Prop := P = 2 ∨ freq_of F R Q D ≤ T.
Definition dist (F R Q D : Z) : Z := Z.abs (T - freq_of F R Q D).

(** The search has seen a setting. *)
Definition seen (F R Q D : Z) (b : pick) : Prop :=
  pll_ok F R Q → eligible F R Q D → min_minor b ≤ dist F R Q D.

Definition of_pick (f : Z → Z → Z → Z → Prop) (b : pick) : Prop :=
  f (DIVF b) (DIVR b) (DIVQ b) (div b).

Definition kept (b : pick) : Prop :=
  b = pick_init ∨
  of_pick (λ F R Q D, pll_ok F R Q ∧ dom D ∧ eligible F R Q D ∧ min_minor b = dist F R Q D) b.

Definition exact (b : pick) : Prop :=
  of_pick (λ F R Q D, pll_ok F R Q ∧ dom D ∧ freq_of F R Q D = T) b.

Lemma df_body_spec F R Q D b :
  0 ≤ F ≤ 255 → 0 ≤ R ≤ 1 → 0 ≤ Q ≤ 7 → dom D → kept b →
  wp (df_body P T R Q D F)
     (λ r b', match r with
              | None => kept b' ∧ min_minor b' ≤ min_minor b ∧ seen F R Q D b'
              | Some Break => kept b' ∧ min_minor b' ≤ min_minor b ∧ ∀ F', F ≤ F' → seen F' R Q D b'
              | Some Goto_find => exact b'
              end) b.
Proof.
  intros HF HR HQ HD Hk. pose proof (Hdom _ HD) as HD1. rw /df_body.
  assert (SRC_FREQ / (R + 1) <? 10 = false) as ->.
  { assert (R = 0 ∨ R = 1) as [-> | ->] by lia; done. }
  rw (_ : 1000 / SRC_FREQ = 40) // (_ : 2000 / SRC_FREQ = 80) //.
  destruct (Z.gtb_spec 40 ((F + 1) / (R + 1))) as [Hlo|Hlo].
  { apply wp_ret. split_and!; [done|done|]. intros Hp. destruct Hp. lia. }
  destruct (Z.ltb_spec 80 ((F + 1) / (R + 1))) as [Hhi|Hhi].
  { apply wp_ret. split_and!; [done|done|]. intros F' HF' Hp. destruct Hp as [_ _ _ Hv].
    pose proof (Z.div_le_mono (F + 1) (F' + 1) (R + 1) ltac:(lia) ltac:(lia)). lia. }
  assert (pll_ok F R Q) as Hp by (split; lia).
  pose proof (step_pos _ _ _ _ Hp HD1). wp_step. rw Z.shiftl_1_l. apply wp_udiv; [lia|].
  pose proof (freq_range _ _ _ _ Hp HD1) as Hr.
  assert (u32 (SRC_FREQ * (F + 1) * (1000000 / (D * (R + 1) * 2 ^ Q))) = freq_of F R Q D) as ->.
  { apply wrap_small. split; [apply Hr|]. by eapply Z.lt_trans; [apply Hr|]. }
  destruct (Z.eqb_spec (freq_of F R Q D) T) as [He|Hne]; [by wp_steps|].
  destruct (Z.ltb_spec (freq_of F R Q D) T) as [Hlt|Hge].
  - rw /keep. wp_steps. rw /seen /eligible /dist.
    destruct (Z.ltb_spec (T - freq_of F R Q D) (min_minor b)); split_and!; simpl; try done; try lia.
    right. rw /of_pick /=. split_and!; [done|done|by right; lia|]. rw /dist. lia.
  - assert (∀ F', F ≤ F' → T < freq_of F' R Q D ∧ dist F R Q D ≤ dist F' R Q D) as Hup.
    { intros F' HF'. pose proof (freq_mono F F' R Q D ltac:(lia) ltac:(lia) HD1 HF').
      rw /dist. lia. }
    destruct (Z.eqb_spec P 2) as [HP|HP].
    + rw /keep. wp_steps. rw /seen.
      destruct (Z.ltb_spec (freq_of F R Q D - T) (min_minor b)); split_and!; simpl; try done; try lia.
      * right. rw /of_pick /=. split_and!; [done|done|by left|]. rw /dist. lia.
      * intros F' HF'%Hup _ _. rw /dist in HF' |- *. lia.
      * intros F' HF'%Hup _ _. rw /dist in HF' |- *. lia.
    + wp_steps. split_and!; [done|done|]. intros F' HF'%Hup _ [?|?]; lia.
Qed.

(** What the loop on [DF] achieves for its [R], [Q] and [D]. *)
Definition row_seen (R Q D : Z) (b : pick) : Prop := ∀ F, seen F R Q D b.

(** Every later choice is at least as near. *)
Lemma seen_mono F R Q D b b' : min_minor b' ≤ min_minor b → seen F R Q D b → seen F R Q D b'.
Proof. intros Hle Hs Hp He. specialize (Hs Hp He). lia. Qed.

Lemma df_loop_spec R Q D b :
  0 ≤ R ≤ 1 → 0 ≤ Q ≤ 7 → dom D → kept b →
  wp (df_loop P T R Q D)
     (λ r b', match r with
              | None => kept b' ∧ min_minor b' ≤ min_minor b ∧ row_seen R Q D b'
              | Some _ => exact b'
              end) b.
Proof.
  intros HR HQ HD Hk. rw /df_loop. wp_step.
  eapply wp_mono; [apply (wp_for_until _ [] _ (λ pre b', kept b' ∧ min_minor b' ≤ min_minor b ∧
    ∀ F, F ∈ pre → seen F R Q D b') (λ r b', match r with
      | Some Goto_find => exact b'
      | _ => kept b' ∧ min_minor b' ≤ min_minor b ∧ row_seen R Q D b' end))|].
  - intros F pre b' (Hk' & Hm' & Hs') [suf Hl]. simpl in Hl.
    assert (F ∈ seqZ 0 256) as HF%elem_of_seqZ.
    { rw Hl. apply elem_of_app. right. by left. }
    eapply wp_mono; [apply (df_body_spec F R Q D); [lia|done..]|].
    assert (∀ F', 0 ≤ F' < F → F' ∈ pre) as Hpre.
    { intros F' HF'. by eapply seqZ_before. }
    intros [[]|] b'' H; [|done|].
    + destruct H as (Hk'' & Hm'' & Hs''). split_and!; [done|lia|]. intros F'.
      destruct (decide (F ≤ F')) as [Hle|Hlt]; [by apply Hs''|].
      destruct (decide (0 ≤ F')); [|intros Hp; destruct Hp; lia].
      apply (seen_mono _ _ _ _ b'); [done|]. apply Hs', Hpre. lia.
    + destruct H as (Hk'' & Hm'' & Hs''). split_and!; [done|lia|].
      intros F' [HF'| ->%list_elem_of_singleton]%elem_of_app; [|done].
      apply (seen_mono _ _ _ _ b'); [done|]. by apply Hs'.
  - split_and!; [done|done|]. intros F HF. by apply not_elem_of_nil in HF.
  - intros b' (Hk' & Hm' & Hs'). split_and!; [done|done|]. intros F Hp. apply Hs'; [|done].
    apply elem_of_seqZ. destruct Hp. lia.
  - intros [[]|] b' H; wp_steps; done.
Qed.

(** One level of the nest of loops: [C] collects what the inner loops saw. *)
Lemma level_spec {A B} (l : list A) (f : A → M pick (option B)) (C : A → pick → Prop) b :
  (∀ a b b', min_minor b' ≤ min_minor b → C a b → C a b') →
  (∀ a b, a ∈ l → kept b →
     wp (f a) (λ r b', match r with
                       | None => kept b' ∧ min_minor b' ≤ min_minor b ∧ C a b'
                       | Some _ => exact b'
                       end) b) →
  kept b →
  wp (for_until l f) (λ r b', match r with
                              | None => kept b' ∧ min_minor b' ≤ min_minor b ∧ ∀ a, a ∈ l → C a b'
                              | Some _ => exact b'
                              end) b.
Proof.
  intros HC Hf Hk.
  apply (wp_for_until l [] f (λ pre b', kept b' ∧ min_minor b' ≤ min_minor b ∧ ∀ a, a ∈ pre → C a b')).
  - intros a pre b1 (Hk1 & Hm1 & Hs1) [suf Hl]. simpl in Hl. eapply wp_mono; [apply Hf; [|done]|].
    { rw Hl. apply elem_of_app. right. by left. }
    intros [x|] b2 H; [done|]. destruct H as (Hk2 & Hm2 & Hs2). split_and!; [done|lia|].
    intros a' [Ha'| ->%list_elem_of_singleton]%elem_of_app; [|done]. by eapply HC; [|apply Hs1].
  - split_and!; [done|done|]. intros a Ha. by apply not_elem_of_nil in Ha.
  - done.
Qed.

Lemma elem_dq Q : Q ∈ dq_values ↔ 0 ≤ Q ≤ 7.
Proof. rw /dq_values elem_of_reverse elem_of_seqZ. lia. Qed.
Lemma elem_dr R : R ∈ dr_values ↔ 0 ≤ R ≤ 1.
Proof. rw /dr_values !elem_of_cons. split; [intros [?|[?|[]%not_elem_of_nil]]; lia|lia]. Qed.
Lemma elem_vd D : D ∈ vd_values ↔ 1 ≤ D ≤ 32.
Proof. rw /vd_values elem_of_reverse elem_of_seqZ. lia. Qed.

(** The result of a search that has seen every setting with a divisor in
    [dom]. *)
Definition optimal (b : pick) : Prop :=
  of_pick (λ F R Q D, pll_ok F R Q ∧ dom D ∧ eligible F R Q D ∧
    ∀ F' R' Q' D', pll_ok F' R' Q' → dom D' → eligible F' R' Q' D' →
      dist F R Q D ≤ dist F' R' Q' D') b.

Lemma exact_optimal b : exact b → optimal b.
Proof.
  rw /exact /optimal /of_pick /eligible /dist. intros (Hp & Hd & He).
  split_and!; [done|done|right; lia|]. intros. lia.
Qed.

Definition all_seen (b : pick) : Prop :=
  ∀ R, R ∈ dr_values → ∀ Q, Q ∈ dq_values → ∀ D, dom D → row_seen R Q D b.

(** Some setting is near enough to be kept. *)
Definition reachable : Prop :=
  ∃ F R Q D, pll_ok F R Q ∧ dom D ∧ eligible F R Q D ∧ dist F R Q D < 0xFF000000.

Lemma all_seen_optimal b : reachable → kept b → all_seen b → optimal b.
Proof.
  intros (F & R & Q & D & Hp & Hd & He & Hlt) Hk Hs.
  assert (∀ F R Q D, pll_ok F R Q → dom D → eligible F R Q D → min_minor b ≤ dist F R Q D) as Hall.
  { intros F1 R1 Q1 D1 Hp1 Hd1 He1. apply Hs; [..|done|done].
    - apply elem_dr, Hp1.
    - apply elem_dq, Hp1.
    - done. }
  destruct Hk as [->|(Hp' & Hd' & He' & Hm)]; [specialize (Hall F R Q D Hp Hd He); simpl in Hall; lia|].
  rw /optimal /of_pick. split_and!; [done..|]. intros. rw -Hm. by apply Hall.
Qed.

Lemma search_spec (m : M pick (option unit)) :
  wp m (λ r b', match r with
                | None => kept b' ∧ min_minor b' ≤ min_minor pick_init ∧ all_seen b'
                | Some _ => exact b'
                end) pick_init →
  reachable → wp m (λ _ b, optimal b) pick_init.
Proof.
  intros Hm Hr. eapply wp_mono; [exact Hm|]. intros [[]|] b H; [by apply exact_optimal|].
  destruct H as (Hk & _ & Hs). by apply all_seen_optimal.
Qed.

End search.

(** The divisors that [set_pll_divisor] tries. *)
Definition vd_dom (P D : Z) : Prop := 1 ≤ D ≤ 32 ∧ (P = 2 → D = 1 ∨ D mod 2 = 0).

Lemma vd_dom_pos P D : vd_dom P D → 1 ≤ D.
Proof. intros [? _]. lia. Qed.

Section searches.
Context (P T : Z) (HT : 0 ≤ T < 2 ^ 32).

Lemma divisor_reachable : P = 2 ∨ 244000 ≤ T → reachable P T (vd_dom P).
Proof.
  intros HP. destruct (decide (T ≤ 0xFF000000)) as [Hle|Hgt].
  - exists 79, 1, 7, 32. rw /eligible /dist (_ : freq_of 79 1 7 32 = 244000) //.
    split_and!; [by split|split; [lia|by right]|done|lia].
  - exists 79, 0, 0, 1. rw /eligible /dist (_ : freq_of 79 0 0 1 = 2000000000) //.
    split_and!; [by split|split; [lia|by left]|right; lia|lia].
Qed.

Lemma divisor_search_spec :
  wp (divisor_search P T)
     (λ r b', match r with
              | None => kept P T (vd_dom P) b' ∧ min_minor b' ≤ min_minor pick_init ∧ all_seen P T (vd_dom P) b'
              | Some _ => exact T (vd_dom P) b'
              end) pick_init.
Proof using HT.
  apply (level_spec _ _ _ _ _ (λ R b, ∀ Q, Q ∈ dq_values → ∀ D, vd_dom P D → row_seen P T R Q D b)); [| |by left].
  { intros R b b' Hm HC Q HQ D HD F. eapply seen_mono; [done|]. by apply HC. }
  intros R b HR%elem_dr Hk.
  apply (level_spec _ _ _ _ _ (λ Q b, ∀ D, vd_dom P D → row_seen P T R Q D b)); [| |done].
  { intros Q b1 b' Hm HC D HD F. eapply seen_mono; [done|]. by apply HC. }
  intros Q b1 HQ%elem_dq Hk1. eapply wp_mono.
  { apply (level_spec P T (vd_dom P) _ _ (λ D b, vd_dom P D → row_seen P T R Q D b)); [| |done].
    { intros D b2 b' Hm HC HD F. eapply seen_mono; [done|]. by apply HC. }
    intros D b2 HD%elem_vd Hk2. destruct ((1 <? D) && negb (D mod 2 =? 0) && (P =? 2)) eqn:Hskip.
    { apply wp_ret. split_and!; [done|done|]. intros [_ Hd]. lia. }
    eapply wp_mono; [apply (df_loop_spec P T (vd_dom P) (vd_dom_pos P)); [done|done| |done]|].
    { split; lia. }
    intros [[]|] b' H; [done|]. naive_solver. }
  intros [[]|] b' H; [done|]. destruct H as (Hk' & Hm' & Hs'). split_and!; [done|done|].
  intros D HD. apply Hs'; [|done]. apply elem_vd, HD.
Qed.

Lemma divisor_search_optimal :
  reachable P T (vd_dom P) → wp (divisor_search P T) (λ _ b, optimal P T (vd_dom P) b) pick_init.
Proof using HT. apply search_spec, divisor_search_spec. Qed.

Lemma speed_search_optimal VD :
  1 ≤ VD → reachable P T (eq VD) → wp (speed_search P T VD) (λ _ b, optimal P T (eq VD) b) pick_init.
Proof.
  intros HV. apply search_spec.
  apply (level_spec _ _ _ _ _ (λ R b, ∀ Q, Q ∈ dq_values → ∀ D, VD = D → row_seen P T R Q D b)); [| |by left].
  { intros R b b' Hm HC Q HQ D HD F. eapply seen_mono; [done|]. by apply HC. }
  intros R b HR%elem_dr Hk.
  apply (level_spec _ _ _ _ _ (λ Q b, ∀ D, VD = D → row_seen P T R Q D b)); [| |done].
  { intros Q b1 b' Hm HC D HD F. eapply seen_mono; [done|]. by apply HC. }
  intros Q b1 HQ%elem_dq Hk1.
  eapply wp_mono; [apply (df_loop_spec P T (eq VD)); [by intros ? <-|done..]|].
  intros [[]|] b' H; [done|]. naive_solver.
Qed.

End searches.

(** ** The words in the registers *)

Lemma land_mod w k : 0 ≤ k → Z.land w (2 ^ k - 1) = w mod 2 ^ k.
Proof. intros Hk. rw -Z.land_ones // Z.ones_equiv -Z.sub_1_r //. Qed.

Lemma pll_word_fields F R Q : pll_ok F R Q →
  pll_mult (pll_word F R Q) = SRC_FREQ * (F + 1) ∧ pll_div (pll_word F R Q) = (R + 1) * 2 ^ Q.
Proof.
  intros [HF HR HQ _]. rw /pll_mult /pll_div /pll_word.
  assert (∃ k, 0 ≤ k ≤ 2 ∧ check_filter (SRC_FREQ / (R + 1)) = k) as (k & Hk & ->).
  { assert (R = 0 ∨ R = 1) as [-> | ->] by lia; eexists; split; try reflexivity; done. }
  rw Z.shiftl_1_l !Z.shiftl_mul_pow2 // !Z.shiftr_div_pow2 //.
  rw u32_small; [lia|].
  rw (land_mod _ 8) // (land_mod _ 6) // (land_mod _ 3) //.
  set (x := _ + k * 2 ^ 24).
  assert (x / 2 ^ 16 mod 2 ^ 8 = F) as -> by (subst x; Z.div_mod_to_equations; lia).
  assert (x / 2 ^ 8 mod 2 ^ 6 = R) as -> by (subst x; Z.div_mod_to_equations; lia).
  assert (x mod 2 ^ 3 = Q) as -> by (subst x; Z.div_mod_to_equations; lia).
  done.
Qed.

Lemma pll_word_range F R Q : 0 ≤ pll_word F R Q < 2 ^ 32.
Proof. by apply wrap_range. Qed.

Lemma div_value_range dev D : 1 ≤ D ≤ 32 → 0 ≤ div_value dev false D < 131072.
Proof. intros HD. rw /div_value. destruct (is_sdtv dev), (Z.eqb_spec D 32); lia. Qed.

Lemma div_value_byte dev D : 1 ≤ D ≤ 32 → Z.land (div_value dev false D) 0xFF = D mod 32.
Proof.
  intros HD. rw (land_mod _ 8) //. rw /div_value.
  destruct (is_sdtv dev), (Z.eqb_spec D 32); Z.div_mod_to_equations; lia.
Qed.

(** The computation of the returned frequency. *)
Lemma reads_last_freq b D :
  pll_ok (DIVF b) (DIVR b) (DIVQ b) → 1 ≤ D ≤ 255 →
  reads (last_freq b D) (freq_of (DIVF b) (DIVR b) (DIVQ b) D).
Proof.
  intros Hp HD. pose proof (step_pos _ _ _ D Hp ltac:(lia)) as Hs.
  pose proof (freq_range _ _ _ D Hp ltac:(lia)) as Hr. rw /last_freq Z.shiftl_1_l.
  rw (_ : (DIVR b + 1) * 2 ^ DIVQ b * D = D * (DIVR b + 1) * 2 ^ DIVQ b); [lia|].
  pose proof (pk_R _ _ _ Hp). pose proof (pk_Q _ _ _ Hp) as HQ7.
  assert (2 ^ DIVQ b ≤ 2 ^ 7) by (apply Z.pow_le_mono_r; lia).
  rw u32_small; [nia|]. intros st. rw /udiv (proj2 (Z.eqb_neq _ 0)); [lia|]. rw /bind /=.
  fold (freq_of (DIVF b) (DIVR b) (DIVQ b) D). by rw u32_small; [lia|].
Qed.

(** ** Setting PLL and divisor *)

(** The writes of a setting, after the byte store at the start: the divisor goes
    up first and down last. *)
Definition pll_writes (dev : dev_id) (P offs old : Z) (b : pick) : list (Z * Z) :=
  (if old <? div b then [(offs, div_value dev false (div b))] else []) ++
  [(PMC_PLL + 4 * P, pll_word (DIVF b) (DIVR b) (DIVQ b))] ++
  (if div b <? old then [(offs, div_value dev false (div b))] else []).

Section set_pll.
Context `{ClkLive n}.
Context (dev : dev_id) (P offs : Z) (Hdev : calc_pll_num dev = (P, offs)) (HP : P ≤ 4).

Lemma dev_regs : 0 ≤ P ≤ 4 ∧ 0x300 ≤ offs ≤ 0x3C0 ∧ offs mod 4 = 0.
Proof using Hdev HP. destruct (calc_pll_num_range _ _ _ Hdev) as [?|[?|?]]; [done|lia|lia]. Qed.

Lemma pll_reg_aligned : (PMC_PLL + 4 * P) mod 4 = 0.
Proof using. rw /PMC_PLL. Z.div_mod_to_equations. lia. Qed.

Lemma clk_on_upd w r : clk_on dev (upd offs w r) = clk_on dev r.
Proof using Hdev HP.
  rw /clk_on upd_ne //. pose proof (clk_reg_range dev). pose proof dev_regs. lia.
Qed.

(** What the search finds is written and its frequency returned. *)
Lemma wp_set_pll_search unit base freq Q st :
  unit_base unit = Some base → clk_on dev (ck_reg st) = true →
  wp (divisor_search P (u32 (freq * base))) (λ _ b, 1 ≤ div b ≤ 32 ∧
    ∃ f, 0 ≤ f < 2147483648 ∧ reads (last_freq b (div b)) f ∧
      ∀ t w, Z.land w 0xFF = Z.land (ck_reg st offs) 0xFF →
        Q f (after t ((offs, w) :: pll_writes dev P offs (Z.land (ck_reg st offs) 0xFF) b) st))
    pick_init →
  wp (set_pll_divisor n dev unit freq) Q st.
Proof using H Hdev HP.
  intros Hu Hon Hsearch. destruct dev_regs as (HP4 & Hoffs & Hal). rw /set_pll_divisor Hdev.
  rw (proj2 (Z.eqb_neq P 5)); [lia|]. rw (proj2 (Z.eqb_neq P 6)); [lia|].
  wp_step. apply wp_prepare_after; [done|]. intros t w Hw. wp_step. apply wp_rd8; [done|].
  rw /= upd_eq Hw Hu. wp_step. apply wp_run_search. eapply wp_mono; [exact Hsearch|].
  intros r b (HD & f & Hf & Hlast & HQ). wp_step. apply (wp_reads _ _ _ _ Hlast).
  wp_step. apply wp_clk_enabled. rw /= clk_on_upd Hon /=. fold (after t [(offs, w)] st).
  wp_step. apply wp_wait_after. intros t1. wp_step. apply wp_write_if; [done|]. intros t2.
  wp_step. apply wp_write_after; [apply pll_reg_aligned|]. wp_step. apply wp_wait_after. intros t3.
  wp_step. apply wp_write_if; [done|]. intros t4. apply wp_ret.
  rw s32_small; [lia|].
  assert (u32 (div_value dev false (div b)) = div_value dev false (div b)) as ->.
  { pose proof (div_value_range dev (div b) HD). apply u32_small. lia. }
  rw (u32_small _ (pll_word_range _ _ _)). rw -!app_assoc. by apply HQ.
Qed.

Lemma wp_set_pll_divisor unit base freq Q st :
  unit_base unit = Some base → (P = 2 ∨ 244000 ≤ u32 (freq * base)) →
  clk_on dev (ck_reg st) = true →
  (∀ b t w, optimal P (u32 (freq * base)) (vd_dom P) b →
     Z.land w 0xFF = Z.land (ck_reg st offs) 0xFF →
     Q (freq_of (DIVF b) (DIVR b) (DIVQ b) (div b))
       (after t ((offs, w) :: pll_writes dev P offs (Z.land (ck_reg st offs) 0xFF) b) st)) →
  wp (set_pll_divisor n dev unit freq) Q st.
Proof using H Hdev HP.
  intros Hu HT Hon HQ. apply (wp_set_pll_search _ base); [done|done|].
  set (T := u32 (freq * base)) in *.
  pose proof (wrap_range 32 (freq * base) ltac:(lia)) as HTr.
  eapply wp_mono; [apply (divisor_search_optimal P T HTr), (divisor_reachable P T HTr HT)|].
  intros r b Hopt. pose proof Hopt as (Hp & [HD _] & _).
  pose proof (freq_range _ _ _ (div b) Hp ltac:(lia)). split; [done|].
  exists (freq_of (DIVF b) (DIVR b) (DIVQ b) (div b)). split; [lia|]. split; [|auto].
  apply reads_last_freq; [done|lia].
Qed.

End set_pll.

(** ** Reading the frequency back *)

(** [st] holds a setting, for a device on PLL [P] with its divisor at [offs]. *)
Record holds (P offs F R Q D : Z) (st : clkst) : Prop := {
  h_pll : ck_reg st (PMC_PLL + 4 * P) = pll_word F R Q;
  h_div : Z.land (ck_reg st offs) 0xFF = D mod 32
}.

Section set_get.
Context `{ClkLive n}.
Context (dev : dev_id) (P offs : Z) (Hdev : calc_pll_num dev = (P, offs)) (HP : P ≤ 4).

Lemma pll_ne_div : PMC_PLL + 4 * P ≠ offs.
Proof using Hdev HP. pose proof (dev_regs dev P offs Hdev HP). rw /PMC_PLL. lia. Qed.

(** The divisor that [get_freq] computes from the byte. *)
Lemma div_field byte D :
  1 ≤ D ≤ 32 → Z.land byte 0xFF = D mod 32 →
  (if is_sdmmc dev
   then Z.land (Z.land byte 0xFF) 0x1F * (if negb (Z.land (Z.land byte 0xFF) 32 =? 0) then 64 else 1)
   else Z.land (Z.land byte 0xFF) 0x1F) = D mod 32.
Proof using.
  intros HD ->. set (v := D mod 32). assert (0 ≤ v < 32) as Hv by (apply Z.mod_pos_bound; lia).
  assert (Z.land v 0x1F = v) as -> by (rw (land_mod _ 5) //; by apply Z.mod_small).
  assert (negb (Z.land v 32 =? 0) = false) as ->.
  { rw (land_bit v 5) //. rw -(Z.mod_small v (2 ^ 5)) //. apply Z.mod_pow2_bits_high. lia. }
  destruct (is_sdmmc dev); lia.
Qed.

Lemma get_freq_holds F R Q D st :
  pll_ok F R Q → 1 ≤ D ≤ 32 → holds P offs F R Q D st →
  match get_freq n dev st with
  | Ok (g, _) => g = freq_of F R Q D ∧ D ≠ 32
  | Err e => e = DivByZero ∧ D = 32
  end.
Proof using H Hdev HP.
  intros Hp HD [Hpll Hdiv]. destruct (dev_regs dev P offs Hdev HP) as (HP4 & Hoffs & Hal).
  rw /get_freq Hdev (proj2 (Z.eqb_neq P 5)); [lia|]. rw (proj2 (Z.eqb_neq P 6)); [lia|].
  assert (wp (clk_enabled dev) (λ _ st', st' = st) st) as (en & ? & Hen & ->)%wp_ok.
  { by apply wp_clk_enabled. }
  rw (bind_ok _ _ _ _ _ Hen).
  assert (wp (prepare_div n dev offs) (λ _ st', holds P offs F R Q D st') st)
    as ([] & st1 & Hprep & [Hpll1 Hdiv1])%wp_ok.
  { apply wp_prepare_after; [done|]. intros t w Hw. split; simpl.
    - rw upd_ne //. apply pll_ne_div.
    - by rw upd_eq Hw. }
  rw (bind_ok _ _ _ _ _ Hprep).
  assert (wp (rd8 offs) (λ v st', v = Z.land (ck_reg st1 offs) 0xFF ∧ st' = st1) st1)
    as (v & ? & Hrd & -> & ->)%wp_ok by by apply wp_rd8.
  rw (bind_ok _ _ _ _ _ Hrd).
  assert (wp (rd32 (PMC_PLL + 4 * P)) (λ v st', v = pll_word F R Q ∧ st' = st1) st1)
    as (v & ? & Hrd' & -> & ->)%wp_ok by (apply wp_rd32; [apply pll_reg_aligned|done]).
  rw (bind_ok _ _ _ _ _ Hrd'). rw (div_field _ D HD Hdiv1).
  destruct (pll_word_fields _ _ _ Hp) as [-> ->].
  destruct (decide (D = 32)) as [->|HD32].
  { rw (_ : 32 mod 32 = 0) // Z.mul_0_r. done. }
  rw (Z.mod_small D 32); [lia|].
  pose proof (step_pos _ _ _ D Hp ltac:(lia)) as Hs. pose proof (freq_range _ _ _ D Hp ltac:(lia)) as Hr.
  pose proof (pk_R _ _ _ Hp). pose proof (pk_Q _ _ _ Hp).
  assert (2 ^ Q ≤ 2 ^ 7) by (apply Z.pow_le_mono_r; lia).
  rw (_ : (R + 1) * 2 ^ Q * D = D * (R + 1) * 2 ^ Q); [lia|]. rw u32_small; [nia|].
  rw /udiv (proj2 (Z.eqb_neq _ 0)); [lia|]. rw /bind /=. fold (freq_of F R Q D).
  rw u32_small; [lia|]. by rw s32_small; [lia|].
Qed.

(** The registers after [set_pll_divisor]. *)
Lemma pll_writes_hold b w t st :
  Z.land w 0xFF = Z.land (ck_reg st offs) 0xFF → Z.land (ck_reg st offs) 0xFF ≠ 32 → 1 ≤ div b ≤ 32 →
  holds P offs (DIVF b) (DIVR b) (DIVQ b) (div b)
    (after t ((offs, w) :: pll_writes dev P offs (Z.land (ck_reg st offs) 0xFF) b) st).
Proof using Hdev HP.
  intros Hw H32 HD. pose proof pll_ne_div as Hne. set (old := Z.land (ck_reg st offs) 0xFF) in *.
  assert (Z.land (div_value dev false (div b)) 0xFF = div b mod 32) as Hv by by apply div_value_byte.
  rw /pll_writes. destruct (Z.ltb_spec old (div b)), (Z.ltb_spec (div b) old);
    try lia; split; simpl; rw ?upd_eq //; rw ?(upd_ne _ _ _ _ Hne) ?upd_eq //;
    rw upd_ne ?upd_eq //; try by apply not_eq_sym.
  rw Hw. assert (old = div b) as -> by lia. rw Z.mod_small; lia.
Qed.

End set_get.

(** ** Theorems on setting PLL and divisor *)

(** A device with working hardware to try the theorems on: busy at every second
    read of the status, all clocks on, PLL B at 500 MHz. *)
Definition demo_hw : ClkHw := {| hw_busy t := if Nat.even t then BUSY else 0 |}.
#[local] Existing Instance demo_hw.

Instance demo_live : ClkLive 2.
Proof.
  intros t. destruct (Nat.even t) eqn:He.
  - exists 1%nat. split; [lia|]. by rw /= Nat.add_1_r Nat.even_succ -Nat.negb_even He.
  - exists 0%nat. split; [lia|]. by rw /= Nat.add_0_r He.
Qed.

Definition demo_st (divisor : Z) : clkst :=
  ClkSt 0 (λ o, if o =? 0x204 then 0x02270001 else if o =? 0x358 then divisor
                else if o =? 0x330 then divisor else 0xFFFFFFFF) [] (replicate 128 0).



(** After [SET_PLLDIV], [GET_FREQ] returns the frequency that [SET_PLLDIV]
    returned, unless the divisor is 32: that is stored as 0, and [GET_FREQ]
    divides by it. *)
Theorem set_pll_divisor_get_freq `{ClkLive n} dev P offs unit base freq st :
  calc_pll_num dev = (P, offs) → P ≤ 4 → unit_base unit = Some base →
  P = 2 ∨ 244000 ≤ u32 (freq * base) →
  clk_on dev (ck_reg st) = true → Z.land (ck_reg st offs) 0xFF ≠ 32 →
  ∃ f st',
    auto_pll_divisor n dev SET_PLLDIV unit freq st = Ok (f, st') ∧
    match auto_pll_divisor n dev GET_FREQ 0 0 st' with
    | Ok (g, _) => g = f ∧ Z.land (ck_reg st' offs) 0x1F ≠ 0
    | Err e => e = DivByZero ∧ Z.land (ck_reg st' offs) 0x1F = 0
    end.
Proof.
  intros Hdev HP Hu HT Hon H32.
  assert (wp (set_pll_divisor n dev unit freq) (λ r st', ∃ F R Q D, r = freq_of F R Q D ∧
    pll_ok F R Q ∧ 1 ≤ D ≤ 32 ∧ holds P offs F R Q D st') st)
    as (r & st' & Hrun & F & R & Q & D & -> & Hp & Hd & Hh)%wp_ok.
  { apply (wp_set_pll_divisor dev P offs Hdev HP unit base); [done..|].
    intros b t w (Hp & [Hd _] & _) Hw.
    exists (DIVF b), (DIVR b), (DIVQ b), (div b). do 3 (split; [done|]). by apply pll_writes_hold. }
  exists (freq_of F R Q D), st'. split; [done|]. rw /auto_pll_divisor.
  pose proof (get_freq_holds dev P offs Hdev HP F R Q D st' Hp Hd Hh) as Hg.
  assert (Z.land (ck_reg st' offs) 0x1F = D mod 32) as ->.
  { pose proof (h_div _ _ _ _ _ _ _ Hh) as Hb. change 0x1F with (Z.land 0xFF 0x1F).
    rw Z.land_assoc Hb (land_mod _ 5) //. apply Zmod_mod. }
  destruct (get_freq n dev st') as [[g st'']|e]; destruct Hg as [-> Hg]; (split; [done|]).
  - rw Z.mod_small; lia.
  - by rw Hg.
Qed.

Lemma set_pll_divisor_get_freq_witness :
  ∃ f st',
    auto_pll_divisor 2 DEV_NA0 SET_PLLDIV 2 133 (demo_st 4) = Ok (f, st') ∧
    match auto_pll_divisor 2 DEV_NA0 GET_FREQ 0 0 st' with
    | Ok (g, _) => g = f ∧ Z.land (ck_reg st' 0x358) 0x1F ≠ 0
    | Err e => e = DivByZero ∧ Z.land (ck_reg st' 0x358) 0x1F = 0
    end.
Proof.
  apply (set_pll_divisor_get_freq (n := 2) DEV_NA0 1 0x358 2 1000000 133 (demo_st 4)).
  - reflexivity.
  - lia.
  - reflexivity.
  - right. vm_compute. discriminate.
  - reflexivity.
  - vm_compute. discriminate.
Defined.

(** The rounding hides that a setting is above the target: for 244000 Hz the
    registers give 244140 Hz. *)
Example real_freq_above : freq_of 79 1 7 32 = 244000 ∧ real_freq 79 1 7 32 = 244140.
Proof. done. Qed.

(** For example, 244 kHz takes divisor 32. *)
Example get_freq_hangs :
  match auto_pll_divisor 2 DEV_NA0 SET_PLLDIV 0 244000 (demo_st 4) with
  | Ok (f, st') => f = 244000 ∧ auto_pll_divisor 2 DEV_NA0 GET_FREQ 0 0 st' = Err DivByZero
  | Err _ => False
  end.
Proof. vm_compute. by split. Qed.

(** ** The order of the writes *)

(** The rate a PLL word and a divisor give, in Hz rounded down. *)
Definition rate (w d : Z) : Z := pll_mult w * 1000000 / (pll_div w * d).

(** The divisor in a divisor byte: 0 stands for 32, and the SD controllers have a
    further factor of 64. *)
Definition byte_div (dev : dev_id) (byte : Z) : Z :=
  (if Z.land byte 0x1F =? 0 then 32 else Z.land byte 0x1F) *
  (if is_sdmmc dev && Z.testbit byte 5 then 64 else 1).

(** The rate of a device from its registers. *)
Definition dev_rate (dev : dev_id) (P offs : Z) (r : Z → Z) : Z :=
  rate (r (PMC_PLL + 4 * P)) (byte_div dev (Z.land (r offs) 0xFF)).

Lemma pll_div_pos w : 1 ≤ pll_div w.
Proof.
  rw /pll_div Z.shiftl_1_l. rw (land_mod _ 6) // (land_mod w 3) //.
  pose proof (Z.mod_pos_bound (Z.shiftr w 8) (2 ^ 6) ltac:(lia)).
  pose proof (Z.mod_pos_bound w (2 ^ 3) ltac:(lia)).
  pose proof (Z.pow_pos_nonneg 2 (w mod 2 ^ 3) ltac:(lia) ltac:(lia)). nia.
Qed.

Lemma pll_mult_pos w : 0 ≤ pll_mult w.
Proof.
  rw /pll_mult /SRC_FREQ. rw (land_mod _ 8) //.
  pose proof (Z.mod_pos_bound (Z.shiftr w 16) (2 ^ 8) ltac:(lia)). lia.
Qed.

Lemma rate_mono w d d' : 1 ≤ d ≤ d' → rate w d' ≤ rate w d.
Proof.
  intros Hd. pose proof (pll_div_pos w). pose proof (pll_mult_pos w). rw /rate.
  apply Z.div_le_compat_l; nia.
Qed.

Lemma byte_div_new dev D : 1 ≤ D ≤ 32 → byte_div dev (D mod 32) = D.
Proof.
  intros HD. rw /byte_div (land_mod _ 5) // Zmod_mod. rw (_ : 32 = 2 ^ 5) //.
  rw Z.mod_pow2_bits_high; [lia|]. rw andb_false_r Z.mul_1_r.
  destruct (decide (D = 32)) as [->|HD32]; [done|]. rw Z.mod_small; [lia|].
  by rw (proj2 (Z.eqb_neq D 0)); [lia|].
Qed.

(** A divisor byte that the hardware can hold and that is not an encoded 32. *)
Definition byte_ok (dev : dev_id) (byte : Z) : Prop := 0 < byte < (if is_sdmmc dev then 64 else 32).

Lemma byte_div_old dev byte : byte_ok dev byte → 1 ≤ byte_div dev byte ∧
  (byte < 32 → byte_div dev byte = byte) ∧ (32 ≤ byte → 32 ≤ byte_div dev byte).
Proof.
  rw /byte_ok /byte_div (land_mod _ 5) //. intros Hb. destruct (Z.ltb_spec byte 32) as [Hlt|Hge].
  - assert (0 ≤ byte < 2 ^ 5) as Hb5 by (destruct (is_sdmmc dev); lia).
    assert (Z.testbit byte 5 = false) as ->.
    { rw -(Z.mod_small byte (2 ^ 5)) //. by apply Z.mod_pow2_bits_high. }
    rw (Z.mod_small byte) // (proj2 (Z.eqb_neq byte 0)); [lia|]. rw andb_false_r. lia.
  - destruct (is_sdmmc dev); [|lia]. rw (_ : Z.testbit byte 5 = true).
    { apply Z.testbit_true; [lia|]. Z.div_mod_to_equations. lia. }
    pose proof (Z.mod_pos_bound byte (2 ^ 5) ltac:(lia)).
    destruct (Z.eqb_spec (byte mod 2 ^ 5) 0); cbn [andb]; lia.
Qed.

Section order.
Context (dev : dev_id) (P offs : Z) (Hdev : calc_pll_num dev = (P, offs)) (HP : P ≤ 4).
Abbreviation pllr := (PMC_PLL + 4 * P).

Lemma dev_rate_upd_pll v r : dev_rate dev P offs (upd pllr v r) = rate v (byte_div dev (Z.land (r offs) 0xFF)).
Proof using Hdev HP.
  rw /dev_rate upd_eq upd_ne //. apply not_eq_sym. by apply (pll_ne_div dev).
Qed.

Lemma dev_rate_upd_div v r : dev_rate dev P offs (upd offs v r) = rate (r pllr) (byte_div dev (Z.land v 0xFF)).
Proof using Hdev HP. rw /dev_rate upd_eq upd_ne //. by apply (pll_ne_div dev). Qed.

Lemma pll_writes_order b w r k :
  Z.land w 0xFF = Z.land (r offs) 0xFF → byte_ok dev (Z.land (r offs) 0xFF) → 1 ≤ div b ≤ 32 →
  let ws := (offs, w) :: pll_writes dev P offs (Z.land (r offs) 0xFF) b in
  dev_rate dev P offs (replay (take k ws) r) ≤
    Z.max (dev_rate dev P offs r) (dev_rate dev P offs (replay ws r)).
Proof using Hdev HP.
  intros Hw Hok HD. pose proof (pll_ne_div dev P offs Hdev HP) as Hne.
  destruct (byte_div_old dev _ Hok) as (Hd1 & Hlt & Hge). rw /pll_writes.
  set (old := Z.land (r offs) 0xFF) in *. set (dv := div_value dev false (div b)).
  set (wn := pll_word _ _ _).
  assert (byte_div dev (Z.land dv 0xFF) = div b) as Hdv.
  { by rw /dv div_value_byte // byte_div_new. }
  assert (upd offs w r pllr = r pllr) as Hp by by apply upd_ne.
  assert (dev_rate dev P offs (upd offs w r) = dev_rate dev P offs r) as Hr0.
  { by rw dev_rate_upd_div Hw. }
  destruct (Z.ltb_spec old (div b)), (Z.ltb_spec (div b) old); try lia;
    destruct k as [|[|[|k]]]; cbn [take app replay fold_left fst snd]; rw ?take_nil; cbn [fold_left];
    rw ?Hr0; try lia; rw ?dev_rate_upd_div ?dev_rate_upd_pll ?Hdv ?upd_eq ?Hp ?Hdv ?Hw; try lia.
  - (* the divisor went up first *)
    pose proof (rate_mono (r pllr) (byte_div dev old) (div b) ltac:(lia)).
    rw /dev_rate -/old. lia.
  - (* the PLL changed first, the divisor is still the larger one *)
    pose proof (rate_mono wn (div b) (byte_div dev old) ltac:(lia)). lia.
Qed.

End order.

(** C36: While [SET_PLLDIV] changes PLL and divisor the device never runs faster
    than it did before or than it will after, provided the divisor byte stored before
    is not 0: at every point between the writes of the call, the rate that the
    registers give is at most the larger of the two.  (The driver itself stores a
    divisor of 32 as 0, and from there the device can run faster for a moment, see
    [set_pll_divisor_overspeed] below.) *)
Theorem set_pll_divisor_no_overspeed `{ClkLive n} dev P offs unit base freq st :
  calc_pll_num dev = (P, offs) → P ≤ 4 → unit_base unit = Some base →
  P = 2 ∨ 244000 ≤ u32 (freq * base) →
  clk_on dev (ck_reg st) = true → byte_ok dev (Z.land (ck_reg st offs) 0xFF) →
  ∃ f st' ws,
    auto_pll_divisor n dev SET_PLLDIV unit freq st = Ok (f, st') ∧
    ck_log st' = ck_log st ++ ws ∧ ck_reg st' = replay ws (ck_reg st) ∧
    ∀ k, dev_rate dev P offs (replay (take k ws) (ck_reg st)) ≤
      Z.max (dev_rate dev P offs (ck_reg st)) (dev_rate dev P offs (ck_reg st')).
Proof.
  intros Hdev HP Hu HT Hon Hok.
  assert (wp (set_pll_divisor n dev unit freq) (λ r st', ∃ ws, ck_log st' = ck_log st ++ ws ∧
    ck_reg st' = replay ws (ck_reg st) ∧
    ∀ k, dev_rate dev P offs (replay (take k ws) (ck_reg st)) ≤
      Z.max (dev_rate dev P offs (ck_reg st)) (dev_rate dev P offs (ck_reg st'))) st)
    as (f & st' & Hrun & ws & Hws)%wp_ok.
  { apply (wp_set_pll_divisor dev P offs Hdev HP unit base); [done..|].
    intros b t w (_ & [Hd _] & _) Hw. eexists. split; [reflexivity|]. split; [reflexivity|].
    intros k. by apply pll_writes_order. }
  by exists f, st', ws.
Qed.

Lemma set_pll_divisor_no_overspeed_witness :
  ∃ f st' ws,
    auto_pll_divisor 2 DEV_NA0 SET_PLLDIV 2 133 (demo_st 4) = Ok (f, st') ∧
    ck_log st' = ck_log (demo_st 4) ++ ws ∧ ck_reg st' = replay ws (ck_reg (demo_st 4)) ∧
    ∀ k, dev_rate DEV_NA0 1 0x358 (replay (take k ws) (ck_reg (demo_st 4))) ≤
      Z.max (dev_rate DEV_NA0 1 0x358 (ck_reg (demo_st 4))) (dev_rate DEV_NA0 1 0x358 (ck_reg st')).
Proof.
  apply (set_pll_divisor_no_overspeed (n := 2) DEV_NA0 1 0x358 2 1000000 133 (demo_st 4)).
  - reflexivity.
  - lia.
  - reflexivity.
  - right. vm_compute. discriminate.
  - reflexivity.
  - vm_compute. split; reflexivity.
Defined.

(** With an encoded 32 the divisor is written first although it goes down: from
    500 MHz / 32 to 100 MHz, the device runs at 500 MHz in between. *)
Example set_pll_divisor_overspeed :
  match auto_pll_divisor 2 DEV_NA0 SET_PLLDIV 2 100 (demo_st 0) with
  | Ok (f, st') =>
      f = 100000000 ∧ dev_rate DEV_NA0 1 0x358 (ck_reg (demo_st 0)) = 15625000 ∧
      dev_rate DEV_NA0 1 0x358 (replay (take 2 (ck_log st')) (ck_reg (demo_st 0))) = 500000000
  | Err _ => False
  end.
Proof. vm_compute. by split_and!. Qed.

(** ** Targets below the range *)

(** The slowest setting. *)
Lemma freq_min F R Q D : pll_ok F R Q → 1 ≤ D ≤ 32 → 244000 ≤ freq_of F R Q D.
Proof.
  intros Hp HD. pose proof (pll_F_bound _ _ _ Hp) as HF. pose proof (step_pos _ _ _ D Hp ltac:(lia)).
  destruct Hp as [_ HR HQ _]. rw /freq_of /SRC_FREQ.
  assert (2 ^ Q ≤ 2 ^ 7) by (apply Z.pow_le_mono_r; lia).
  assert (D * (R + 1) * 2 ^ Q ≤ 4096 * (R + 1)) by nia.
  pose proof (Z.div_le_compat_l 1000000 (D * (R + 1) * 2 ^ Q) (4096 * (R + 1)) ltac:(lia) ltac:(lia)) as Hq.
  set (q := 1000000 / (D * (R + 1) * 2 ^ Q)) in *. clearbody q.
  assert (R = 0 ∧ 244 ≤ q ∨ R = 1 ∧ 122 ≤ q) as HRq.
  { assert (R = 0 ∨ R = 1) as [-> | ->] by lia; [left|right]; (split; [done|exact Hq]). }
  nia.
Qed.

(** Nothing is kept when every setting is too fast. *)
Lemma kept_too_low P T b : P ≠ 2 → T < 244000 → kept P T (vd_dom P) b → b = pick_init.
Proof.
  intros HP HT [->|(Hp & [HD _] & [?|Hle] & _)]; [done|done|].
  pose proof (freq_min _ _ _ _ Hp HD). lia.
Qed.

Lemma exact_too_low P T b : T < 244000 → ¬ exact T (vd_dom P) b.
Proof. intros HT (Hp & [HD _] & He). pose proof (freq_min _ _ _ _ Hp HD). lia. Qed.

(** A target below 244 kHz on a PLL other than C is not refused: [SET_PLLDIV]
    programs the values its variables are initialised with and returns
    12.5 MHz, above the target, with a PLL setting out of the range of the
    oscillator. *)
Theorem set_pll_divisor_too_low `{ClkLive n} dev P offs unit base freq st :
  calc_pll_num dev = (P, offs) → P ≤ 4 → P ≠ 2 → unit_base unit = Some base →
  u32 (freq * base) < 244000 → clk_on dev (ck_reg st) = true → Z.land (ck_reg st offs) 0xFF ≠ 32 →
  ∃ st', auto_pll_divisor n dev SET_PLLDIV unit freq st = Ok (12500000, st') ∧
    holds P offs 1 1 1 1 st' ∧ ¬ pll_ok 1 1 1.
Proof.
  intros Hdev HP HP2 Hu HT Hon H32.
  assert (wp (set_pll_divisor n dev unit freq) (λ r st', r = 12500000 ∧ holds P offs 1 1 1 1 st') st)
    as (r & st' & Hrun & -> & Hh)%wp_ok.
  { apply (wp_set_pll_search dev P offs Hdev HP _ base); [done|done|].
    pose proof (wrap_range 32 (freq * base) ltac:(lia)) as HTr.
    eapply wp_mono; [by apply divisor_search_spec|]. intros [[]|] b Hb.
    { by apply exact_too_low in Hb. }
    destruct Hb as [Hk _]. apply kept_too_low in Hk as ->; [|done|done]. split; [done|].
    exists 12500000. split; [done|]. split; [done|]. intros t w Hw. split; [done|].
    by apply (pll_writes_hold dev P offs Hdev HP pick_init). }
  exists st'. split_and!; [done|done|]. intros [_ _ _ [Hv _]]. by vm_compute in Hv.
Qed.

Lemma set_pll_divisor_too_low_witness :
  ∃ st', auto_pll_divisor 2 DEV_NA0 SET_PLLDIV 1 100 (demo_st 4) = Ok (12500000, st') ∧
    holds 1 0x358 1 1 1 1 st' ∧ ¬ pll_ok 1 1 1.
Proof.
  apply (set_pll_divisor_too_low (n := 2) DEV_NA0 1 0x358 1 1000 100 (demo_st 4)).
  - reflexivity.
  - lia.
  - discriminate.
  - reflexivity.
  - vm_compute. reflexivity.
  - reflexivity.
  - vm_compute. discriminate.
Defined.

(** ** Setting the PLL only *)

(** With divisor 0 the search divides by zero at the first setting it tries. *)
Lemma speed_search_zero P T : speed_search P T 0 pick_init = Err DivByZero.
Proof. reflexivity. Qed.

Lemma speed_reachable P T VD :
  0 ≤ T < 0xFF000000 → 1 ≤ VD → P = 2 ∨ freq_of 79 1 7 VD ≤ T → reachable P T (eq VD).
Proof.
  intros HT HV HP. assert (pll_ok 79 1 7) as Hp by by split.
  pose proof (freq_range _ _ _ VD Hp HV). exists 79, 1, 7, VD. rw /eligible /dist.
  split_and!; [done|done|done|lia].
Qed.

Lemma land_byte w : 0 ≤ Z.land w 0xFF ≤ 255.
Proof. rw (land_mod _ 8) //. pose proof (Z.mod_pos_bound w (2 ^ 8) ltac:(lia)). lia. Qed.

(** The first two steps, as an equation. *)
Lemma prepare_run `{ClkLive n} dev offs st :
  offs mod 4 = 0 →
  let D := Z.land (ck_reg st offs) 0xFF in
  ∃ t w, Z.land w 0xFF = D ∧ ∀ B (k : Z → M clkst B),
    (prepare_div n dev offs ;;; let! d := rd8 offs in k d) st = k D (after t [(offs, w)] st).
Proof.
  intros Hal D.
  assert (wp (prepare_div n dev offs) (λ _ st', ∃ t w, st' = after t [(offs, w)] st ∧
    Z.land w 0xFF = D) st) as ([] & ? & Hrun & t & w & -> & Hw)%wp_ok.
  { apply wp_prepare_after; [done|]. intros t w Hw. by exists t, w. }
  exists t, w. split; [done|]. intros B k. rw (bind_ok _ _ _ _ _ Hrun).
  rw /bind /rd8 Hal Z.sub_0_r Z.shiftr_0_r /= upd_eq Hw //.
Qed.

(** The rest of [set_pll_speed], for a divisor that is not 0. *)
Lemma speed_tail `{ClkLive n} dev P offs T D t w st :
  calc_pll_num dev = (P, offs) → P ≤ 4 → 0 ≤ T < 0xFF000000 → 1 ≤ D ≤ 255 →
  P = 2 ∨ freq_of 79 1 7 D ≤ T →
  ∃ b t', optimal P T (eq D) b ∧
    (let! b := run_search (speed_search P T D) in
     let! last := last_freq b D in
     wait_busy n ;;;
     wr32 (PMC_PLL + 4 * P) (pll_word (DIVF b) (DIVR b) (DIVQ b)) ;;;
     wait_busy n ;;;
     ret (s32 last)) (after t [(offs, w)] st) =
    Ok (freq_of (DIVF b) (DIVR b) (DIVQ b) D,
        after t' [(offs, w); (PMC_PLL + 4 * P, pll_word (DIVF b) (DIVR b) (DIVQ b))] st).
Proof.
  intros Hdev HP HT HD Hlow.
  match goal with |- ∃ b t', _ ∧ ?m ?s = _ =>
    assert (wp m (λ r st', ∃ b t, optimal P T (eq D) b ∧ r = freq_of (DIVF b) (DIVR b) (DIVQ b) D ∧
      st' = after t [(offs, w); (PMC_PLL + 4 * P, pll_word (DIVF b) (DIVR b) (DIVQ b))] st) s)
      as (r & st' & Hrun & b & t' & Hopt & -> & ->)%wp_ok; [|by exists b, t']
  end.
  wp_step. apply wp_run_search.
  eapply wp_mono; [apply (speed_search_optimal P T ltac:(lia) D); [lia|]|].
  { apply speed_reachable; [done|lia|done]. }
  intros r b Hopt. pose proof Hopt as (Hp & _). wp_step. eapply wp_reads; [by apply reads_last_freq|].
  pose proof (freq_range _ _ _ D Hp ltac:(lia)).
  wp_step. apply wp_wait_after. intros t1. wp_step. apply wp_write_after; [apply pll_reg_aligned|].
  wp_step. apply wp_wait_after. intros t2. apply wp_ret. rw s32_small; [lia|].
  rw (u32_small _ (pll_word_range _ _ _)). by exists b, t2.
Qed.

(** [SET_PLL] needs no enabled clock.  With divisor byte 0, which stands for
    32, it divides by zero.  Otherwise it keeps the divisor, sets the PLL to the
    best setting for that divisor and returns the frequency: on PLL C the
    nearest, on the others the highest that is not above the target, for every
    target the divisor can reach. *)
Theorem set_pll_speed_behaviour `{ClkLive n} dev P offs unit base freq st :
  calc_pll_num dev = (P, offs) → P ≤ 4 → unit_base unit = Some base →
  let T := u32 (freq * base) in
  let D := Z.land (ck_reg st offs) 0xFF in
  T < 0xFF000000 → P = 2 ∨ D = 0 ∨ freq_of 79 1 7 D ≤ T →
  if D =? 0 then auto_pll_divisor n dev SET_PLL unit freq st = Err DivByZero
  else ∃ F R Q st',
    auto_pll_divisor n dev SET_PLL unit freq st = Ok (freq_of F R Q D, st') ∧
    pll_ok F R Q ∧ ck_reg st' (PMC_PLL + 4 * P) = pll_word F R Q ∧
    Z.land (ck_reg st' offs) 0xFF = D ∧ (P ≠ 2 → freq_of F R Q D ≤ T) ∧
    ∀ F' R' Q', pll_ok F' R' Q' → (P ≠ 2 → freq_of F' R' Q' D ≤ T) →
      Z.abs (T - freq_of F R Q D) ≤ Z.abs (T - freq_of F' R' Q' D).
Proof.
  intros Hdev HP Hu T D HT Hlow. destruct (dev_regs dev P offs Hdev HP) as (HP4 & Hoffs & Hal).
  pose proof (pll_ne_div dev P offs Hdev HP) as Hne.
  pose proof (wrap_range 32 (freq * base) ltac:(lia)) as HTr.
  destruct (prepare_run (n := n) dev offs st Hal) as (t & w & Hw & Hrun).
  rw /auto_pll_divisor /set_pll_speed Hdev (proj2 (Z.eqb_neq P 5)); [lia|].
  rw (proj2 (Z.eqb_neq P 6)); [lia|]. rw Hrun Hu -/T -/D.
  destruct (Z.eqb_spec D 0) as [HD0|HD0].
  { by rw HD0 /run_search /bind speed_search_zero. }
  pose proof (land_byte (ck_reg st offs)) as HDr. fold D in HDr, Hw.
  destruct (speed_tail (n := n) dev P offs T D t w st) as (b & t' & (Hp & Hdb & He & Hbest) & ->);
    [done|done|split; [apply HTr|done]|lia| |].
  { destruct Hlow as [?|[?|?]]; [by left|done|by right]. }
  rw -Hdb in He Hbest.
  exists (DIVF b), (DIVR b), (DIVQ b), (after t' [(offs, w); (PMC_PLL + 4 * P, pll_word (DIVF b) (DIVR b) (DIVQ b))] st).
  rw /= upd_eq (upd_ne _ _ _ offs (not_eq_sym Hne)) upd_eq.
  split_and!; [done..| |].
  - intros HP2. by destruct He.
  - intros F' R' Q' Hp' He'. apply Hbest; [done|done|].
    destruct (decide (P = 2)); [by left|right; auto].
Qed.

Lemma set_pll_speed_behaviour_witness :
  ∃ F R Q st', auto_pll_divisor 2 DEV_NA0 SET_PLL 2 133 (demo_st 4) = Ok (freq_of F R Q 4, st') ∧
    freq_of F R Q 4 ≤ 133000000.
Proof.
  destruct (set_pll_speed_behaviour (n := 2) DEV_NA0 1 0x358 2 1000000 133 (demo_st 4))
    as (F & R & Q & st' & Hrun & _ & _ & _ & Hle & _).
  - reflexivity.
  - lia.
  - reflexivity.
  - vm_compute. reflexivity.
  - right. right. vm_compute. discriminate.
  - exists F, R, Q, st'. split; [exact Hrun|]. apply Hle. discriminate.
Defined.

(** ** Setting the divisor only *)

Lemma find_first {A} (f : A → bool) l x :
  List.find f l = Some x → ∃ pre suf, l = pre ++ x :: suf ∧ f x = true ∧ ∀ y, y ∈ pre → f y = false.
Proof.
  induction l as [|a l IH]; simpl; [done|]. destruct (f a) eqn:Ha.
  - intros [= ->]. exists [], l. split_and!; [done|done|]. intros y Hy. by apply not_elem_of_nil in Hy.
  - intros (pre & suf & -> & Hx & Hpre)%IH. exists (a :: pre), suf. split_and!; [done|done|].
    intros y [->|Hy]%elem_of_cons; auto.
Qed.

Lemma allowed_spec P D :
  1 ≤ D ≤ 32 → negb ((1 <? D) && negb (D mod 2 =? 0) && (P =? 2)) = true ↔ vd_dom P D.
Proof. intros HD. rw /vd_dom. lia. Qed.

(** The divisor that is found gives the highest frequency not above the target;
    when none is found, all are above it. *)
Lemma find_divisor_spec P scale PLL T :
  1 ≤ scale → 0 ≤ PLL →
  match find_divisor P scale PLL T with
  | Some D => vd_dom P D ∧ PLL / (D * scale) ≤ T ∧
      ∀ D', vd_dom P D' → PLL / (D' * scale) ≤ T → PLL / (D' * scale) ≤ PLL / (D * scale)
  | None => ∀ D', vd_dom P D' → T < PLL / (D' * scale)
  end.
Proof.
  intros Hs HPLL. destruct (find_divisor P scale PLL T) as [D|] eqn:Hf; rw /find_divisor in Hf.
  - destruct (find_first _ _ _ Hf) as (pre & suf & Hl & HD & Hpre).
    assert (D ∈ seqZ 1 32) as HDr%elem_of_seqZ by (rw Hl; apply elem_of_app; right; by left).
    apply andb_true_iff in HD as [Hal Hle%Z.leb_le]. apply allowed_spec in Hal; [|lia].
    split_and!; [apply Hal..|done|]. intros D' HD' Hle'.
    destruct (decide (D ≤ D')) as [Hge|Hlt]; [apply Z.div_le_compat_l; nia|].
    assert (D' ∈ pre) as Hin%Hpre by (eapply seqZ_before; [done|destruct HD'; lia]).
    apply andb_false_iff in Hin as [Hno|Hno]; [|lia].
    by rw (proj2 (allowed_spec P D' (proj1 HD'))) in Hno.
  - intros D' HD'. assert (In D' (seqZ 1 32)) as Hin.
    { apply list_elem_of_In, elem_of_seqZ. destruct HD'. lia. }
    pose proof (List.find_none _ _ Hf D' Hin) as [Hno|Hno]%andb_false_iff; [|lia].
    by rw (proj2 (allowed_spec P D' (proj1 HD'))) in Hno.
Qed.

(** The target in Hz, when it fits an [int]. *)
Lemma scale_freq_spec unit base freq :
  unit_base unit = Some base → 0 ≤ freq * base < 2147483648 → u32 (scale_freq unit freq) = freq * base.
Proof.
  rw /unit_base /scale_freq. intros Hu HT.
  destruct (unit =? 1), (unit =? 2), (unit =? 0); simplify_eq; rw ?s32_small // ?u32_small; lia.
Qed.

(** [SET_DIV] on an enabled clock. *)
Lemma set_divisor_run `{ClkLive n} dev P offs unit base freq st :
  calc_pll_num dev = (P, offs) → P ≤ 4 → unit_base unit = Some base →
  0 ≤ freq * base < 2147483648 → clk_on dev (ck_reg st) = true →
  let T := freq * base in
  let tmp := ck_reg st (PMC_PLL + 4 * P) in
  let PLL := u32 (pll_mult tmp / pll_div tmp * 1000000) in
  let j := is_sdmmc dev && (T <=? PLL / 64) in
  let f D := PLL / (D * (if j then 64 else 1)) in
  ∃ r st', auto_pll_divisor n dev SET_DIV unit freq st = Ok (r, st') ∧
    ck_reg st' (PMC_PLL + 4 * P) = tmp ∧ clk_on dev (ck_reg st') = true ∧
    ((∃ D, vd_dom P D ∧ r = f D ∧ f D ≤ T ∧ (∀ D', vd_dom P D' → f D' ≤ T → f D' ≤ f D) ∧
        ck_reg st' offs = div_value dev j D) ∨
     (r = -1 ∧ (∀ D', vd_dom P D' → T < f D') ∧
        Z.land (ck_reg st' offs) 0xFF = Z.land (ck_reg st offs) 0xFF)).
Proof.
  intros Hdev HP Hu HTr Hon T tmp PLL j f. destruct (dev_regs dev P offs Hdev HP) as (HP4 & Hoffs & Hal).
  pose proof (pll_ne_div dev P offs Hdev HP) as Hne. apply wp_ok.
  rw /auto_pll_divisor /set_divisor Hdev (proj2 (Z.eqb_neq P 5)); [lia|].
  rw (proj2 (Z.eqb_neq P 6)); [lia|].
  wp_step. apply wp_prepare_after; [done|]. intros t w Hw.
  wp_step. apply wp_rd32; [apply pll_reg_aligned|].
  assert (ck_reg (after t [(offs, w)] st) (PMC_PLL + 4 * P) = tmp) as -> by by apply upd_ne.
  wp_step. apply wp_udiv; [pose proof (pll_div_pos tmp); lia|].
  wp_step. apply wp_clk_enabled.
  assert (clk_on dev (ck_reg (after t [(offs, w)] st)) = true) as ->.
  { by rw /= (clk_on_upd dev P offs Hdev HP). }
  cbn [negb]. rw (scale_freq_spec _ _ _ Hu HTr) -/T -/PLL -/j.
  pose proof (find_divisor_spec P (if j then 64 else 1) PLL T) as Hf.
  destruct (find_divisor P (if j then 64 else 1) PLL T) as [D|].
  - destruct Hf as (Hd & Hle & Hbest); [by destruct j|by apply wrap_range|].
    wp_step. apply wp_wait_after. intros t1. wp_step. apply wp_write_after; [done|].
    wp_step. apply wp_wait_after. intros t2. apply wp_ret.
    assert (0 ≤ f D) as Hf0.
    { apply Z.div_pos; [by apply wrap_range|]. destruct Hd, j; lia. }
    fold (f D) in Hle |- *. rw s32_small; [lia|]. rw /= !upd_eq !(upd_ne _ _ _ _ Hne).
    split; [done|]. split; [by rw !(clk_on_upd dev P offs Hdev HP)|]. left. exists D. split_and!; try done; [apply Hd..|].
    apply u32_small. rw /div_value. destruct Hd, (is_sdtv dev), j, (D =? 32); lia.
  - apply wp_ret. rw /= upd_eq (upd_ne _ _ _ _ Hne). split; [done|].
    split; [by rw (clk_on_upd dev P offs Hdev HP)|]. right. split_and!; [done| |done].
    apply Hf; [by destruct j|by apply wrap_range].
Qed.

(** [SET_DIV] on an enabled clock leaves the PLL as it is and sets the divisor
    that gives the highest frequency not above the target, which it returns; it
    returns -1 and keeps the divisor exactly when every divisor is too fast.  The
    divisors are those with the further factor 64 of an SD controller when the
    target is at most a 64th of the PLL, and only those without it otherwise. *)
Theorem set_divisor_optimal `{ClkLive n} dev P offs unit base freq st :
  calc_pll_num dev = (P, offs) → P ≤ 4 → unit_base unit = Some base →
  0 ≤ freq * base < 2147483648 → clk_on dev (ck_reg st) = true →
  let T := freq * base in
  let tmp := ck_reg st (PMC_PLL + 4 * P) in
  let PLL := u32 (pll_mult tmp / pll_div tmp * 1000000) in
  let j := is_sdmmc dev && (T <=? PLL / 64) in
  let f D := PLL / (D * (if j then 64 else 1)) in
  ∃ r st', auto_pll_divisor n dev SET_DIV unit freq st = Ok (r, st') ∧
    ck_reg st' (PMC_PLL + 4 * P) = tmp ∧
    ((∃ D, vd_dom P D ∧ r = f D ∧ f D ≤ T ∧ (∀ D', vd_dom P D' → f D' ≤ T → f D' ≤ f D) ∧
        ck_reg st' offs = div_value dev j D) ∨
     (r = -1 ∧ (∀ D', vd_dom P D' → T < f D') ∧
        Z.land (ck_reg st' offs) 0xFF = Z.land (ck_reg st offs) 0xFF)).
Proof.
  intros Hdev HP Hu HTr Hon. cbv zeta.
  destruct (set_divisor_run dev P offs unit base freq st Hdev HP Hu HTr Hon) as (r & st' & Hrun & Ht & _ & Hres).
  by exists r, st'.
Qed.

Lemma set_divisor_optimal_witness :
  ∃ r st', auto_pll_divisor 2 DEV_NA0 SET_DIV 2 133 (demo_st 4) = Ok (r, st').
Proof.
  destruct (set_divisor_optimal (n := 2) DEV_NA0 1 0x358 2 1000000 133 (demo_st 4))
    as (r & st' & Hrun & _).
  - reflexivity.
  - lia.
  - reflexivity.
  - lia.
  - reflexivity.
  - exists r, st'. exact Hrun.
Defined.

(** An SD controller can run at a 64th of the PLL, 7.8 MHz here, but a target
    between that and a 32nd of the PLL is refused. *)
Example set_divisor_sd_gap :
  match auto_pll_divisor 2 DEV_SDMMC0 SET_DIV 2 10 (demo_st 4) with
  | Ok (r, st') => r = -1 ∧ rate (ck_reg (demo_st 4) 0x204) 64 = 7812500
  | Err _ => False
  end.
Proof. vm_compute. by split. Qed.

(** ** Setting everything by hand *)

(** [dev_div = 0], documented as no change of the divisor, divides by zero. *)
Theorem manu_pll_divisor_zero `{ClkLive n} dev P offs F R Q st :
  calc_pll_num dev = (P, offs) → P ≤ 4 → pll_ok F R Q →
  manu_pll_divisor n dev F R Q 0 st = Err DivByZero.
Proof.
  intros Hdev HP [HF HR HQ Hv]. pose proof (dev_regs dev P offs Hdev HP).
  rw /manu_pll_divisor (_ : manu_args_ok dev F R Q 0 = true).
  { rw /manu_args_ok (_ : 1000 / SRC_FREQ = 40) // (_ : 2000 / SRC_FREQ = 80) //.
    assert (R = 0 ∨ R = 1) as [-> | ->] by lia; destruct (is_sdmmc dev); simpl in *; lia. }
  rw /= Hdev (proj2 (Z.eqb_neq P 5)); [lia|]. rw /bind /rd8 Z.land_0_l !Z.mul_0_r. done.
Qed.

(** A device without a divisor is not refused: its PLL number, 6, selects a
    register past the PLLs, and offset 0 is written as its divisor. *)
Example manu_pll_divisor_no_divisor :
  match manu_pll_divisor 2 DEV_UART0 39 0 1 5 (demo_st 4) with
  | Ok (_, st') => ck_log st' = [(0x218, pll_word 39 0 1); (0, 5)]
  | Err _ => False
  end.
Proof. reflexivity. Qed.
