(* ===== verification/I2c.v ===== *)
(** * I2C controllers (u-boot/board/wmt/wmt_i2c.c, wmt_i2c_1.c)

    The two files are one driver for two controllers; they differ in a [bus]: the
    base address, the interrupt, the clock and the pads.  The driver polls: it calls
    its own interrupt handler until a flag is set.  Controller and pads answer reads
    as functions of the history of accesses, so the slaves on the bus may be
    anything. *)

From Stdlib Require Import ssreflect ZArith Lia ZifyBool.
From stdpp Require Import base tactics numbers list.
From S2P Require Import Prelude WmtClk.

Set Default Goal Selector "!".
Open Scope general_if_scope.
#[local] Open Scope Z_scope.

(** ** Registers (include/i2c.h) *)

Inductive I2C_REG := IICCR | IICTCR | IICSR | IICISR | IICIMR | IICDR | IICTR | IICDIV.
#[export] Instance I2C_REG_eq_dec : EqDecision I2C_REG.
Proof. solve_decision. Defined.

Definition I2C_CR_CPU_RDY : Z := 0x0008.
Definition I2C_CR_TX_END : Z := 0x0004.
Definition I2C_CR_TX_NEXT_NO_ACK : Z := 0x0002.
Definition I2C_CR_ENABLE : Z := 0x0001.
Definition I2C_TCR_HS_MODE : Z := 0x2000.
Definition I2C_TCR_STANDARD_MODE : Z := 0x0000.
Definition I2C_TCR_FAST_MODE : Z := 0x8000.
Definition I2C_TCR_MASTER_WRITE : Z := 0x0000.
Definition I2C_TCR_MASTER_READ : Z := 0x4000.
Definition I2C_TCR_SLAVE_ADDR_MASK : Z := 0x007F.
Definition I2C_READY : Z := 0x0002.
Definition I2C_STATUS_MASK : Z := 0x0002.
Definition I2C_CSR_RCV_NOT_ACK : Z := 0x0001.
Definition I2C_CSR_RCV_ACK_MASK : Z := 0x0001.
Definition I2C_ISR_SCL_TIME_OUT : Z := 0x0004.
Definition I2C_ISR_BYTE_END : Z := 0x0002.
Definition I2C_ISR_NACK_ADDR : Z := 0x0001.
Definition I2C_ISR_ALL_WRITE_CLEAR : Z := 0x0007.
Definition I2C_IMR_ALL_ENABLE : Z := 0x0007.
Definition I2C_CDR_DATA_WRITE_MASK : Z := 0x00FF.
Definition I2C_TR_STD_VALUE : Z := 0x8064.
Definition I2C_TR_FAST_VALUE : Z := 0x8019.
Definition HS_MASTER_CODE : Z := 0x0800.
Definition I2C_M_RD : Z := 0x01.
Definition I2C_M_WR : Z := 0x00.

Inductive i2c_mode_s := I2C_STANDARD_MODE | I2C_FAST_MODE | I2C_HS_MODE.

(** What a file has of its own. *)
Record bus := Bus { bus_base : Z; bus_irq : Z; bus_dev : dev_id; bus_pins : Z; bus_pull_en : Z; bus_pull_up : Z }.
Definition i2c0 : bus := Bus 0xD8280000 19 DEV_I2C0 (Z.lor 0x1 0x2) (Z.lor 0x1 0x2) (Z.lor 0x1 0x2).
Definition i2c1 : bus := Bus 0xD8320000 18 DEV_I2C1 (Z.lor 0x4 0x8) (Z.lor 0x8 0x4) (Z.lor 0x4 0x8).

(** ** State *)

Inductive i2c_event :=
| RegR (r : I2C_REG) (v : Z)
| RegW (r : I2C_REG) (v : Z)
| PadR (a v : Z)
| PadW (a v : Z)
| Delay (us : Z).      (** [wmt_delayus] *)

Class I2cHw := {
  reg_read : list i2c_event → I2C_REG → Z;
  pad_read : list i2c_event → Z → Z;
  calloc_ok : list (list Z) → Z → bool;   (** whether the heap has the room *)
  stack_byte : list i2c_event → Z         (** an uninitialised local *)
}.

(** A pointer to the start of a buffer; [None] is [NULL]. *)
Abbreviation ptr := (option nat).

Record i2c_s := I2cS {
  regs : option Z;
  irq_no : Z;
  i2c_mode : i2c_mode_s;
  isr_nack : Z;
  isr_byte_end : Z;
  isr_timeout : Z
}.
Record i2c_msg_s := I2cMsg { m_addr : Z; m_flags : Z; m_len : Z; m_buf : ptr }.

Record i2cst := I2cSt {
  ic_hist : list i2c_event;
  ic_mem : list (list Z);       (** the buffers *)
  ic_i2c : i2c_s;               (** [i2c] *)
  ic_xfer_mode : i2c_mode_s;    (** [i2c_xfer_mode] *)
  ic_clk : clkst                (** the clock driver *)
}.

Definition ic_emit ev st := I2cSt (ic_hist st ++ [ev]) (ic_mem st) (ic_i2c st) (ic_xfer_mode st) (ic_clk st).
Definition ic_set_mem v st := I2cSt (ic_hist st) v (ic_i2c st) (ic_xfer_mode st) (ic_clk st).
Definition ic_set_i2c v st := I2cSt (ic_hist st) (ic_mem st) v (ic_xfer_mode st) (ic_clk st).
Definition ic_set_clk st v := I2cSt (ic_hist st) (ic_mem st) (ic_i2c st) (ic_xfer_mode st) v.
Definition on_clk {A} (m : M clkst A) : M i2cst A := zoom ic_clk ic_set_clk m.

(** [i2c.isr_nack = a; i2c.isr_byte_end = b; i2c.isr_timeout = c;] *)
Definition set_isr (a b c : Z) : M i2cst unit :=
  modify (λ st, let s := ic_i2c st in ic_set_i2c (I2cS (regs s) (irq_no s) (i2c_mode s) a b c) st).

Definition RETRY_TIME : Z := 3.
Definition BUSY_TIMEOUT : Z := 30000.
Definition ISR_TIMEOUT : Z := 500000.

Section i2c.
Context {hw : I2cHw} {chw : ClkHw}.

(** [i2c.regs->r] *)
Definition reg_rd (r : I2C_REG) : M i2cst Z := λ st,
  match regs (ic_i2c st) with
  | None => Err NullDeref
  | Some _ => let v := u16 (reg_read (ic_hist st) r) in Ok (v, ic_emit (RegR r v) st)
  end.
Definition reg_wr (r : I2C_REG) (v : Z) : M i2cst unit := λ st,
  match regs (ic_i2c st) with
  | None => Err NullDeref
  | Some _ => Ok (tt, ic_emit (RegW r (u16 v)) st)
  end.
(** [|=] and [&= ~] *)
Definition reg_or (r : I2C_REG) (v : Z) : M i2cst unit :=
  let! w := reg_rd r in reg_wr r (Z.lor w v).
Definition reg_andn (r : I2C_REG) (v : Z) : M i2cst unit :=
  let! w := reg_rd r in reg_wr r (Z.land w (Z.lnot v)).

Definition pad_rd (a : Z) : M i2cst Z := λ st,
  let v := u8 (pad_read (ic_hist st) a) in Ok (v, ic_emit (PadR a v) st).
Definition pad_wr (a v : Z) : M i2cst unit := modify (ic_emit (PadW a (u8 v))).
Definition wmt_delayus (us : Z) : M i2cst unit := modify (ic_emit (Delay us)).

(** [buf[i]] *)
Definition buf_get (b : ptr) (i : Z) : M i2cst Z := λ st,
  match b with
  | None => Err NullDeref
  | Some b => match ic_mem st !! b with
              | Some l => if decide (0 ≤ i < Z.of_nat (length l)) then Ok (nth (Z.to_nat i) l 0, st)
                          else Err OutOfBounds
              | None => Err OutOfBounds
              end
  end.
Definition buf_set (b : ptr) (i v : Z) : M i2cst unit := λ st,
  match b with
  | None => Err NullDeref
  | Some b => match ic_mem st !! b with
              | Some l => if decide (0 ≤ i < Z.of_nat (length l))
                          then Ok (tt, ic_set_mem (<[b := <[Z.to_nat i := u8 v]> l]> (ic_mem st)) st)
                          else Err OutOfBounds
              | None => Err OutOfBounds
              end
  end.

(** [calloc(n, sizeof(unsigned char * ))]; a buffer is not used again after [free]. *)
Definition calloc (n : Z) : M i2cst ptr := λ st,
  let size := u32 (u32 n * 4) in
  if calloc_ok (ic_mem st) size
  then Ok (Some (length (ic_mem st)), ic_set_mem (ic_mem st ++ [replicate (Z.to_nat size) 0]) st)
  else Ok (None, st).

(** ** Transfers *)

Definition i2c_wait_bus_not_busy : M i2cst Z :=
  let! timeout := loopM (Z.to_nat BUSY_TIMEOUT) (λ timeout,
    let! v := reg_rd IICSR in
    if Z.land v I2C_STATUS_MASK =? I2C_READY then ret (inr timeout) else
    if timeout - 1 =? 0 then ret (inr (timeout - 1)) else ret (inl (timeout - 1))) BUSY_TIMEOUT in
  if timeout =? 0 then ret (-1) else ret 0.

Definition i2c_irq_handler : M i2cst unit :=
  let! isr_status := reg_rd IICISR in
  let! st := get in
  let s := ic_i2c st in
  if negb (Z.land isr_status I2C_ISR_NACK_ADDR =? 0) then
    reg_wr IICISR I2C_ISR_NACK_ADDR ;;;
    let! _ := reg_rd IICSR in
    set_isr 1 (isr_byte_end s) (isr_timeout s)
  else if negb (Z.land isr_status I2C_ISR_BYTE_END =? 0) then
    reg_wr IICISR I2C_ISR_BYTE_END ;;;
    set_isr (isr_nack s) 1 (isr_timeout s)
  else if negb (Z.land isr_status I2C_ISR_SCL_TIME_OUT =? 0) then
    reg_wr IICISR I2C_ISR_SCL_TIME_OUT ;;;
    set_isr (isr_nack s) (isr_byte_end s) 1
  else ret tt.

(** The inner loop of both transfers: what is left of [timeout]. *)
Definition wait_isr : M i2cst Z :=
  loopM (Z.to_nat ISR_TIMEOUT) (λ timeout,
    i2c_irq_handler ;;;
    let! st := get in
    let s := ic_i2c st in
    if (isr_nack s =? 1) || (isr_byte_end s =? 1) || (isr_timeout s =? 1) then ret (inr timeout) else
    if timeout - 1 =? 0 then ret (inr (timeout - 1)) else ret (inl (timeout - 1))) ISR_TIMEOUT.

Definition tcr_value (mode : i2c_mode_s) (dir slave_addr : Z) : Z :=
  u16 (Z.lor (Z.lor (match mode with
                     | I2C_STANDARD_MODE => I2C_TCR_STANDARD_MODE
                     | I2C_FAST_MODE => I2C_TCR_FAST_MODE
                     | I2C_HS_MODE => I2C_TCR_HS_MODE
                     end) dir) (Z.land slave_addr I2C_TCR_SLAVE_ADDR_MASK)).

(** One round of the loop over the bytes: [inr 0] is [break]. *)
Definition write_step (buf : ptr) (length : Z) (last : bool) (xfer_length : Z) : M i2cst (Z + Z) :=
  let! timeout := wait_isr in
  let! st := get in
  let s := ic_i2c st in
  if timeout =? 0 then ret (inr (-1)) else
  if isr_nack s =? 1 then ret (inr (-1)) else
  if isr_timeout s =? 1 then ret (inr (-1)) else
  let xfer_length := if isr_byte_end s =? 1 then xfer_length + 1 else xfer_length in
  set_isr 0 0 0 ;;;
  let! v := reg_rd IICSR in
  if Z.land v I2C_CSR_RCV_ACK_MASK =? I2C_CSR_RCV_NOT_ACK then ret (inr (-1)) else
  if xfer_length <? length then
    let! b := buf_get buf xfer_length in
    reg_wr IICDR (Z.land b I2C_CDR_DATA_WRITE_MASK) ;;;
    reg_wr IICCR (Z.lor I2C_CR_CPU_RDY I2C_CR_ENABLE) ;;;
    ret (inl xfer_length)
  else if length =? xfer_length then
    if (last : bool) then
      wmt_delayus 2 ;;;
      reg_or IICCR I2C_CR_TX_END ;;;
      ret (inr 0)
    else
      reg_wr IICCR I2C_CR_ENABLE ;;;
      ret (inr 0)
  else ret (inr (-1)).
Definition write_loop (buf : ptr) (length : Z) (last : bool) : M i2cst Z :=
  loopM (S (Z.to_nat length)) (write_step buf length last) 0.

Definition i2c_write_msg (slave_addr : Z) (buf : ptr) (length : Z) (restart last : bool) : M i2cst Z :=
  if length =? 0 then ret (-1) else
  set_isr 0 0 0 ;;;
  let! b := buf_get buf 0 in
  reg_wr IICDR (Z.land b I2C_CDR_DATA_WRITE_MASK) ;;;
  let! st := get in
  let mode := i2c_mode (ic_i2c st) in
  (match mode with I2C_HS_MODE => reg_wr IICDIV HS_MASTER_CODE | _ => ret tt end) ;;;
  reg_wr IICTCR (tcr_value mode I2C_TCR_MASTER_WRITE slave_addr) ;;;
  (if (restart : bool) then reg_or IICCR I2C_CR_CPU_RDY else ret tt) ;;;
  let! rc := write_loop buf length last in
  if rc <? 0 then ret rc else
  reg_andn IICCR (Z.lor I2C_CR_TX_END I2C_CR_CPU_RDY) ;;;
  ret 0.

Definition read_step (buf : ptr) (length xfer_length : Z) : M i2cst (Z + Z) :=
  let! timeout := wait_isr in
  let! st := get in
  let s := ic_i2c st in
  if isr_nack s =? 1 then ret (inr (-1)) else
  if isr_timeout s =? 1 then ret (inr (-1)) else
  if timeout =? 0 then ret (inr (-1)) else
  let! xfer_length :=
    (if isr_byte_end s =? 1 then
       let! v := reg_rd IICDR in
       buf_set buf xfer_length (Z.shiftr v 8) ;;;
       ret (xfer_length + 1)
     else ret xfer_length) in
  set_isr 0 0 0 ;;;
  if xfer_length <? length then
    (if length - 1 =? xfer_length then reg_or IICCR (Z.lor I2C_CR_TX_NEXT_NO_ACK I2C_CR_CPU_RDY)
     else reg_or IICCR I2C_CR_CPU_RDY) ;;;
    ret (inl xfer_length)
  else if length =? xfer_length then ret (inr 0)
  else ret (inr (-1)).
Definition read_loop (buf : ptr) (length : Z) : M i2cst Z :=
  loopM (S (Z.to_nat length)) (read_step buf length) 0.

Definition i2c_read_msg (slave_addr : Z) (buf : ptr) (length : Z) (restart : bool) : M i2cst Z :=
  if length =? 0 then ret (-1) else
  set_isr 0 0 0 ;;;
  let! st := get in
  reg_wr IICTCR (tcr_value (i2c_mode (ic_i2c st)) I2C_TCR_MASTER_READ slave_addr) ;;;
  (if (restart : bool) then reg_or IICCR I2C_CR_CPU_RDY else ret tt) ;;;
  (if length =? 1 then reg_or IICCR I2C_CR_TX_NEXT_NO_ACK else ret tt) ;;;
  let! rc := read_loop buf length in
  if rc <? 0 then ret rc else
  reg_andn IICCR (Z.lor I2C_CR_TX_NEXT_NO_ACK I2C_CR_CPU_RDY) ;;;
  ret 0.

(** One round of the loop over the messages, which runs while [ret >= 0]. *)
Definition xfer_step (msgs : list i2c_msg_s) (num : Z) : Z * Z → M i2cst (Z * Z + Z) := λ '(i, rc),
  if (0 <=? rc) && (i <? num) then
    let last := i + 1 =? num in
    let restart := negb (i =? 0) in
    match msgs !! Z.to_nat i with
    | None => fail OutOfBounds
    | Some pmsg =>
        let! rc := (if negb (Z.land (m_flags pmsg) I2C_M_RD =? 0)
                    then i2c_read_msg (m_addr pmsg) (m_buf pmsg) (m_len pmsg) restart
                    else i2c_write_msg (m_addr pmsg) (m_buf pmsg) (m_len pmsg) restart last) in
        ret (inl (i + 1, rc))
    end
  else ret (inr (if rc <? 0 then rc else i)).

Definition i2c_do_xfer (msgs : list i2c_msg_s) (num : Z) : M i2cst Z :=
  let! rc := i2c_wait_bus_not_busy in
  if rc <? 0 then ret rc else
  loopM (S (Z.to_nat num)) (xfer_step msgs num) (0, rc).

Definition i2c_transfer (msgs : list i2c_msg_s) (num : Z) : M i2cst Z :=
  loopM (S (Z.to_nat RETRY_TIME)) (λ i,
    if 0 <? i then
      let! rc := i2c_do_xfer msgs num in
      if 0 <? rc then ret (inr rc) else ret (inl (i - 1))
    else
      wmt_delayus 100 ;;;
      ret (inr (-1))) RETRY_TIME.

(** ** The functions of the driver *)

Definition i2c_probe (addr : Z) : Z := let rc := 1 in if rc =? 0 then 0 else 1.

Definition i2c_read (chip addr alen : Z) (buffer : ptr) (len : Z) : M i2cst Z :=
  let! reg_idx := calloc alen in
  let wr := I2cMsg chip I2C_M_WR (u16 alen) reg_idx in
  let rd := I2cMsg chip I2C_M_RD (u16 len) buffer in
  (if 0 <? alen then i2c_transfer [wr] 1 else ret 0) ;;;
  let! rc := i2c_transfer [rd] 1 in
  ret (if rc =? 1 then 0 else -1).

(** [addr >> n] for an unsigned int. *)
Definition shr32 (x n : Z) : M i2cst Z := if (0 <=? n) && (n <? 32) then ret (Z.shiftr x n) else fail BadShift.

(** The message: the address, its high byte first, and the data. *)
Definition fill_step (buf : ptr) (addr alen : Z) (buffer : ptr) (length i : Z) : M i2cst (Z + unit) :=
  if negb (i <? length) then ret (inr tt) else
  (if i <? u32 alen then
     let! v := shr32 addr (i * 8) in
     buf_set buf (alen - i - 1) (Z.land v 0xFF)
   else
     let! v := buf_get buffer (i - alen) in
     buf_set buf i v) ;;;
  ret (inl (i + 1)).
Definition fill_message (buf : ptr) (addr alen : Z) (buffer : ptr) (length : Z) : M i2cst unit :=
  loopM (S (Z.to_nat length)) (fill_step buf addr alen buffer length) 0.

Definition i2c_write (chip addr alen : Z) (buffer : ptr) (len : Z) : M i2cst Z :=
  let length := u32 (len + alen) in
  let! buf := calloc length in
  fill_message buf addr alen buffer length ;;;
  let! rc := i2c_transfer [I2cMsg chip I2C_M_WR (u16 length) buf] 1 in
  ret (if rc =? 1 then 0 else -1).

(** A local variable of one byte. *)
Definition local_byte (v : Z) : M i2cst ptr := λ st,
  Ok (Some (length (ic_mem st)), ic_set_mem (ic_mem st ++ [[u8 v]]) st).

Definition i2c_reg_read (i2c_addr reg : Z) : M i2cst Z :=
  let! st := get in
  let! buf := local_byte (stack_byte (ic_hist st)) in
  i2c_read i2c_addr reg 1 buf 1 ;;;
  buf_get buf 0.

Definition i2c_reg_write (i2c_addr reg val : Z) : M i2cst unit :=
  let! buf := local_byte val in
  i2c_write i2c_addr reg 1 buf 1 ;;;
  ret tt.

(** ** Initialisation *)

Definition GPIO_CTRL_I2C : Z := 0xD8110055.
Definition GPIO_PAD_EN_I2C : Z := 0xD8110495.
Definition GPIO_PAD_PU_I2C : Z := 0xD81104D5.

(** [n] bounds the waits of the clock driver. *)
Definition i2c_init (n : nat) (p : bus) : M i2cst unit :=
  on_clk (auto_pll_divisor n (bus_dev p) CLK_ENABLE 0 0) ;;;
  on_clk (auto_pll_divisor n (bus_dev p) SET_DIV 2 20) ;;;
  modify (λ st, ic_set_i2c (I2cS (Some (bus_base p)) (bus_irq p) (ic_xfer_mode st) 0 0 0) st) ;;;
  let! v := pad_rd GPIO_CTRL_I2C in
  pad_wr GPIO_CTRL_I2C (Z.land v (Z.lnot (bus_pins p))) ;;;
  pad_wr GPIO_PAD_EN_I2C (bus_pull_en p) ;;;
  pad_wr GPIO_PAD_PU_I2C (bus_pull_up p) ;;;
  reg_wr IICCR 0 ;;;
  reg_wr IICDIV 12 ;;;
  reg_wr IICISR I2C_ISR_ALL_WRITE_CLEAR ;;;
  reg_wr IICIMR I2C_IMR_ALL_ENABLE ;;;
  reg_wr IICCR I2C_CR_ENABLE ;;;
  let! _ := reg_rd IICSR in
  reg_wr IICISR I2C_ISR_ALL_WRITE_CLEAR ;;;
  let! st := get in
  match i2c_mode (ic_i2c st) with
  | I2C_STANDARD_MODE => reg_wr IICTR I2C_TR_STD_VALUE
  | I2C_FAST_MODE => reg_wr IICTR I2C_TR_FAST_VALUE
  | I2C_HS_MODE => ret tt
  end.

End i2c.
