(* ===== verification/I2cProto.v ===== *)
(** * What the I2C driver does on its bus

    The exchanges of the driver of I2c with its controller, as predicates on the
    accesses: the end of a byte, a message sent, a message received, an attempt.
    Nothing is assumed of the controller or the slaves: the waits are bounded, so
    every transfer returns, and a result other than -1 says that the accesses were
    such an exchange. *)

From Stdlib Require Import ssreflect ZArith Lia ZifyBool.
From stdpp Require Import base tactics numbers list.
From S2P Require Import Prelude Crc32 WmtClk ClkRef ClkPll I2c.

Set Default Goal Selector "!".
Open Scope general_if_scope.
#[local] Open Scope Z_scope.

(** ** Exchanges *)

(** The polls up to the end of a byte, which the driver clears. *)
Definition byte_done (e : list i2c_event) : Prop := ∃ quiet v,
  Forall (λ q, Z.land q 7 = 0) quiet ∧ Z.land v 1 = 0 ∧ Z.land v 2 ≠ 0 ∧
  e = (RegR IICISR <$> quiet) ++ [RegR IICISR v; RegW IICISR 2].

(** The end of a message that is sent: the stop condition, or the bus is kept. *)
Definition finish (last : bool) (c : Z) : list i2c_event :=
  if last then [Delay 2; RegR IICCR c; RegW IICCR (u16 (Z.lor c 4))] else [RegW IICCR 1].

(** The bytes [bs] after the one that is being sent: each goes out when the one
    before has been acknowledged. *)
Inductive sent (last : bool) : list Z → list i2c_event → Prop :=
| sent_last e s c : byte_done e → Z.land s 1 = 0 → sent last [] (e ++ [RegR IICSR s] ++ finish last c)
| sent_next e s b bs e' : byte_done e → Z.land s 1 = 0 → sent last bs e' →
    sent last (b :: bs) (e ++ [RegR IICSR s; RegW IICDR b; RegW IICCR 9] ++ e').

(** The bytes that arrive; the last but one is followed by the order not to
    acknowledge the next. *)
Inductive received : list Z → list i2c_event → Prop :=
| rcv_last e v : byte_done e → received [u8 (Z.shiftr v 8)] (e ++ [RegR IICDR v])
| rcv_next e v c ds e' : byte_done e → received ds e' →
    received (u8 (Z.shiftr v 8) :: ds)
      (e ++ [RegR IICDR v; RegR IICCR c; RegW IICCR (u16 (Z.lor c (if decide (length ds = 1%nat) then 10 else 8)))] ++ e').

Definition restarts (restart : bool) (e : list i2c_event) : Prop :=
  if restart then ∃ c, e = [RegR IICCR c; RegW IICCR (u16 (Z.lor c 8))] else e = [].

(** A message of the bytes [bs] to the slave. *)
Definition writes_msg (mode : i2c_mode_s) (slave : Z) (bs : list Z) (restart last : bool)
    (e : list i2c_event) : Prop := ∃ b bs' r e' c,
  bs = b :: bs' ∧ restarts restart r ∧ sent last bs' e' ∧
  e = [RegW IICDR b] ++
      (match mode with I2C_HS_MODE => [RegW IICDIV 0x800] | _ => [] end) ++
      [RegW IICTCR (tcr_value mode 0 slave)] ++ r ++ e' ++
      [RegR IICCR c; RegW IICCR (u16 (Z.land c (Z.lnot 12)))].

(** A message of the bytes [ds] from the slave. *)
Definition reads_msg (mode : i2c_mode_s) (slave : Z) (ds : list Z) (restart : bool)
    (e : list i2c_event) : Prop := ∃ r n e' c,
  restarts restart r ∧ received ds e' ∧
  (if decide (length ds = 1%nat) then ∃ c, n = [RegR IICCR c; RegW IICCR (u16 (Z.lor c 2))] else n = []) ∧
  e = [RegW IICTCR (tcr_value mode 0x4000 slave)] ++ r ++ n ++ e' ++
      [RegR IICCR c; RegW IICCR (u16 (Z.land c (Z.lnot 10)))].

(** The wait for a free bus. *)
Definition bus_free (e : list i2c_event) : Prop := ∃ busy v,
  Forall (λ b, Z.land b 2 = 0) busy ∧ Z.land v 2 = 2 ∧ e = RegR IICSR <$> busy ++ [v].

(** A transfer of one message that succeeds: attempts that fail, and one that does
    not. *)
Definition transferred (msg : list i2c_event → Prop) (e : list i2c_event) : Prop :=
  ∃ e0 w e1, bus_free w ∧ msg e1 ∧ e = e0 ++ w ++ e1.

Lemma received_bytes ds e : received ds e → Forall is_byte ds.
Proof. induction 1; constructor; try done; by apply (wrap_range 8). Qed.

(** The bytes given to the controller. *)
Definition data_in (P : Z → Prop) (e : list i2c_event) : Prop :=
  Forall (λ ev, match ev with RegW IICDR v => P v | _ => True end) e.

Lemma data_in_app P e e' : data_in P e → data_in P e' → data_in P (e ++ e').
Proof. intros H H'. by apply Forall_app. Qed.

Lemma data_in_reads P r vs : data_in P (RegR r <$> vs).
Proof. by apply Forall_fmap, Forall_true. Qed.

Create HintDb i2c.
Ltac data_in :=
  repeat lazymatch goal with
  | |- data_in _ (_ ++ _) => apply data_in_app
  | |- data_in _ (RegR _ <$> _) => apply data_in_reads
  | |- data_in _ [] => constructor
  | |- data_in _ (_ :: _) => constructor
  | |- Forall _ [] => constructor
  | |- Forall _ (_ :: _) => constructor
  end; try done; eauto 3 with i2c.

Lemma data_byte_done P e : byte_done e → data_in P e.
Proof. intros (quiet & v & _ & _ & _ & ->). data_in. Qed.
#[local] Hint Resolve data_byte_done : i2c.

Lemma data_bus_free P e : bus_free e → data_in P e.
Proof. intros (busy & v & _ & _ & ->). apply data_in_reads. Qed.

Lemma data_sent P last bs e : sent last bs e → Forall P bs → data_in P e.
Proof.
  induction 1 as [e s c Hd Hs|e s b bs e' Hd Hs Hsent IH]; intros HP.
  - rw /finish. destruct last; data_in.
  - apply Forall_cons in HP as [Hb HP]. data_in.
Qed.

Lemma data_received P ds e : received ds e → data_in P e.
Proof. induction 1; data_in. Qed.
#[local] Hint Resolve data_received data_sent : i2c.

Lemma data_restarts P restart e : restarts restart e → data_in P e.
Proof. rw /restarts. destruct restart; [intros [c ->]|intros ->]; data_in. Qed.
#[local] Hint Resolve data_restarts : i2c.

Lemma data_writes P mode slave bs restart last e : writes_msg mode slave bs restart last e → Forall P bs → data_in P e.
Proof.
  intros (b & bs' & r & e' & c & -> & Hr & Hs & ->) [Hb HP]%Forall_cons. destruct mode; data_in.
Qed.

Lemma data_reads P mode slave ds restart e : reads_msg mode slave ds restart e → data_in P e.
Proof.
  intros (r & n & e' & c & Hr & Hs & Hn & ->). assert (data_in P n).
  { destruct (decide _); [destruct Hn as [c' ->]|subst n]; data_in. }
  data_in.
Qed.
#[local] Hint Resolve data_writes data_reads data_bus_free : i2c.

(** *** Several messages *)

Definition is_read (msg : i2c_msg_s) : bool := negb (Z.land (m_flags msg) I2C_M_RD =? 0).

(** The messages of an attempt, with what they make of the buffers. *)
Inductive exchanges (mode : i2c_mode_s) :
  bool → list i2c_msg_s → list (list Z) → list i2c_event → list (list Z) → Prop :=
| ex_nil restart mem : exchanges mode restart [] mem [] mem
| ex_write restart msg msgs mem p l e e' mem' :
    is_read msg = false → m_buf msg = Some p → mem !! p = Some l →
    writes_msg mode (m_addr msg) (take (Z.to_nat (m_len msg)) l) restart (bool_decide (msgs = [])) e →
    exchanges mode true msgs mem e' mem' → exchanges mode restart (msg :: msgs) mem (e ++ e') mem'
| ex_read restart msg msgs mem p l ds e e' mem' :
    is_read msg = true → m_buf msg = Some p → mem !! p = Some l →
    reads_msg mode (m_addr msg) ds restart e → length ds = Z.to_nat (m_len msg) →
    exchanges mode true msgs (<[p := ds ++ drop (length ds) l]> mem) e' mem' →
    exchanges mode restart (msg :: msgs) mem (e ++ e') mem'.

(** The memory may differ in the buffers of the messages that read. *)
Record reads_into (msgs : list i2c_msg_s) (mem mem' : list (list Z)) : Prop := {
  ri_lengths : length <$> mem' = length <$> mem;
  ri_bytes : Forall (Forall is_byte) mem → Forall (Forall is_byte) mem';
  ri_others p : (∀ msg, msg ∈ msgs → is_read msg = true → m_buf msg ≠ Some p) → mem' !! p = mem !! p
}.

Lemma reads_into_refl msgs mem : reads_into msgs mem mem.
Proof. by split. Qed.

Lemma reads_into_trans msgs mem mem' mem'' :
  reads_into msgs mem mem' → reads_into msgs mem' mem'' → reads_into msgs mem mem''.
Proof.
  intros [L1 B1 O1] [L2 B2 O2]. split; [congruence|auto|]. intros p Hp. rw O2 // O1 //.
Qed.

Lemma reads_into_insert msgs mem msg p l l' :
  msg ∈ msgs → is_read msg = true → m_buf msg = Some p → mem !! p = Some l → length l' = length l →
  (Forall is_byte l → Forall is_byte l') → reads_into msgs mem (<[p := l']> mem).
Proof.
  intros Hin Hr Hb Hl Hlen Hbytes. split.
  - rw list_fmap_insert Hlen list_insert_id // list_lookup_fmap Hl //.
  - intros HF. apply Forall_insert; [done|]. eapply Forall_lookup_1 in HF; [|done]. auto.
  - intros q Hq. rw list_lookup_insert_ne //. intros ->. by eapply Hq.
Qed.

(** A buffer for a message. *)
Definition msg_ok (mem : list (list Z)) (msg : i2c_msg_s) : Prop := ∃ p l,
  m_buf msg = Some p ∧ mem !! p = Some l ∧ 0 ≤ m_len msg ≤ Z.of_nat (length l).

Lemma msg_ok_into msgs mem mem' msg : reads_into msgs mem mem' → msg_ok mem msg → msg_ok mem' msg.
Proof.
  intros [HL _ _] (p & l & Hp & Hl & Hlen).
  assert ((length <$> mem') !! p = Some (length l)) as Hm by by rw HL list_lookup_fmap Hl.
  rw list_lookup_fmap in Hm. destruct (mem' !! p) as [l'|] eqn:Hl'; [|done]. simpl in Hm. injection Hm as Hm.
  exists p, l'. by rw Hm.
Qed.

Section proto.
Context {hw : I2cHw} {chw : ClkHw}.
Context (P : Z → Prop) (h0 : list i2c_event) (base irq : Z) (mode : i2c_mode_s) (xm : i2c_mode_s) (clk : clkst).

(** The states of a run from the history [h0] on. *)
Definition mk (e : list i2c_event) (mem : list (list Z)) (a b c : Z) : i2cst :=
  I2cSt (h0 ++ e) mem (I2cS (Some base) irq mode a b c) xm clk.

Section steps.
Context (e : list i2c_event) (mem : list (list Z)) (a b c : Z).

Lemma wp_reg_rd r (Q : Z → i2cst → Prop) :
  (∀ v, 0 ≤ v < 65536 → Q v (mk (e ++ [RegR r v]) mem a b c)) → wp (reg_rd r) Q (mk e mem a b c).
Proof.
  intros HQ. rw /wp /reg_rd /= /ic_emit /=. rw -app_assoc. apply HQ. by apply (wrap_range 16).
Qed.

Lemma wp_reg_wr r v (Q : unit → i2cst → Prop) :
  Q tt (mk (e ++ [RegW r (u16 v)]) mem a b c) → wp (reg_wr r v) Q (mk e mem a b c).
Proof. rw /wp /reg_wr /= /ic_emit /=. by rw -app_assoc. Qed.

Lemma wp_delay us (Q : unit → i2cst → Prop) :
  Q tt (mk (e ++ [Delay us]) mem a b c) → wp (wmt_delayus us) Q (mk e mem a b c).
Proof. rw /wp /wmt_delayus /modify /= /ic_emit /=. by rw -app_assoc. Qed.

Lemma wp_set_isr a' b' c' (Q : unit → i2cst → Prop) :
  Q tt (mk e mem a' b' c') → wp (set_isr a' b' c') Q (mk e mem a b c).
Proof. done. Qed.

Lemma wp_buf_get p l i (Q : Z → i2cst → Prop) :
  mem !! p = Some l → 0 ≤ i < Z.of_nat (length l) → Q (nth (Z.to_nat i) l 0) (mk e mem a b c) →
  wp (buf_get (Some p) i) Q (mk e mem a b c).
Proof. intros Hp Hi HQ. rw /wp /buf_get /= Hp decide_True //. Qed.

Lemma wp_buf_set p l i v (Q : unit → i2cst → Prop) :
  mem !! p = Some l → 0 ≤ i < Z.of_nat (length l) →
  Q tt (mk e (<[p := <[Z.to_nat i := u8 v]> l]> mem) a b c) → wp (buf_set (Some p) i v) Q (mk e mem a b c).
Proof. intros Hp Hi HQ. rw /wp /buf_set /= Hp decide_True //. Qed.

End steps.

Lemma wp_reg_or e mem a b c r v (Q : unit → i2cst → Prop) :
  (∀ w, Q tt (mk (e ++ [RegR r w; RegW r (u16 (Z.lor w v))]) mem a b c)) → wp (reg_or r v) Q (mk e mem a b c).
Proof. intros HQ. rw /reg_or. wp_step. apply wp_reg_rd. intros w _. apply wp_reg_wr. rw -app_assoc. apply HQ. Qed.

Lemma wp_reg_andn e mem a b c r v (Q : unit → i2cst → Prop) :
  (∀ w, Q tt (mk (e ++ [RegR r w; RegW r (u16 (Z.land w (Z.lnot v)))]) mem a b c)) →
  wp (reg_andn r v) Q (mk e mem a b c).
Proof. intros HQ. rw /reg_andn. wp_step. apply wp_reg_rd. intros w _. apply wp_reg_wr. rw -app_assoc. apply HQ. Qed.

(** *** Waiting *)

Lemma land7 v : Z.land v 1 = 0 → Z.land v 2 = 0 → Z.land v 4 = 0 → Z.land v 7 = 0.
Proof.
  intros H1 H2 H4. change 7 with (Z.lor 1 (Z.lor 2 4)). by rw !Z.land_lor_distr_r H1 H2 H4.
Qed.

Lemma land1 v : Z.land v 1 ≠ 1 → Z.land v 1 = 0.
Proof.
  change 1 with (Z.ones 1) at 1 3. rw Z.land_ones //. intros Hne. pose proof (Z.mod_pos_bound v (2 ^ 1)). lia.
Qed.

Lemma u16_tcr m dir slave : u16 (tcr_value m dir slave) = tcr_value m dir slave.
Proof. apply wrap_small, wrap_range. lia. Qed.

Lemma land2 v : Z.land v 2 ≠ 2 → Z.land v 2 = 0.
Proof.
  change 2 with (Z.land (Z.ones 2) 2) at 1 3. rw Z.land_assoc Z.land_ones //.
  pose proof (Z.mod_pos_bound v (2 ^ 2)). assert (∃ m, m = v mod 2 ^ 2) as [m Hm] by by eexists. rw -Hm in H |- *.
  assert (m = 0 ∨ m = 1 ∨ m = 2 ∨ m = 3) as [-> |[-> |[-> | ->]]] by lia; done.
Qed.

Lemma wp_wait_isr e mem (Q : Z → i2cst → Prop) :
  (∀ e' t, byte_done e' → t ≠ 0 → Q t (mk (e ++ e') mem 0 1 0)) →
  (∀ e' t a c, t = 0 ∧ a = 0 ∧ c = 0 ∨ t ≠ 0 ∧ (a = 1 ∧ c = 0 ∨ a = 0 ∧ c = 1) →
     data_in P e' → Q t (mk (e ++ e') mem a 0 c)) →
  wp wait_isr Q (mk e mem 0 0 0).
Proof.
  intros Hdone Hfail. rw /wait_isr.
  apply (wp_loop (λ t st, 1 ≤ t ≤ ISR_TIMEOUT ∧ ∃ quiet, Forall (λ q, Z.land q 7 = 0) quiet ∧
           st = mk (e ++ (RegR IICISR <$> quiet)) mem 0 0 0) (λ t, Z.to_nat (t - 1))).
  2:{ split; [rw /ISR_TIMEOUT; lia|]. exists []. by rw app_nil_r. }
  2:{ rw /ISR_TIMEOUT. lia. }
  intros t st (Ht & quiet & Hq & ->). wp_step. rw /i2c_irq_handler. wp_step. apply wp_reg_rd. intros v _.
  rw -app_assoc. wp_step. apply wp_get.
  destruct (Z.eqb_spec (Z.land v I2C_ISR_NACK_ADDR) 0) as [H1|H1]; cbn [negb].
  2:{ wp_step. apply wp_reg_wr. wp_step. apply wp_reg_rd. intros s _. apply wp_set_isr. wp_step. apply wp_get.
      apply wp_ret. rw -!app_assoc. apply Hfail; [right; split; [lia|by left]|data_in]. }
  destruct (Z.eqb_spec (Z.land v I2C_ISR_BYTE_END) 0) as [H2|H2]; cbn [negb].
  2:{ wp_step. apply wp_reg_wr. apply wp_set_isr. wp_step. apply wp_get. apply wp_ret. rw -!app_assoc.
      apply Hdone; [|lia]. by exists quiet, v. }
  destruct (Z.eqb_spec (Z.land v I2C_ISR_SCL_TIME_OUT) 0) as [H4|H4]; cbn [negb].
  2:{ wp_step. apply wp_reg_wr. apply wp_set_isr. wp_step. apply wp_get. apply wp_ret. rw -!app_assoc.
      apply Hfail; [right; split; [lia|by right]|data_in]. }
  apply wp_ret. wp_step. apply wp_get. cbn [isr_nack isr_byte_end isr_timeout ic_i2c mk Z.eqb orb].
  destruct (Z.eqb_spec (t - 1) 0) as [H0|H0]; apply wp_ret.
  - apply Hfail; [lia|data_in].
  - split; [|lia]. split; [lia|]. exists (quiet ++ [v]). split.
    + apply Forall_app. split; [done|]. constructor; [by apply land7|done].
    + by rw fmap_app.
Qed.

Lemma wp_wait_bus e mem a b c (Q : Z → i2cst → Prop) :
  (∀ w, bus_free w → Q 0 (mk (e ++ w) mem a b c)) → (∀ w, data_in P w → Q (-1) (mk (e ++ w) mem a b c)) →
  wp i2c_wait_bus_not_busy Q (mk e mem a b c).
Proof.
  intros H0 H1. rw /i2c_wait_bus_not_busy. wp_step.
  apply (wp_loop (λ t st, 1 ≤ t ≤ BUSY_TIMEOUT ∧ ∃ busy, Forall (λ b, Z.land b 2 = 0) busy ∧
           st = mk (e ++ (RegR IICSR <$> busy)) mem a b c) (λ t, Z.to_nat (t - 1))).
  2:{ split; [rw /BUSY_TIMEOUT; lia|]. exists []. by rw app_nil_r. }
  2:{ rw /BUSY_TIMEOUT. lia. }
  intros t st (Ht & busy & Hb & ->). wp_step. apply wp_reg_rd. intros v Hv. rw -app_assoc.
  change [RegR IICSR v] with (RegR IICSR <$> [v]). rw -fmap_app.
  destruct (Z.eqb_spec (Z.land v I2C_STATUS_MASK) I2C_READY) as [Hr|Hr].
  { apply wp_ret. rw (proj2 (Z.eqb_neq t 0)); [lia|]. apply wp_ret, H0. by exists busy, v. }
  destruct (Z.eqb_spec (t - 1) 0) as [Hz|Hz]; apply wp_ret.
  - rw Hz. apply wp_ret, H1. data_in.
  - split; [|lia]. split; [lia|]. exists (busy ++ [v]). split; [|done]. apply Forall_app. split; [done|].
    constructor; [|done]. rw /I2C_STATUS_MASK /I2C_READY in Hr. by apply land2.
Qed.

(** *** Sending *)

Lemma byte_reg b : is_byte b → u16 (Z.land b I2C_CDR_DATA_WRITE_MASK) = b.
Proof.
  rw /is_byte /I2C_CDR_DATA_WRITE_MASK. change 0xFF with (Z.ones 8). intros H.
  rw Z.land_ones // Z.mod_small // /u16 wrap_small //. lia.
Qed.

(** The bytes of [l] that are left when [m] of the message are left. *)
Lemma rest_cons (l : list Z) (k m : nat) :
  (k + S m ≤ length l)%nat → take (S m) (drop k l) = nth k l 0 :: take m (drop (S k) l).
Proof.
  intros Hk. destruct (lookup_lt_is_Some_2 l k) as [x Hx]; [lia|].
  by rw (drop_S _ _ _ Hx) /= (nth_lookup_Some _ _ _ _ Hx).
Qed.

Section buffer.
Context (mem : list (list Z)) (p : nat) (l : list Z) (len : Z).
Context (Hp : mem !! p = Some l) (Hlen : 0 < len ≤ Z.of_nat (length l)) (Hl : Forall is_byte l) (HP : Forall P l).

Lemma l_byte k : is_byte (nth k l 0).
Proof.
  destruct (nth_in_or_default k l 0) as [Hi| ->]; [|rw /is_byte; lia].
  pose proof Hl as Hb. rw Forall_forall in Hb. by apply Hb, list_elem_of_In.
Qed.

(** One byte: it is acknowledged and the loop goes on or ends, or the message fails. *)
Lemma l_data k : Z.of_nat k < len → P (nth k l 0).
Proof.
  intros Hk. pose proof HP as Hb. rw Forall_forall in Hb. apply Hb, list_elem_of_In, nth_In. lia.
Qed.

Lemma wp_write_step last e k (Q : Z + Z → i2cst → Prop) :
  0 ≤ k < len →
  (∀ e' s, byte_done e' → Z.land s 1 = 0 → k + 1 < len →
     Q (inl (k + 1)) (mk (e ++ e' ++ [RegR IICSR s; RegW IICDR (nth (Z.to_nat (k + 1)) l 0); RegW IICCR 9]) mem 0 0 0)) →
  (∀ e' s c, byte_done e' → Z.land s 1 = 0 → k + 1 = len →
     Q (inr 0) (mk (e ++ e' ++ [RegR IICSR s] ++ finish last c) mem 0 0 0)) →
  (∀ e' a b c, data_in P e' → Q (inr (-1)) (mk (e ++ e') mem a b c)) →
  wp (write_step (Some p) len last k) Q (mk e mem 0 0 0).
Proof.
  intros Hk Hnext Hend Hfail. rw /write_step. wp_step. apply wp_wait_isr.
  2:{ intros e' t a c Ht Hdata. wp_step. apply wp_get. cbn [mk ic_i2c isr_nack isr_byte_end isr_timeout].
      destruct Ht as [(-> & -> & ->)|(Ht & [[-> ->]|[-> ->]])]; [by apply wp_ret, Hfail|..];
        rw (proj2 (Z.eqb_neq t 0) Ht); by apply wp_ret, Hfail. }
  intros e' t Hd Ht. wp_step. apply wp_get. cbn [mk ic_i2c isr_nack isr_byte_end isr_timeout Z.eqb Pos.eqb].
  rw (proj2 (Z.eqb_neq t 0) Ht). wp_step. apply wp_set_isr. wp_step. apply wp_reg_rd. intros s _. rw -app_assoc.
  destruct (Z.eqb_spec (Z.land s I2C_CSR_RCV_ACK_MASK) I2C_CSR_RCV_NOT_ACK) as [Hn|Hn]; [apply wp_ret, Hfail; data_in|].
  assert (Z.land s 1 = 0) as Hack by by apply land1.
  destruct (Z.ltb_spec (k + 1) len) as [Hlt|Hge].
  - wp_step. eapply wp_buf_get; [done|lia|]. wp_step. apply wp_reg_wr. wp_step. apply wp_reg_wr. apply wp_ret.
    rw byte_reg; [apply l_byte|]. rw -!app_assoc. by apply Hnext.
  - rw (proj2 (Z.eqb_eq len (k + 1))); [lia|]. destruct last.
    + wp_step. apply wp_delay. wp_step. apply wp_reg_or. intros c. apply wp_ret. rw -!app_assoc. apply Hend; [done|done|lia].
    + wp_step. apply wp_reg_wr. apply wp_ret. rw -!app_assoc. apply (Hend _ _ 0); [done|done|lia].
Qed.

Lemma wp_write_loop last m fuel k e (Q : Z → i2cst → Prop) :
  0 ≤ k → Z.of_nat m = len - 1 - k → (m < fuel)%nat →
  (∀ e', sent last (take m (drop (Z.to_nat (k + 1)) l)) e' → Q 0 (mk (e ++ e') mem 0 0 0)) →
  (∀ e' a b c, data_in P e' → Q (-1) (mk (e ++ e') mem a b c)) →
  wp (loopM fuel (write_step (Some p) len last) k) Q (mk e mem 0 0 0).
Proof.
  revert fuel k e. induction m as [|m IH]; intros fuel k e Hk Hm Hf H0 H1; (destruct fuel as [|fuel]; [lia|]);
    apply wp_loop_step, wp_write_step; try lia; try done.
  - intros e' s c Hd Hs _. apply H0. by apply sent_last.
  - intros e' s Hd Hs Hlt. apply IH; [lia|lia|lia|..].
    + intros e2 He2. rw -!app_assoc. apply H0. rw rest_cons; [lia|].
      replace (S (Z.to_nat (k + 1))) with (Z.to_nat (k + 1 + 1)) by lia. by apply sent_next.
    + intros e2 a b c Hdata. rw -!app_assoc. apply H1. pose proof (l_data (Z.to_nat (k + 1)) ltac:(lia)). data_in.
Qed.

Lemma wp_write_msg slave restart last e a b c (Q : Z → i2cst → Prop) :
  (∀ e', writes_msg mode slave (take (Z.to_nat len) l) restart last e' → Q 0 (mk (e ++ e') mem 0 0 0)) →
  (∀ e' a b c, data_in P e' → Q (-1) (mk (e ++ e') mem a b c)) →
  wp (i2c_write_msg slave (Some p) len restart last) Q (mk e mem a b c).
Proof.
  intros H0 H1. rw /i2c_write_msg (proj2 (Z.eqb_neq len 0)); [lia|].
  wp_step. apply wp_set_isr. wp_step. eapply wp_buf_get; [done|lia|].
  wp_step. apply wp_reg_wr. rw byte_reg; [apply l_byte|]. wp_step. apply wp_get. cbn [mk ic_i2c i2c_mode].
  set (hs := match mode with I2C_HS_MODE => [RegW IICDIV 0x800] | _ => [] end).
  wp_step. eapply (wp_mono _ (λ _ st, st = mk (e ++ [RegW IICDR (nth 0 l 0)] ++ hs) mem 0 0 0)).
  { rw app_assoc. rw /hs. destruct mode; [by apply wp_ret; rw app_nil_r|by apply wp_ret; rw app_nil_r|].
    by apply wp_reg_wr. }
  intros _ st ->. wp_step. apply wp_reg_wr.
  wp_step. eapply (wp_mono _ (λ _ st, ∃ r, restarts restart r ∧
    st = mk ((e ++ [RegW IICDR (nth 0 l 0)] ++ hs ++ [RegW IICTCR (tcr_value mode 0 slave)]) ++ r) mem 0 0 0)).
  { destruct restart; [apply wp_reg_or; intros w|apply wp_ret].
    - eexists. split; [by exists w|]. by rw -!app_assoc u16_tcr.
    - exists []. split; [done|]. by rw app_nil_r -!app_assoc u16_tcr. }
  intros _ st (r & Hr & ->). wp_step. apply (wp_write_loop _ (Z.to_nat (len - 1))); [lia|lia|lia|..].
  - intros e' Hs. cbn [Z.ltb Z.compare]. wp_step. apply wp_reg_andn. intros w. apply wp_ret.
    rw -!app_assoc. apply H0. exists (nth 0 l 0), (take (Z.to_nat (len - 1)) (drop 1 l)), r, e', w.
    split_and!; [|done|done|done]. replace (Z.to_nat len) with (S (Z.to_nat (len - 1))) by lia.
    rw -(rest_cons l 0); [lia|]. done.
  - intros e' a' b' c' Hdata. cbn [Z.ltb Z.compare]. apply wp_ret. rw -!app_assoc. apply H1.
    pose proof (l_data 0 ltac:(lia)). rw /hs. destruct mode; data_in.
Qed.

End buffer.

(** *** Receiving *)

Section receive.
Context (mem : list (list Z)) (p : nat) (len : Z) (Hp : (p < length mem)%nat).

Lemma mem_lookup (l : list Z) : <[p := l]> mem !! p = Some l.
Proof. by apply list_lookup_insert_eq. Qed.

Lemma wp_read_step pre y suf e k (Q : Z + Z → i2cst → Prop) :
  k = Z.of_nat (length pre) → k < len →
  (∀ e' v c, byte_done e' → k + 1 < len →
     Q (inl (k + 1)) (mk (e ++ e' ++ [RegR IICDR v; RegR IICCR c;
         RegW IICCR (u16 (Z.lor c (if decide (k + 2 = len) then 10 else 8)))])
       (<[p := pre ++ u8 (Z.shiftr v 8) :: suf]> mem) 0 0 0)) →
  (∀ e' v, byte_done e' → k + 1 = len →
     Q (inr 0) (mk (e ++ e' ++ [RegR IICDR v]) (<[p := pre ++ u8 (Z.shiftr v 8) :: suf]> mem) 0 0 0)) →
  (∀ e' a b c, data_in P e' → Q (inr (-1)) (mk (e ++ e') (<[p := pre ++ y :: suf]> mem) a b c)) →
  wp (read_step (Some p) len k) Q (mk e (<[p := pre ++ y :: suf]> mem) 0 0 0).
Proof.
  intros Hk Hlt Hnext Hend Hfail. rw /read_step. wp_step. apply wp_wait_isr.
  2:{ intros e' t a c Ht Hdata. wp_step. apply wp_get. cbn [mk ic_i2c isr_nack isr_byte_end isr_timeout].
      destruct Ht as [(-> & -> & ->)|(Ht & [[-> ->]|[-> ->]])]; by apply wp_ret, Hfail. }
  intros e' t Hd Ht. wp_step. apply wp_get. cbn [mk ic_i2c isr_nack isr_byte_end isr_timeout Z.eqb Pos.eqb].
  rw (proj2 (Z.eqb_neq t 0) Ht). wp_step. wp_step. apply wp_reg_rd. intros v _.
  wp_step. eapply wp_buf_set; [apply mem_lookup|rw length_app /=; lia|]. apply wp_ret.
  rw list_insert_insert_eq Hk Nat2Z.id insert_app_r_alt // Nat.sub_diag -Hk. cbn [insert list_insert].
  wp_step. apply wp_set_isr. rw -app_assoc.
  destruct (Z.ltb_spec (k + 1) len) as [Hl|Hl].
  - wp_step. destruct (Z.eqb_spec (len - 1) (k + 1)) as [He|He]; apply wp_reg_or; intros c; apply wp_ret; rw -!app_assoc.
    + specialize (Hnext e' v c Hd Hl). by rw decide_True in Hnext; [lia|].
    + specialize (Hnext e' v c Hd Hl). by rw decide_False in Hnext; [lia|].
  - rw (proj2 (Z.eqb_eq len (k + 1))); [lia|]. apply wp_ret. apply Hend; [done|lia].
Qed.

Lemma wp_read_loop m fuel pre suf e (Q : Z → i2cst → Prop) :
  Z.of_nat m = len - 1 - Z.of_nat (length pre) → (m < length suf)%nat → (m < fuel)%nat →
  (∀ e' ds, received ds e' → length ds = S m →
     Q 0 (mk (e ++ e') (<[p := pre ++ ds ++ drop (S m) suf]> mem) 0 0 0)) →
  (∀ e' l' a b c, length l' = length (pre ++ suf) → (Forall is_byte (pre ++ suf) → Forall is_byte l') →
     data_in P e' → Q (-1) (mk (e ++ e') (<[p := l']> mem) a b c)) →
  wp (loopM fuel (read_step (Some p) len) (Z.of_nat (length pre))) Q (mk e (<[p := pre ++ suf]> mem) 0 0 0).
Proof.
  revert fuel pre suf e. induction m as [|m IH]; intros fuel pre suf e Hm Hs Hf H0 H1;
    (destruct fuel as [|fuel]; [lia|]); (destruct suf as [|y suf]; [simpl in Hs; lia|]); simpl in Hs;
    apply wp_loop_step, wp_read_step; try done; try lia.
  - intros e' v Hd _. apply (H0 _ [u8 (Z.shiftr v 8)]); [by apply rcv_last|done].
  - intros e' a b c Hdata. by apply H1.
  - intros e' v c Hd Hl.
    replace (pre ++ u8 (Z.shiftr v 8) :: suf) with ((pre ++ [u8 (Z.shiftr v 8)]) ++ suf) by by rw -app_assoc.
    replace (Z.of_nat (length pre) + 1) with (Z.of_nat (length (pre ++ [u8 (Z.shiftr v 8)]))) by (rw length_app /=; lia).
    apply IH; [rw length_app /=; lia|lia|lia|..].
    + intros e2 ds Hr Hds. rw -!app_assoc. apply (H0 _ (u8 (Z.shiftr v 8) :: ds)); [|by rw /= Hds].
      pose proof (rcv_next e' v c ds e2 Hd Hr) as Hn.
      destruct (decide (Z.of_nat (length pre) + 2 = len)), (decide (length ds = 1%nat)); (exact Hn || lia).
    + intros e2 l' a b c' Hl' Hb Hdata. rw -!app_assoc. apply H1; [rw Hl' !length_app /=; lia| |data_in].
      intros Hold. apply Hb. rw !Forall_app Forall_cons in Hold |- *. rw Forall_singleton.
      split_and!; [apply Hold|by apply (wrap_range 8)|apply Hold].
  - intros e' a b c Hdata. by apply H1.
Qed.

Lemma wp_read_msg slave l restart e a b c (Q : Z → i2cst → Prop) :
  mem !! p = Some l → 0 < len ≤ Z.of_nat (length l) →
  (∀ e' ds, reads_msg mode slave ds restart e' → length ds = Z.to_nat len →
     Q 0 (mk (e ++ e') (<[p := ds ++ drop (Z.to_nat len) l]> mem) 0 0 0)) →
  (∀ e' l' a b c, length l' = length l → (Forall is_byte l → Forall is_byte l') →
     data_in P e' → Q (-1) (mk (e ++ e') (<[p := l']> mem) a b c)) →
  wp (i2c_read_msg slave (Some p) len restart) Q (mk e mem a b c).
Proof.
  intros Hl Hlen H0 H1. rw /i2c_read_msg (proj2 (Z.eqb_neq len 0)); [lia|].
  wp_step. apply wp_set_isr. wp_step. apply wp_get. cbn [mk ic_i2c i2c_mode]. wp_step. apply wp_reg_wr. rw u16_tcr.
  wp_step. eapply (wp_mono _ (λ _ st, ∃ r, restarts restart r ∧
    st = mk ((e ++ [RegW IICTCR (tcr_value mode 0x4000 slave)]) ++ r) mem 0 0 0)).
  { destruct restart; [apply wp_reg_or; intros w; eexists; split; [by exists w|done]|].
    apply wp_ret. exists []. split; [done|]. by rw app_nil_r. }
  intros _ st (r & Hr & ->).
  wp_step. eapply (wp_mono _ (λ _ st, ∃ n,
    (if decide (len = 1) then ∃ c, n = [RegR IICCR c; RegW IICCR (u16 (Z.lor c 2))] else n = []) ∧
    st = mk (((e ++ [RegW IICTCR (tcr_value mode 0x4000 slave)]) ++ r) ++ n) mem 0 0 0)).
  { destruct (Z.eqb_spec len 1) as [H|H].
    - apply wp_reg_or. intros w. eexists. split; [rw decide_True //; by exists w|done].
    - apply wp_ret. exists []. split; [by rw decide_False|]. by rw app_nil_r. }
  intros _ st (n & Hn & ->). rw -{1}(list_insert_id mem p l Hl). wp_step.
  apply (wp_read_loop (Z.to_nat (len - 1)) _ [] l); [simpl; lia|lia|lia|..].
  - intros e' ds Hrcv Hds. cbn [Z.ltb Z.compare]. wp_step. apply wp_reg_andn. intros w. apply wp_ret.
    replace (S (Z.to_nat (len - 1))) with (Z.to_nat len) in * by lia. rw -!app_assoc. apply H0; [|done].
    exists r, n, e', w. split_and!; [done|done| |done].
    destruct (decide (len = 1)), (decide (length ds = 1%nat)); (done || lia).
  - intros e' l' a' b' c' Hl' Hb Hdata. cbn [Z.ltb Z.compare]. apply wp_ret. rw -!app_assoc. apply H1; [done|done|].
    assert (data_in P n). { destruct (decide (len = 1)); [destruct Hn as [? ->]|subst n]; data_in. }
    data_in.
Qed.

End receive.

(** *** Attempts and retries *)

Section transfer.
Context (all : list i2c_msg_s).

(** The messages that are sent have data in [P], in [mem] and whatever is read. *)
Definition sends_in (mem : list (list Z)) : Prop := ∀ mem' msg p l,
  reads_into all mem mem' → msg ∈ all → is_read msg = false → m_buf msg = Some p → mem' !! p = Some l → Forall P l.

Lemma sends_in_into mem mem' : reads_into all mem mem' → sends_in mem → sends_in mem'.
Proof. intros Hin Hs mem2 msg p l Hin2. apply Hs. by eapply reads_into_trans. Qed.

Lemma wp_message msg msgs mem restart e a b c (Q : Z → i2cst → Prop) :
  msg ∈ all → msg_ok mem msg → Forall (Forall is_byte) mem → sends_in mem →
  (∀ e' mem', data_in P e' → (∀ e2 mem2, exchanges mode true msgs mem' e2 mem2 → exchanges mode restart (msg :: msgs) mem (e' ++ e2) mem2) →
     reads_into all mem mem' → Q 0 (mk (e ++ e') mem' 0 0 0)) →
  (∀ e' mem' a b c, data_in P e' → reads_into all mem mem' → Q (-1) (mk (e ++ e') mem' a b c)) →
  wp (if is_read msg then i2c_read_msg (m_addr msg) (m_buf msg) (m_len msg) restart
      else i2c_write_msg (m_addr msg) (m_buf msg) (m_len msg) restart (bool_decide (msgs = []))) Q (mk e mem a b c).
Proof.
  intros Hin (p & l & Hp & Hl & Hlen) HF HP H0 H1. rw Hp.
  assert (Forall is_byte l) as Hlb by by eapply Forall_lookup_1 in HF.
  destruct (decide (m_len msg = 0)) as [Hz|Hz].
  { assert (Q (-1) (mk e mem a b c)) as HQ.
    { specialize (H1 [] mem a b c). rw app_nil_r in H1. apply H1; [data_in|apply reads_into_refl]. }
    rw Hz /i2c_read_msg /i2c_write_msg. destruct (is_read msg); by apply wp_ret. }
  destruct (is_read msg) eqn:Hr.
  - eapply wp_read_msg; [by eapply lookup_lt_Some|done|lia|..].
    + intros e' ds Hmsg Hds. apply H0; [data_in|..].
      * intros e2 mem2 Hex. eapply ex_read; [done..|]. by rw Hds.
      * eapply reads_into_insert; [done..| |].
        -- rw length_app length_drop Hds. lia.
        -- intros _. apply Forall_app. split; [|by apply Forall_drop].
           destruct Hmsg as (? & ? & ? & ? & _ & Hrcv & _). by eapply received_bytes.
    + intros e' l' a' b' c' Hl' Hb Hdata. apply H1; [done|]. by eapply reads_into_insert.
  - assert (Forall P l) as Hd by (eapply (HP mem); [apply reads_into_refl|done..]).
    eapply wp_write_msg; [done|lia|done|done|..].
    + intros e' Hmsg. apply H0; [eapply data_writes; [done|by apply Forall_take]| |apply reads_into_refl].
      intros e2 mem2 Hex. by eapply ex_write.
    + intros e' a' b' c' Hdata. apply H1; [done|apply reads_into_refl].
Qed.

(** The loop of [i2c_do_xfer] over the messages [msgs] that are left. *)
Lemma wp_xfer_loop fuel pre msgs mem e a b c (Q : Z → i2cst → Prop) :
  all = pre ++ msgs → (length msgs < fuel)%nat → Forall (msg_ok mem) msgs → Forall (Forall is_byte) mem → sends_in mem →
  (∀ e' mem' a b c, data_in P e' → exchanges mode (bool_decide (pre ≠ [])) msgs mem e' mem' → reads_into all mem mem' →
     Q (Z.of_nat (length all)) (mk (e ++ e') mem' a b c)) →
  (∀ e' mem' a b c, data_in P e' → reads_into all mem mem' → Q (-1) (mk (e ++ e') mem' a b c)) →
  wp (loopM fuel (xfer_step all (Z.of_nat (length all))) (Z.of_nat (length pre), 0)) Q (mk e mem a b c).
Proof.
  revert fuel pre mem e a b c.
  induction msgs as [|msg msgs IH]; intros fuel pre mem e a b c Hall Hf Hok HF HP H0 H1; (destruct fuel as [|fuel]; [simpl in Hf; lia|]);
    apply wp_loop_step; rw {1}/xfer_step; cbn [Z.leb Z.compare andb].
  { rw Hall app_nil_r Z.ltb_irrefl. apply wp_ret. cbn [Z.ltb Z.compare].
    specialize (H0 [] mem a b c). rw app_nil_r Hall app_nil_r in H0. apply H0; [data_in|constructor|apply reads_into_refl]. }
  simpl in Hf. apply Forall_cons in Hok as [Hmsg Hok].
  rw (proj2 (Z.ltb_lt _ _)); [rw Hall length_app /=; lia|]. rw Nat2Z.id Hall list_lookup_middle //. rw -Hall.
  cbv zeta.
  assert ((Z.of_nat (length pre) + 1 =? Z.of_nat (length all)) = bool_decide (msgs = [])) as ->.
  { rw Hall length_app /=. apply eq_true_iff_eq. rw Z.eqb_eq bool_decide_eq_true. destruct msgs.
    - split; [done|simpl; lia].
    - split; [simpl; lia|done]. }
  assert (negb (Z.of_nat (length pre) =? 0) = bool_decide (pre ≠ [])) as ->.
  { apply eq_true_iff_eq. rw negb_true_iff Z.eqb_neq bool_decide_eq_true. destruct pre.
    - by split.
    - split; [done|simpl; lia]. }
  wp_step. rw -/(is_read msg). eapply (wp_message msg msgs); [rw Hall; apply elem_of_app; right; by left|done|done|done|..].
  - intros e' mem' Hdata Hex Hin. apply wp_ret.
    replace (Z.of_nat (length pre) + 1) with (Z.of_nat (length (pre ++ [msg]))) by (rw length_app /=; lia).
    apply IH; [by rw -app_assoc|lia| |by apply Hin|by eapply sends_in_into|..].
    + eapply Forall_impl; [exact Hok|]. intros m. by eapply msg_ok_into.
    + intros e2 mem2 a2 b2 c2 Hd2 Hex2 Hin2. rw -app_assoc. apply H0; [data_in| |by eapply reads_into_trans].
      apply Hex. by rw bool_decide_true in Hex2; [by destruct pre|].
    + intros e2 mem2 a2 b2 c2 Hd2 Hin2. rw -app_assoc. apply H1; [data_in|by eapply reads_into_trans].
  - intros e' mem' a' b' c' Hdata Hin. apply wp_ret. destruct fuel as [|fuel]; [lia|].
    apply wp_loop_step. rw {1}/xfer_step. cbn [Z.leb Z.compare andb Z.ltb]. apply wp_ret. by apply H1.
Qed.

Lemma wp_do_xfer mem e a b c (Q : Z → i2cst → Prop) :
  Forall (msg_ok mem) all → Forall (Forall is_byte) mem → sends_in mem →
  (∀ w e' mem' a b c, data_in P e' → bus_free w → exchanges mode false all mem e' mem' → reads_into all mem mem' →
     Q (Z.of_nat (length all)) (mk (e ++ w ++ e') mem' a b c)) →
  (∀ e' mem' a b c, data_in P e' → reads_into all mem mem' → Q (-1) (mk (e ++ e') mem' a b c)) →
  wp (i2c_do_xfer all (Z.of_nat (length all))) Q (mk e mem a b c).
Proof.
  intros Hok HF HP H0 H1. rw /i2c_do_xfer. wp_step. apply wp_wait_bus; intros w.
  - intros Hw. cbn [Z.ltb Z.compare]. apply (wp_xfer_loop _ [] all); [done|lia|done|done|done|..].
    + intros e' mem' a' b' c' Hdata Hex Hin. rw -app_assoc. by apply H0.
    + intros e' mem' a' b' c' Hdata Hin. rw -app_assoc. apply H1; [data_in|done].
  - intros Hw. cbn [Z.ltb Z.compare]. apply wp_ret, H1; [done|apply reads_into_refl].
Qed.

(** Three attempts. *)
Lemma wp_transfer mem e a b c (Q : Z → i2cst → Prop) :
  all ≠ [] → Forall (msg_ok mem) all → Forall (Forall is_byte) mem → sends_in mem →
  (∀ e0 mem1 w e1 mem' a b c, data_in P (e0 ++ w ++ e1) → reads_into all mem mem1 → bus_free w → exchanges mode false all mem1 e1 mem' →
     reads_into all mem mem' → Q (Z.of_nat (length all)) (mk (e ++ e0 ++ w ++ e1) mem' a b c)) →
  (∀ e' mem' a b c, data_in P e' → reads_into all mem mem' → Q (-1) (mk (e ++ e') mem' a b c)) →
  wp (i2c_transfer all (Z.of_nat (length all))) Q (mk e mem a b c).
Proof.
  intros Hne Hok HF HP H0 H1. rw /i2c_transfer.
  apply (wp_loop (λ i st, 0 ≤ i ≤ RETRY_TIME ∧ ∃ e0 mem1 a b c, data_in P e0 ∧ reads_into all mem mem1 ∧ st = mk (e ++ e0) mem1 a b c)
    (λ i, Z.to_nat i)).
  2:{ split; [rw /RETRY_TIME; lia|]. exists [], mem, a, b, c. rw app_nil_r. split; [data_in|]. split; [apply reads_into_refl|done]. }
  2:{ rw /RETRY_TIME. lia. }
  intros i st (Hi & e0 & mem1 & a1 & b1 & c1 & Hd0 & Hin1 & ->).
  destruct (Z.ltb_spec 0 i) as [Hlt|Hge].
  2:{ wp_step. apply wp_delay. apply wp_ret. rw -app_assoc. apply H1; [data_in|done]. }
  wp_step. apply wp_do_xfer.
  - eapply Forall_impl; [exact Hok|]. intros m. by eapply msg_ok_into.
  - by apply Hin1.
  - by eapply sends_in_into.
  - intros w e' mem' a' b' c' Hdata Hw Hex Hin. assert (0 < Z.of_nat (length all)) as Hl by (destruct all; [done|simpl; lia]).
    rw (proj2 (Z.ltb_lt _ _) Hl). apply wp_ret. rw -app_assoc. eapply H0; [data_in|exact Hin1|done|done|]. by eapply reads_into_trans.
  - intros e' mem' a' b' c' Hdata Hin. cbn [Z.ltb Z.compare]. apply wp_ret. split; [|lia]. split; [lia|].
    exists (e0 ++ e'), mem', a', b', c'. rw -app_assoc. split; [data_in|]. split; [by eapply reads_into_trans|done].
Qed.

End transfer.

(** *** The message of [i2c_write] *)

Definition be_bytes (addr alen : Z) : list Z := (λ j, Z.land (Z.shiftr addr ((alen - 1 - j) * 8)) 0xFF) <$> seqZ 0 alen.

Lemma length_be addr alen : 0 ≤ alen → length (be_bytes addr alen) = Z.to_nat alen.
Proof. intros H. by rw /be_bytes length_fmap length_seqZ. Qed.

Lemma be_nth addr alen j :
  0 ≤ j < alen → nth (Z.to_nat j) (be_bytes addr alen) 0 = Z.land (Z.shiftr addr ((alen - 1 - j) * 8)) 0xFF.
Proof.
  intros Hj. apply nth_lookup_Some. rw /be_bytes list_lookup_fmap lookup_seqZ_lt /=; [lia|]. f_equal. f_equal. f_equal. lia.
Qed.

Lemma low_byte v : is_byte (Z.land v 0xFF).
Proof.
  rw /is_byte. change 0xFF with (Z.ones 8). rw Z.land_ones //. pose proof (Z.mod_pos_bound v (2 ^ 8)). lia.
Qed.

Lemma be_is_byte addr alen : Forall is_byte (be_bytes addr alen).
Proof. apply Forall_fmap, Forall_true. intros j. apply low_byte. Qed.

Section fill.
Context (addr alen len : Z) (mem : list (list Z)) (q : nat) (data : list Z) (e : list i2c_event) (a b c : Z).
Context (Hq : mem !! q = Some data) (Hdata : Forall is_byte data).
Context (Halen : 0 ≤ alen ≤ 4) (Hlen : 0 ≤ len ≤ Z.of_nat (length data)).
Abbreviation L := (len + alen).
Abbreviation msg := (be_bytes addr alen ++ take (Z.to_nat len) data).

Lemma length_msg : length msg = Z.to_nat L.
Proof. rw length_app length_be; [lia|]. rw length_take. lia. Qed.

Lemma msg_bytes : Forall is_byte msg.
Proof. apply Forall_app. split; [apply be_is_byte|by apply Forall_take]. Qed.

(** After [i] rounds. *)
Definition filled (i : Z) (cur : list Z) : Prop :=
  length cur = Z.to_nat (L * 4) ∧ Forall is_byte cur ∧
  ∀ j, 0 ≤ j → alen - i ≤ j < alen ∨ alen ≤ j < i → nth (Z.to_nat j) cur 0 = nth (Z.to_nat j) msg 0.

Lemma filled_insert i k v cur :
  filled i cur → 0 ≤ k < L → v = nth (Z.to_nat k) msg 0 → k = (if i <? alen then alen - i - 1 else i) → 0 ≤ i →
  filled (i + 1) (<[Z.to_nat k := u8 v]> cur).
Proof.
  intros (Hl & Hb & Hj) Hk Hv Hki Hi.
  assert (is_byte v) as Hvb.
  { rw Hv. destruct (nth_in_or_default (Z.to_nat k) msg 0) as [Hin| ->]; [|rw /is_byte; lia].
    pose proof msg_bytes as Hm. rw Forall_forall in Hm. by apply Hm, list_elem_of_In. }
  rw /u8 wrap_small; [exact Hvb|]. split; [by rw length_insert|]. split; [by apply Forall_insert|].
  intros j Hj0 Hjr. destruct (decide (j = k)) as [->|Hne].
  - rw -Hv. apply nth_lookup_Some, list_lookup_insert_eq. lia.
  - rw (nth_lookup (<[_ := _]> _)) list_lookup_insert_ne; [lia|]. rw -nth_lookup. apply Hj; [done|].
    destruct (Z.ltb_spec i alen); lia.
Qed.

Lemma wp_fill (Q : unit → i2cst → Prop) cur :
  filled 0 cur → 0 < L < 2 ^ 30 →
  (∀ cur', filled L cur' → Q tt (mk e (mem ++ [cur']) a b c)) →
  wp (fill_message (Some (length mem)) addr alen (Some q) L) Q (mk e (mem ++ [cur]) a b c).
Proof.
  intros Hcur HL HQ. rw /fill_message.
  apply (wp_loop (λ i st, 0 ≤ i ≤ L ∧ ∃ cur, filled i cur ∧ st = mk e (mem ++ [cur]) a b c) (λ i, Z.to_nat (L - i))).
  2:{ split; [lia|]. by exists cur. }
  2:{ lia. }
  clear cur Hcur. intros i st (Hi & cur & Hcur & ->). rw /fill_step.
  destruct (Z.ltb_spec i L) as [Hlt|Hge]; cbn [negb].
  2:{ apply wp_ret, HQ. by replace L with i by lia. }
  assert ((mem ++ [cur]) !! length mem = Some cur) as Hnew by by apply list_lookup_middle.
  assert (∀ k v, 0 ≤ k < L → v = nth (Z.to_nat k) msg 0 → k = (if i <? alen then alen - i - 1 else i) →
    wp (buf_set (Some (length mem)) k v) (λ _, wp (ret (inl (i + 1))) (λ r st', match r with
      | inl i' => (0 ≤ i' ≤ L ∧ ∃ cur, filled i' cur ∧ st' = mk e (mem ++ [cur]) a b c) ∧ (Z.to_nat (L - i') < Z.to_nat (L - i))%nat
      | inr u => Q u st' end)) (mk e (mem ++ [cur]) a b c)) as Hset.
  { intros k v Hk Hv Hki. eapply wp_buf_set; [done|destruct Hcur as [-> _]; lia|]. apply wp_ret. split; [|lia]. split; [lia|].
    eexists. split; [eapply filled_insert; [done..|lia]|]. by rw insert_app_r_alt // Nat.sub_diag. }
  wp_step. rw /u32 wrap_small; [lia|]. destruct (Z.ltb_spec i alen) as [Ha|Ha].
  - wp_step. rw /shr32 (proj2 (andb_true_iff _ _)); [lia|]. apply wp_ret. apply Hset; [lia| |lia].
    rw app_nth1; [rw length_be; lia|]. rw be_nth; [lia|]. do 3 f_equal. lia.
  - wp_step. eapply wp_buf_get; [by apply lookup_app_l_Some|lia|]. apply Hset; [lia| |done].
    rw app_nth2; [rw length_be; lia|]. rw length_be; [lia|].
    rw !nth_lookup lookup_take_lt; [lia|]. do 2 f_equal. lia.
Qed.

End fill.

End proto.

(** ** The functions of the driver *)

Section driver.
Context {hw : I2cHw} (st : i2cst) (base : Z) (Hregs : regs (ic_i2c st) = Some base).
Context (Hmem : Forall (Forall is_byte) (ic_mem st)).

Abbreviation mode := (i2c_mode (ic_i2c st)).
Abbreviation state := (mk (ic_hist st) base (irq_no (ic_i2c st)) mode (ic_xfer_mode st) (ic_clk st)).

Lemma state_here :
  st = state [] (ic_mem st) (isr_nack (ic_i2c st)) (isr_byte_end (ic_i2c st)) (isr_timeout (ic_i2c st)).
Proof. destruct st as [h m [r i md a b c] x k]. simpl in Hregs. by rw /mk app_nil_r /= Hregs. Qed.

Lemma wp_here {A} (m : M i2cst A) (Q : A → i2cst → Prop) :
  wp m Q (state [] (ic_mem st) (isr_nack (ic_i2c st)) (isr_byte_end (ic_i2c st)) (isr_timeout (ic_i2c st))) → wp m Q st.
Proof. by rw -state_here. Qed.

Lemma wp_calloc n e mem a b c (Q : ptr → i2cst → Prop) :
  0 ≤ n < 2 ^ 30 → calloc_ok mem (n * 4) = true →
  Q (Some (length mem)) (state e (mem ++ [replicate (Z.to_nat (n * 4)) 0]) a b c) → wp (calloc n) Q (state e mem a b c).
Proof.
  intros Hn Hok HQ. rw /wp /calloc. rw (_ : u32 (u32 n * 4) = n * 4); [|by rw /= Hok].
  rw /u32 !wrap_small; lia.
Qed.

Lemma zeros_bytes n : Forall is_byte (replicate n 0).
Proof. by apply Forall_replicate. Qed.

(** A transfer of one message that sends: nothing but [P] goes out, and success is
    the message. *)
Lemma wp_send P slave p l len e mem a b c (Q : Z → i2cst → Prop) :
  Forall (Forall is_byte) mem → mem !! p = Some l → 0 < len ≤ Z.of_nat (length l) → Forall P l →
  (∀ rc e' a b c, data_in P e' → (rc = 1 → transferred (writes_msg mode slave (take (Z.to_nat len) l) false true) e') →
     rc = 1 ∨ rc = -1 → Q rc (state (e ++ e') mem a b c)) →
  wp (i2c_transfer [I2cMsg slave I2C_M_WR len (Some p)] 1) Q (state e mem a b c).
Proof.
  intros HF Hp Hlen HP HQ.
  assert (∀ mem', reads_into [I2cMsg slave I2C_M_WR len (Some p)] mem mem' → mem' = mem) as Hsame.
  { intros mem' [_ _ Ho]. apply list_eq. intros q. apply Ho. by intros msg ->%list_elem_of_singleton. }
  apply (wp_transfer P _ _ _ _ _ _ [I2cMsg slave I2C_M_WR len (Some p)]).
  - done.
  - constructor; [|done]. exists p, l. split_and!; [done|done|simpl; lia..].
  - done.
  - intros mem' msg p' l' ->%Hsame ->%list_elem_of_singleton _ [= <-] Hl'. rw Hp in Hl'. by injection Hl' as <-.
  - intros e0 mem1 w e1 mem' a' b' c' Hd ->%Hsame Hw Hex ->%Hsame. apply HQ; [done| |by left].
    intros _. exists e0, w, e1. split_and!; [done| |done].
    inversion Hex as [|? ? ? ? p' l' e2 e3 mem2 Hr Hb Hl' Hmsg Hnil|? ? ? ? p' l' ds e2 e3 mem2 Hr]; subst; [|done].
    inversion Hnil; subst. rw app_nil_r. simpl in Hb. injection Hb as <-. rw Hp in Hl'. injection Hl' as <-. exact Hmsg.
  - intros e' mem' a' b' c' Hd ->%Hsame. apply HQ; [done|done|by right].
Qed.

(** The same for a message that receives. *)
Lemma wp_receive P slave p l len e mem a b c (Q : Z → i2cst → Prop) :
  Forall (Forall is_byte) mem → mem !! p = Some l → 0 < len ≤ Z.of_nat (length l) →
  (∀ rc e' mem' a b c, data_in P e' → reads_into [I2cMsg slave I2C_M_RD len (Some p)] mem mem' →
     (rc = 1 → ∃ ds l1, length ds = Z.to_nat len ∧ transferred (reads_msg mode slave ds false) e' ∧
        length l1 = length l ∧ mem' !! p = Some (ds ++ drop (length ds) l1)) →
     rc = 1 ∨ rc = -1 → Q rc (state (e ++ e') mem' a b c)) →
  wp (i2c_transfer [I2cMsg slave I2C_M_RD len (Some p)] 1) Q (state e mem a b c).
Proof.
  intros HF Hp Hlen HQ.
  apply (wp_transfer P _ _ _ _ _ _ [I2cMsg slave I2C_M_RD len (Some p)]).
  - done.
  - constructor; [|done]. exists p, l. split_and!; [done|done|simpl; lia..].
  - done.
  - by intros mem' msg p' l' _ ->%list_elem_of_singleton.
  - intros e0 mem1 w e1 mem' a' b' c' Hd Hin1 Hw Hex Hin. apply HQ; [done|done| |by left]. intros _.
    inversion Hex as [|? ? ? ? p' l' e2 e3 mem2 Hr|? ? ? ? p' l' ds e2 e3 mem2 Hr Hb Hl' Hmsg Hds Hnil]; subst; [done|].
    inversion Hnil; subst. simpl in Hb. injection Hb as <-. exists ds, l'. split; [done|]. split.
    { exists e0, w, e2. by rw app_nil_r. }
    assert (length l' = length l) as Hll.
    { pose proof (ri_lengths _ _ _ Hin1) as HL. assert ((length <$> mem1) !! p = Some (length l)) as Hm by by rw HL list_lookup_fmap Hp.
      rw list_lookup_fmap Hl' in Hm. by injection Hm. }
    split; [done|]. apply list_lookup_insert_eq. by eapply lookup_lt_Some.
  - intros e' mem' a' b' c' Hd Hin. apply HQ; [done|done|done|by right].
Qed.

(** C30: on any controller [i2c_write] returns, without touching a buffer of its caller.
    It returns 0 only when one of its attempts, on a free bus, sent exactly the
    message: the address bytes, the highest first, and the data, each byte given to
    the controller when the one before was acknowledged, then the stop condition;
    otherwise it returns -1. *)
Theorem i2c_write_sends chip addr alen q data len :
  ic_mem st !! q = Some data → 0 ≤ alen ≤ 4 → 0 ≤ len ≤ Z.of_nat (length data) → 0 < len + alen < 65536 →
  calloc_ok (ic_mem st) ((len + alen) * 4) = true →
  let msg := be_bytes addr alen ++ take (Z.to_nat len) data in
  wp (i2c_write chip addr alen (Some q) len) (λ rc st', ∃ e buf,
    ic_hist st' = ic_hist st ++ e ∧ ic_mem st' = ic_mem st ++ [buf] ∧
    (rc = 0 ∧ transferred (writes_msg mode chip msg false true) e ∨ rc = -1)) st.
Proof.
  intros Hq Halen Hlen HL Hok msg. apply wp_here. rw /i2c_write /u32 wrap_small; [lia|].
  assert (Forall is_byte data) as Hdata by by eapply Forall_lookup_1 in Hmem.
  wp_step. apply wp_calloc; [lia|done|]. wp_step. eapply wp_fill; [done|done|lia|lia| |lia|].
  { split; [by rw length_replicate|]. split; [apply zeros_bytes|]. intros j Hj Hr. lia. }
  intros cur (Hcl & Hcb & Hcur). wp_step. rw /u16 wrap_small; [lia|].
  eapply (wp_send (λ _, True)); [|by apply list_lookup_middle|lia|by apply Forall_true|].
  { apply Forall_app. by split; [|constructor]. }
  intros rc e' a b c _ Hsent Hrc. apply wp_ret. exists e', cur. split; [done|]. split; [done|].
  destruct Hrc as [-> | ->]; [left|by right]. split; [done|].
  replace msg with (take (Z.to_nat (len + alen)) cur); [by apply Hsent|].
  pose proof (length_msg addr alen len data Halen Hlen) as Hml.
  apply (nth_ext _ _ 0 0); [rw length_take Hml; lia|]. intros j Hj. rw length_take in Hj.
  rw (nth_lookup (take _ _)) lookup_take_lt; [lia|]. rw -nth_lookup. specialize (Hcur (Z.of_nat j) ltac:(lia) ltac:(lia)). by rw Nat2Z.id in Hcur.
Qed.

(** C39: [i2c_read] does not send the address it is given: whatever [addr] is, every
    byte that it hands to the controller is 0, so a slave is always read from its
    register 0.  It returns on any controller, changes no other buffer, and returns
    0 only when the last of its attempts received the [len] bytes that are then at
    the start of the buffer; the result of sending the index is ignored. *)
Theorem i2c_read_index_zero chip addr alen q data len :
  ic_mem st !! q = Some data → 0 ≤ alen < 65536 → 0 < len < 65536 → len ≤ Z.of_nat (length data) →
  calloc_ok (ic_mem st) (alen * 4) = true →
  wp (i2c_read chip addr alen (Some q) len) (λ rc st', ∃ e1 e2,
    ic_hist st' = ic_hist st ++ e1 ++ e2 ∧ data_in (λ v, v = 0) (e1 ++ e2) ∧
    length (ic_mem st') = S (length (ic_mem st)) ∧
    (∀ p, p ≠ q → (p < length (ic_mem st))%nat → ic_mem st' !! p = ic_mem st !! p) ∧
    (rc = 0 ∧ (∃ ds l, length ds = Z.to_nat len ∧ transferred (reads_msg mode chip ds false) e2 ∧
       length l = length data ∧ ic_mem st' !! q = Some (ds ++ drop (length ds) l)) ∨ rc = -1)) st.
Proof.
  intros Hq Halen Hlen Hle Hok. apply wp_here. rw /i2c_read. wp_step. apply wp_calloc; [lia|done|].
  pose proof (lookup_lt_Some _ _ _ Hq) as Hlt. set (mem := ic_mem st ++ _).
  assert (mem !! q = Some data) as Hq' by by apply lookup_app_l_Some.
  assert (Forall (Forall is_byte) mem) as HF.
  { apply Forall_app. split; [done|]. constructor; [apply zeros_bytes|done]. }
  rw /u16 !wrap_small; [lia|lia|].
  wp_step. eapply (wp_mono _ (λ _ st', ∃ e1 a b c, data_in (λ v, v = 0) e1 ∧ st' = state e1 mem a b c)).
  { destruct (Z.ltb_spec 0 alen); [|apply wp_ret; eexists [], _, _, _; split; [constructor|done]].
    eapply (wp_send (λ v, v = 0)); [done|by apply list_lookup_middle|rw length_replicate; lia|by apply Forall_replicate|].
    intros rc e' a b c Hd _ _. by exists e', a, b, c. }
  intros _ st1 (e1 & a & b & c & Hd1 & ->). wp_step.
  eapply (wp_receive (λ v, v = 0)); [done|done|lia|]. intros rc e2 mem' a' b' c' Hd2 Hin Hgot Hrc. apply wp_ret.
  exists e1, e2. split; [done|]. split; [data_in|]. pose proof (ri_lengths _ _ _ Hin) as HL.
  split. { apply (f_equal length) in HL. rw !length_fmap /mem length_app /= in HL. simpl. lia. }
  split.
  { intros p Hp Hpl. simpl. rw (ri_others _ _ _ Hin); [by intros msg ->%list_elem_of_singleton _ [= ?]|].
    by apply lookup_app_l. }
  destruct Hrc as [-> | ->]; [left|by right]. split; [done|]. by apply Hgot.
Qed.

(** C29: a transfer of any messages with their buffers returns on any controller:
    the waits and the retries are bounded.  It returns -1, or the number of
    messages after an attempt on a free bus that exchanged all of them in order, with
    a repeated start between them and the bytes that were received in the buffers.
    No buffer changes but those of the messages that read. *)
Theorem i2c_transfer_returns msgs :
  msgs ≠ [] → Forall (msg_ok (ic_mem st)) msgs →
  wp (i2c_transfer msgs (Z.of_nat (length msgs))) (λ rc st', ∃ e,
    ic_hist st' = ic_hist st ++ e ∧ reads_into msgs (ic_mem st) (ic_mem st') ∧
    (rc = -1 ∨
     rc = Z.of_nat (length msgs) ∧ ∃ e0 mem1 w e1, e = e0 ++ w ++ e1 ∧ bus_free w ∧
       reads_into msgs (ic_mem st) mem1 ∧ exchanges mode false msgs mem1 e1 (ic_mem st'))) st.
Proof.
  intros Hne Hok. apply wp_here. apply (wp_transfer (λ _, True)); [done|done|done| |..].
  - intros mem' msg p l _ _ _ _ _. by apply Forall_true.
  - intros e0 mem1 w e1 mem' a b c _ Hin1 Hw Hex Hin. eexists. split; [done|]. split; [done|]. right. split; [done|].
    by exists e0, mem1, w, e1.
  - intros e' mem' a b c _ Hin. eexists. split; [done|]. split; [done|]. by left.
Qed.

End driver.

(** ** Initialisation *)

(** The accesses of [i2c_init]. *)
Definition init_accesses (p : bus) (mode : i2c_mode_s) (v s : Z) : list i2c_event :=
  [PadR GPIO_CTRL_I2C v; PadW GPIO_CTRL_I2C (u8 (Z.land v (Z.lnot (bus_pins p))));
   PadW GPIO_PAD_EN_I2C (u8 (bus_pull_en p)); PadW GPIO_PAD_PU_I2C (u8 (bus_pull_up p));
   RegW IICCR 0; RegW IICDIV 12; RegW IICISR 7; RegW IICIMR 7; RegW IICCR 1; RegR IICSR s; RegW IICISR 7] ++
  match mode with
  | I2C_STANDARD_MODE => [RegW IICTR 0x8064]
  | I2C_FAST_MODE => [RegW IICTR 0x8019]
  | I2C_HS_MODE => []
  end.

(** The clock of the device is on, with the best divisor for 20 MHz, or at a divisor
    that was there when all of them are too fast. *)
Definition clocked (dev : dev_id) (clk : clkst) : Prop :=
  let tmp := ck_reg clk (PMC_PLL + 4) in
  let PLL := u32 (pll_mult tmp / pll_div tmp * 1000000) in
  clk_on dev (ck_reg clk) = true ∧
  ((∃ D, vd_dom 1 D ∧ PLL / D ≤ 20000000 ∧ (∀ D', vd_dom 1 D' → PLL / D' ≤ 20000000 → PLL / D' ≤ PLL / D) ∧
      ck_reg clk (calc_pll_num dev).2 = div_value dev false D) ∨
   (∀ D', vd_dom 1 D' → 20000000 < PLL / D')).

(** [i2c_init] over the clock driver: the controller's clock is on, with the
    divisor that is best for 20 MHz or the old one when every divisor is too fast;
    the driver is bound to the controller's registers in the mode chosen; the pads
    are given to the controller, and it is enabled last, with its interrupts
    cleared. *)
Theorem i2c_init_ready {hw : I2cHw} `{ClkLive n} p a st :
  p = i2c0 ∨ p = i2c1 → clk_rel a (ic_clk st) → clocks_ok a →
  Z.of_nat (count_of a (bus_dev p)) < 2147483647 →
  wp (i2c_init n p) (λ _ st',
    ic_i2c st' = I2cS (Some (bus_base p)) (bus_irq p) (ic_xfer_mode st) 0 0 0 ∧
    (∃ v s, ic_hist st' = ic_hist st ++ init_accesses p (ic_xfer_mode st) v s) ∧
    ic_mem st' = ic_mem st ∧ clocked (bus_dev p) (ic_clk st')) st.
Proof.
  intros Hp Hrel Hok Hcount. set (offs := (calc_pll_num (bus_dev p)).2).
  assert (calc_pll_num (bus_dev p) = (1, offs) ∧ (dev_num (bus_dev p) <? 128) = true ∧ is_sdmmc (bus_dev p) = false) as (Hpll & Hdev & Hsd).
  { destruct Hp as [-> | ->]; done. }
  destruct (enable_rel a (ic_clk st) (bus_dev p) Hrel Hok Hcount) as (clk1 & Hen & Hrel1).
  assert (clk_on (bus_dev p) (ck_reg clk1) = true) as Hon.
  { rw (cr_on _ _ Hrel1) /on_of /spec_enable. specialize (Hok (bus_dev p)). rw /count_of /on_of in Hok.
    destruct (a (bus_dev p)) as [c on]. rw /set_clock decide_True //=. destruct c; [done|]. simpl in Hok. rw Hok //. lia. }
  destruct (set_divisor_run (bus_dev p) 1 offs 2 1000000 20 clk1 Hpll ltac:(lia) eq_refl ltac:(lia) Hon)
    as (r & clk2 & Hdiv & Hpll2 & Hon2 & Hres). rw Hsd /= in Hres.
  rw /i2c_init. wp_step. apply wp_zoom. eapply wp_of_run; [rw /auto_pll_divisor Hdev; exact Hen|].
  wp_step. apply wp_zoom. eapply wp_of_run; [exact Hdiv|].
  assert (clocked (bus_dev p) clk2) as Hclk.
  { rw /clocked Hpll2. split; [done|]. setoid_rewrite Z.mul_1_r in Hres.
    destruct Hres as [(D & HD & _ & Hle & Hbest & Hreg)|(_ & Hfast & _)]; [left|by right]. by exists D. }
  destruct st as [h mem [r0 i0 m0 a0 b0 c0] xm clk].
  destruct xm; rw /wp; cbn -[u8 u16 Z.land Z.lor clocked]; rw -!app_assoc;
    (split; [done|]); (split; [by eexists _, _|]); by split.
Qed.

(** ** Witnesses: a controller whose slave acknowledges and answers 0x42 *)

#[local] Instance demo_i2c : I2cHw :=
  {| reg_read _ r := match r with IICDR => 0x4200 | IICCR => 1 | _ => 2 end; pad_read _ _ := 0xFF;
     calloc_ok _ _ := true; stack_byte _ := 0xEE |}.

Definition demo_clk : clkst := ClkSt 0 (λ o, if o =? 0x204 then 0x02270001 else 0) [] (replicate 128 0).
Definition demo_i2c_st : i2cst :=
  I2cSt [] [[0x11; 0x22]] (I2cS (Some (bus_base i2c0)) 19 I2C_STANDARD_MODE 0 0 0) I2C_STANDARD_MODE demo_clk.

Lemma demo_i2c_mem : Forall (Forall is_byte) (ic_mem demo_i2c_st).
Proof. repeat constructor; rw /is_byte; lia. Qed.

Lemma i2c_write_sends_witness :
  wp (i2c_write 0x50 0x0102 2 (Some 0%nat) 2) (λ rc st', ∃ e buf,
    ic_hist st' = [] ++ e ∧ ic_mem st' = ic_mem demo_i2c_st ++ [buf] ∧
    (rc = 0 ∧ transferred (writes_msg I2C_STANDARD_MODE 0x50 (be_bytes 0x0102 2 ++ take 2 [0x11; 0x22]) false true) e ∨
     rc = -1)) demo_i2c_st.
Proof.
  apply (i2c_write_sends demo_i2c_st (bus_base i2c0) eq_refl demo_i2c_mem 0x50 0x0102 2 0%nat [0x11; 0x22] 2);
    [reflexivity|lia|simpl; lia|lia|reflexivity].
Defined.

Lemma i2c_read_index_zero_witness :
  wp (i2c_read 0x50 0x07 1 (Some 0%nat) 2) (λ rc st', ∃ e1 e2,
    ic_hist st' = [] ++ e1 ++ e2 ∧ data_in (λ v, v = 0) (e1 ++ e2) ∧ length (ic_mem st') = 2%nat ∧
    (∀ p, p ≠ 0%nat → (p < 1)%nat → ic_mem st' !! p = ic_mem demo_i2c_st !! p) ∧
    (rc = 0 ∧ (∃ ds l, length ds = 2%nat ∧ transferred (reads_msg I2C_STANDARD_MODE 0x50 ds false) e2 ∧
       length l = 2%nat ∧ ic_mem st' !! 0%nat = Some (ds ++ drop (length ds) l)) ∨ rc = -1)) demo_i2c_st.
Proof.
  apply (i2c_read_index_zero demo_i2c_st (bus_base i2c0) eq_refl demo_i2c_mem 0x50 0x07 1 0%nat [0x11; 0x22] 2);
    [reflexivity|lia|lia|simpl; lia|reflexivity].
Defined.

Definition demo_msgs : list i2c_msg_s := [I2cMsg 0x50 I2C_M_WR 1 (Some 0%nat); I2cMsg 0x50 I2C_M_RD 2 (Some 0%nat)].

Lemma i2c_transfer_returns_witness :
  wp (i2c_transfer demo_msgs 2) (λ rc st', ∃ e,
    ic_hist st' = [] ++ e ∧ reads_into demo_msgs (ic_mem demo_i2c_st) (ic_mem st') ∧
    (rc = -1 ∨ rc = 2 ∧ ∃ e0 mem1 w e1, e = e0 ++ w ++ e1 ∧ bus_free w ∧
       reads_into demo_msgs (ic_mem demo_i2c_st) mem1 ∧
       exchanges I2C_STANDARD_MODE false demo_msgs mem1 e1 (ic_mem st'))) demo_i2c_st.
Proof.
  apply (i2c_transfer_returns demo_i2c_st (bus_base i2c0) eq_refl demo_i2c_mem demo_msgs); [discriminate|].
  repeat constructor; exists 0%nat, [0x11; 0x22]; (split; [reflexivity|]); (split; [reflexivity|simpl; lia]).
Defined.

Lemma i2c_init_ready_witness :
  wp (i2c_init (chw := demo_hw) 2 i2c1) (λ _ st',
    ic_i2c st' = I2cS (Some 0xD8320000) 18 I2C_STANDARD_MODE 0 0 0 ∧
    (∃ v s, ic_hist st' = [] ++ init_accesses i2c1 I2C_STANDARD_MODE v s) ∧
    ic_mem st' = ic_mem demo_i2c_st ∧ clocked DEV_I2C1 (ic_clk st')) demo_i2c_st.
Proof.
  apply (i2c_init_ready (H := demo_live) i2c1 (λ dev, (0%nat, clk_on dev (ck_reg demo_clk))) demo_i2c_st);
    [right; reflexivity| |intros dev H; destruct (Nat.nlt_0_r _ H)|reflexivity].
  split; [reflexivity|intros dev; destruct dev; reflexivity|reflexivity].
Defined.

(** The runs themselves: the driver reads the two bytes into the buffer. *)
Example demo_i2c_read :
  match i2c_read 0x50 0x07 1 (Some 0%nat) 2 demo_i2c_st with
  | Ok (rc, st) => rc = 0 ∧ ic_mem st !! 0%nat = Some [0x42; 0x42]
  | Err _ => False
  end.
Proof. by vm_compute. Qed.
